(* ===== verification/_CoqProject ===== *)
-Q . S2P
Prelude.v
GoStd.v
Effects.v
Model.v
Store.v
Node.v
MySQL.v
Json.v
JsonText.v
GoTime.v
Wire.v
Format.v
Config.v
Agent.v
AgentSafety.v
AgentClient.v
Stack.v
Alert.v
RoundTrip.v
Migrate.v
Pki.v
Etcd.v
EtcdSafety.v
StoreEquivalence.v
Controller.v
Sim.v
Api.v
SwitchSafety.v
SplitBrain.v
Replication.v
Aftermath.v
ApiSafety.v
Discipline.v
Failover.v
Liveness.v
Leadership.v
Main.v
Shutdown.v
