(* ===== verification/Prelude.v ===== *)
(** * Verification of the MySQL HA controller, its agents and its state store

    ** The program

    Controllers ([internal/ha]) elect a leader through etcd ([internal/store]).
    The leader probes an agent on every MySQL host ([internal/agent] client),
    keeps failure counts, sends alerts ([internal/alert]) and switches the
    primary, on request ([internal/api]) or by itself.  A switch takes the
    store's switch lock, which registers an authorization; demotes the old
    primary and confirms that it is read-only; waits for the target to have its
    transactions; promotes the target and confirms that it is writable; persists
    the new primary at the next epoch; and repoints the other nodes.  An agent
    ([internal/agent] server) runs an operation only after verifying its
    authorization in the store, and carries it out with SQL statements
    ([internal/mysql]).  Four commands surround them: the two processes, a
    migration of the stored state, a certificate generator and a receiver of
    alerts ([cmd/]).

    ** How the code is represented

    A function that calls out is a [prog E A] (file Effects): a finite tree of
    calls of a signature [E] with the answers they received, written with the
    notations [x <- p ;; q], [try ... else ... ;;] and [defer].  A Go error is
    the text of its message ([result]).  A [uint64] or [int64] is a [Z] with its
    wrap-around written out.  A map is a [gmap]; the order of a [range] over a
    map is an answer of the environment.  A [context.Context] is the list of its
    derivations (Model), so that what cancels it can be stated.  A pointer to
    a task that several parties hold is a location in a heap.  Programs have
    three readings, related by [adequacy] and [wp_run]: execution against a
    handler ([run]), the traces under arbitrary answers ([behaves]) and
    assertions over a specification of the calls ([wp]).

    ** Files

    - Prelude, GoStd, Effects: shared lemmas and tactics; the parts of the Go
      library the code uses (fmt, strings, strconv, sort, net.ParseIP); programs.
    - Model: [internal/model/model.go] and contexts.
    - Store: the interface [Store] with its contract ([store_contract], class
      [StoreImpl]) and [MemoryStore], with its locks as a step relation.
    - Etcd, EtcdSafety, StoreEquivalence: [EtcdStore], its theorems against a
      specification of an etcd server, alone and among other clients, and its
      equivalence with [MemoryStore] on the operations the two share.
    - Config: [internal/config/config.go].
    - Node: the interface [Node] with what a controller relies on
      ([node_post], class [NodesImpl]).
    - MySQL: [internal/mysql/client.go], a specification of the read-only flags
      of a server, and a lexer of its string literals.
    - Json, JsonText, GoTime, Wire, Format: what the code relies on of
      encoding/json, as a class with its laws; the text of JSON values, its
      printer and the scanner of the library; RFC 3339 times; encoding and
      decoding of structs; and the types of [model.go] with their struct tags,
      which satisfy the laws.
    - RoundTrip: what one part of the program writes and another reads.
    - Agent, AgentSafety: [internal/agent/server.go] and its theorems.
    - AgentClient, Stack: [internal/agent/client.go]; the composition client,
      transport, agent, MySQL client, server.
    - Controller: [internal/ha/controller.go], all of it.
    - Sim: the fakes of the repository's tests and the no-op managers
      ([internal/fence], [internal/route]) as handlers, to run the controller.
    - SwitchSafety, SplitBrain, Replication, Aftermath, Discipline, Failover,
      Liveness: theorems about the controller.
    - Leadership: the leader election of [EtcdStore] composed with the leader's
      loop and the store's operations.
    - Api, ApiSafety, Alert, Migrate, Pki: [internal/api/server.go];
      [internal/alert/webhook.go] and [cmd/alert-receiver]; [cmd/state-migrate];
      [cmd/pki-gen].
    - Main, Shutdown: [cmd/controller] and [cmd/mysql-agent], from the start to
      the listening call as programs, from there to the end of the process as a
      step relation over its goroutines.

    ** What the theorems show

    - The protocol of a switch (SwitchSafety): in every trace, promotion follows
      a confirmed demotion and a wait for the old primary's transactions, the
      state is persisted only after a verified promotion, replicas follow the
      persisted primary, a dry run changes nothing, and nothing is called
      without leadership.
    - No split brain (SplitBrain): from a cluster in which only the recorded
      primary may accept writes, no two nodes accept writes at any point of a
      switch, whatever fails, with or without effect; the recorded state changes
      at most once, as the switch reports, whichever nodes accept writes.
      Proved against the contracts of Store and Node.  Aftermath covers the one
      case that leaves this starting point: a promotion that was not persisted.
    - No lost transaction (Replication): with clients committing and replicas
      applying transactions all the time, a node that accepts writes has executed
      every transaction committed so far at any point of a switch, and so has a
      newly recorded primary.  What a GTID set denotes is a parameter.
    - Failover happens (Liveness): while etcd and the agents answer, a failing
      primary is replaced within the threshold of probes.
    - The contracts hold of the implementations: [MemoryStore] (Store),
      [EtcdStore] (EtcdSafety) and the chain of agent and MySQL client (Stack)
      are proved to satisfy what SplitBrain assumes.
    - Locks and the mutex (Discipline, Store), leadership (EtcdSafety,
      Leadership), automatic failover, target choice, alerts and the leader's
      loop (Failover).
    - The wire format (Format, RoundTrip): every value one part of the program
      writes for another (requests and answers between controller and agent,
      stored state, alerts) is read back from its JSON text, and from no part of
      it.
    - The agent: authorization, refusals, the gate of a promotion, and
      termination of the replica handler (AgentSafety); truth of a status,
      effect of role changes, absence of SQL injection (MySQL).
    - The surroundings: what a request to the API can change, and what a
      follower may do; delivery of alerts, and that the receiver's goroutines,
      interleaved call by call around its mutex, record each once; exactness of
      a migration, confinement and completeness of the certificate generator,
      sanity of a configuration, and that no process serves before it is ready,
      the agent with the key pair it loaded.

    Five theorems show behaviours the code does not intend:
    [failed_report_disables_failover], [release_withdraws_any_operation],
    [switch_undoes_flag_change], [unpersisted_promotion_splits_brain] and
    [shutdown_abandons_requests].

    ** Fuel

    Three loops have no bound of their own and take fuel, with [None] for a run
    that is not over: the leader's loop, the leader election and the polling
    loop of the replica handler.  [leader_steps_down],
    [leader_election_discipline] and [replica_handler_answers] show that
    fuel above the number of rounds the environment grants suffices, and
    [automatic_failover_happens] and [leader_work_is_confined] assume no more
    than such fuel.

    ** Not modelled

    The TLS handshake (its configuration on both sides is), HTTP framing and the
    net/http server; cryptography and PEM; the Prometheus registry;
    time.ParseDuration, which is an argument; the texts of the errors of
    encoding/json; log lines; the time limits of the HTTP servers.  The server specifications (etcd, MySQL) state
    documented behaviour of these systems.

    ** Next

    The GTID sets of the agents' calls down to the statements sent to MySQL;
    several controllers and an agent interleaved on one etcd. *)
From Stdlib Require Import Ascii DecimalString DecimalPos DecimalZ.
From stdpp Require Export base strings list gmap sorting.
From Stdlib Require Export ZArith Lia.

#[global] Open Scope Z_scope.
#[global] Open Scope stdpp_scope.

(** ** Go error results

    A Go function returning [(T, error)] returns a [result T] here; an error
    is represented by the text [err.Error()] would give. *)
Inductive result (A : Type) : Type :=
| Ok (a : A)
| Err (e : string).
Arguments Ok {A} a.
Arguments Err {A} e.

Definition is_ok {A} (r : result A) : bool :=
  match r with Ok _ => true | Err _ => false end.

(** [fmt.Errorf("<prefix>: %w", err)] *)
Definition wrap_err (prefix : string) (e : string) : string := prefix +:+ ": " +:+ e.

(** ** Machine integers *)

Definition two64 : Z := 18446744073709551616.
Definition two63 : Z := 9223372036854775808.
(** [uint64] arithmetic is modulo 2^64; [int] and [int64] are the two's
    complement 64-bit integers. *)
Definition uint64 (z : Z) : Z := z mod two64.
Definition int64 (z : Z) : Z := (z + two63) mod two64 - two63.

Definition is_uint64 (z : Z) : bool := (0 <=? z) && (z <? two64).
Definition is_int64 (z : Z) : bool := (- two63 <=? z) && (z <? two63).

(** [fmt.Sprintf("%d", z)] *)
Definition fmt_d (z : Z) : string := NilZero.string_of_int (Z.to_int z).

(** ** Tactics *)

Create HintDb ha.
Create Rewrite HintDb ha_bool.

#[export] Hint Rewrite andb_true_iff andb_false_iff orb_true_iff orb_false_iff
  negb_true_iff negb_false_iff Z.eqb_eq Z.eqb_neq Z.leb_le Z.leb_gt Z.ltb_lt
  Z.ltb_ge bool_decide_eq_true bool_decide_eq_false : ha_bool.

(** Turn boolean tests of the code in the context into propositions. *)
Ltac propify := autorewrite with ha_bool in *.

(** Case analysis on the scrutinee of some [match] or [if]. *)
Ltac case_on_match :=
  match goal with
  | |- context [match ?x with _ => _ end] => destruct x eqn:?
  end.

Ltac case_on_match_in H :=
  match type of H with
  | context [match ?x with _ => _ end] => destruct x eqn:?
  end.

(** Break a hypothesis that equates the outcome of branching code with a
    given result into its surviving branches. *)
Ltac branches H := repeat (case_on_match_in H; try (progress simplify_eq/=)).

(** ** Lemmas on results and integers *)

Lemma is_ok_true {A} (r : result A) : is_ok r = true <-> exists a, r = Ok a.
Proof. destruct r; naive_solver. Qed.

Lemma is_ok_false {A} (r : result A) : is_ok r = false <-> exists e, r = Err e.
Proof. destruct r; naive_solver. Qed.

Lemma uint64_bounds z : 0 <= uint64 z < two64.
Proof. apply Z.mod_pos_bound. done. Qed.

Lemma uint64_small z : 0 <= z < two64 -> uint64 z = z.
Proof. apply Z.mod_small. Qed.

Lemma int64_small z : - two63 <= z < two63 -> int64 z = z.
Proof.
  intros H. unfold int64. rewrite Z.mod_small; [lia|].
  unfold two63, two64 in *. lia.
Qed.

Lemma int64_bounds z : - two63 <= int64 z < two63.
Proof.
  unfold int64. pose proof (Z.mod_pos_bound (z + two63) two64 eq_refl).
  unfold two63, two64 in *. lia.
Qed.

(** Incrementing a 64-bit epoch always changes it, wrap-around included. *)
Lemma uint64_succ_ne z : 0 <= z < two64 -> uint64 (z + 1) <> z.
Proof.
  intros Hz. unfold uint64.
  destruct (decide (z + 1 = two64)) as [Heq|Hne]; [rewrite Heq|].
  - rewrite Z.mod_same by done. unfold two64 in *; lia.
  - rewrite Z.mod_small; lia.
Qed.

Lemma uint64_succ_pred z : 0 <= z < two64 -> uint64 (uint64 (z + 1) - 1) = z.
Proof.
  intros Hz. unfold uint64. rewrite Zminus_mod_idemp_l, Z.add_simpl_r. by apply Z.mod_small.
Qed.

Lemma fmt_d_inj z1 z2 : fmt_d z1 = fmt_d z2 -> z1 = z2.
Proof.
  assert (forall z, NilZero.int_of_string (fmt_d z) = Some (Z.to_int z)) as Hdec.
  { intros z. apply NilZero.isi; destruct z as [|p|p]; simpl; try done;
      intros [= Hnil]; by apply (DecimalPos.Unsigned.to_uint_nonnil p). }
  intros Heq%(f_equal NilZero.int_of_string). rewrite !Hdec in Heq.
  by apply DecimalZ.to_int_inj; simplify_eq.
Qed.

(** ** Lemmas on lists *)
Lemma list_filter_all {A} (P : A -> Prop) `{!forall x, Decision (P x)} (l : list A) :
  (forall x, x ∈ l -> P x) -> filter P l = l.
Proof.
  induction l as [|x l IH]; intros Hall; [done|].
  rewrite filter_cons_True by (apply Hall; by left). f_equal. apply IH. set_solver.
Qed.

Lemma list_filter_none {A} (P : A -> Prop) `{!forall x, Decision (P x)} (l : list A) :
  (forall x, x ∈ l -> ~ P x) -> filter P l = [].
Proof.
  induction l as [|x l IH]; intros Hnone; [done|].
  rewrite filter_cons_False by (apply Hnone; by left). apply IH. set_solver.
Qed.
