(* ===== verification/GoStd.v ===== *)
(** * The parts of Go's standard library the program uses

    [sort.Slice] and [sort.Strings] (insertion sort, which is what the library
    runs on slices this short; as map iteration supplies its input in any
    order, every outcome an unstable sort may give is an outcome here); the
    functions of [strings], [strconv] and [net] that are called.  A Go string is a
    sequence of bytes, as a Rocq [string] is. *)
From Stdlib Require Import Ascii DecimalString DecimalPos DecimalZ.
From S2P Require Import Prelude.

(** ** Sorting *)
Section sort.
Context {A : Type} (less : A -> A -> bool).

(** One round of insertion sort on the reversed sorted prefix: swap [x] left
    while it is less than its neighbour. *)
Fixpoint sift (x : A) (rprefix : list A) : list A :=
  match rprefix with
  | [] => [x]
  | y :: r => if less x y then y :: sift x r else x :: rprefix
  end.

Definition sort_slice (l : list A) : list A :=
  reverse (foldl (fun acc x => sift x acc) [] l).

(** The order the sort establishes: no later element is less than an earlier. *)
Definition not_after (a b : A) : Prop := less b a = false.

Lemma sift_perm x l : sift x l ≡ₚ x :: l.
Proof.
  induction l as [|y l IH]; simpl; [done|]. destruct (less x y); [|done].
  rewrite IH. apply Permutation_swap.
Qed.

Lemma sort_slice_perm l : sort_slice l ≡ₚ l.
Proof.
  unfold sort_slice. rewrite reverse_Permutation.
  cut (forall acc, foldl (fun acc x => sift x acc) acc l ≡ₚ l ++ acc).
  { intros Hcut. by rewrite Hcut, app_nil_r. }
  induction l as [|x l IH]; intros acc; simpl; [done|].
  rewrite IH, sift_perm. by rewrite Permutation_middle.
Qed.

(** [less] is a strict weak order, as [sort.Slice] requires. *)
Class StrictWeak : Prop := {
  less_asym : forall a b, less a b = true -> less b a = false;
  not_after_trans : forall a b c, not_after a b -> not_after b c -> not_after a c
}.

Context `{!StrictWeak}.

Lemma sift_sorted x l :
  StronglySorted (fun a b => not_after b a) l ->
  StronglySorted (fun a b => not_after b a) (sift x l).
Proof.
  induction 1 as [|y l Hs IH Hy]; simpl; [by repeat constructor|].
  destruct (less x y) eqn:Hxy.
  - constructor; [done|]. rewrite sift_perm. apply Forall_cons. split; [by apply less_asym|done].
  - constructor; [by constructor|]. constructor; [done|].
    eapply Forall_impl; [exact Hy|]. intros z Hz. eapply not_after_trans; [exact Hz|done].
Qed.

Lemma sort_slice_sorted l : StronglySorted not_after (sort_slice l).
Proof.
  cut (forall acc, StronglySorted (fun a b => not_after b a) acc ->
    StronglySorted (fun a b => not_after b a) (foldl (fun acc x => sift x acc) acc l)).
  { intros Hcut. specialize (Hcut [] ltac:(constructor)). unfold sort_slice.
    induction Hcut as [|x r Hr IH Hx]; [constructor|].
    rewrite reverse_cons. apply StronglySorted_app_2; [|done|by repeat constructor].
    intros y z Hy ->%list_elem_of_singleton.
    rewrite elem_of_reverse in Hy. rewrite Forall_forall in Hx. auto. }
  induction l as [|x l IH]; intros acc Hacc; simpl; [done|]. by apply IH, sift_sorted.
Qed.

(** The first element of the sorted slice is least. *)
Lemma sort_slice_head l x :
  head (sort_slice l) = Some x -> x ∈ l /\ forall y, y ∈ l -> not_after x y.
Proof.
  intros Hhd. pose proof (sort_slice_sorted l) as Hs. pose proof (sort_slice_perm l) as Hp.
  destruct (sort_slice l) as [|z r]; [done|]. simplify_eq/=. inversion_clear Hs as [|?? _ Hall].
  split; [rewrite <-Hp; by left|]. intros y. rewrite <-Hp, elem_of_cons.
  intros [->|Hy]; [|by apply (proj1 (Forall_forall _ _) Hall)].
  unfold not_after. destruct (less x x) eqn:Hxx; [|done]. by rewrite (less_asym _ _ Hxx) in Hxx.
Qed.

Lemma sort_slice_nil l : sort_slice l = [] <-> l = [].
Proof.
  split; [|by intros ->]. intros Hn. pose proof (sort_slice_perm l) as Hp.
  rewrite Hn in Hp. by apply Permutation_nil.
Qed.

(** When [less] separates distinct elements, the outcome does not depend on
    the order the elements arrive in. *)
Lemma sort_slice_unique l1 l2 :
  (forall a b, not_after a b -> not_after b a -> a = b) ->
  l1 ≡ₚ l2 -> sort_slice l1 = sort_slice l2.
Proof.
  intros Hanti Hp. assert (AntiSymm (=) not_after) by (intros ???; auto).
  eapply (StronglySorted_unique not_after);
    [apply sort_slice_sorted..|by rewrite !sort_slice_perm].
Qed.
End sort.

(** ** Strings *)

(** Go's [<] on strings is bytewise lexicographic, as [String.compare] is. *)
Definition string_lt (a b : string) : bool := negb (String.leb b a).

(** [sort.Strings] *)
Definition sort_Strings (l : list string) : list string := sort_slice string_lt l.

Lemma string_lt_not_after a b : not_after string_lt a b <-> (a ≤ b)%string.
Proof.
  unfold not_after, string_lt, String.le. rewrite negb_false_iff. by destruct (String.leb a b).
Qed.

#[export] Instance string_lt_strict : StrictWeak string_lt.
Proof.
  split.
  - intros a b Hab. apply string_lt_not_after.
    destruct (total String.le a b) as [?|Hba]; [done|].
    unfold string_lt, String.le in *. by destruct (String.leb b a).
  - intros a b c. rewrite !string_lt_not_after. apply transitivity.
Qed.

Lemma string_lt_anti a b : not_after string_lt a b -> not_after string_lt b a -> a = b.
Proof. rewrite !string_lt_not_after. apply (anti_symm String.le). Qed.

(** *** [strings] *)

(** [strings.Split] with a separator of one byte. *)
Fixpoint Split (sep : ascii) (s : string) : list string :=
  match s with
  | EmptyString => [EmptyString]
  | String c r =>
      if bool_decide (c = sep) then EmptyString :: Split sep r
      else match Split sep r with
           | part :: parts => String c part :: parts
           | [] => [String c EmptyString]
           end
  end.

(** [strings.ReplaceAll] of one byte. *)
Fixpoint ReplaceAll (old : ascii) (new s : string) : string :=
  match s with
  | EmptyString => EmptyString
  | String c r =>
      if bool_decide (c = old) then new +:+ ReplaceAll old new r
      else String c (ReplaceAll old new r)
  end.

Definition HasPrefix (s pre : string) : bool := String.prefix pre s.

Fixpoint Contains (s sub : string) : bool :=
  String.prefix sub s || match s with String _ r => Contains r sub | EmptyString => false end.

Definition byte_in (lo hi : nat) (c : ascii) : bool :=
  (lo <=? nat_of_ascii c)%nat && (nat_of_ascii c <=? hi)%nat.

(** The UTF-8 encodings of the characters [unicode.IsSpace] accepts. *)
Definition space_encodings : list (list nat) :=
  [[9]; [10]; [11]; [12]; [13]; [32];
   [194; 133]; [194; 160]; [225; 154; 128];
   [226; 128; 128]; [226; 128; 129]; [226; 128; 130]; [226; 128; 131]; [226; 128; 132];
   [226; 128; 133]; [226; 128; 134]; [226; 128; 135]; [226; 128; 136]; [226; 128; 137];
   [226; 128; 138]; [226; 128; 168]; [226; 128; 169]; [226; 128; 175]; [226; 129; 159];
   [227; 128; 128]]%nat.

(** What remains of [l] after its first [enc]. *)
Fixpoint after_prefix (enc : list nat) (l : list ascii) : option (list ascii) :=
  match enc, l with
  | [], _ => Some l
  | n :: enc, c :: l => if (nat_of_ascii c =? n)%nat then after_prefix enc l else None
  | _, [] => None
  end.

(** Drop encodings from the front as long as there are any. *)
Fixpoint strip (encs : list (list nat)) (fuel : nat) (l : list ascii) : list ascii :=
  match fuel with
  | O => l
  | S fuel =>
      match omap (fun enc => after_prefix enc l) encs with
      | rest :: _ => strip encs fuel rest
      | [] => l
      end
  end.

Definition trim_front (encs : list (list nat)) (l : list ascii) : list ascii :=
  strip encs (length l) l.

Definition TrimSpace (s : string) : string :=
  let l := trim_front space_encodings (String.list_ascii_of_string s) in
  String.string_of_list_ascii
    (reverse (trim_front ((reverse (A := nat)) <$> space_encodings) (reverse l))).

(** [strings.TrimRight(s, "/")] and the like, for one byte. *)
Definition TrimRight (s : string) (cut : ascii) : string :=
  String.string_of_list_ascii
    (reverse (trim_front [[nat_of_ascii cut]] (reverse (String.list_ascii_of_string s)))).

(** [strings.ToLower].  Outside ASCII only the two characters whose lower case
    is in ASCII (U+0130 and U+212A) are changed: the case of the others is
    irrelevant to the searches for ASCII text the program makes. *)
Fixpoint ToLower (s : string) : string :=
  match s with
  | EmptyString => EmptyString
  | String a r =>
      match r with
      | String b r' =>
          if (nat_of_ascii a =? 196)%nat && (nat_of_ascii b =? 176)%nat then
            String "i" (ToLower r')
          else match r' with
            | String c r'' =>
                if (nat_of_ascii a =? 226)%nat && (nat_of_ascii b =? 132)%nat
                   && (nat_of_ascii c =? 170)%nat then String "k" (ToLower r'')
                else String (if byte_in 65 90 a then ascii_of_nat (nat_of_ascii a + 32) else a)
                       (ToLower r)
            | EmptyString =>
                String (if byte_in 65 90 a then ascii_of_nat (nat_of_ascii a + 32) else a)
                  (ToLower r)
            end
      | EmptyString =>
          String (if byte_in 65 90 a then ascii_of_nat (nat_of_ascii a + 32) else a) EmptyString
      end
  end.

(** *** [strconv] *)

Definition digit_of (c : ascii) : option Z :=
  if byte_in 48 57 c then Some (Z.of_nat (nat_of_ascii c) - 48) else None.

Fixpoint parse_digits (acc : Z) (s : string) : option Z :=
  match s with
  | EmptyString => Some acc
  | String c r => match digit_of c with
                  | Some d => parse_digits (10 * acc + d) r
                  | None => None
                  end
  end.

(** The digits of [ParseUint], of which there must be one. *)
Definition parse_unsigned (s : string) : option Z :=
  match s with EmptyString => None | _ => parse_digits 0 s end.

(** [strconv.ParseInt(s, 10, 64)]; [None] stands for either error.  On the
    64-bit platforms the program runs on [strconv.Atoi] is the same. *)
Definition ParseInt (s : string) : option Z :=
  let '(neg, digits) := match s with
    | String "+" r => (false, r)
    | String "-" r => (true, r)
    | _ => (false, s)
    end in
  match parse_unsigned digits with
  | Some n =>
      if neg then if n <=? two63 then Some (- n) else None
      else if n <? two63 then Some n else None
  | None => None
  end.
Definition Atoi : string -> option Z := ParseInt.

Definition ParseBool (s : string) : option bool :=
  if bool_decide (s ∈ ["1"; "t"; "T"; "true"; "TRUE"; "True"]) then Some true
  else if bool_decide (s ∈ ["0"; "f"; "F"; "false"; "FALSE"; "False"]) then Some false
  else None.

(** *** Lemmas on strings *)

(** [c] does not occur in [s]. *)
Fixpoint lacks (c : ascii) (s : string) : bool :=
  match s with
  | EmptyString => true
  | String d r => negb (bool_decide (d = c)) && lacks c r
  end.

Fixpoint all_bytes (P : ascii -> bool) (s : string) : bool :=
  match s with EmptyString => true | String c r => P c && all_bytes P r end.

(** ** [net.ParseIP]

    Whether a text is an IP address, after [netip.ParseAddr] without zones. *)

(** The fields of an IPv4 address: [digits] digits of the current one were read,
    their value is [val], and [pos] fields are complete. *)
Fixpoint v4_fields (digits : nat) (val : Z) (pos : nat) (s : string) : bool :=
  match s with
  | EmptyString => (pos =? 3)%nat
  | String c r =>
      match digit_of c with
      | Some d =>
          if (digits =? 1)%nat && (val =? 0) then false          (* leading zero *)
          else let val := val * 10 + d in
          if 255 <? val then false else v4_fields (S digits) val pos r
      | None =>
          if negb (Ascii.eqb c ".") then false
          else if (digits =? 0)%nat || bool_decide (r = "") then false
          else if (pos =? 3)%nat then false
          else v4_fields 0 0 (S pos) r
      end
  end.
Definition parse_v4 (s : string) : bool := v4_fields 0 0 0 s.

Definition hex_char (c : ascii) : bool := byte_in 48 57 c || byte_in 97 102 c || byte_in 65 70 c.

(** The hexadecimal digits in front of a text, counted, and the rest. *)
Fixpoint span_hex (s : string) : nat * string :=
  match s with
  | String c r => if hex_char c then let '(n, r) := span_hex r in (S n, r) else (O, s)
  | EmptyString => (O, "")
  end.

(** All the text was used and [n] groups are left: an ellipsis stands for one at
    least. *)
Definition v6_complete (n : nat) (ellipsis : bool) : bool :=
  if (0 <? n)%nat then ellipsis else negb ellipsis.

(** The groups of an IPv6 address, [n] of which are left to read; the last two may
    be an IPv4 address. *)
Fixpoint v6_groups (n : nat) (ellipsis : bool) (s : string) : bool :=
  match n with
  | O => false                                       (* trailing text *)
  | S m =>
      let '(digits, rest) := span_hex s in
      if (digits =? 0)%nat || (4 <? digits)%nat then false
      else match rest with
      | EmptyString => v6_complete m ellipsis
      | String c r =>
          if Ascii.eqb c "." then
            (ellipsis || (n =? 2)%nat) && (2 <=? n)%nat && parse_v4 s && v6_complete (n - 2) ellipsis
          else if negb (Ascii.eqb c ":") then false
          else match r with
          | EmptyString => false
          | String c' r' =>
              if Ascii.eqb c' ":" then
                if ellipsis then false
                else if bool_decide (r' = "") then v6_complete m true
                else v6_groups m true r'
              else v6_groups m ellipsis r
          end
      end
  end.
Definition parse_v6 (s : string) : bool :=
  if HasPrefix s "::" then
    match s with
    | String _ (String _ EmptyString) => true
    | String _ (String _ r) => v6_groups 8 true r
    | _ => false
    end
  else v6_groups 8 false s.

(** The first of the characters that tell the kinds apart decides. *)
Fixpoint addr_kind (s : string) : option bool :=
  match s with
  | EmptyString => None
  | String c r =>
      if Ascii.eqb c "." then Some true
      else if Ascii.eqb c ":" then Some false
      else if Ascii.eqb c "%" then None
      else addr_kind r
  end.
Definition ParseIP (s : string) : bool :=
  match addr_kind s with
  | Some true => parse_v4 s
  | Some false => parse_v6 s
  | None => false
  end.

Example parse_ip_samples :
  map ParseIP ["10.0.0.1"; "::1"; "fe80::1:2"; "::ffff:10.0.0.1"; "1:2:3:4:5:6:7:8"; "::"] =
    [true; true; true; true; true; true] /\
  map ParseIP ["10.0.0"; "10.0.0.01"; "10.0.0.256"; ".1.2.3"; "1:2:3:4:5:6:7"; "1::2::3"; "fe80::1%eth0";
      "1:2:3:4:5:6:7:8:9"; "12345::"; ":1"; "db-1"] =
    [false; false; false; false; false; false; false; false; false; false; false].
Proof. split; reflexivity. Qed.

Lemma string_app_assoc (a b c : string) : (a +:+ b) +:+ c = a +:+ b +:+ c.
Proof. induction a as [|x a IH]; [done|]. by apply (f_equal (String x)). Qed.

Lemma string_app_nil (a : string) : a +:+ "" = a.
Proof. induction a as [|x a IH]; [done|]. by apply (f_equal (String x)). Qed.

Lemma HasPrefix_spec s pre : HasPrefix s pre = true <-> exists r, s = pre +:+ r.
Proof.
  unfold HasPrefix. revert s. induction pre as [|c pre IH]; intros s; simpl.
  - split; [|by destruct s]. intros _. by exists s.
  - destruct s as [|d s]; simpl.
    + split; [done|]. by intros [r Hr].
    + case_match; subst.
      * rewrite IH. split; intros [r Hr]; exists r; [by rewrite Hr|]. by injection Hr.
      * split; [done|]. intros [r Hr]. injection Hr. intros _ ?. congruence.
Qed.

Lemma Split_nonempty sep s : Split sep s <> [].
Proof. destruct s; simpl; repeat case_match; done. Qed.

Lemma Split_lacks sep s : lacks sep s = true -> Split sep s = [s].
Proof.
  induction s as [|c s IH]; simpl; [done|]. case_bool_decide; simpl; [done|].
  intros Hs. by rewrite IH.
Qed.

Lemma Split_app sep a s :
  lacks sep a = true -> Split sep (a +:+ String sep s) = a :: Split sep s.
Proof.
  induction a as [|c a IH]; simpl.
  - intros _. by rewrite bool_decide_true.
  - case_bool_decide; simpl; [done|]. intros Ha. by rewrite IH.
Qed.

Lemma Split_parts sep s : Forall (fun part => lacks sep part = true) (Split sep s).
Proof.
  induction s as [|c s IH]; simpl; [by repeat constructor|].
  case_bool_decide; [by constructor|]. destruct (Split sep s) as [|part parts] eqn:HS;
    [by destruct (Split_nonempty sep s)|].
  apply Forall_cons in IH as [Hp IH]. constructor; simpl; [|done].
  rewrite Hp. by rewrite bool_decide_false.
Qed.

Section strip.
Context (encs : list (list nat)).

Definition starts (l : list ascii) : Prop :=
  exists enc, enc ∈ encs /\ is_Some (after_prefix enc l).

Lemma omap_starts l : omap (fun enc => after_prefix enc l) encs = [] <-> ~ starts l.
Proof.
  split.
  - intros Hnil (enc & Hin & r & Hr). apply (not_elem_of_nil r). rewrite <-Hnil.
    apply list_elem_of_omap. eauto.
  - intros Hno. destruct (omap _ _) as [|r rs] eqn:Hr; [done|]. destruct Hno.
    assert (r ∈ omap (fun enc => after_prefix enc l) encs) as Hin by (rewrite Hr; by left).
    apply list_elem_of_omap in Hin as (enc & ? & ?). exists enc. eauto.
Qed.

Lemma after_prefix_length enc l r :
  after_prefix enc l = Some r -> (length l = length enc + length r)%nat.
Proof.
  revert l. induction enc as [|n enc IH]; intros [|c l]; simpl; try naive_solver.
  case_match; [|done]. intros ?%IH. lia.
Qed.

Lemma after_prefix_app enc l r k :
  after_prefix enc l = Some r -> after_prefix enc (l ++ k) = Some (r ++ k).
Proof.
  revert l. induction enc as [|n enc IH]; intros [|c l]; simpl; try naive_solver.
  case_match; [|done]. apply IH.
Qed.

Context (Hne : Forall (fun enc => enc <> []) encs).

Lemma strip_stops fuel l : (length l <= fuel)%nat -> ~ starts (strip encs fuel l).
Proof using Hne.
  revert l. induction fuel as [|fuel IH]; intros l Hl; simpl.
  - intros (enc & Hin & r & Hr). destruct l; [|simpl in Hl; lia].
    rewrite Forall_forall in Hne. specialize (Hne enc Hin). by destruct enc.
  - destruct (omap _ _) as [|r rs] eqn:Hr; [by apply omap_starts|]. apply IH.
    assert (r ∈ omap (fun enc => after_prefix enc l) encs) as Hin by (rewrite Hr; by left).
    apply list_elem_of_omap in Hin as (enc & Hin & Henc%after_prefix_length).
    rewrite Forall_forall in Hne. specialize (Hne enc Hin). destruct enc; simpl in *; [done|lia].
Qed.

Lemma strip_id fuel l : ~ starts l -> strip encs fuel l = l.
Proof using. destruct fuel; simpl; [done|]. by intros ->%omap_starts. Qed.

Lemma trim_front_stops l : ~ starts (trim_front encs l).
Proof using Hne. by apply strip_stops. Qed.

Lemma strip_suffix fuel l : exists pre, l = pre ++ strip encs fuel l.
Proof using.
  revert l. induction fuel as [|fuel IH]; intros l; simpl; [by exists []|].
  destruct (omap _ _) as [|r rs] eqn:Hr; [by exists []|].
  assert (r ∈ omap (fun enc => after_prefix enc l) encs) as Hin by (rewrite Hr; by left).
  apply list_elem_of_omap in Hin as (enc & _ & Henc). destruct (IH r) as [pre Hpre].
  cut (exists p, l = p ++ r); [intros [p ->]; exists (p ++ pre); by rewrite <-app_assoc, <-Hpre|].
  clear -Henc. revert l Henc. induction enc as [|n enc IH]; intros [|c l]; simpl;
    try (intros; simplify_eq; by exists []). case_match; [|done].
  intros [p ->]%IH. by exists (c :: p).
Qed.
End strip.

(** A string [TrimSpace] leaves alone. *)
Definition trimmed (s : string) : Prop :=
  ~ starts space_encodings (String.list_ascii_of_string s) /\
  ~ starts ((reverse (A := nat)) <$> space_encodings) (reverse (String.list_ascii_of_string s)).

Lemma TrimSpace_id s : trimmed s -> TrimSpace s = s.
Proof.
  intros [Hf Hb]. unfold TrimSpace, trim_front. rewrite (strip_id _ _ _ Hf), (strip_id _ _ _ Hb).
  by rewrite reverse_involutive, String.string_of_list_ascii_of_string.
Qed.

Lemma TrimSpace_trimmed s : trimmed (TrimSpace s).
Proof.
  unfold trimmed, TrimSpace. rewrite String.list_ascii_of_string_of_list_ascii.
  rewrite reverse_involutive. set (l := trim_front space_encodings _). split.
  - intros (enc & Hin & r & Hr).
    destruct (strip_suffix ((reverse (A := nat)) <$> space_encodings) (length (reverse l))
      (reverse l)) as [pre Hpre].
    apply (f_equal reverse) in Hpre. rewrite reverse_involutive, reverse_app in Hpre.
    apply (trim_front_stops space_encodings (ltac:(by repeat constructor))
      (String.list_ascii_of_string s)). fold l. exists enc. split; [done|].
    rewrite Hpre. exists (r ++ reverse pre). by apply after_prefix_app.
  - apply trim_front_stops. by repeat constructor.
Qed.

(** *** Lemmas on numbers *)

Lemma parse_digits_string_of_uint d p :
  parse_digits (Zpos p) (DecimalString.NilEmpty.string_of_uint d) =
  Some (Zpos (Pos.of_uint_acc d p)).
Proof.
  revert p. induction d as [|d IH|d IH|d IH|d IH|d IH|d IH|d IH|d IH|d IH|d IH];
    intros p; [done|..]; cbn -[Z.mul Z.add Pos.mul Pos.add]; rewrite <-IH; f_equal;
    match goal with |- context [Z.of_nat ?n] =>
      let v := eval vm_compute in (Z.of_nat n) in change (Z.of_nat n) with v end; lia.
Qed.

Lemma parse_digits_zero d :
  parse_digits 0 (DecimalString.NilEmpty.string_of_uint d) = Some (Z.of_N (Pos.of_uint d)).
Proof.
  induction d as [|d IH|d _|d _|d _|d _|d _|d _|d _|d _|d _]; [done|exact IH|..];
    apply parse_digits_string_of_uint.
Qed.

Lemma parse_unsigned_pos p :
  parse_unsigned (DecimalString.NilEmpty.string_of_uint (Pos.to_uint p)) = Some (Zpos p).
Proof.
  pose proof (DecimalPos.Unsigned.of_to p) as Hof. pose proof (DecimalPos.Unsigned.to_uint_nonnil p).
  transitivity (parse_digits 0 (DecimalString.NilEmpty.string_of_uint (Pos.to_uint p))).
  - by destruct (Pos.to_uint p).
  - by rewrite parse_digits_zero, Hof.
Qed.

(** Formatting an integer and parsing it back gives the integer. *)
Lemma ParseInt_fmt_d z : is_int64 z = true -> ParseInt (fmt_d z) = Some z.
Proof.
  unfold is_int64. intros Hz. propify.
  destruct z as [|p|p]; [done|..]; unfold ParseInt, fmt_d; simpl.
  - pose proof (parse_unsigned_pos p) as Hp. pose proof (DecimalPos.Unsigned.to_uint_nonnil p).
    destruct (Pos.to_uint p) eqn:Hu; [done|..]; cbn [DecimalString.NilZero.string_of_uint] in *;
      cbn [DecimalString.NilEmpty.string_of_uint] in *; rewrite Hp;
      destruct (Z.ltb_spec (Z.pos p) two63); (done || lia).
  - pose proof (parse_unsigned_pos p) as Hp. pose proof (DecimalPos.Unsigned.to_uint_nonnil p).
    destruct (Pos.to_uint p) eqn:Hu; [done|..]; cbn [DecimalString.NilZero.string_of_uint] in *;
      cbn [DecimalString.NilEmpty.string_of_uint] in *; rewrite Hp;
      destruct (Z.leb_spec (Z.pos p) two63); (done || lia).
Qed.

(** ** The characters of an IP address *)
Definition ip_char (c : ascii) : bool := hex_char c || byte_in 46 46 c || byte_in 58 58 c.

Lemma v4_text digits val pos s : v4_fields digits val pos s = true -> all_bytes ip_char s = true.
Proof.
  revert digits val pos. induction s as [|c s IH]; intros digits val pos; [done|]. cbn [v4_fields all_bytes].
  unfold digit_of. destruct (byte_in 48 57 c) eqn:Hc.
  - do 2 (case_match; [done|]). intros Hs. rewrite (IH _ _ _ Hs). unfold ip_char, hex_char. by rewrite Hc.
  - destruct (Ascii.eqb_spec c ".") as [->|]; [|done]. cbn [negb]. do 2 (case_match; [done|]).
    intros Hs. by rewrite (IH _ _ _ Hs).
Qed.

Lemma span_hex_text s :
  all_bytes ip_char (span_hex s).2 = true -> all_bytes ip_char s = true.
Proof.
  induction s as [|c s IH]; [done|]. cbn [span_hex]. destruct (hex_char c) eqn:Hc; [|done].
  destruct (span_hex s) as [n r]. cbn [snd all_bytes] in *. intros Hr. rewrite IH by done.
  unfold ip_char. by rewrite Hc.
Qed.

Lemma v6_text n ellipsis s : v6_groups n ellipsis s = true -> all_bytes ip_char s = true.
Proof.
  revert ellipsis s. induction n as [|n IH]; intros ellipsis s; [done|]. cbn [v6_groups].
  pose proof (span_hex_text s) as Hs. destruct (span_hex s) as [digits rest]. cbn [snd] in Hs.
  case_match; [done|]. destruct rest as [|c r]; [by intros _; apply Hs|].
  destruct (Ascii.eqb_spec c "."); [intros H4; apply (v4_text 0 0 0); by propify; destruct_and?|].
  destruct (Ascii.eqb_spec c ":") as [->|]; [|done]. cbn [negb]. destruct r as [|c' r]; [done|].
  destruct (Ascii.eqb_spec c' ":") as [->|].
  - destruct ellipsis; [done|]. case_bool_decide; [subst; by intros _; apply Hs|].
    intros Hr%IH. apply Hs. cbn [all_bytes]. by rewrite Hr.
  - intros Hr%IH. apply Hs. cbn [all_bytes] in *. by rewrite Hr.
Qed.

Lemma ParseIP_text s : ParseIP s = true -> all_bytes ip_char s = true.
Proof.
  unfold ParseIP. destruct (addr_kind s) as [[]|]; [apply v4_text| |done]. unfold parse_v6.
  destruct (HasPrefix s "::") eqn:Hp; [|apply v6_text].
  apply HasPrefix_spec in Hp as [r ->]. change ("::" +:+ r) with (String ":" (String ":" r)).
  destruct r as [|c r]; [done|]. intros Hr%v6_text. cbn [all_bytes] in *. by rewrite Hr.
Qed.
