(* ===== verification/Effects.v ===== *)
(** * Programs with effects

    The Go code calls out at every step: to etcd, to agents, to MySQL, to the
    clock, to the shared fields behind a mutex.  A function that does so is a
    [prog E A]: a finite tree of calls of the signature [E], each continuing
    with the answer it received.  This file gives programs their sequencing,
    the equivalence that rewrites under it, and three readings:
    - [run], with a handler that computes each answer from a state;
    - [behaves], the traces of calls and answers a program may produce when
      every answer is chosen by the environment;
    - [wp], an assertion over a call specification ([espec]) with obligations
      at each call ([pre]) and what may be assumed of each answer ([post]).
    [adequacy] and [wp_run] relate the three. *)
From S2P Require Import Prelude.

Declare Scope prog_scope.
Delimit Scope prog_scope with prog.

Inductive prog (E : Type -> Type) (A : Type) : Type :=
| Ret (a : A)
| Vis {X : Type} (e : E X) (k : X -> prog E A).
Arguments Ret {E A} a.
Arguments Vis {E A X} e k.

Fixpoint bind {E A B} (p : prog E A) (f : A -> prog E B) : prog E B :=
  match p with
  | Ret a => f a
  | Vis e k => Vis e (fun x => bind (k x) f)
  end.

Definition call {E X} (e : E X) : prog E X := Vis e Ret.

Notation "x <- p ;; q" := (bind p (fun x => q))
  (at level 100, p at next level, right associativity) : prog_scope.
Notation "p ;;; q" := (bind p (fun _ => q))
  (at level 100, right associativity) : prog_scope.
#[global] Open Scope prog_scope.

(** [x, err := p; if err != nil { return h(err) }; q] *)
Definition try_else {E A B} (p : prog E (result A)) (h : string -> prog E B)
    (q : A -> prog E B) : prog E B :=
  r <- p ;; match r with Ok a => q a | Err e => h e end.
Notation "'try' x <- p 'else' h ;; q" := (try_else p h (fun x => q))
  (at level 100, x name, p at next level, h at next level, right associativity) : prog_scope.

(** [defer d; p]: [d] runs once [p] has computed its return value. *)
Definition defer {E A} (d : prog E unit) (p : prog E A) : prog E A :=
  x <- p ;; d ;;; Ret x.

(** [for _, x := range l { body x }] *)
Fixpoint for_each {E A} (l : list A) (body : A -> prog E unit) : prog E unit :=
  match l with
  | [] => Ret tt
  | x :: l => body x ;;; for_each l body
  end.

(** A [for] loop whose body may [return] from the function: [None] goes on. *)
Fixpoint for_return {E A B} (l : list A) (body : A -> prog E (option B))
    : prog E (option B) :=
  match l with
  | [] => Ret None
  | x :: l => r <- body x ;;
      match r with Some b => Ret (Some b) | None => for_return l body end
  end.

(** Implement every call of [E] by a program over [F]. *)
Fixpoint interp {E F A} (h : forall X, E X -> prog F X) (p : prog E A) : prog F A :=
  match p with
  | Ret a => Ret a
  | Vis e k => x <- h _ e ;; interp h (k x)
  end.

(** ** Running against a handler *)
Definition handler (E : Type -> Type) (S : Type) : Type := forall X, E X -> S -> X * S.

Fixpoint run {E S A} (h : handler E S) (p : prog E A) (s : S) : A * S :=
  match p with
  | Ret a => (a, s)
  | Vis e k => let '(x, s') := h _ e s in run h (k x) s'
  end.

(** ** Traces *)
Inductive event (E : Type -> Type) : Type :=
| Ev {X : Type} (e : E X) (x : X).
Arguments Ev {E X} e x.

Fixpoint behaves {E A} (p : prog E A) (tr : list (event E)) (a : A) : Prop :=
  match p with
  | Ret b => tr = [] /\ a = b
  | Vis e k => exists x tr', tr = Ev e x :: tr' /\ behaves (k x) tr' a
  end.

(** The trace a run against a handler leaves. *)
Fixpoint trace_of {E S A} (h : handler E S) (p : prog E A) (s : S) : list (event E) :=
  match p with
  | Ret _ => []
  | Vis e k => let '(x, s') := h _ e s in Ev e x :: trace_of h (k x) s'
  end.

(** ** Call specifications *)
Record espec (E : Type -> Type) (S : Type) : Type := {
  pre : forall X, E X -> S -> Prop;
  post : forall X, E X -> S -> X -> S -> Prop
}.
Arguments pre {E S} _ {X}.
Arguments post {E S} _ {X}.

Fixpoint wp {E S A} (sp : espec E S) (p : prog E A) (Q : A -> S -> Prop) (s : S) : Prop :=
  match p with
  | Ret a => Q a s
  | Vis e k => pre sp e s /\ forall x s', post sp e s x s' -> wp sp (k x) Q s'
  end.

(** The specification whose ghost state is the history of calls, with the
    answers limited by [ans], and the obligation [P history call]. *)
Definition history_spec {E} (ans : forall X, E X -> X -> Prop)
    (P : forall X, list (event E) -> E X -> Prop) : espec E (list (event E)) := {|
  pre X e h := P X h e;
  post X e h x h' := ans X e x /\ h' = h ++ [Ev e x]
|}.

(** A handler meets a specification when its answers are among those the
    specification allows. *)
Definition meets {E S} (h : handler E S) (sp : espec E S) : Prop :=
  forall X (e : E X) s, post sp e s (h X e s).1 (h X e s).2.

(** ** Equivalence of programs: same calls, pointwise equal continuations *)
Inductive peq {E A} : prog E A -> prog E A -> Prop :=
| peq_ret a : peq (Ret a) (Ret a)
| peq_vis {X} (e : E X) k1 k2 : (forall x, peq (k1 x) (k2 x)) -> peq (Vis e k1) (Vis e k2).

Section peq_facts.
Context {E : Type -> Type}.

#[export] Instance peq_equivalence {A} : Equivalence (@peq E A).
Proof.
  split.
  - intros p. induction p; by constructor.
  - intros p q Hpq. induction Hpq; by constructor.
  - intros p q r Hpq. revert r. induction Hpq as [|X e k1 k2 _ IH]; intros r Hqr; [done|].
    (* the second derivation has the same head call *)
    remember (Vis e k2) as q eqn:Hq. destruct Hqr as [a|Y e' k2' k3 Hk]; [done|].
    pose proof (f_equal (fun q => match q with
      | Ret _ => True | @Vis _ _ X0 e0 k0 => forall k3 : X0 -> prog E A,
          (forall x, peq (k0 x) (k3 x)) -> peq (Vis e k1) (Vis e0 k3) end) Hq) as Hcast.
    simpl in Hcast. revert Hk. generalize k3. clear k3.
    match type of Hcast with ?P = ?Q => cut P; [auto|rewrite Hcast] end.
    intros k3 Hk. constructor. auto.
Qed.

#[export] Instance bind_proper {A B} :
  Proper (peq ==> pointwise_relation A peq ==> peq) (@bind E A B).
Proof.
  intros p q Hpq f g Hfg. induction Hpq; simpl; [apply Hfg|by constructor].
Qed.

Lemma bind_ret_r {A} (p : prog E A) : peq (x <- p ;; Ret x) p.
Proof. induction p; simpl; by constructor. Qed.

Lemma bind_assoc {A B C} (p : prog E A) (f : A -> prog E B) (g : B -> prog E C) :
  peq (y <- (x <- p ;; f x) ;; g y) (x <- p ;; y <- f x ;; g y).
Proof. induction p; simpl; [reflexivity|by constructor]. Qed.

#[export] Instance wp_proper {S A} (sp : espec E S) :
  Proper (peq ==> pointwise_relation A (pointwise_relation S iff) ==> eq ==> iff) (wp sp).
Proof.
  intros p q Hpq Q1 Q2 HQ s ? <-. revert s.
  induction Hpq as [a|X e k1 k2 _ IH]; intros s; simpl; [apply HQ|].
  split; intros [Hpre Hk]; split; try done; intros x s' Hpost; apply IH; auto.
Qed.

Lemma run_bind {S A B} (h : handler E S) (p : prog E A) (f : A -> prog E B) s :
  run h (bind p f) s = run h (f (run h p s).1) (run h p s).2.
Proof.
  revert s. induction p as [a|X e k IH]; intros s; simpl; [done|]. destruct (h X e s). apply IH.
Qed.

Lemma run_interp {F S A} (g : forall X, F X -> prog E X) (h : handler E S) (p : prog F A) s :
  run h (interp g p) s = run (fun X e s => run h (g X e) s) p s.
Proof.
  revert s. induction p as [a|X e k IH]; intros s; simpl; [done|].
  rewrite run_bind. destruct (run h (g X e) s). apply IH.
Qed.

Lemma run_peq {S A} (h : handler E S) (p q : prog E A) s : peq p q -> run h p s = run h q s.
Proof.
  intros Hpq. revert s. induction Hpq as [a|X e k1 k2 _ IH]; intros s; simpl; [done|].
  destruct (h X e s). apply IH.
Qed.
End peq_facts.

(** ** Reasoning rules *)
Section wp_facts.
Context {E : Type -> Type} {S : Type}.
Implicit Types (sp : espec E S) (s : S).

Lemma wp_mono {A} sp (p : prog E A) (Q1 Q2 : A -> S -> Prop) s :
  wp sp p Q1 s -> (forall a s, Q1 a s -> Q2 a s) -> wp sp p Q2 s.
Proof.
  intros Hwp HQ. revert s Hwp. induction p as [a|X e k IH]; intros s; simpl; [apply HQ|].
  intros [Hpre Hk]. split; [done|]. intros x s' Hpost. apply IH. auto.
Qed.

Lemma wp_bind {A B} sp (p : prog E A) (f : A -> prog E B) Q s :
  wp sp (bind p f) Q s <-> wp sp p (fun a s => wp sp (f a) Q s) s.
Proof.
  revert s. induction p as [a|X e k IH]; intros s; simpl; [done|].
  split; intros [Hpre Hk]; split; try done; intros x s' Hpost; apply IH; auto.
Qed.

Lemma wp_seq {A B} sp (p : prog E A) (f : A -> prog E B) (Q1 : A -> S -> Prop) Q s :
  wp sp p Q1 s -> (forall a s, Q1 a s -> wp sp (f a) Q s) -> wp sp (bind p f) Q s.
Proof. intros Hp Hf. apply wp_bind. by eapply wp_mono. Qed.

Lemma wp_and {A} sp (p : prog E A) (Q1 Q2 : A -> S -> Prop) s :
  wp sp p Q1 s -> wp sp p Q2 s -> wp sp p (fun a s => Q1 a s /\ Q2 a s) s.
Proof.
  revert s. induction p as [a|X e k IH]; intros s; simpl; [done|].
  intros [Hpre Hk1] [_ Hk2]. split; [done|]. intros x s' Hpost. apply IH; auto.
Qed.

(** Two readings of one program: what a coarser specification, over a part [f]
    of the state, proves of it holds as well. *)
Lemma wp_lift {T A} sp (sp' : espec E T) (f : S -> T) (p : prog E A) (Q1 : A -> S -> Prop)
    (Q2 : A -> T -> Prop) s :
  (forall X (e : E X) s x s', post sp e s x s' -> post sp' e (f s) x (f s')) ->
  wp sp p Q1 s -> wp sp' p Q2 (f s) -> wp sp p (fun a s => Q1 a s /\ Q2 a (f s)) s.
Proof.
  intros Hf. revert s. induction p as [a|X e k IH]; intros s; simpl; [done|].
  intros [Hpre Hk1] [_ Hk2]. split; [done|]. intros x s' Hpost. apply IH; auto.
Qed.

(** Loops: an invariant over the elements still to visit. *)
Lemma wp_for_each {A} sp (l : list A) body (I : list A -> S -> Prop) s :
  (forall x l s, I (x :: l) s -> wp sp (body x) (fun _ s => I l s) s) ->
  I l s -> wp sp (for_each l body) (fun _ s => I [] s) s.
Proof.
  intros Hbody. revert s. induction l as [|x l IH]; intros s HI; simpl; [done|].
  eapply wp_seq; [by apply Hbody|]. intros [] s' HI'. by apply IH.
Qed.

Lemma wp_for_return {A B} sp (l : list A) (body : A -> prog E (option B))
    (I : list A -> S -> Prop) (Q : option B -> S -> Prop) s :
  (forall x l s, I (x :: l) s ->
    wp sp (body x) (fun r s => match r with Some b => Q (Some b) s | None => I l s end) s) ->
  (forall s, I [] s -> Q None s) ->
  I l s -> wp sp (for_return l body) Q s.
Proof.
  intros Hbody Hnil. revert s. induction l as [|x l IH]; intros s HI; simpl; [auto|].
  eapply wp_seq; [by apply Hbody|]. intros [b|] s' HI'; [done|]. by apply IH.
Qed.

(** A run against a handler that meets the specification ends in the
    postcondition. *)
Lemma wp_run {A} sp (h : handler E S) (p : prog E A) Q s :
  meets h sp -> wp sp p Q s -> Q (run h p s).1 (run h p s).2.
Proof.
  intros Hmeets. revert s. induction p as [a|X e k IH]; intros s; simpl; [done|].
  intros [_ Hk]. pose proof (Hmeets X e s) as Hpost. destruct (h X e s) as [x s'].
  by apply IH, Hk.
Qed.

(** A run simulated by an abstract state along which the specification holds
    ends in the postcondition. *)
Lemma wp_simulation {A T} sp (h : handler E T) (R : T -> S -> Prop) (p : prog E A)
    (Q : A -> S -> Prop) t s :
  (forall X (e : E X) t s, R t s ->
    exists s', R (h X e t).2 s' /\ post sp e s (h X e t).1 s') ->
  wp sp p Q s -> R t s -> exists s', R (run h p t).2 s' /\ Q (run h p t).1 s'.
Proof.
  intros Hsim. revert t s. induction p as [a|X e k IH]; intros t s; simpl; [eauto|].
  intros [_ Hk] HR. destruct (Hsim X e t s HR) as (s' & HR' & Hpost).
  destruct (h X e t) as [x t']. simpl in *. eauto.
Qed.
End wp_facts.

Section trace_facts.
Context {E : Type -> Type}.

Lemma behaves_bind {A B} (p : prog E A) (f : A -> prog E B) tr b :
  behaves (bind p f) tr b <->
  exists tr1 tr2 a, tr = tr1 ++ tr2 /\ behaves p tr1 a /\ behaves (f a) tr2 b.
Proof.
  revert tr. induction p as [a|X e k IH]; intros tr; simpl.
  - split; [by intros; exists [], tr, a|]. by intros (? & ? & ? & -> & [-> ->] & ?).
  - split.
    + intros (x & tr' & -> & (tr1 & tr2 & a & -> & ? & ?)%IH).
      exists (Ev e x :: tr1), tr2, a. naive_solver.
    + intros (? & tr2 & a & -> & (x & tr1 & -> & ?) & ?).
      exists x, (tr1 ++ tr2). split; [done|]. apply IH. naive_solver.
Qed.

Lemma behaves_call {X} (e : E X) tr x : behaves (call e) tr x <-> tr = [Ev e x].
Proof. simpl. split; [by intros (? & ? & -> & -> & ->)|]. intros ->. eauto. Qed.

Lemma behaves_run {A S} (h : handler E S) (p : prog E A) s :
  behaves p (trace_of h p s) (run h p s).1.
Proof.
  revert s. induction p as [a|X e k IH]; intros s; simpl; [done|].
  destruct (h X e s) as [x s']. eauto.
Qed.

(** The answers of a trace are all allowed. *)
Definition answers_ok (ans : forall X, E X -> X -> Prop) (tr : list (event E)) : Prop :=
  Forall (fun ev => match ev with Ev e x => ans _ e x end) tr.

(** What [wp] over histories proves of a program holds of each of its traces:
    every call made satisfies its obligation at the history before it, and the
    postcondition holds of the complete trace. *)
Lemma adequacy {A} ans P (p : prog E A) Q tr a :
  wp (history_spec ans P) p Q [] -> behaves p tr a -> answers_ok ans tr ->
  Q a tr /\ forall tr1 X (e : E X) x tr2, tr = tr1 ++ Ev e x :: tr2 -> P X tr1 e.
Proof.
  cut (forall h, wp (history_spec ans P) p Q h -> behaves p tr a -> answers_ok ans tr ->
    Q a (h ++ tr) /\
    forall tr1 X (e : E X) x tr2, tr = tr1 ++ Ev e x :: tr2 -> P X (h ++ tr1) e).
  { intros Hcut. apply (Hcut []). }
  revert tr. induction p as [b|X e k IH]; intros tr h; simpl.
  - intros HQ [-> ->] _. rewrite app_nil_r. split; [done|].
    intros tr1 X e x tr2 Htr. by destruct tr1.
  - intros [Hpre Hk] (x & tr' & -> & Hb) Hans. apply Forall_cons in Hans as [Hx Hans].
    destruct (IH x tr' (h ++ [Ev e x])) as [HQ HP]; [by apply Hk|done|done|].
    rewrite <-app_assoc in HQ. split; [done|].
    intros tr1 X' e' x' tr2 Htr. destruct tr1 as [|ev tr1]; simpl in Htr.
    + rewrite app_nil_r.
      pose proof (f_equal (fun tr => match tr with
        | Ev e0 _ :: _ => P _ h e0 | [] => True end) Htr) as Hc.
      simpl in Hc. by rewrite <-Hc.
    + injection Htr as <- Htr. specialize (HP tr1 X' e' x' tr2 Htr).
      by rewrite <-app_assoc in HP.
Qed.
End trace_facts.

(** Go on with the continuation of an answered call. *)
Ltac resume H :=
  match type of H with
  | behaves (bind (Ret ?a) ?f) ?tr ?b => change (behaves (f a) tr b) in H; cbv beta in H
  end.

(** ** Programs all of whose calls satisfy a predicate *)
Fixpoint all_calls {E A} (P : forall X, E X -> Prop) (p : prog E A) : Prop :=
  match p with
  | Ret _ => True
  | Vis e k => P _ e /\ forall x, all_calls P (k x)
  end.

Section all_calls_facts.
Context {E : Type -> Type} (P : forall X, E X -> Prop).

Lemma all_calls_bind {A B} (p : prog E A) (f : A -> prog E B) :
  all_calls P p -> (forall a, all_calls P (f a)) -> all_calls P (bind p f).
Proof. intros Hp Hf. induction p as [a|X e k IH]; simpl in *; [done|]. naive_solver. Qed.

Lemma all_calls_call {X} (e : E X) : P X e -> all_calls P (call e).
Proof. by split. Qed.

Lemma all_calls_try {A B} (p : prog E (result A)) (h : string -> prog E B) q :
  all_calls P p -> (forall e, all_calls P (h e)) -> (forall a, all_calls P (q a)) ->
  all_calls P (try_else p h q).
Proof. intros. apply all_calls_bind; [done|]. by intros []. Qed.

Lemma all_calls_defer {A} d (p : prog E A) :
  all_calls P d -> all_calls P p -> all_calls P (defer d p).
Proof. intros. apply all_calls_bind; [done|]. intros. by apply all_calls_bind. Qed.

Lemma all_calls_for_each {A} (l : list A) body :
  (forall x, x ∈ l -> all_calls P (body x)) -> all_calls P (for_each l body).
Proof.
  induction l as [|x l IH]; intros Hb; simpl; [done|].
  apply all_calls_bind; [apply Hb; by left|]. intros _. apply IH. intros. apply Hb. by right.
Qed.

Lemma all_calls_for_return {A B} (l : list A) (body : A -> prog E (option B)) :
  (forall x, x ∈ l -> all_calls P (body x)) -> all_calls P (for_return l body).
Proof.
  induction l as [|x l IH]; intros Hb; simpl; [done|].
  apply all_calls_bind; [apply Hb; by left|].
  intros [b|]; [done|]. apply IH. intros. apply Hb. by right.
Qed.

(** Obligations that every call meets in every state are met. *)
Lemma all_calls_wp {S A} (sp : espec E S) (p : prog E A) (Q : A -> S -> Prop) (I : S -> Prop) s :
  all_calls P p ->
  (forall X (e : E X) s, P X e -> I s -> pre sp e s) ->
  (forall X (e : E X) s x s', P X e -> I s -> post sp e s x s' -> I s') ->
  (forall a s, I s -> Q a s) -> I s -> wp sp p Q s.
Proof.
  intros Hp Hpre Hpost HQ. revert s. induction p as [a|X e k IH]; intros s HI; simpl in *; [auto|].
  destruct Hp as [He Hk]. split; [auto|]. intros x s' Hx. apply IH; [done|]. eauto.
Qed.

Lemma all_calls_behaves {A} (p : prog E A) tr a :
  all_calls P p -> behaves p tr a -> Forall (fun ev => match ev with Ev e _ => P _ e end) tr.
Proof.
  revert tr. induction p as [b|X e k IH]; intros tr; simpl.
  - intros _ [-> _]. constructor.
  - intros [He Hk] (x & tr' & -> & Hb). constructor; [done|]. eauto.
Qed.

Lemma all_calls_any {A} (p : prog E A) : (forall X (e : E X), P X e) -> all_calls P p.
Proof. intros HP. by induction p as [a|X e k IH]; simpl. Qed.

Lemma all_calls_impl {A} (P' : forall X, E X -> Prop) (p : prog E A) :
  all_calls P' p -> (forall X (e : E X), P' X e -> P X e) -> all_calls P p.
Proof. intros Hp HPP. induction p as [a|X e k IH]; simpl in *; naive_solver. Qed.
End all_calls_facts.

#[export] Hint Resolve all_calls_bind all_calls_call all_calls_try all_calls_defer
  all_calls_for_each all_calls_for_return : ha.

(** Walk through a program whose calls are all of a kind. *)
Ltac calls_step :=
  match goal with
  | |- all_calls _ (Ret _) => exact I
  | |- all_calls _ (call _) => apply all_calls_call
  | |- all_calls _ (Vis _ _) => split
  | |- all_calls _ (bind _ _) => apply all_calls_bind
  | |- all_calls _ (try_else _ _ _) => apply all_calls_try
  | |- all_calls _ (defer _ _) => apply all_calls_defer
  | |- all_calls _ (for_each _ _) => apply all_calls_for_each
  | |- all_calls _ (for_return _ _) => apply all_calls_for_return
  | |- all_calls _ (match ?x with _ => _ end) => destruct x eqn:?
  | |- forall _, _ => intros ?
  end.
Ltac calls := repeat (calls_step || (progress eauto with ha nocore)).

(** A program whose calls meet their obligation after any history only adds to
    the history. *)
Lemma wp_extends {E A} ans P (p : prog E A) h :
  all_calls (fun X e => forall h, P X h e) p ->
  wp (history_spec ans P) p (fun _ h' => h ⊆ h') h.
Proof.
  revert h. induction p as [a|X e k IH]; intros h; cbn [all_calls wp]; [done|].
  intros [He Hk]. split; [apply He|]. intros x h' [_ ->].
  eapply wp_mono; [by apply IH|]. intros a h'. set_solver.
Qed.

(** ** Rules for the combinators, and programs safe from every state *)
Section wp_rules.
Context {E : Type -> Type} {S : Type} (sp : espec E S).

Lemma wp_call {X} (e : E X) (Q : X -> S -> Prop) s :
  pre sp e s -> (forall x s', post sp e s x s' -> Q x s') -> wp sp (call e) Q s.
Proof. by split. Qed.

Lemma wp_try {A B} (p : prog E (result A)) (h : string -> prog E B) q (Q : B -> S -> Prop) s :
  wp sp p (fun r s => match r with Ok a => wp sp (q a) Q s | Err e => wp sp (h e) Q s end) s ->
  wp sp (try_else p h q) Q s.
Proof. intros Hp. eapply wp_seq; [exact Hp|]. by intros []. Qed.

Lemma wp_defer {A} d (p : prog E A) (Q : A -> S -> Prop) s :
  wp sp p (fun x s => wp sp d (fun _ s => Q x s) s) s -> wp sp (defer d p) Q s.
Proof. intros Hp. eapply wp_seq; [exact Hp|]. intros a s' Hd. by apply wp_bind. Qed.

(** [safe p]: the obligations of [p] are met from every state. *)
Definition safe {A} (p : prog E A) : Prop := forall s, wp sp p (fun _ _ => True) s.

Lemma safe_ret {A} (a : A) : safe (Ret a).
Proof. done. Qed.

Lemma safe_bind {A B} (p : prog E A) (f : A -> prog E B) :
  safe p -> (forall a, safe (f a)) -> safe (bind p f).
Proof. intros Hp Hf s. eapply wp_seq; [apply Hp|]. intros a s' _. apply Hf. Qed.

Lemma safe_call {X} (e : E X) : (forall s, pre sp e s) -> safe (call e).
Proof. by split. Qed.

Lemma safe_try {A B} (p : prog E (result A)) (h : string -> prog E B) q :
  safe p -> (forall e, safe (h e)) -> (forall a, safe (q a)) -> safe (try_else p h q).
Proof. intros. apply safe_bind; [done|]. by intros []. Qed.

Lemma safe_defer {A} d (p : prog E A) : safe d -> safe p -> safe (defer d p).
Proof. intros. apply safe_bind; [done|]. intros. by apply safe_bind. Qed.

Lemma safe_for_each {A} (l : list A) body : (forall x, safe (body x)) -> safe (for_each l body).
Proof. intros Hb. induction l as [|x l IH]; [done|]. by apply safe_bind. Qed.

Lemma safe_for_return {A B} (l : list A) (body : A -> prog E (option B)) :
  (forall x, safe (body x)) -> safe (for_return l body).
Proof. intros Hb. induction l as [|x l IH]; [done|]. apply safe_bind; [done|]. by intros []. Qed.

Lemma safe_wp {A} (p : prog E A) s : safe p -> wp sp p (fun _ _ => True) s.
Proof. auto. Qed.
End wp_rules.

Ltac safely_step :=
  match goal with
  | |- safe _ (Ret _) => apply safe_ret
  | |- safe _ (call _) => apply safe_call
  | |- safe _ (bind _ _) => apply safe_bind
  | |- safe _ (try_else _ _ _) => apply safe_try
  | |- safe _ (defer _ _) => apply safe_defer
  | |- safe _ (for_each _ _) => apply safe_for_each
  | |- safe _ (for_return _ _) => apply safe_for_return
  | |- safe _ (match ?x with _ => _ end) => destruct x eqn:?
  | |- forall _, _ => intros ?
  end.
(** Walk through a program; the obligations that remain are left as goals. *)
Ltac safely := repeat (safely_step || (progress eauto with ha nocore)).

(** ** Programs that keep an invariant between their calls *)
Section keeps.
Context {E : Type -> Type} {S : Type} (sp : espec E S) (I : S -> Prop).

Definition keeps {A} (p : prog E A) : Prop := forall s, I s -> wp sp p (fun _ => I) s.

Lemma keeps_ret {A} (a : A) : keeps (Ret a).
Proof. by intros s. Qed.

Lemma keeps_bind {A B} (p : prog E A) (f : A -> prog E B) :
  keeps p -> (forall a, keeps (f a)) -> keeps (bind p f).
Proof. intros Hp Hf s HI. eapply wp_seq; [by apply Hp|]. intros a s' HI'. by apply Hf. Qed.

Lemma keeps_call {X} (e : E X) :
  (forall s, I s -> pre sp e s /\ forall x s', post sp e s x s' -> I s') -> keeps (call e).
Proof. intros He s HI. by apply He. Qed.

Lemma keeps_try {A B} (p : prog E (result A)) (h : string -> prog E B) q :
  keeps p -> (forall e, keeps (h e)) -> (forall a, keeps (q a)) -> keeps (try_else p h q).
Proof. intros. apply keeps_bind; [done|]. by intros []. Qed.

Lemma keeps_defer {A} d (p : prog E A) : keeps d -> keeps p -> keeps (defer d p).
Proof. intros. apply keeps_bind; [done|]. intros. apply keeps_bind; [done|]. intros. apply keeps_ret. Qed.

Lemma keeps_for_each {A} (l : list A) body : (forall x, keeps (body x)) -> keeps (for_each l body).
Proof. intros Hb. induction l as [|x l IH]; [apply keeps_ret|]. by apply keeps_bind. Qed.

Lemma keeps_for_return {A B} (l : list A) (body : A -> prog E (option B)) :
  (forall x, keeps (body x)) -> keeps (for_return l body).
Proof.
  intros Hb. induction l as [|x l IH]; [apply keeps_ret|]. apply keeps_bind; [done|].
  intros []; [apply keeps_ret|done].
Qed.
End keeps.

Ltac keeping_step :=
  match goal with
  | |- keeps _ _ (Ret _) => apply keeps_ret
  | |- keeps _ _ (call _) => apply keeps_call
  | |- keeps _ _ (bind _ _) => apply keeps_bind
  | |- keeps _ _ (try_else _ _ _) => apply keeps_try
  | |- keeps _ _ (defer _ _) => apply keeps_defer
  | |- keeps _ _ (for_each _ _) => apply keeps_for_each
  | |- keeps _ _ (for_return _ _) => apply keeps_for_return
  | |- keeps _ _ (match ?x with _ => _ end) => destruct x eqn:?
  | |- forall _, keeps _ _ _ => intros ?
  end.
(** Walk through a program; the calls that remain are left as goals. *)
Ltac keeping := repeat (keeping_step || (progress eauto with ha nocore)).

(** ** Executions against a specification

    [can sp p s a s']: some execution of [p] whose answers [sp] allows leads from
    [s] to [s'] with result [a]; [reaches sp p s s']: some part of one leads to
    [s']. *)
Fixpoint can {E S A} (sp : espec E S) (p : prog E A) (s : S) (a : A) (s' : S) : Prop :=
  match p with
  | Ret b => a = b /\ s' = s
  | Vis e k => exists x s1, post sp e s x s1 /\ can sp (k x) s1 a s'
  end.

Fixpoint reaches {E S A} (sp : espec E S) (p : prog E A) (s s' : S) : Prop :=
  s' = s \/
  match p with
  | Ret _ => False
  | Vis e k => exists x s1, post sp e s x s1 /\ reaches sp (k x) s1 s'
  end.

Section executions.
Context {E : Type -> Type} {S : Type} (sp : espec E S).

Lemma wp_can {A} (p : prog E A) Q s a s' : wp sp p Q s -> can sp p s a s' -> Q a s'.
Proof.
  revert s. induction p as [b|X e k IH]; intros s; simpl; [by intros ? [-> ->]|].
  intros [_ Hk] (x & s1 & Hpost & Hcan). eapply IH; eauto.
Qed.

Lemma can_reaches {A} (p : prog E A) s a s' : can sp p s a s' -> reaches sp p s s'.
Proof.
  revert s. induction p as [b|X e k IH]; intros s; simpl; [by intros [_ ->]; left|].
  intros (x & s1 & Hpost & Hcan). right. eauto.
Qed.

(** An invariant of all the calls holds at every point of an execution. *)
Lemma all_calls_reaches {A} (P : forall X, E X -> Prop) (I : S -> Prop) (p : prog E A) s s' :
  all_calls P p -> (forall X (e : E X) s x s', P X e -> I s -> post sp e s x s' -> I s') ->
  I s -> reaches sp p s s' -> I s'.
Proof.
  intros Hp HI. revert s. induction p as [b|X e k IH]; intros s Hs; simpl in *.
  - by intros [->|[]].
  - intros [->|(x & s1 & Hpost & Hr)]; [done|]. destruct Hp as [He Hk].
    apply (IH x (Hk x) s1); [by eapply HI|done].
Qed.
End executions.

(** ** Implementing calls by programs *)
Section interp_facts.
Context {E F : Type -> Type} (h : forall X, E X -> prog F X).

Lemma wp_interp {S A} (spE : espec E S) (spF : espec F S) (p : prog E A) Q s :
  (forall X (e : E X) s, wp spF (h X e) (fun x s' => post spE e s x s') s) ->
  wp spE p Q s -> wp spF (interp h p) Q s.
Proof.
  intros Hh. revert s. induction p as [a|X e k IH]; intros s; simpl; [done|].
  intros [_ Hk]. eapply wp_seq; [apply Hh|]. intros x s' Hpost. apply IH. auto.
Qed.

(** The same when the implementations rely on the obligations. *)
Lemma wp_interp_pre {S A} (spE : espec E S) (spF : espec F S) (p : prog E A) Q s :
  (forall X (e : E X) s, pre spE e s -> wp spF (h X e) (fun x s' => post spE e s x s') s) ->
  wp spE p Q s -> wp spF (interp h p) Q s.
Proof.
  intros Hh. revert s. induction p as [a|X e k IH]; intros s; simpl; [done|].
  intros [Hpre Hk]. eapply wp_seq; [by apply Hh|]. intros x s' Hpost. apply IH. auto.
Qed.

Lemma all_calls_interp {A} (PE : forall X, E X -> Prop) (PF : forall X, F X -> Prop)
    (p : prog E A) :
  (forall X (e : E X), PE X e -> all_calls PF (h X e)) ->
  all_calls PE p -> all_calls PF (interp h p).
Proof.
  intros Hh. induction p as [a|X e k IH]; simpl; [done|]. intros [He Hk].
  apply all_calls_bind; [by apply Hh|]. intros x. by apply IH.
Qed.
End interp_facts.

(** From here on programs are executed symbolically by the rules above. *)
#[global] Arguments wp : simpl never.
#[global] Arguments bind : simpl never.
