(* ===== verification/Model.v ===== *)
(** * Data model

    The types of [internal/model/model.go], field for field.  A Go pointer
    field is an [option] (nil is [None]); [time.Time] is the number of
    nanoseconds since the Unix epoch; [Role] is a string type in the source,
    so a status decoded from the network may carry any string.  [Context]
    describes how the contexts handed to calls are derived from each other. *)
From S2P Require Import Prelude.

(** ** Roles *)
Definition Role : Type := string.
Definition RoleUnknown : Role := "unknown".
Definition RolePrimary : Role := "primary".
Definition RoleReplica : Role := "replica".

(** ** Time *)
Definition time : Type := Z.
(** The zero [time.Time], January 1 of year 1. *)
Definition time_zero : time := -62135596800000000000.

(** ** Node configurations *)
Record AgentNodeConfig : Type := {
  an_ID : string;
  an_Address : string;
  an_AgentURL : string
}.

Record MySQLNodeConfig : Type := {
  mc_ID : string;
  mc_Address : string;
  mc_DSN : string;
  mc_ReplicationUser : string;
  mc_ReplicationPass : string
}.

(** ** Requests *)
Record SwitchAuthorization : Type := {
  OperationID : string;
  FromEpoch : Z;
  ToEpoch : Z
}.

Record ReplicaRequest : Type := {
  rr_Authorization : SwitchAuthorization;
  rr_Source : AgentNodeConfig
}.

Record OperationRequest : Type := {
  or_Authorization : SwitchAuthorization
}.

Record WaitGTIDRequest : Type := {
  wr_Authorization : SwitchAuthorization;
  wr_GTID : string;
  wr_TimeoutSeconds : Z
}.

(** ** Statuses *)
Record ReplicaStatus : Type := {
  IOThreadRunning : bool;
  SQLThreadRunning : bool;
  SecondsBehind : option Z;
  LastIOError : string;
  LastSQLError : string;
  rs_ExecutedGTID : string;
  RetrievedGTID : string
}.

Record NodeStatus : Type := {
  NodeID : string;
  ns_Address : string;
  Reachable : bool;
  Healthy : bool;
  ns_Role : Role;
  ServerUUID : string;
  ReadOnly : bool;
  SuperReadOnly : bool;
  Replica : option ReplicaStatus;
  ns_Error : string;
  CheckedAt : time;
  FailureCount : Z
}.

Record ClusterState : Type := {
  cs_Name : string;
  Primary : string;
  Epoch : Z;
  AutoFailover : bool;
  UpdatedAt : time
}.

Record SwitchTask : Type := {
  task_ID : string;
  From : string;
  To : string;
  Automatic : bool;
  DryRun : bool;
  task_State : string;
  task_Error : string;
  StartedAt : time;
  FinishedAt : time
}.

Record AlertEvent : Type := {
  ae_NodeID : string;
  ae_Severity : string;
  ae_Title : string;
  ae_Message : string;
  ae_Resolved : bool;
  ae_CreatedAt : time
}.

(** ** Decidable equality *)
#[export] Instance AgentNodeConfig_eq_dec : EqDecision AgentNodeConfig.
Proof. solve_decision. Defined.
#[export] Instance SwitchAuthorization_eq_dec : EqDecision SwitchAuthorization.
Proof. solve_decision. Defined.
#[export] Instance ReplicaStatus_eq_dec : EqDecision ReplicaStatus.
Proof. solve_decision. Defined.
#[export] Instance NodeStatus_eq_dec : EqDecision NodeStatus.
Proof. solve_decision. Defined.
#[export] Instance ClusterState_eq_dec : EqDecision ClusterState.
Proof. solve_decision. Defined.
#[export] Instance SwitchTask_eq_dec : EqDecision SwitchTask.
Proof. solve_decision. Defined.

(** ** Zero values and field updates *)

(** What reading an absent key of a [map[string]NodeStatus] gives. *)
Definition NodeStatus_zero : NodeStatus := {|
  NodeID := ""; ns_Address := ""; Reachable := false; Healthy := false; ns_Role := "";
  ServerUUID := ""; ReadOnly := false; SuperReadOnly := false; Replica := None;
  ns_Error := ""; CheckedAt := time_zero; FailureCount := 0 |}.

Definition ClusterState_zero : ClusterState := {|
  cs_Name := ""; Primary := ""; Epoch := 0; AutoFailover := false; UpdatedAt := time_zero |}.

Definition AgentNodeConfig_zero : AgentNodeConfig := {|
  an_ID := ""; an_Address := ""; an_AgentURL := "" |}.

Definition set_FailureCount (n : Z) (s : NodeStatus) : NodeStatus := {|
  NodeID := NodeID s; ns_Address := ns_Address s; Reachable := Reachable s;
  Healthy := Healthy s; ns_Role := ns_Role s; ServerUUID := ServerUUID s;
  ReadOnly := ReadOnly s; SuperReadOnly := SuperReadOnly s; Replica := Replica s;
  ns_Error := ns_Error s; CheckedAt := CheckedAt s; FailureCount := n |}.

Definition set_Identity (id address : string) (s : NodeStatus) : NodeStatus := {|
  NodeID := id; ns_Address := address; Reachable := Reachable s;
  Healthy := Healthy s; ns_Role := ns_Role s; ServerUUID := ServerUUID s;
  ReadOnly := ReadOnly s; SuperReadOnly := SuperReadOnly s; Replica := Replica s;
  ns_Error := ns_Error s; CheckedAt := CheckedAt s; FailureCount := FailureCount s |}.

Definition set_Primary (p : string) (s : ClusterState) : ClusterState := {|
  cs_Name := cs_Name s; Primary := p; Epoch := Epoch s;
  AutoFailover := AutoFailover s; UpdatedAt := UpdatedAt s |}.

Definition set_Epoch (n : Z) (s : ClusterState) : ClusterState := {|
  cs_Name := cs_Name s; Primary := Primary s; Epoch := n;
  AutoFailover := AutoFailover s; UpdatedAt := UpdatedAt s |}.

Definition set_AutoFailover (b : bool) (s : ClusterState) : ClusterState := {|
  cs_Name := cs_Name s; Primary := Primary s; Epoch := Epoch s;
  AutoFailover := b; UpdatedAt := UpdatedAt s |}.

Definition set_UpdatedAt (t : time) (s : ClusterState) : ClusterState := {|
  cs_Name := cs_Name s; Primary := Primary s; Epoch := Epoch s;
  AutoFailover := AutoFailover s; UpdatedAt := t |}.

(** [task.State = st; task.Error = err; task.FinishedAt = t] *)
Definition set_outcome (st err : string) (t : time) (k : SwitchTask) : SwitchTask := {|
  task_ID := task_ID k; From := From k; To := To k; Automatic := Automatic k;
  DryRun := DryRun k; task_State := st; task_Error := err;
  StartedAt := StartedAt k; FinishedAt := t |}.

(** ** Contexts

    A context is cancelled by the environment (a client that goes away, a
    signal, a lost session) or with a context it derives from. *)
Inductive Context : Type :=
| Background
| Root (name : string)                        (* request, signal or leader context *)
| LeaderBound (parent leader : Context)       (* leaderBoundContext *)
| Locked (parent : Context) (lock : nat)      (* the context AcquireLock returns *)
| WithTimeout (parent : Context) (seconds : Z).

#[export] Instance Context_eq_dec : EqDecision Context.
Proof. solve_decision. Defined.

(** [ctx.Err() != nil], given which contexts were cancelled directly. *)
Fixpoint cancelled (lost : Context -> bool) (c : Context) : bool :=
  match c with
  | Background => false
  | Root _ => lost c
  | LeaderBound p l => lost c || cancelled lost p || cancelled lost l
  | Locked p _ => lost c || cancelled lost p
  | WithTimeout p _ => lost c || cancelled lost p
  end.

(** [c] is [a] or derives from it. *)
Fixpoint derives (a c : Context) : bool :=
  bool_decide (c = a) ||
  match c with
  | Background | Root _ => false
  | LeaderBound p l => derives a p || derives a l
  | Locked p _ | WithTimeout p _ => derives a p
  end.

Lemma derives_refl c : derives c c = true.
Proof. destruct c; cbn [derives]; by rewrite bool_decide_eq_true_2. Qed.

Lemma derives_trans a b c : derives a b = true -> derives b c = true -> derives a c = true.
Proof.
  intros Hab Hbc. induction c; simpl in *; apply orb_true_iff in Hbc as [Hbc|Hbc];
    propify; subst; simpl in *; propify; naive_solver.
Qed.

(** Cancelling a context cancels everything derived from it. *)
Lemma derives_cancelled lost a c :
  derives a c = true -> cancelled lost a = true -> cancelled lost c = true.
Proof.
  intros Hd Ha. induction c; simpl in *;
    repeat (match goal with H : _ || _ = true |- _ => apply orb_true_iff in H as [H|H] end);
    propify; subst; simpl in *; propify; try naive_solver.
Qed.
