(* ===== verification/Store.v ===== *)
(** * The state store: interface, contract and the in-memory implementation

    [internal/store/store.go] declares the interface [Store] and two
    implementations.  This file has the interface as a signature of calls
    ([storeE]), the contract its clients rely on ([store_contract], over the
    abstract state [AbsStore]), and [MemoryStore].  The etcd implementation is
    in [Etcd.v]. *)
From S2P Require Import Prelude GoStd Effects Model.

(** ** Interface *)

(** What [AcquireLock] and [AcquireSwitchLock] return besides the error: the
    context bound to the lock, and the release function, named by the lock it
    releases and by whether it also withdraws the switch operation. *)
Record LockHandle : Type := {
  lh_ctx : Context;
  lh_lock : nat;
  lh_switch : bool
}.

#[export] Instance LockHandle_eq_dec : EqDecision LockHandle.
Proof. solve_decision. Defined.

Inductive storeE : Type -> Type :=
| SGetCluster (ctx : Context) : storeE (result ClusterState)
| SPutCluster (ctx : Context) (state : ClusterState) : storeE (result unit)
| SPutClusterIfEpoch (ctx : Context) (expected : Z) (state : ClusterState) : storeE (result unit)
| SAcquireLock (ctx : Context) (holder : string) (ttl : Z) : storeE (result LockHandle)
| SAcquireSwitchLock (ctx : Context) (holder : string) (ttl : Z) (auth : SwitchAuthorization)
    : storeE (result LockHandle)
| SRelease (h : LockHandle) : storeE unit
| SVerifySwitchOperation (ctx : Context) (auth : SwitchAuthorization) : storeE (result unit)
| SPutTask (ctx : Context) (task : SwitchTask) : storeE (result unit)
| SListTasks (ctx : Context) (limit : Z) : storeE (result (list SwitchTask))
| SClose : storeE (result unit).

(** ** Contract

    The abstract state of a store, and what a call may do to it.  An error
    may be reported before or after a write took effect. *)
Record AbsStore : Type := {
  a_cluster : ClusterState;
  a_tasks : gmap string SwitchTask;
  a_operation : option SwitchAuthorization
}.

Definition with_cluster (c : ClusterState) (s : AbsStore) : AbsStore :=
  {| a_cluster := c; a_tasks := a_tasks s; a_operation := a_operation s |}.
Definition with_task (t : SwitchTask) (s : AbsStore) : AbsStore :=
  {| a_cluster := a_cluster s; a_tasks := <[task_ID t := t]> (a_tasks s);
     a_operation := a_operation s |}.
Definition with_operation (o : option SwitchAuthorization) (s : AbsStore) : AbsStore :=
  {| a_cluster := a_cluster s; a_tasks := a_tasks s; a_operation := o |}.

(** The epochs at which an authorization is honoured. *)
Definition epoch_in_window (auth : SwitchAuthorization) (s : AbsStore) : Prop :=
  Epoch (a_cluster s) = FromEpoch auth \/ Epoch (a_cluster s) = ToEpoch auth.

Definition store_post {X} (e : storeE X) : AbsStore -> X -> AbsStore -> Prop :=
  match e in storeE X return AbsStore -> X -> AbsStore -> Prop with
  | SGetCluster _ => fun s r s' =>
      s' = s /\ forall c, r = Ok c -> c = a_cluster s
  | SPutCluster _ c => fun s r s' =>
      s' = with_cluster c s \/ (s' = s /\ is_ok r = false)
  | SPutClusterIfEpoch _ n c => fun s r s' =>
      (Epoch (a_cluster s) = n /\ s' = with_cluster c s) \/ (s' = s /\ is_ok r = false)
  | SAcquireLock _ _ _ => fun s _ s' => s' = s
  | SAcquireSwitchLock _ _ _ auth => fun s r s' =>
      s' = with_operation (Some auth) s \/
      (is_ok r = false /\ exists o, s' = with_operation o s)
  | SRelease h => fun s _ s' =>
      s' = s \/ (lh_switch h = true /\ s' = with_operation None s)
  | SVerifySwitchOperation _ auth => fun s r s' =>
      s' = s /\ (r = Ok tt -> a_operation s = Some auth /\ epoch_in_window auth s)
  | SPutTask _ t => fun s r s' =>
      s' = with_task t s \/ (s' = s /\ is_ok r = false)
  | SListTasks _ _ => fun s r s' =>
      s' = s /\ forall l, r = Ok l -> forall t, t ∈ l -> exists k, a_tasks s !! k = Some t
  | SClose => fun s _ s' => s' = s
  end.

Definition store_contract : espec storeE AbsStore := {|
  pre _ _ _ := True;
  post _ e := store_post e
|}.

(** What a component promises when it is used as a [Store]: an abstraction of
    its state along which every call honours the contract. *)
Class StoreImpl (S : Type) (h : handler storeE S) : Type := {
  abs_store : S -> AbsStore -> Prop;
  abs_store_total : forall s, exists a, abs_store s a;
  store_refines : forall X (e : storeE X) s a, abs_store s a ->
    exists a', abs_store (h X e s).2 a' /\ store_post e a (h X e s).1 a'
}.

(** ** [MemoryStore] *)
Module MemoryStore.

Record t : Type := {
  cluster : ClusterState;
  locked : bool;
  tasks : gmap string SwitchTask;
  operation : option SwitchAuthorization
}.

Definition NewMemoryStore (name : string) : t := {|
  cluster := {| cs_Name := name; Primary := ""; Epoch := 0; AutoFailover := false;
                UpdatedAt := time_zero |};
  locked := false; tasks := ∅; operation := None |}.

Definition set_cluster (c : ClusterState) (s : t) : t :=
  {| cluster := c; locked := locked s; tasks := tasks s; operation := operation s |}.
Definition set_locked (b : bool) (s : t) : t :=
  {| cluster := cluster s; locked := b; tasks := tasks s; operation := operation s |}.
Definition set_tasks (m : gmap string SwitchTask) (s : t) : t :=
  {| cluster := cluster s; locked := locked s; tasks := m; operation := operation s |}.
Definition set_operation (o : option SwitchAuthorization) (s : t) : t :=
  {| cluster := cluster s; locked := locked s; tasks := tasks s; operation := o |}.

Definition GetCluster (s : t) : result ClusterState * t := (Ok (cluster s), s).

Definition PutCluster (state : ClusterState) (s : t) : result unit * t :=
  (Ok tt, set_cluster state s).

Definition PutClusterIfEpoch (expected : Z) (state : ClusterState) (s : t) : result unit * t :=
  if negb (Epoch (cluster s) =? expected) then (Err "cluster epoch changed", s)
  else (Ok tt, set_cluster state s).

Definition AcquireLock (ctx : Context) (s : t) : result LockHandle * t :=
  if locked s then (Err "switch lock is held", s)
  else (Ok {| lh_ctx := ctx; lh_lock := 0; lh_switch := false |}, set_locked true s).

(** The critical sections of [AcquireSwitchLock] and of the release closures. *)
Definition register (auth : SwitchAuthorization) (s : t) : t := set_operation (Some auth) s.
Definition withdraw (s : t) : t := set_operation None s.
Definition unlock (s : t) : t := set_locked false s.

Definition AcquireSwitchLock (ctx : Context) (auth : SwitchAuthorization) (s : t)
    : result LockHandle * t :=
  match AcquireLock ctx s with
  | (Err e, s) => (Err e, s)
  | (Ok h, s) =>
      (Ok {| lh_ctx := lh_ctx h; lh_lock := lh_lock h; lh_switch := true |}, register auth s)
  end.

(** The two release closures. *)
Definition Release (h : LockHandle) (s : t) : t :=
  unlock (if lh_switch h then withdraw s else s).

Definition VerifySwitchOperation (auth : SwitchAuthorization) (s : t) : result unit * t :=
  (match operation s with
   | Some op =>
       if bool_decide (op = auth) then
         if negb (Epoch (cluster s) =? FromEpoch auth) && negb (Epoch (cluster s) =? ToEpoch auth)
         then Err "switch operation epoch is stale"
         else Ok tt
       else Err "switch operation is not authorized"
   | None => Err "switch operation is not authorized"
   end, s).

Definition PutTask (task : SwitchTask) (s : t) : result unit * t :=
  (Ok tt, set_tasks (<[task_ID task := task]> (tasks s)) s).

(** [tasks[i].StartedAt.After(tasks[j].StartedAt)] *)
Definition newer (a b : SwitchTask) : bool := StartedAt b <? StartedAt a.

Definition sortTasks (tasks : list SwitchTask) : list SwitchTask := sort_slice newer tasks.

(** [range] is [s.tasks] in the order the map iteration visits it. *)
Definition ListTasks (range : list SwitchTask) (limit : Z) (s : t)
    : result (list SwitchTask) * t :=
  let tasks := sortTasks range in
  let tasks := if (0 <? limit) && (limit <? Z.of_nat (length tasks))
               then take (Z.to_nat limit) tasks else tasks in
  (Ok tasks, s).

Definition Close (s : t) : result unit * t := (Ok tt, s).

(** The only process of an in-memory store leads at once.  [onLeader] is [None]
    when its fuel ran out. *)
Definition RunLeaderElection {E : Type -> Type} (CtxErr : Context -> E (option string)) (ctx : Context)
    (id : string) (onLeader : Context -> prog E (option unit)) : prog E (option (option string)) :=
  r <- onLeader ctx ;;
  match r with
  | None => Ret None
  | Some _ => err <- call (CtxErr ctx) ;; Ret (Some err)
  end.

Definition step : handler storeE t := fun X e =>
  match e in storeE X return t -> X * t with
  | SGetCluster _ => GetCluster
  | SPutCluster _ c => PutCluster c
  | SPutClusterIfEpoch _ n c => PutClusterIfEpoch n c
  | SAcquireLock ctx _ _ => AcquireLock ctx
  | SAcquireSwitchLock ctx _ _ auth => AcquireSwitchLock ctx auth
  | SRelease h => fun s => (tt, Release h s)
  | SVerifySwitchOperation _ auth => VerifySwitchOperation auth
  | SPutTask _ task => PutTask task
  | SListTasks _ limit => fun s => ListTasks (map_to_list (tasks s)).*2 limit s
  | SClose => Close
  end.

Definition abstract (s : t) : AbsStore :=
  {| a_cluster := cluster s; a_tasks := tasks s; a_operation := operation s |}.

(** *** Lock protocol

    Interleavings of clients, one critical section of [s.mu] at a time, when
    each client releases what it acquired once.  The state pairs the store with
    the clients between acquisition and the end of the release, and how far
    each has got. *)
Inductive phase : Type :=
| Plain                                (* AcquireLock returned *)
| Acquired (auth : SwitchAuthorization)   (* AcquireSwitchLock, not yet registered *)
| Registered (auth : SwitchAuthorization) (* AcquireSwitchLock returned *)
| Withdrawn.                           (* the switch's release, not yet unlocked *)

Inductive lock_step : t * list phase -> t * list phase -> Prop :=
| ls_acquire ctx s s' h ps :
    AcquireLock ctx s = (Ok h, s') -> lock_step (s, ps) (s', Plain :: ps)
| ls_acquire_switch ctx auth s s' h ps :
    AcquireLock ctx s = (Ok h, s') -> lock_step (s, ps) (s', Acquired auth :: ps)
| ls_register auth s ps1 ps2 :
    lock_step (s, ps1 ++ Acquired auth :: ps2) (register auth s, ps1 ++ Registered auth :: ps2)
| ls_withdraw auth s ps1 ps2 :
    lock_step (s, ps1 ++ Registered auth :: ps2) (withdraw s, ps1 ++ Withdrawn :: ps2)
| ls_unlock p s ps1 ps2 :
    p = Plain \/ p = Withdrawn -> lock_step (s, ps1 ++ p :: ps2) (unlock s, ps1 ++ ps2)
| ls_put_cluster c s s' r ps : PutCluster c s = (r, s') -> lock_step (s, ps) (s', ps)
| ls_put_if n c s s' r ps : PutClusterIfEpoch n c s = (r, s') -> lock_step (s, ps) (s', ps)
| ls_put_task k s s' r ps : PutTask k s = (r, s') -> lock_step (s, ps) (s', ps).

Definition phase_operation (p : phase) : option SwitchAuthorization :=
  match p with Registered auth => Some auth | _ => None end.

(** At most one client is in; the lock is held exactly then; the registered
    operation is that of the client. *)
Definition lock_inv (st : t * list phase) : Prop :=
  match st.2 with
  | [] => locked st.1 = false /\ operation st.1 = None
  | [p] => locked st.1 = true /\ operation st.1 = phase_operation p
  | _ => False
  end.

(** *** Lemmas *)

Lemma PutClusterIfEpoch_spec n c s :
  PutClusterIfEpoch n c s =
    if decide (Epoch (cluster s) = n) then (Ok tt, set_cluster c s)
    else (Err "cluster epoch changed", s).
Proof.
  unfold PutClusterIfEpoch. destruct (Z.eqb_spec (Epoch (cluster s)) n); by case_decide.
Qed.

Lemma verify_ok auth s :
  (VerifySwitchOperation auth s).1 = Ok tt <->
  operation s = Some auth /\
  (Epoch (cluster s) = FromEpoch auth \/ Epoch (cluster s) = ToEpoch auth).
Proof.
  unfold VerifySwitchOperation. destruct (operation s) as [op|]; [|naive_solver].
  case_bool_decide as Hop; [subst|naive_solver].
  destruct (Z.eqb_spec (Epoch (cluster s)) (FromEpoch auth)),
    (Z.eqb_spec (Epoch (cluster s)) (ToEpoch auth)); simpl; naive_solver.
Qed.

Lemma lock_inv_step st st' : lock_step st st' -> lock_inv st -> lock_inv st'.
Proof.
  unfold lock_inv.
  destruct 1 as [ctx s s' h ps H|ctx auth s s' h ps H|auth s ps1 ps2|auth s ps1 ps2
    |p s ps1 ps2 Hp|c s s' r ps H|n c s s' r ps H|k s s' r ps H];
    unfold AcquireLock, PutCluster, PutTask in *; simpl.
  1, 2: destruct (locked s) eqn:?; simplify_eq/=; destruct ps as [|? [|??]]; naive_solver.
  1, 2: destruct ps1 as [|? [|??]], ps2 as [|??]; naive_solver.
  - destruct ps1 as [|? [|??]], ps2 as [|??]; destruct Hp; naive_solver.
  - simplify_eq. by destruct ps as [|? [|??]].
  - rewrite PutClusterIfEpoch_spec in H. case_decide; simplify_eq; by destruct ps as [|? [|??]].
  - simplify_eq. by destruct ps as [|? [|??]].
Qed.

Lemma lock_inv_reachable name st : rtc lock_step (NewMemoryStore name, []) st -> lock_inv st.
Proof. apply rtc_ind_r; [done|]. eauto using lock_inv_step. Qed.

#[global] Instance newer_strict : StrictWeak newer.
Proof.
  unfold newer. split.
  - intros a b. rewrite Z.ltb_lt, Z.ltb_ge. lia.
  - unfold not_after. intros a b c. rewrite !Z.ltb_ge. lia.
Qed.

Lemma ListTasks_elem range limit s l k :
  (ListTasks range limit s).1 = Ok l -> k ∈ l -> k ∈ range.
Proof.
  unfold ListTasks. simpl. intros [= <-] Hk. rewrite <-(sort_slice_perm newer range).
  fold (sortTasks range). case_match; [|done]. by eapply subseteq_take.
Qed.

(** The listing is a prefix of the sorted tasks, as long as the limit allows. *)
Lemma ListTasks_prefix range limit s :
  let n := if 0 <? limit then Nat.min (Z.to_nat limit) (length range) else length range in
  (ListTasks range limit s).1 = Ok (take n (sortTasks range)).
Proof.
  assert (length (sortTasks range) = length range) as Hlen.
  { apply Permutation_length, sort_slice_perm. }
  simpl. unfold ListTasks. simpl. f_equal. rewrite Hlen.
  destruct (Z.ltb_spec 0 limit); simpl; [|by rewrite <-Hlen, firstn_all].
  destruct (Z.ltb_spec limit (Z.of_nat (length range))).
  - by rewrite Nat.min_l by lia.
  - by rewrite Nat.min_r, <-Hlen, firstn_all by lia.
Qed.

#[global] Program Instance memory_store_impl : StoreImpl t step :=
  {| abs_store s a := a = abstract s |}.
Next Obligation. eauto. Qed.
Next Obligation.
  intros X e s a ->. eexists. split; [done|].
  destruct e as [| |ctx n c|ctx ? ?|ctx ? ? auth|h|ctx auth| |ctx limit|]; simpl; try naive_solver.
  - rewrite PutClusterIfEpoch_spec. case_decide; [left|right]; done.
  - unfold AcquireLock. by destruct (locked s).
  - unfold AcquireSwitchLock, AcquireLock. destruct (locked s); [right|left]; [|done].
    split; [done|]. by exists (operation s).
  - unfold Release. destruct (lh_switch h); auto.
  - split; [done|]. intros Hok. by apply verify_ok.
  - split; [done|]. intros l Hl k Hk. apply (ListTasks_elem _ _ s _ _ Hl) in Hk.
    apply list_elem_of_fmap in Hk as ([i k'] & -> & Hin). exists i.
    by apply elem_of_map_to_list.
Qed.

(** *** Theorems *)

(** C24: whatever the interleaving of clients that release what they acquired,
    at most one holds the lock, the flag [locked] says whether one does, and a
    switch operation is authorized exactly while the switch lock of that
    operation is held and registered, at the epoch it starts from or the one it
    leads to. *)
Theorem memory_lock_excludes name s ps :
  rtc lock_step (NewMemoryStore name, []) (s, ps) ->
  (length ps <= 1)%nat /\ locked s = negb (bool_decide (ps = [])) /\
  forall auth, (VerifySwitchOperation auth s).1 = Ok tt <->
    ps = [Registered auth] /\
    (Epoch (cluster s) = FromEpoch auth \/ Epoch (cluster s) = ToEpoch auth).
Proof.
  intros Hinv%lock_inv_reachable. unfold lock_inv in Hinv. simpl in Hinv.
  destruct ps as [|p [|??]]; [..|done]; destruct Hinv as [Hl Ho];
    (split_and!; [simpl; lia|done|]); intros auth; rewrite verify_ok, Ho.
  - naive_solver.
  - destruct p; simpl; naive_solver.
Qed.

Lemma memory_lock_excludes_witness :
  let auth := {| OperationID := "switch-1"; FromEpoch := 0; ToEpoch := 1 |} in
  let s := register auth (set_locked true (NewMemoryStore "test")) in
  (VerifySwitchOperation auth s).1 = Ok tt /\ (length [Registered auth] <= 1)%nat.
Proof.
  split; [reflexivity|].
  apply (memory_lock_excludes "test" (register {| OperationID := "switch-1"; FromEpoch := 0;
    ToEpoch := 1 |} (set_locked true (NewMemoryStore "test")))
    [Registered {| OperationID := "switch-1"; FromEpoch := 0; ToEpoch := 1 |}]).
  eapply rtc_l; [eapply (ls_acquire_switch Background); reflexivity|].
  eapply rtc_l; [apply (ls_register _ _ [] [])|]. apply rtc_refl.
Defined.

(** A task list holds only stored tasks, newest first; it holds all of
    them when the limit is zero, negative or large enough, and otherwise as
    many as the limit allows, none of them older than one left out. *)
Theorem list_tasks_newest range limit s :
  range ≡ₚ (map_to_list (tasks s)).*2 ->
  exists l rest, ListTasks range limit s = (Ok l, s) /\
    l ++ rest ≡ₚ (map_to_list (tasks s)).*2 /\
    StronglySorted (fun a b => StartedAt b <= StartedAt a) (l ++ rest) /\
    length l = if 0 <? limit then Nat.min (Z.to_nat limit) (size (tasks s)) else size (tasks s).
Proof.
  intros Hp. pose proof (ListTasks_prefix range limit s) as Hl. simpl in Hl.
  pose proof (sort_slice_perm newer range : sortTasks range ≡ₚ range) as Hs.
  assert (length range = size (tasks s)) as Hlen.
  { rewrite Hp, length_fmap. apply length_map_to_list. }
  set (n := if 0 <? limit then _ else _) in Hl.
  exists (take n (sortTasks range)), (drop n (sortTasks range)). split_and!.
  - by rewrite <-Hl.
  - by rewrite take_drop, Hs.
  - rewrite take_drop. pose proof (sort_slice_sorted newer range) as Hsort.
    unfold sortTasks. induction Hsort as [|a l Hl' IH Ha]; constructor; [done|].
    eapply Forall_impl; [exact Ha|]. intros b. unfold not_after, newer. rewrite Z.ltb_ge. done.
  - rewrite length_take, Hs. subst n. rewrite Hlen. destruct (0 <? limit); lia.
Qed.

Lemma list_tasks_newest_witness :
  let task id at' := {| task_ID := id; From := "db-1"; To := "db-2"; Automatic := false;
    DryRun := false; task_State := "completed"; task_Error := ""; StartedAt := at';
    FinishedAt := at' |} in
  let s := (PutTask (task "b" 2) (PutTask (task "a" 1) (NewMemoryStore "test")).2).2 in
  (ListTasks (map_to_list (tasks s)).*2 1 s).1 = Ok [task "b" 2] /\
  exists l rest, ListTasks (map_to_list (tasks s)).*2 1 s = (Ok l, s) /\
    l ++ rest ≡ₚ (map_to_list (tasks s)).*2 /\
    StronglySorted (fun a b => StartedAt b <= StartedAt a) (l ++ rest) /\ length l = 1%nat.
Proof.
  intros task s. split; [vm_compute; reflexivity|].
  apply (list_tasks_newest (map_to_list (tasks s)).*2 1 s). reflexivity.
Defined.
End MemoryStore.
