(* ===== verification/Node.v ===== *)
(** * The controller's view of an agent

    The interface [Node] of [internal/agent/client.go] as a signature of
    calls, and what the controller relies on about the node behind it: which
    calls may make its MySQL server writable. *)
From S2P Require Import Prelude Effects Model.

Inductive nodeE : Type -> Type :=
| NStatus (ctx : Context) : nodeE NodeStatus
| NExecutedGTID (ctx : Context) : nodeE (result string)
| NWaitForGTID (ctx : Context) (auth : SwitchAuthorization) (set : string) (timeoutSeconds : Z)
    : nodeE (result unit)
| NDemote (ctx : Context) (auth : SwitchAuthorization) : nodeE (result unit)
| NPromote (ctx : Context) (auth : SwitchAuthorization) : nodeE (result unit)
| NReconfigureReplica (ctx : Context) (auth : SwitchAuthorization) (source : AgentNodeConfig)
    : nodeE (result unit)
| NClose : nodeE unit.

(** The set of nodes whose MySQL server accepts writes, and how a call to node
    [id] may change it.  A failed call may have taken effect or not. *)
Definition node_post {X} (id : string) (e : nodeE X) : gset string -> X -> gset string -> Prop :=
  match e in nodeE X return gset string -> X -> gset string -> Prop with
  | NStatus _ => fun W r W' =>
      W' = W /\ (Reachable r && ReadOnly r && SuperReadOnly r = true -> id ∉ W)
  | NDemote _ _ | NReconfigureReplica _ _ _ => fun W r W' =>
      W' = W ∖ {[id]} \/ (W' = W /\ is_ok r = false)
  | NPromote _ _ => fun W r W' =>
      W' = W ∪ {[id]} \/ (W' = W /\ is_ok r = false)
  | NExecutedGTID _ => fun W _ W' => W' = W
  | NWaitForGTID _ _ _ _ => fun W _ W' => W' = W
  | NClose => fun W _ W' => W' = W
  end.

(** What the agents promise when the controller uses them as its [Node]s. *)
Class NodesImpl (N : Type) (h : string -> handler nodeE N) : Type := {
  writable : N -> gset string;
  nodes_refine : forall id X (e : nodeE X) n,
    node_post id e (writable n) (h id X e n).1 (writable (h id X e n).2)
}.
