(* ===== verification/MySQL.v ===== *)
(** * The MySQL client of an agent

    [internal/mysql/client.go].  The connection pool ([database/sql] and its
    driver) is the signature [sqlE]: a statement is sent as text and the answer
    is what the library returns.  [mysql_server] states the documented
    behaviour of a MySQL server that the client relies on: which statements
    change the read-only variables, and that the reported values are the
    current ones. *)
From Stdlib Require Import Ascii DecimalString DecimalPos.
From S2P Require Import Prelude GoStd Effects Model.

(** ** The connection *)

(** What [Scan] into variables leaves: their values, and the error if any. *)
Definition scanned (A : Type) : Type := A * option string.

(** A column value scanned into an [any]. *)
Inductive sqlvalue : Type :=
| VNil
| VBytes (s : string)
| VOther (printed : string).           (* [fmt.Sprint] of the value *)

Inductive sqlE : Type -> Type :=
| QNow : sqlE time
| QPing (ctx : Context) : sqlE (result unit)
| QVariables (ctx : Context) (query : string) : sqlE (scanned (string * bool * bool))
| QText (ctx : Context) (query : string) : sqlE (scanned string)
| QNullInt64 (ctx : Context) (query set : string) (timeoutSeconds : Z)
    : sqlE (scanned (option Z))
| QRows (ctx : Context) (query : string) : sqlE (result unit)
| RNext : sqlE bool
| RErr : sqlE (option string)
| RColumns : sqlE (result (list string))
| RScan (n : nat) : sqlE (result (list sqlvalue))
| RClose : sqlE unit
| QExec (ctx : Context) (query : string) : sqlE (result unit)
| QClose : sqlE (result unit).

Definition try_exec {B} (ctx : Context) (query : string) (h : string -> prog sqlE B)
    (k : prog sqlE B) : prog sqlE B :=
  try _ <- call (QExec ctx query) else h ;; k.

Module Client.

(** ** Helpers *)

Fixpoint first (values : list string) : string :=
  match values with
  | [] => ""
  | value :: values => if bool_decide (value = "") then first values else value
  end.

Definition backslash : ascii := ascii_of_nat 92.
Definition quote : ascii := ascii_of_nat 39.

Definition quoteSQL (value : string) : string :=
  let value := ReplaceAll backslash (String backslash (String backslash "")) value in
  ReplaceAll quote (String backslash (String quote "")) value.

Definition splitAddress (address : string) : string * Z :=
  match Split ":" address with
  | [host; port] =>
      match Atoi port with
      | Some parsed => (host, parsed)
      | None => (address, 3306)
      end
  | _ => (address, 3306)
  end.

Definition replicaChannelAbsent (err : string) : bool :=
  let message := ToLower err in
  Contains message "not running" ||
  Contains message "not configured as a replica" ||
  Contains message "no replica defined for channel" ||
  Contains message "no channels exist".

(** ** Reading the replication status *)

Definition fields_of (columns : list string) (values : list sqlvalue) : gmap string string :=
  foldl (fun fields '(column, value) =>
    match value with
    | VNil => fields
    | VBytes s => <[column := s]> fields
    | VOther printed => <[column := printed]> fields
    end) ∅ (zip columns values).

Definition replica_of (fields : gmap string string) : ReplicaStatus :=
  let field k := default "" (fields !! k) in
  let lag := first [field "Seconds_Behind_Source"; field "Seconds_Behind_Master"] in
  {| IOThreadRunning := bool_decide (field "Replica_IO_Running" = "Yes")
       || bool_decide (field "Slave_IO_Running" = "Yes");
     SQLThreadRunning := bool_decide (field "Replica_SQL_Running" = "Yes")
       || bool_decide (field "Slave_SQL_Running" = "Yes");
     SecondsBehind :=
       if negb (bool_decide (lag = "")) && negb (bool_decide (lag = "NULL"))
       then ParseInt lag else None;
     LastIOError := field "Last_IO_Error";
     LastSQLError := field "Last_SQL_Error";
     rs_ExecutedGTID := first [field "Executed_Gtid_Set"; field "Exec_Source_Log_Pos"];
     RetrievedGTID := first [field "Retrieved_Gtid_Set"; field "Retrieved_GTID_Set"] |}.

Definition read_replica_row : prog sqlE (result ReplicaStatus) :=
  next <- call RNext ;;
  if negb next then
    err <- call RErr ;;
    Ret (Err (match err with Some e => e | None => "replica status is empty" end))
  else
  try columns <- call RColumns else (fun e => Ret (Err e)) ;;
  try values <- call (RScan (length columns)) else (fun e => Ret (Err e)) ;;
  Ret (Ok (replica_of (fields_of columns values))).

Definition replicaStatus (ctx : Context) : prog sqlE (result ReplicaStatus) :=
  rows <- call (QRows ctx "SHOW REPLICA STATUS") ;;
  rows <- match rows with
          | Err _ => call (QRows ctx "SHOW SLAVE STATUS")
          | Ok _ => Ret rows
          end ;;
  match rows with
  | Err e => Ret (Err e)
  | Ok _ => defer (call RClose) read_replica_row
  end.

(** ** Operations *)

Definition variables_query : string :=
  "SELECT @@GLOBAL.server_uuid, @@GLOBAL.read_only, @@GLOBAL.super_read_only".

(** A status with the fields the client sets. *)
Definition status_of (c : MySQLNodeConfig) (now : time) (reachable healthy : bool) (role : Role)
    (row : string * bool * bool) (replica : option ReplicaStatus) (error : string)
    : NodeStatus := {|
  NodeID := mc_ID c; ns_Address := mc_Address c; Reachable := reachable; Healthy := healthy;
  ns_Role := role; ServerUUID := row.1.1; ReadOnly := row.1.2; SuperReadOnly := row.2;
  Replica := replica; ns_Error := error; CheckedAt := now; FailureCount := 0 |}.

Definition known_lag (r : ReplicaStatus) : bool :=
  match SecondsBehind r with Some _ => true | None => false end.

Definition Status (c : MySQLNodeConfig) (ctx : Context) : prog sqlE NodeStatus :=
  now <- call QNow ;;
  try _ <- call (QPing ctx)
    else (fun e => Ret (status_of c now false false RoleUnknown ("", false, false) None e)) ;;
  row <- call (QVariables ctx variables_query) ;;
  match row.2 with
  | Some e => Ret (status_of c now true false RoleUnknown row.1 None e)
  | None =>
      if negb row.1.1.2 && negb row.1.2 then
        Ret (status_of c now true true RolePrimary row.1 None "")
      else
      try replica <- replicaStatus ctx
        else (fun e => Ret (status_of c now true false RoleReplica row.1 None e)) ;;
      Ret (status_of c now true
        (IOThreadRunning replica && SQLThreadRunning replica && known_lag replica)
        RoleReplica row.1 (Some replica) "")
  end.

Definition ExecutedGTID (ctx : Context) : prog sqlE (scanned string) :=
  call (QText ctx "SELECT @@GLOBAL.gtid_executed").

Definition WaitForGTID (ctx : Context) (set : string) (timeoutSeconds : Z)
    : prog sqlE (result unit) :=
  if bool_decide (set = "") then Ret (Err "source GTID set is empty")
  else
  timedOut <- call (QNullInt64 ctx "SELECT WAIT_FOR_EXECUTED_GTID_SET(?, ?)" set timeoutSeconds) ;;
  Ret (match timedOut with
       | (_, Some e) => Err e
       | (Some 0, None) => Ok tt
       | (_, None) => Err "replica did not catch up to source GTID set"
       end).

Definition SetReadOnly (ctx : Context) (readOnly : bool) : prog sqlE (result unit) :=
  let value := if readOnly then "ON" else "OFF" in
  try_exec ctx ("SET GLOBAL super_read_only = " +:+ value) (fun e => Ret (Err e)) (
  call (QExec ctx ("SET GLOBAL read_only = " +:+ value))).

(** Run a statement, accepting the errors that say there is no channel. *)
Definition exec_unless_absent (ctx : Context) (query : string) (k : prog sqlE (result unit))
    : prog sqlE (result unit) :=
  try_exec ctx query (fun e => if negb (replicaChannelAbsent e) then Ret (Err e) else k) k.

Definition Promote (ctx : Context) : prog sqlE (result unit) :=
  exec_unless_absent ctx "STOP REPLICA" (
  exec_unless_absent ctx "RESET REPLICA ALL" (
  SetReadOnly ctx false)).

Definition Demote (ctx : Context) : prog sqlE (result unit) := SetReadOnly ctx true.

(** The parts of the statement between the values. *)
Definition change_source (host port user password : string) : string :=
  "CHANGE REPLICATION SOURCE TO SOURCE_HOST = '" +:+ host +:+ "', SOURCE_PORT = " +:+ port
  +:+ ", SOURCE_USER = '" +:+ user +:+ "', SOURCE_PASSWORD = '" +:+ password
  +:+ "', SOURCE_AUTO_POSITION = 1".

Definition change_query (c : MySQLNodeConfig) (source : AgentNodeConfig) : string :=
  let '(host, port) := splitAddress (an_Address source) in
  change_source (quoteSQL host) (fmt_d port) (quoteSQL (mc_ReplicationUser c))
    (quoteSQL (mc_ReplicationPass c)).

Definition ReconfigureReplica (c : MySQLNodeConfig) (ctx : Context) (source : AgentNodeConfig)
    : prog sqlE (result unit) :=
  exec_unless_absent ctx "STOP REPLICA" (
  exec_unless_absent ctx "RESET REPLICA ALL" (
  if bool_decide (mc_ReplicationUser c = "") || bool_decide (mc_ReplicationPass c = "") then
    Ret (Err "replication credentials are missing")
  else
  try_exec ctx (change_query c source) (fun e => Ret (Err e)) (
  try_exec ctx "START REPLICA" (fun e => Ret (Err e)) (
  SetReadOnly ctx true)))).

Definition Close : prog sqlE (result unit) := call QClose.

End Client.

(** ** The server

    The read-only variables of a server, and the statements that change them:
    turning [super_read_only] on turns [read_only] on, and turning [read_only]
    off turns [super_read_only] off.  A statement that reports an error may
    have taken effect or not; scanning a row stops at the first column it
    cannot convert. *)
Record Server : Type := {
  read_only : bool;
  super_read_only : bool
}.

Definition exec_effect (query : string) (s : Server) : Server :=
  if bool_decide (query = "SET GLOBAL super_read_only = ON") then
    {| read_only := true; super_read_only := true |}
  else if bool_decide (query = "SET GLOBAL super_read_only = OFF") then
    {| read_only := read_only s; super_read_only := false |}
  else if bool_decide (query = "SET GLOBAL read_only = ON") then
    {| read_only := true; super_read_only := super_read_only s |}
  else if bool_decide (query = "SET GLOBAL read_only = OFF") then
    {| read_only := false; super_read_only := false |}
  else s.

Definition sql_post {X} (e : sqlE X) : Server -> X -> Server -> Prop :=
  match e in sqlE X return Server -> X -> Server -> Prop with
  | QExec _ q => fun s r s' => s' = exec_effect q s \/ (s' = s /\ is_ok r = false)
  | QVariables _ _ => fun s r s' =>
      s' = s /\ (r.1.1.2 = true -> read_only s = true) /\
      (r.1.2 = true -> super_read_only s = true) /\
      (r.2 = None -> r.1.1.2 = read_only s /\ r.1.2 = super_read_only s)
  | _ => fun s _ s' => s' = s
  end.

Definition mysql_server : espec sqlE Server :=
  {| pre _ _ _ := True; post _ e := sql_post e |}.

(** Ordinary clients can write. *)
Definition accepts_writes (s : Server) : bool := negb (read_only s).

(** What a status says about the server it was taken from. *)
Definition status_sound (st : NodeStatus) (s : Server) : Prop :=
  (ReadOnly st = true -> read_only s = true) /\
  (SuperReadOnly st = true -> super_read_only s = true) /\
  (Healthy st = true -> Reachable st = true /\ ns_Error st = "") /\
  (ns_Role st = RolePrimary -> Healthy st = true /\ accepts_writes s = true) /\
  (Healthy st = true -> ns_Role st <> RolePrimary -> ns_Role st = RoleReplica /\
    exists r, Replica st = Some r /\ IOThreadRunning r = true /\ SQLThreadRunning r = true /\
      exists lag, SecondsBehind r = Some lag).

Section server_facts.
Import Client.

Lemma replicaStatus_quiet ctx s : wp mysql_server (replicaStatus ctx) (fun _ s' => s' = s) s.
Proof.
  apply (all_calls_wp (fun X e => forall s x s', sql_post e s x s' -> s' = s) mysql_server _ _
    (fun s' => s' = s)); try done.
  - unfold replicaStatus, read_replica_row. calls; simpl; naive_solver.
  - intros X e s1 x s2 He -> Hpost. by eapply He.
Qed.

Lemma Status_sound c ctx s :
  wp mysql_server (Status c ctx) (fun st s' => s' = s /\ status_sound st s) s.
Proof.
  unfold Status. apply wp_bind, wp_call; [done|]. intros now ? ->.
  apply wp_try, wp_call; [done|]. intros [[]|e] ? ->; [|split; [done|]; by repeat split].
  apply wp_bind, wp_call; [done|]. intros [[[uuid ro] sro] err] ? (-> & Hro & Hsro & Heq).
  simpl in *. destruct err as [e|]; [split; [done|]; by repeat split|].
  destruct (Heq eq_refl) as [-> ->]. clear Heq.
  destruct (negb (read_only s) && negb (super_read_only s)) eqn:Hw.
  - split; [done|]. propify. destruct Hw as [Hr Hs].
    repeat split; simpl; try done; unfold accepts_writes; by rewrite Hr.
  - apply wp_try. eapply wp_mono; [apply replicaStatus_quiet|]. intros [r|e] ? ->.
    + split; [done|]. split_and!; simpl; try done. intros Hh _. propify.
      destruct Hh as [[Hio Hsql] Hlag]. split; [done|]. exists r. unfold known_lag in Hlag.
      destruct (SecondsBehind r) eqn:?; naive_solver.
    + split; [done|]. by repeat split.
Qed.

(** [SetReadOnly] leaves the flags as they were, as asked, or (clearing them)
    with [super_read_only] cleared first. *)
Lemma SetReadOnly_on ctx s :
  wp mysql_server (SetReadOnly ctx true) (fun r s' =>
    s' = {| read_only := true; super_read_only := true |} \/ (s' = s /\ is_ok r = false)) s.
Proof.
  unfold SetReadOnly, try_exec. apply wp_try, wp_call; [done|].
  intros [[]|e] s1 [->|[-> He]]; [| done | by left | by right].
  apply wp_call; [done|]. intros r s2 [->|[-> _]]; by left.
Qed.

Lemma SetReadOnly_off ctx s :
  wp mysql_server (SetReadOnly ctx false) (fun r s' =>
    s' = {| read_only := false; super_read_only := false |} \/
    (is_ok r = false /\ read_only s' = read_only s)) s.
Proof.
  unfold SetReadOnly, try_exec. apply wp_try, wp_call; [done|].
  intros [[]|e] s1 [->|[-> He]]; [| done | by right | by right].
  apply wp_call; [done|]. intros r s2 [->|[-> ?]]; [by left|by right].
Qed.

Lemma try_exec_keeps {A} ctx query h k (Q : result A -> Server -> Prop) s :
  exec_effect query s = s -> wp mysql_server k Q s -> (forall e, wp mysql_server (h e) Q s) ->
  wp mysql_server (try_exec ctx query h k) Q s.
Proof.
  intros Heff Hk Hh. apply wp_try, wp_call; [done|].
  intros [?|e] s' [->|[-> _]]; rewrite ?Heff; auto.
Qed.

Lemma exec_unless_absent_keeps ctx query k (Q : result unit -> Server -> Prop) s :
  exec_effect query s = s -> wp mysql_server k Q s -> (forall e, Q (Err e) s) ->
  wp mysql_server (exec_unless_absent ctx query k) Q s.
Proof.
  intros Heff Hk He. apply try_exec_keeps; [done..|]. intros e.
  destruct (replicaChannelAbsent e); [exact Hk|exact (He e)].
Qed.

Lemma change_query_effect c source s : exec_effect (change_query c source) s = s.
Proof.
  unfold change_query. destruct (splitAddress _) as [host port].
  unfold exec_effect. by rewrite !bool_decide_false by (by intros [=]).
Qed.

Lemma Promote_flags ctx s :
  wp mysql_server (Promote ctx) (fun r s' =>
    s' = {| read_only := false; super_read_only := false |} \/
    (is_ok r = false /\ read_only s' = read_only s)) s.
Proof.
  unfold Promote. do 2 (apply exec_unless_absent_keeps; [done| |by right]).
  apply SetReadOnly_off.
Qed.

Lemma Reconfigure_flags c ctx source s :
  wp mysql_server (ReconfigureReplica c ctx source) (fun r s' =>
    s' = {| read_only := true; super_read_only := true |} \/ (s' = s /\ is_ok r = false)) s.
Proof.
  unfold ReconfigureReplica. do 2 (apply exec_unless_absent_keeps; [done| |by right]).
  case_on_match; [by right|].
  apply try_exec_keeps; [apply change_query_effect| |by right].
  apply try_exec_keeps; [done| |by right]. apply SetReadOnly_on.
Qed.
End server_facts.

(** ** The text of statements

    How MySQL reads a statement (in its default SQL mode, where backslash is an
    escape character in string literals): words, string literals in single
    quotes, and other symbols, separated by blanks. *)
Inductive token : Type :=
| Word (w : string)
| Literal (v : string)
| Symbol (c : ascii).

Inductive lexstate : Type :=
| Idle
| InWord (w : string)
| InLiteral (v : string)
| InEscape (v : string)                (* after a backslash in a literal *)
| InQuote (v : string).                (* after a quote in a literal *)

Definition word_char (c : ascii) : bool :=
  byte_in 48 57 c || byte_in 65 90 c || byte_in 97 122 c || byte_in 95 95 c.

Definition byte_string (n : nat) : string := String (ascii_of_nat n) "".

(** The escape sequences of a literal; any other character stands for itself. *)
Definition unescape (c : ascii) : string :=
  if byte_in 48 48 c then byte_string 0
  else if byte_in 98 98 c then byte_string 8
  else if byte_in 110 110 c then byte_string 10
  else if byte_in 114 114 c then byte_string 13
  else if byte_in 116 116 c then byte_string 9
  else if byte_in 90 90 c then byte_string 26
  else if byte_in 37 37 c || byte_in 95 95 c then String Client.backslash (String c "")
  else String c "".

Definition lex_begin (c : ascii) : list token * lexstate :=
  if byte_in 32 32 c then ([], Idle)
  else if bool_decide (c = Client.quote) then ([], InLiteral "")
  else if word_char c then ([], InWord (String c ""))
  else ([Symbol c], Idle).

Definition lex_step (st : lexstate) (c : ascii) : list token * lexstate :=
  match st with
  | Idle => lex_begin c
  | InWord w =>
      if word_char c then ([], InWord (w +:+ String c ""))
      else (Word w :: (lex_begin c).1, (lex_begin c).2)
  | InLiteral v =>
      if bool_decide (c = Client.quote) then ([], InQuote v)
      else if bool_decide (c = Client.backslash) then ([], InEscape v)
      else ([], InLiteral (v +:+ String c ""))
  | InEscape v => ([], InLiteral (v +:+ unescape c))
  | InQuote v =>
      if bool_decide (c = Client.quote) then ([], InLiteral (v +:+ String c ""))
      else (Literal v :: (lex_begin c).1, (lex_begin c).2)
  end.

(** [None]: the statement ends inside a literal. *)
Fixpoint lex (st : lexstate) (s : string) : option (list token) :=
  match s with
  | EmptyString =>
      match st with
      | Idle => Some []
      | InWord w => Some [Word w]
      | InQuote v => Some [Literal v]
      | InLiteral _ | InEscape _ => None
      end
  | String c r => app (lex_step st c).1 <$> lex (lex_step st c).2 r
  end.

Section text_facts.
Import Client.

Lemma lex_silent st c r st' : lex_step st c = ([], st') -> lex st (String c r) = lex st' r.
Proof. intros Hst. cbn [lex]. rewrite Hst. simpl. by destruct (lex st' r) as [ts|]. Qed.

Lemma lex_emit st c r ts st' :
  lex_step st c = (ts, st') -> lex st (String c r) = app ts <$> lex st' r.
Proof. intros Hst. simpl. by rewrite Hst. Qed.

Lemma ReplaceAll_app old new a b :
  ReplaceAll old new (a +:+ b) = ReplaceAll old new a +:+ ReplaceAll old new b.
Proof.
  induction a as [|c a IH]; [done|]. change (String c a +:+ b) with (String c (a +:+ b)).
  simpl. case_bool_decide; rewrite IH; [by rewrite string_app_assoc|done].
Qed.

(** [quoteSQL] escapes byte by byte. *)
Lemma quoteSQL_cons c v :
  quoteSQL (String c v) =
    (if bool_decide (c = backslash) then String backslash (String backslash "")
     else if bool_decide (c = quote) then String backslash (String quote "")
     else String c "") +:+ quoteSQL v.
Proof.
  unfold quoteSQL. simpl. case_bool_decide as Hb.
  - rewrite ReplaceAll_app. done.
  - simpl. by case_bool_decide.
Qed.

Lemma lex_quoteSQL v acc rest :
  lex (InLiteral acc) (quoteSQL v +:+ rest) = lex (InLiteral (acc +:+ v)) rest.
Proof.
  revert acc. induction v as [|c v IH]; intros acc; [by rewrite string_app_nil|].
  rewrite quoteSQL_cons. rewrite <-(string_app_assoc acc (String c "") v : _ = acc +:+ String c v).
  rewrite <-IH. case_bool_decide as Hb; [subst c|case_bool_decide as Hq; [subst c|]].
  1, 2: etransitivity; [by apply (lex_silent _ backslash _ (InEscape acc))|by apply lex_silent].
  apply lex_silent. simpl. by rewrite !bool_decide_false.
Qed.

Fixpoint all_word (s : string) : bool :=
  match s with EmptyString => true | String c r => word_char c && all_word r end.

Lemma lex_word w acc rest :
  all_word w = true -> lex (InWord acc) (w +:+ rest) = lex (InWord (acc +:+ w)) rest.
Proof.
  revert acc. induction w as [|c w IH]; intros acc; [by rewrite string_app_nil|].
  cbn [all_word]. intros [Hc Hw]%andb_true_iff.
  rewrite <-(string_app_assoc acc (String c "") w : _ = acc +:+ String c w), <-IH by done.
  apply lex_silent. simpl. by rewrite Hc.
Qed.

Lemma fmt_d_word port :
  0 <= port -> exists c w, fmt_d port = String c w /\ word_char c = true /\ all_word w = true.
Proof.
  assert (forall d, all_word (NilEmpty.string_of_uint d) = true) as Hall.
  { induction d; simpl; done. }
  intros Hp. destruct port as [|p|p]; [by exists "0"%char, ""|..|lia].
  unfold fmt_d. simpl. pose proof (DecimalPos.Unsigned.to_uint_nonnil p).
  destruct (Pos.to_uint p) as [|d|d|d|d|d|d|d|d|d|d]; [done|..];
    (eexists _, _; split; [reflexivity|]; split; [reflexivity|apply Hall]).
Qed.

(** The tokens and the state after a piece of text. *)
Fixpoint lex_run (st : lexstate) (s : string) : list token * lexstate :=
  match s with
  | EmptyString => ([], st)
  | String c r =>
      let '(ts, st) := lex_step st c in
      let '(ts', st) := lex_run st r in (ts ++ ts', st)
  end.

Lemma lex_app st a b :
  lex st (a +:+ b) = app (lex_run st a).1 <$> lex (lex_run st a).2 b.
Proof.
  revert st. induction a as [|c a IH]; intros st; cbn [lex_run fst snd].
  - change ("" +:+ b) with b. by destruct (lex st b).
  - change (lex st (String c a +:+ b)) with (lex st (String c (a +:+ b))).
    destruct (lex_step st c) as [ts st'] eqn:Hst. rewrite (lex_emit _ _ _ _ _ Hst), IH.
    destruct (lex_run st' a) as [ts' st'']. simpl.
    destruct (lex st'' b); simpl; [by rewrite <-app_assoc|done].
Qed.

Lemma lex_number port rest :
  0 <= port -> lex Idle (fmt_d port +:+ String "," rest) =
    app [Word (fmt_d port); Symbol ","] <$> lex Idle rest.
Proof.
  intros (c & w & Heq & Hc & Hw)%fmt_d_word. rewrite Heq.
  assert (lex_step Idle c = ([], InWord (String c ""))) as Hs.
  { revert Hc. clear. destruct c as [[] [] [] [] [] [] [] []]; vm_compute; congruence. }
  change (String c w +:+ String "," rest) with (String c (w +:+ String "," rest)).
  rewrite (lex_silent _ _ _ _ Hs), lex_word by done. by apply lex_emit.
Qed.

(** An integer: a sign, when it is negative, and a number. *)
Definition integer_tokens (z : Z) : list token :=
  if z <? 0 then [Symbol "-"; Word (fmt_d (- z))] else [Word (fmt_d z)].

Lemma lex_port port rest :
  lex Idle (fmt_d port +:+ String "," rest) =
    app (integer_tokens port ++ [Symbol ","]) <$> lex Idle rest.
Proof.
  unfold integer_tokens. destruct (Z.ltb_spec port 0) as [Hp|Hp]; [|by apply lex_number].
  destruct port as [|p|p]; [done|done|].
  change (fmt_d (Z.neg p) +:+ String "," rest) with (String "-" (fmt_d (Z.pos p) +:+ String "," rest)).
  rewrite (lex_emit Idle "-" _ [Symbol "-"] Idle) by done.
  rewrite lex_number by done. by destruct (lex Idle rest).
Qed.

Lemma splitAddress_host_port host port :
  lacks ":" host = true -> is_int64 port = true ->
  splitAddress (host +:+ ":" +:+ fmt_d port) = (host, port).
Proof.
  intros Hh Hp. unfold splitAddress.
  change (host +:+ ":" +:+ fmt_d port) with (host +:+ String ":" (fmt_d port)).
  rewrite Split_app by done. rewrite Split_lacks.
  - unfold Atoi. by rewrite ParseInt_fmt_d.
  - assert (forall d, lacks ":" (NilEmpty.string_of_uint d) = true) as Hall
      by (induction d; simpl; done).
    destruct port as [|p|p]; [done|..]; unfold fmt_d; simpl;
      pose proof (DecimalPos.Unsigned.to_uint_nonnil p);
      destruct (Pos.to_uint p) as [|d|d|d|d|d|d|d|d|d|d]; try done; apply (Hall d).
Qed.
End text_facts.

(** Read a piece of known text. *)
Ltac lex_text :=
  match goal with
  | |- context [lex ?st (?a +:+ ?b)] =>
      rewrite (lex_app st a b);
      let v := eval vm_compute in (lex_run st a) in replace (lex_run st a) with v by (vm_compute; reflexivity);
      cbn [fst snd]
  end.

(** ** Theorems *)

Section theorems.
Import Client.

(** A status taken from a MySQL server is true of it and changes nothing:
    it never reports read-only flags that are not set, calls a node primary
    only if it is healthy and accepts writes, and healthy only if it was
    reachable without error and is either such a primary or a replica whose two
    threads run and whose lag is known. *)
Theorem status_is_sound c ctx s :
  wp mysql_server (Status c ctx) (fun st s' => s' = s /\ status_sound st s) s.
Proof. apply Status_sound. Qed.

(** C25: whichever statements fail, with or without effect, demotion and
    reconfiguration never make a server writable and leave both read-only flags
    on when they report success; promotion reports success only with both flags
    off, and on failure the server accepts writes only if it did before or if
    both flags were cleared. *)
Theorem role_changes_flags c ctx source s :
  wp mysql_server (Demote ctx) (fun r s' =>
    (accepts_writes s' = true -> s' = s /\ is_ok r = false) /\
    (is_ok r = true -> read_only s' = true /\ super_read_only s' = true)) s /\
  wp mysql_server (ReconfigureReplica c ctx source) (fun r s' =>
    (accepts_writes s' = true -> s' = s /\ is_ok r = false) /\
    (is_ok r = true -> read_only s' = true /\ super_read_only s' = true)) s /\
  wp mysql_server (Promote ctx) (fun r s' =>
    (is_ok r = true -> read_only s' = false /\ super_read_only s' = false) /\
    (accepts_writes s' = accepts_writes s \/ read_only s' = false /\ super_read_only s' = false)) s.
Proof.
  split_and!; (eapply wp_mono; [(apply SetReadOnly_on || apply Reconfigure_flags || apply Promote_flags)|]);
    intros r s'; unfold accepts_writes.
  1, 2: intros [->|[-> Hr]]; [done|]; rewrite Hr; naive_solver.
  intros [->|[Hr ->]]; [by auto|]. rewrite Hr. naive_solver.
Qed.

(** C26: whatever bytes the source address and the replication credentials
    hold, MySQL in its default SQL mode (where a backslash escapes the next
    character of a literal; the mode [NO_BACKSLASH_ESCAPES] is not covered) reads
    the statement that repoints a replica as the one intended: host, user and
    password arrive as the literals they are, the port, negative or not, as an
    integer, and nothing of them is read as SQL. *)
Theorem change_source_is_injection_free c source :
  let '(host, port) := splitAddress (an_Address source) in
  lex Idle (change_query c source) = Some (
    [Word "CHANGE"; Word "REPLICATION"; Word "SOURCE"; Word "TO";
     Word "SOURCE_HOST"; Symbol "="; Literal host; Symbol ",";
     Word "SOURCE_PORT"; Symbol "="] ++ integer_tokens port ++ [Symbol ",";
     Word "SOURCE_USER"; Symbol "="; Literal (mc_ReplicationUser c); Symbol ",";
     Word "SOURCE_PASSWORD"; Symbol "="; Literal (mc_ReplicationPass c); Symbol ",";
     Word "SOURCE_AUTO_POSITION"; Symbol "="; Word "1"]).
Proof.
  unfold change_query. destruct (splitAddress (an_Address source)) as [host port].
  unfold change_source.
  lex_text. rewrite lex_quoteSQL. lex_text.
  match goal with
  | |- context [fmt_d port +:+ ", SOURCE_USER = '" +:+ ?r] =>
      change (fmt_d port +:+ ", SOURCE_USER = '" +:+ r)
        with (fmt_d port +:+ String "," (" SOURCE_USER = '" +:+ r))
  end.
  rewrite lex_port. lex_text. rewrite lex_quoteSQL. lex_text.
  rewrite lex_quoteSQL. unfold integer_tokens. by case_match.
Qed.

(** Credentials that try to end the literal and to add a clause. *)
Definition hostile_config : MySQLNodeConfig := {|
  mc_ID := "db-1"; mc_Address := "10.0.0.1:3306"; mc_DSN := "";
  mc_ReplicationUser := "repl\"; mc_ReplicationPass := "', SOURCE_HOST = 'evil" |}.

Example hostile_change :
  lex Idle (change_query hostile_config
    {| an_ID := "db-2"; an_Address := "10.0.0.2:-5"; an_AgentURL := "" |}) = Some
    [Word "CHANGE"; Word "REPLICATION"; Word "SOURCE"; Word "TO";
     Word "SOURCE_HOST"; Symbol "="; Literal "10.0.0.2"; Symbol ",";
     Word "SOURCE_PORT"; Symbol "="; Symbol "-"; Word "5"; Symbol ",";
     Word "SOURCE_USER"; Symbol "="; Literal "repl\"; Symbol ",";
     Word "SOURCE_PASSWORD"; Symbol "="; Literal "', SOURCE_HOST = 'evil"; Symbol ",";
     Word "SOURCE_AUTO_POSITION"; Symbol "="; Word "1"].
Proof. vm_compute. reflexivity. Qed.

(** An address of a host (a name or an IPv4 address) and a port splits
    into just these; one without a port, or with a port that is no integer,
    stands for itself at port 3306. *)
Theorem split_address_round_trip host port :
  lacks ":" host = true -> is_int64 port = true ->
  splitAddress (host +:+ ":" +:+ fmt_d port) = (host, port) /\
  splitAddress host = (host, 3306) /\
  forall text, lacks ":" text = true -> Atoi text = None ->
    splitAddress (host +:+ ":" +:+ text) = (host +:+ ":" +:+ text, 3306).
Proof.
  intros Hh Hp. split_and!; [by apply splitAddress_host_port|..].
  - unfold splitAddress. by rewrite Split_lacks.
  - intros text Ht Hn. unfold splitAddress.
    change (host +:+ ":" +:+ text) with (host +:+ String ":" text).
    by rewrite Split_app, Split_lacks, Hn.
Qed.

(** The answer lets a promotion go on: success, or no channel to stop. *)
Definition passable (r : result unit) : bool :=
  match r with Ok _ => true | Err e => replicaChannelAbsent e end.

(** Before a statement that sets a variable, replication was stopped and its
    configuration removed. *)
Definition detached_before (X : Type) (tr : list (event sqlE)) (e : sqlE X) : Prop :=
  match e with
  | QExec ctx q => HasPrefix q "SET GLOBAL" = true ->
      exists stop reset rest, tr = Ev (QExec ctx "STOP REPLICA") stop ::
        Ev (QExec ctx "RESET REPLICA ALL") reset :: rest /\
        passable stop = true /\ passable reset = true
  | _ => True
  end.

Definition any_sql_answer (X : Type) (e : sqlE X) (x : X) : Prop := True.

Lemma SetReadOnly_detached ctx b stop reset :
  passable stop = true -> passable reset = true ->
  wp (history_spec any_sql_answer detached_before) (SetReadOnly ctx b) (fun _ _ => True)
    [Ev (QExec ctx "STOP REPLICA") stop; Ev (QExec ctx "RESET REPLICA ALL") reset].
Proof.
  intros Hs Hr. unfold SetReadOnly, try_exec. apply wp_try, wp_call.
  - intros _. by exists stop, reset, [].
  - intros [[]|e] h [_ ->]; [|done]. apply wp_call; [|done].
    intros _. eexists stop, reset, _. by split.
Qed.

Lemma Promote_detached ctx :
  wp (history_spec any_sql_answer detached_before) (Promote ctx) (fun _ _ => True) [].
Proof.
  unfold Promote, exec_unless_absent, try_exec.
  apply wp_try, wp_call; [done|]. intros stop h [_ ->].
  assert (passable stop = true -> wp (history_spec any_sql_answer detached_before)
    (try_else (call (QExec ctx "RESET REPLICA ALL"))
      (fun e => if negb (replicaChannelAbsent e) then Ret (Err e) else SetReadOnly ctx false)
      (fun _ => SetReadOnly ctx false)) (fun _ _ => True)
    [Ev (QExec ctx "STOP REPLICA") stop]) as Hnext.
  { intros Hstop. apply wp_try, wp_call; [done|]. intros reset h [_ ->].
    destruct reset as [[]|e] eqn:Hreset; [by apply SetReadOnly_detached|].
    destruct (replicaChannelAbsent e) eqn:He; [by apply SetReadOnly_detached|done]. }
  destruct stop as [[]|e] eqn:Hstop; [by apply Hnext|].
  destruct (replicaChannelAbsent e) eqn:He; [by apply Hnext|done].
Qed.

(** In every trace of a promotion at the server, a read-only flag is
    changed only after replication was stopped and its configuration removed,
    each with success or with the answer that there is no replication channel. *)
Theorem promote_detaches_first ctx tr r tr1 qctx q x tr2 :
  behaves (Promote ctx) tr r -> tr = tr1 ++ Ev (QExec qctx q) x :: tr2 ->
  HasPrefix q "SET GLOBAL" = true ->
  exists stop reset rest, tr1 = Ev (QExec qctx "STOP REPLICA") stop ::
    Ev (QExec qctx "RESET REPLICA ALL") reset :: rest /\
    passable stop = true /\ passable reset = true.
Proof.
  intros Hb Htr. apply (adequacy any_sql_answer detached_before _ _ _ _ (Promote_detached ctx) Hb)
    with (e := QExec qctx q) (x := x) (tr2 := tr2) (tr1 := tr1); [|done].
  by apply Forall_forall; intros [].
Qed.

Lemma promote_detaches_first_witness :
  exists stop reset rest,
    [Ev (QExec Background "STOP REPLICA") (Err "Error 3081: Replica is NOT running");
     Ev (QExec Background "RESET REPLICA ALL") (Ok tt)] =
    Ev (QExec Background "STOP REPLICA") stop ::
    Ev (QExec Background "RESET REPLICA ALL") reset :: rest /\
    passable stop = true /\ passable reset = true.
Proof.
  eapply (promote_detaches_first Background _ (Err "denied") _ Background
    "SET GLOBAL super_read_only = OFF" (Err "denied") []); [|reflexivity|reflexivity].
  simpl. eexists _, _. split; [reflexivity|]. vm_compute. eexists _, _. split; [reflexivity|].
  eexists _, _. split; [reflexivity|]. split; reflexivity.
Defined.
End theorems.
