(* ===== verification/Json.v ===== *)
(** * The wire format

    The program exchanges values through [encoding/json].  [Json A] is what it
    relies on for a type [A]: encoding an [A] and decoding the text, alone or
    followed by more input, gives the value back, with every byte of a string
    that is not valid UTF-8 replaced by U+FFFD ([sanitize]). *)
From Stdlib Require Import Ascii.
From S2P Require Import Prelude GoStd Model.

(** ** UTF-8 *)

Definition continuation (c : ascii) : bool := byte_in 128 191 c.

(** How many bytes the valid encoding at the front of the text has, [0] when
    there is none. *)
Definition rune_length (s : string) : nat :=
  match s with
  | EmptyString => 0
  | String a r =>
      if byte_in 0 127 a then 1
      else match r with
      | EmptyString => 0
      | String b r =>
          if byte_in 194 223 a && continuation b then 2
          else match r with
          | EmptyString => 0
          | String c r =>
              if (byte_in 224 224 a && byte_in 160 191 b
                  || byte_in 225 236 a && continuation b
                  || byte_in 237 237 a && byte_in 128 159 b
                  || byte_in 238 239 a && continuation b) && continuation c then 3
              else match r with
              | EmptyString => 0
              | String d _ =>
                  if (byte_in 240 240 a && byte_in 144 191 b
                      || byte_in 241 243 a && continuation b
                      || byte_in 244 244 a && byte_in 128 143 b)
                     && continuation c && continuation d then 4 else 0
              end
          end
      end
  end%nat.

Definition replacement_character : string :=
  String (ascii_of_nat 239) (String (ascii_of_nat 191) (String (ascii_of_nat 189) "")).

(** Replace the bytes that belong to no valid encoding; [skip] counts the
    bytes of the current encoding still to copy. *)
Fixpoint valid_text_from (skip : nat) (s : string) : string :=
  match s with
  | EmptyString => EmptyString
  | String c r =>
      match skip with
      | S skip => String c (valid_text_from skip r)
      | O => match rune_length s with
             | O => replacement_character +:+ valid_text_from 0 r
             | S n => String c (valid_text_from n r)
             end
      end
  end.
Definition valid_text (s : string) : string := valid_text_from 0 s.

(** [fmt.Sprintf("%q", s)]: quotes, backslashes, control characters and bytes
    that belong to no valid encoding are escaped; a multi-byte character is
    copied, as [strconv.Quote] does for the printable ones. *)
Definition hex_digit (n : nat) : ascii := ascii_of_nat (if (n <? 10)%nat then 48 + n else 87 + n).
Definition hex_escape (c : ascii) : string :=
  let n := nat_of_ascii c in
  "\x" +:+ String (hex_digit (n / 16)) (String (hex_digit (n mod 16)) "").
Definition escape_q (c : ascii) : string :=
  match nat_of_ascii c with
  | 34 | 92 => String (ascii_of_nat 92) (String c "")
  | 7 => "\a" | 8 => "\b" | 9 => "\t" | 10 => "\n" | 11 => "\v" | 12 => "\f" | 13 => "\r"
  | _ => if byte_in 32 126 c then String c "" else hex_escape c
  end%nat.
Fixpoint quoted_from (skip : nat) (s : string) : string :=
  match s with
  | EmptyString => EmptyString
  | String c r =>
      match skip with
      | S skip => String c (quoted_from skip r)
      | O => match rune_length s with
             | O => hex_escape c +:+ quoted_from 0 r
             | 1%nat => escape_q c +:+ quoted_from 0 r
             | S n => String c (quoted_from n r)
             end
      end
  end.
Definition dquote : string := String (ascii_of_nat 34) "".
Definition fmt_q (s : string) : string := dquote +:+ quoted_from 0 s +:+ dquote.

Example quoted_control : quoted_from 0 ("db" +:+ String (ascii_of_nat 10) (String (ascii_of_nat 255) dquote))
  = "db\n\xff\" +:+ dquote.
Proof. reflexivity. Qed.

(** ** Values *)

(** The value that arrives when a value is encoded and decoded. *)
Class Sanitize (A : Type) : Type := sanitize : A -> A.

#[export] Instance sanitize_string : Sanitize string := valid_text.
#[export] Instance sanitize_auth : Sanitize SwitchAuthorization := fun a =>
  {| OperationID := sanitize (OperationID a); FromEpoch := FromEpoch a; ToEpoch := ToEpoch a |}.
#[export] Instance sanitize_node : Sanitize AgentNodeConfig := fun n =>
  {| an_ID := sanitize (an_ID n); an_Address := sanitize (an_Address n);
     an_AgentURL := sanitize (an_AgentURL n) |}.
#[export] Instance sanitize_operation : Sanitize OperationRequest := fun r =>
  {| or_Authorization := sanitize (or_Authorization r) |}.
#[export] Instance sanitize_wait : Sanitize WaitGTIDRequest := fun r =>
  {| wr_Authorization := sanitize (wr_Authorization r); wr_GTID := sanitize (wr_GTID r);
     wr_TimeoutSeconds := wr_TimeoutSeconds r |}.
#[export] Instance sanitize_replica_request : Sanitize ReplicaRequest := fun r =>
  {| rr_Authorization := sanitize (rr_Authorization r); rr_Source := sanitize (rr_Source r) |}.
#[export] Instance sanitize_replica : Sanitize ReplicaStatus := fun r =>
  {| IOThreadRunning := IOThreadRunning r; SQLThreadRunning := SQLThreadRunning r;
     SecondsBehind := SecondsBehind r; LastIOError := sanitize (LastIOError r);
     LastSQLError := sanitize (LastSQLError r); rs_ExecutedGTID := sanitize (rs_ExecutedGTID r);
     RetrievedGTID := sanitize (RetrievedGTID r) |}.
#[export] Instance sanitize_status : Sanitize NodeStatus := fun s =>
  {| NodeID := sanitize (NodeID s); ns_Address := sanitize (ns_Address s);
     Reachable := Reachable s; Healthy := Healthy s; ns_Role := sanitize (ns_Role s);
     ServerUUID := sanitize (ServerUUID s); ReadOnly := ReadOnly s;
     SuperReadOnly := SuperReadOnly s; Replica := sanitize <$> Replica s;
     ns_Error := sanitize (ns_Error s); CheckedAt := CheckedAt s;
     FailureCount := FailureCount s |}.
#[export] Instance sanitize_cluster : Sanitize ClusterState := fun s =>
  {| cs_Name := sanitize (cs_Name s); Primary := sanitize (Primary s); Epoch := Epoch s;
     AutoFailover := AutoFailover s; UpdatedAt := UpdatedAt s |}.
#[export] Instance sanitize_task : Sanitize SwitchTask := fun t =>
  {| task_ID := sanitize (task_ID t); From := sanitize (From t); To := sanitize (To t);
     Automatic := Automatic t; DryRun := DryRun t; task_State := sanitize (task_State t);
     task_Error := sanitize (task_Error t); StartedAt := StartedAt t;
     FinishedAt := FinishedAt t |}.

(** ** Readers *)

(** What a reader supplies: its bytes and the error it ends with. *)
Definition stream : Type := string * option string.

Fixpoint take_bytes (n : Z) (s : string) : string :=
  match s with
  | EmptyString => EmptyString
  | String c r => if n <=? 0 then EmptyString else String c (take_bytes (n - 1) r)
  end.

Fixpoint byte_length (s : string) : Z :=
  match s with EmptyString => 0 | String _ r => 1 + byte_length r end.

(** ** Encoding and decoding

    [Marshal] is [json.Marshal]; [Unmarshal] is [json.Unmarshal] into a zero
    value; [Decode] is [json.NewDecoder(r).Decode] into a zero value, from a
    reader that supplies the given bytes and then fails with the given error
    ([None]: end of file); [DecodeStrict] is the same after
    [DisallowUnknownFields].  All three fail on an incomplete object. *)
Class Json (A : Type) `{!Sanitize A} : Type := {
  Marshal : A -> result string;
  Unmarshal : string -> result A;
  Decode : string -> option string -> result A;
  DecodeStrict : string -> option string -> result A;
  Unmarshal_Marshal : forall a s, Marshal a = Ok s -> Unmarshal s = Ok (sanitize a);
  Decode_Marshal : forall a s rest e, Marshal a = Ok s -> Decode (s +:+ rest) e = Ok (sanitize a);
  DecodeStrict_Marshal : forall a s rest e, Marshal a = Ok s ->
    DecodeStrict (s +:+ rest) e = Ok (sanitize a);
  Decode_incomplete : forall a s n e, Marshal a = Ok s -> n < byte_length s ->
    is_ok (Decode (take_bytes n s) e) = false;
  DecodeStrict_incomplete : forall a s n e, Marshal a = Ok s -> n < byte_length s ->
    is_ok (DecodeStrict (take_bytes n s) e) = false;
  Unmarshal_incomplete : forall a s n, Marshal a = Ok s -> n < byte_length s ->
    is_ok (Unmarshal (take_bytes n s)) = false;
  Decode_empty : forall e, is_ok (Decode EmptyString e) = false
}.

(** [io.LimitReader]: end of file after [n] bytes. *)
Definition LimitReader (n : Z) (r : stream) : stream :=
  if n <=? byte_length r.1 then (take_bytes n r.1, None) else r.

(** ** Lemmas *)

(** ASCII text is valid. *)
Fixpoint ascii_text (s : string) : bool :=
  match s with EmptyString => true | String c r => byte_in 0 127 c && ascii_text r end.

Lemma valid_text_ascii s : ascii_text s = true -> valid_text s = s.
Proof.
  unfold valid_text. induction s as [|c s IH]; [done|]. cbn [ascii_text].
  intros [Hc Hs]%andb_true_iff. cbn [valid_text_from rune_length]. rewrite Hc. by rewrite IH.
Qed.

Lemma valid_text_empty s : valid_text s = "" <-> s = "".
Proof.
  split; [|by intros ->]. destruct s as [|c s]; [done|]. unfold valid_text.
  cbn [valid_text_from]. by destruct (rune_length (String c s)).
Qed.

Lemma byte_length_nonneg s : 0 <= byte_length s.
Proof. induction s; simpl; lia. Qed.

Lemma byte_length_app a b : byte_length (a +:+ b) = byte_length a + byte_length b.
Proof.
  induction a as [|c a IH]; [done|].
  change (byte_length (String c a +:+ b)) with (1 + byte_length (a +:+ b)). rewrite IH. simpl. lia.
Qed.

(** A limit beyond the encoding cuts only what follows it. *)
Lemma LimitReader_app n a rest e :
  byte_length a <= n -> exists rest' e', LimitReader n (a +:+ rest, e) = (a +:+ rest', e').
Proof.
  intros Hn. unfold LimitReader. simpl. destruct (n <=? _); [|by eexists _, _].
  assert (exists rest', take_bytes n (a +:+ rest) = a +:+ rest') as [rest' ->]; [|by eexists _, _].
  revert n Hn. induction a as [|c a IH]; intros n Hn; [by eexists|]. simpl in Hn.
  pose proof (byte_length_nonneg a).
  change (String c a +:+ rest) with (String c (a +:+ rest)). cbn [take_bytes].
  destruct (Z.leb_spec n 0); [lia|]. destruct (IH (n - 1)) as [rest' ->]; [lia|]. by exists rest'.
Qed.

Lemma take_bytes_all n s : byte_length s <= n -> take_bytes n s = s.
Proof.
  revert n. induction s as [|c s IH]; intros n Hn; [done|]. simpl in *.
  pose proof (byte_length_nonneg s). destruct (Z.leb_spec n 0); [lia|]. by rewrite IH by lia.
Qed.

Lemma take_bytes_take m n s : take_bytes m (take_bytes n s) = take_bytes (Z.min m n) s.
Proof.
  revert m n. induction s as [|c s IH]; intros m n; [done|]. cbn [take_bytes].
  destruct (Z.leb_spec n 0).
  - destruct (Z.leb_spec (Z.min m n) 0); [done|lia].
  - cbn [take_bytes]. destruct (Z.leb_spec m 0), (Z.leb_spec (Z.min m n) 0); try lia; [done|].
    rewrite IH. do 2 f_equal. lia.
Qed.

Lemma take_bytes_app n a b :
  take_bytes n (a +:+ b) = if n <? byte_length a then take_bytes n a
    else a +:+ take_bytes (n - byte_length a) b.
Proof.
  revert n. induction a as [|c a IH]; intros n.
  - change ("" +:+ b) with b. cbn [byte_length take_bytes]. rewrite Z.sub_0_r.
    destruct (Z.ltb_spec n 0); [|done]. destruct b; [done|]. simpl.
    destruct (Z.leb_spec n 0); [done|lia].
  - change (String c a +:+ b) with (String c (a +:+ b)). cbn [byte_length take_bytes].
    pose proof (byte_length_nonneg a).
    destruct (Z.leb_spec n 0), (Z.ltb_spec n (1 + byte_length a)); try lia; [done|..];
      rewrite IH; destruct (Z.ltb_spec (n - 1) (byte_length a)); try lia; [done|].
    change (String c a +:+ ?x) with (String c (a +:+ x)). do 3 f_equal. lia.
Qed.

(** Whatever part of an encoded value a decoder gets to see, it finds the
    value or fails. *)
Lemma Decode_part {A} `{Json A} a s n rest e x :
  Marshal a = Ok s -> Decode (take_bytes n (s +:+ rest)) e = Ok x -> x = sanitize a.
Proof.
  intros Hm. rewrite take_bytes_app. destruct (Z.ltb_spec n (byte_length s)) as [Hn|Hn]; intros Hd.
  - pose proof (Decode_incomplete a s n e Hm Hn) as Hi. by rewrite Hd in Hi.
  - rewrite (Decode_Marshal _ _ _ _ Hm) in Hd. by simplify_eq.
Qed.

(** The same behind a limit. *)
Lemma Decode_limited {A} `{Json A} a s n m rest e x :
  Marshal a = Ok s ->
  (let '(bytes, e) := LimitReader m (take_bytes n (s +:+ rest), e) in Decode bytes e) = Ok x ->
  x = sanitize a.
Proof.
  intros Hm. unfold LimitReader. simpl. destruct (m <=? _); rewrite ?take_bytes_take;
    by apply Decode_part.
Qed.
