(* ===== verification/JsonText.v ===== *)
(** * JSON text

    The part of [encoding/json] that does not depend on the type of a value:
    values, the text they are written as, and the scanner that reads one value
    from the front of a text.  As in the library, the scanner is a machine that
    takes one byte at a time and keeps a stack of the arrays and objects it is
    in; a string is kept as it stands between its quotes and unquoted when it is
    decoded. *)
From Stdlib Require Import Ascii.
From S2P Require Import Prelude GoStd Json.

#[local] Unset Elimination Schemes.
(** A [JNumber] is its text; a [JString] and the name of a member are the text
    between the quotes. *)
Inductive json : Type :=
| JNull
| JBool (b : bool)
| JNumber (text : string)
| JString (raw : string)
| JArray (l : list json)
| JObject (members : list (string * json)).
#[local] Set Elimination Schemes.

(** Induction that reaches the values of arrays and objects. *)
Section json_induction.
Context (P : json -> Prop).
Context (Pnull : P JNull) (Pbool : forall b, P (JBool b)) (Pnumber : forall t, P (JNumber t))
  (Pstring : forall s, P (JString s)) (Parray : forall l, Forall P l -> P (JArray l))
  (Pobject : forall m, Forall (fun kv => P kv.2) m -> P (JObject m)).

Fixpoint json_nested_ind (j : json) : P j :=
  match j with
  | JNull => Pnull
  | JBool b => Pbool b
  | JNumber t => Pnumber t
  | JString s => Pstring s
  | JArray l => Parray l ((fix all l : Forall P l :=
      match l with
      | [] => Forall_nil_2 _
      | j :: l => Forall_cons_2 _ _ _ (json_nested_ind j) (all l)
      end) l)
  | JObject m => Pobject m ((fix all m : Forall (fun kv => P kv.2) m :=
      match m with
      | [] => Forall_nil_2 _
      | kv :: m => Forall_cons_2 _ _ _ (json_nested_ind kv.2) (all m)
      end) m)
  end.
End json_induction.

Module Text.

(** ** Writing *)

Definition backslash : ascii := ascii_of_nat 92.
Definition quotation : ascii := ascii_of_nat 34.

(** ["\u"] and four hexadecimal digits, for a code below 256. *)
Definition unicode_escape (n : nat) : string :=
  String backslash ("u00" +:+ String (hex_digit (n / 16)) (String (hex_digit (n mod 16)) "")).

(** The escape of an ASCII character; [<], [>] and [&] are escaped for HTML. *)
Definition escape_ascii (c : ascii) : string :=
  match nat_of_ascii c with
  | 34 => String backslash (String quotation "")
  | 92 => String backslash (String backslash "")
  | 8 => String backslash "b" | 9 => String backslash "t" | 10 => String backslash "n"
  | 12 => String backslash "f" | 13 => String backslash "r"
  | (60 | 62 | 38) as n => unicode_escape n
  | n => if (n <? 32)%nat then unicode_escape n else String c ""
  end%nat.

(** The text starts with U+2028 or U+2029, which are escaped too. *)
Definition line_separator (s : string) : bool :=
  match s with
  | String a (String b (String c _)) => byte_in 226 226 a && byte_in 128 128 b && byte_in 168 169 c
  | _ => false
  end.

Definition separator_escape (c : ascii) : string :=
  String backslash ("u202" +:+ if byte_in 168 168 c then "8" else "9").

(** The bytes of a string between its quotes; [skip] counts the bytes of the
    current character still to copy. *)
Fixpoint escape_from (skip : nat) (s : string) : string :=
  match s with
  | EmptyString => EmptyString
  | String a r =>
      match skip with
      | S skip => String a (escape_from skip r)
      | O =>
          if line_separator s then
            match r with
            | String _ (String c r) => separator_escape c +:+ escape_from 0 r
            | _ => EmptyString
            end
          else match rune_length s with
               | O => String backslash "ufffd" +:+ escape_from 0 r
               | 1%nat => escape_ascii a +:+ escape_from 0 r
               | S n => String a (escape_from n r)
               end
      end
  end.

Definition escape (s : string) : string := escape_from 0 s.

Definition quoted (raw : string) : string := String quotation (raw +:+ String quotation "").

Fixpoint joined (parts : list string) : string :=
  match parts with
  | [] => ""
  | [part] => part
  | part :: parts => part +:+ "," +:+ joined parts
  end.

Fixpoint print (j : json) : string :=
  match j with
  | JNull => "null"
  | JBool true => "true"
  | JBool false => "false"
  | JNumber text => text
  | JString s => quoted s
  | JArray l => "[" +:+ joined (map print l) +:+ "]"
  | JObject m => "{" +:+ joined (map (fun kv => quoted kv.1 +:+ ":" +:+ print kv.2) m) +:+ "}"
  end.

(** ** Unquoting *)

Definition hex_value (c : ascii) : option Z :=
  let n := Z.of_nat (nat_of_ascii c) in
  if byte_in 48 57 c then Some (n - 48)
  else if byte_in 97 102 c then Some (n - 87)
  else if byte_in 65 70 c then Some (n - 55)
  else None.

Definition hex4 (a b c d : ascii) : option Z :=
  match hex_value a, hex_value b, hex_value c, hex_value d with
  | Some a, Some b, Some c, Some d => Some (4096 * a + 256 * b + 16 * c + d)
  | _, _, _, _ => None
  end.

Definition byte (z : Z) : ascii := ascii_of_N (Z.to_N z).

(** The UTF-8 encoding of a character; surrogates become U+FFFD. *)
Definition encode_rune (r : Z) : string :=
  if r <? 128 then String (byte r) ""
  else if r <? 2048 then String (byte (192 + r / 64)) (String (byte (128 + r mod 64)) "")
  else if (55296 <=? r) && (r <=? 57343) then replacement_character
  else if r <? 65536 then
    String (byte (224 + r / 4096)) (String (byte (128 + r / 64 mod 64))
      (String (byte (128 + r mod 64)) ""))
  else
    String (byte (240 + r / 262144)) (String (byte (128 + r / 4096 mod 64))
      (String (byte (128 + r / 64 mod 64)) (String (byte (128 + r mod 64)) ""))).

(** [utf16.DecodeRune] of a pair of surrogates. *)
Definition surrogate_pair (high low : Z) : option Z :=
  if (55296 <=? high) && (high <? 56320) && (56320 <=? low) && (low <? 57344)
  then Some ((high - 55296) * 1024 + (low - 56320) + 65536) else None.

Definition simple_escape (c : ascii) : option ascii :=
  match nat_of_ascii c with
  | 34 | 92 | 47 => Some c
  | 98 => Some (ascii_of_nat 8) | 102 => Some (ascii_of_nat 12) | 110 => Some (ascii_of_nat 10)
  | 114 => Some (ascii_of_nat 13) | 116 => Some (ascii_of_nat 9)
  | _ => None
  end%nat.

Definition prepend (p : string) (o : option string) : option string :=
  match o with Some s => Some (p +:+ s) | None => None end.

(** The Go string a scanned string stands for. *)
Fixpoint unquote_from (skip : nat) (s : string) : option string :=
  match s with
  | EmptyString => Some EmptyString
  | String a r =>
      match skip with
      | S skip => prepend (String a "") (unquote_from skip r)
      | O =>
          if Ascii.eqb a backslash then
            match r with
            | String "u" (String h1 (String h2 (String h3 (String h4 r)))) =>
                match hex4 h1 h2 h3 h4 with
                | None => None
                | Some high =>
                    let one := prepend (encode_rune high) (unquote_from 0 r) in
                    match r with
                    | String b (String "u" (String l1 (String l2 (String l3 (String l4 r))))) =>
                        if Ascii.eqb b backslash then
                          match hex4 l1 l2 l3 l4 with
                          | Some low =>
                              match surrogate_pair high low with
                              | Some rune => prepend (encode_rune rune) (unquote_from 0 r)
                              | None => one
                              end
                          | None => one
                          end
                        else one
                    | _ => one
                    end
                end
            | String c r =>
                match simple_escape c with
                | Some c => prepend (String c "") (unquote_from 0 r)
                | None => None
                end
            | EmptyString => None
            end
          else if Ascii.eqb a quotation || byte_in 0 31 a then None
          else match rune_length s with
               | O => prepend replacement_character (unquote_from 0 r)
               | S n => prepend (String a "") (unquote_from n r)
               end
      end
  end.
Definition unquote (s : string) : option string := unquote_from 0 s.

(** ** Scanning *)

(** Inside a string: plain, after a backslash, or within the digits of an
    escape. *)
Inductive strstate : Type := Plain | Escaped | Hex (n : nat).
#[export] Instance strstate_eq_dec : EqDecision strstate.
Proof. solve_decision. Defined.

Definition str_step (e : strstate) (c : ascii) : option strstate :=
  match e with
  | Plain => if Ascii.eqb c backslash then Some Escaped
             else if byte_in 0 31 c then None else Some Plain
  | Escaped =>
      if Ascii.eqb c "u" then Some (Hex 4)
      else match simple_escape c with Some _ => Some Plain | None => None end
  | Hex n =>
      match hex_value c, n with
      | Some _, S (S n) => Some (Hex (S n))
      | Some _, _ => Some Plain
      | None, _ => None
      end
  end.

(** Inside a number. *)
Inductive numstate : Type := Minus | Zero | Digits | Point | Fraction | Exponent | ESign | EDigits.

Definition num_step (n : numstate) (c : ascii) : option numstate :=
  let digit := byte_in 48 57 c in
  let exponent := byte_in 69 69 c || byte_in 101 101 c in
  match n with
  | Minus => if byte_in 48 48 c then Some Zero else if digit then Some Digits else None
  | Zero => if byte_in 46 46 c then Some Point else if exponent then Some Exponent else None
  | Digits => if digit then Some Digits else if byte_in 46 46 c then Some Point
              else if exponent then Some Exponent else None
  | Point => if digit then Some Fraction else None
  | Fraction => if digit then Some Fraction else if exponent then Some Exponent else None
  | Exponent => if byte_in 43 43 c || byte_in 45 45 c then Some ESign
         else if digit then Some EDigits else None
  | ESign | EDigits => if digit then Some EDigits else None
  end.

Definition num_final (n : numstate) : bool :=
  match n with Zero | Digits | Fraction | EDigits => true | _ => false end.

(** The arrays and objects being read, innermost first, with the values read so
    far in reverse; an object also has the key of its current member. *)
Inductive frame : Type :=
| InArray (done : list json)
| InObject (done : list (string * json)) (key : string).

(** What comes next: a value or (the first one of an array) its end; a key or
    (the first one) the end of the object; a colon; a comma or the end; the rest
    of a string, a number or a literal; nothing. *)
Inductive mode : Type :=
| Value (first : bool)
| Key (first : bool)
| Colon
| Next
| InString (key : bool) (raw : string) (e : strstate)
| InNumber (text : string) (n : numstate)
| InLiteral (rest : string) (v : json)
| Done (v : json).

Definition state : Type := list frame * mode.

(** A value is complete. *)
Definition deliver (v : json) (stack : list frame) : state :=
  match stack with
  | [] => ([], Done v)
  | InArray done :: stack => (InArray (v :: done) :: stack, Next)
  | InObject done key :: stack => (InObject ((key, v) :: done) "" :: stack, Next)
  end.

Definition max_depth : Z := 10000.

Definition push (f : frame) (stack : list frame) (m : mode) : option state :=
  if Z.of_nat (length stack) <? max_depth then Some (f :: stack, m) else None.

Definition is_space (c : ascii) : bool :=
  byte_in 32 32 c || byte_in 9 10 c || byte_in 13 13 c.

(** The first byte of a value. *)
Definition begin_value (stack : list frame) (c : ascii) : option state :=
  if byte_in 123 123 c then push (InObject [] "") stack (Key true)
  else if byte_in 91 91 c then push (InArray []) stack (Value true)
  else if byte_in 34 34 c then Some (stack, InString false "" Plain)
  else if byte_in 45 45 c then Some (stack, InNumber "-" Minus)
  else if byte_in 48 48 c then Some (stack, InNumber "0" Zero)
  else if byte_in 49 57 c then Some (stack, InNumber (String c "") Digits)
  else if byte_in 116 116 c then Some (stack, InLiteral "rue" (JBool true))
  else if byte_in 102 102 c then Some (stack, InLiteral "alse" (JBool false))
  else if byte_in 110 110 c then Some (stack, InLiteral "ull" JNull)
  else None.

(** After an element of the innermost array or object. *)
Definition after_value (stack : list frame) (c : ascii) : option state :=
  if is_space c then Some (stack, Next)
  else match stack with
       | InArray done :: rest =>
           if byte_in 44 44 c then Some (stack, Value false)
           else if byte_in 93 93 c then Some (deliver (JArray (rev done)) rest) else None
       | InObject done _ :: rest =>
           if byte_in 44 44 c then Some (stack, Key false)
           else if byte_in 125 125 c then Some (deliver (JObject (rev done)) rest) else None
       | [] => None
       end.

(** The end of a string. *)
Definition end_string (stack : list frame) (key : bool) (raw : string) : option state :=
  if key then
    match stack with
    | InObject done _ :: stack => Some (InObject done raw :: stack, Colon)
    | _ => None
    end
  else Some (deliver (JString raw) stack).

(** One byte.  [Stop]: a number at the top level ended before it. *)
Inductive stepped : Type := Go (st : state) | Stop (v : json) | Fail.

Definition go (o : option state) : stepped := match o with Some st => Go st | None => Fail end.

Definition step (st : state) (c : ascii) : stepped :=
  let '(stack, m) := st in
  match m with
  | Value first =>
      if is_space c then Go st
      else if first && byte_in 93 93 c then
        match stack with
        | InArray done :: stack => Go (deliver (JArray (rev done)) stack)
        | _ => Fail
        end
      else go (begin_value stack c)
  | Key first =>
      if is_space c then Go st
      else if first && byte_in 125 125 c then
        match stack with
        | InObject done _ :: stack => Go (deliver (JObject (rev done)) stack)
        | _ => Fail
        end
      else if Ascii.eqb c quotation then Go (stack, InString true "" Plain)
      else Fail
  | Colon =>
      if is_space c then Go st
      else if byte_in 58 58 c then Go (stack, Value false) else Fail
  | Next => go (after_value stack c)
  | InString key raw e =>
      match e with
      | Plain =>
          if Ascii.eqb c quotation then go (end_string stack key raw)
          else match str_step e c with
               | Some e => Go (stack, InString key (raw +:+ String c "") e)
               | None => Fail
               end
      | _ => match str_step e c with
             | Some e => Go (stack, InString key (raw +:+ String c "") e)
             | None => Fail
             end
      end
  | InNumber text n =>
      match num_step n c with
      | Some n => Go (stack, InNumber (text +:+ String c "") n)
      | None =>
          if num_final n then
            match deliver (JNumber text) stack with
            | ([], Done v) => Stop v
            | (stack, _) => go (after_value stack c)
            end
          else Fail
      end
  | InLiteral rest v =>
      match rest with
      | String c' rest =>
          if Ascii.eqb c c' then
            match rest with
            | EmptyString => Go (deliver v stack)
            | _ => Go (stack, InLiteral rest v)
            end
          else Fail
      | EmptyString => Fail
      end
  | Done v => Stop v
  end.

(** A value and what follows it, an error, or a value that is not complete
    ([Some v] if only the end of input was missing to it). *)
Inductive scanned : Type :=
| Found (v : json) (rest : string)
| Syntax
| More (v : option json).

Definition at_end (st : state) : option json :=
  match st with
  | ([], InNumber text n) => if num_final n then Some (JNumber text) else None
  | _ => None
  end.

Fixpoint scan (st : state) (s : string) : scanned :=
  match st with
  | (_, Done v) => Found v s
  | _ =>
      match s with
      | EmptyString => More (at_end st)
      | String c r =>
          match step st c with
          | Go st => scan st r
          | Stop v => Found v s
          | Fail => Syntax
          end
      end
  end.

Definition start : state := ([], Value false).

Fixpoint all_space (s : string) : bool :=
  match s with EmptyString => true | String c r => is_space c && all_space r end.

(** The value a text consists of, as [Unmarshal] reads it. *)
Definition parse_all (s : string) : result json :=
  match scan start s with
  | Found v rest => if all_space rest then Ok v else Err "invalid character after top-level value"
  | Syntax => Err "invalid character"
  | More (Some v) => Ok v
  | More None => Err "unexpected end of JSON input"
  end.

(** The first value of a text, as a [Decoder] reads it from a reader that ends
    with [e]. *)
Definition parse_first (s : string) (e : option string) : result json :=
  match scan start s, e with
  | Found v _, _ => Ok v
  | Syntax, _ => Err "invalid character"
  | More _, Some e => Err e
  | More (Some v), None => Ok v
  | More None, None => Err "unexpected EOF"
  end.

Example scan_number : parse_all " -12.5e+3 " = Ok (JNumber "-12.5e+3").
Proof. reflexivity. Qed.
Example scan_nested : parse_all "[1, {} ,[ ] , null,true]" =
  Ok (JArray [JNumber "1"; JObject []; JArray []; JNull; JBool true]).
Proof. reflexivity. Qed.

(** ** Lemmas on characters *)

Definition high (c : ascii) : bool := byte_in 128 255 c.

(** The character at the front of a text: none, an ASCII one, or one of two to
    four bytes that is recognized whatever follows it. *)
Inductive front (a : ascii) : string -> Prop :=
| front_invalid r : rune_length (String a r) = 0%nat -> high a = true -> front a r
| front_ascii r : byte_in 0 127 a = true -> front a r
| front_two b r : high a = true -> high b = true ->
    (forall t, rune_length (String a (String b t)) = 2%nat) -> front a (String b r)
| front_three b c r : high a = true -> high b = true -> high c = true ->
    (forall t, rune_length (String a (String b (String c t))) = 3%nat) ->
    front a (String b (String c r))
| front_four b c d r : high a = true -> high b = true -> high c = true -> high d = true ->
    (forall t, rune_length (String a (String b (String c (String d t)))) = 4%nat) ->
    front a (String b (String c (String d r))).

Lemma byte_in_range lo hi c : byte_in lo hi c = true <-> (lo <= nat_of_ascii c <= hi)%nat.
Proof. unfold byte_in. rewrite andb_true_iff, !Nat.leb_le. done. Qed.

Lemma high_or_ascii c : high c = negb (byte_in 0 127 c).
Proof. by destruct c as [[] [] [] [] [] [] [] []]. Qed.

Lemma continuation_high c : continuation c = true -> high c = true.
Proof. unfold continuation, high. rewrite !byte_in_range. lia. Qed.

Lemma byte_in_high lo hi c : (128 <= lo)%nat -> (hi <= 255)%nat -> byte_in lo hi c = true -> high c = true.
Proof. intros ??. unfold high. rewrite !byte_in_range. lia. Qed.

Lemma front_of a r : front a r.
Proof.
  destruct (byte_in 0 127 a) eqn:Ha; [by apply front_ascii|].
  assert (high a = true) as Hh by by rewrite high_or_ascii, Ha.
  destruct (rune_length (String a r)) as [|n] eqn:Hn; [by apply front_invalid|].
  cbn [rune_length] in Hn. rewrite Ha in Hn.
  destruct r as [|b r]; [done|].
  destruct (byte_in 194 223 a && continuation b) eqn:H2.
  { apply front_two; [done|..].
    - apply andb_true_iff in H2 as [_ ?]. by apply continuation_high.
    - intros t. cbn [rune_length]. by rewrite Ha, H2. }
  destruct r as [|c r]; [done|].
  destruct (_ && continuation c) eqn:H3.
  { apply andb_true_iff in H3 as [H3 Hc]. apply front_three; [done|..].
    - rewrite !orb_true_iff, !andb_true_iff in H3.
      destruct H3 as [[[[_ H]|[_ H]]|[_ H]]|[_ H]]; (by apply continuation_high) || (by eapply byte_in_high, H; lia).
    - by apply continuation_high.
    - intros t. cbn [rune_length]. by rewrite Ha, H2, H3, Hc. }
  destruct r as [|d r]; [done|].
  destruct (_ && continuation c && continuation d) eqn:H4; [|done].
  apply andb_true_iff in H4 as [H4 Hd]. apply andb_true_iff in H4 as [H4 Hc].
  apply front_four; [done| |by apply continuation_high..|].
  - rewrite !orb_true_iff, !andb_true_iff in H4.
    destruct H4 as [[[_ H]|[_ H]]|[_ H]]; (by apply continuation_high) || (by eapply byte_in_high, H; lia).
  - intros t. cbn [rune_length]. rewrite Ha, H2.
    rewrite H3, H4, Hc, Hd. done.
Qed.
(** ** Quoting and unquoting *)

Lemma byte_is n c : byte_in n n c = true -> c = ascii_of_nat n.
Proof. rewrite byte_in_range. intros. rewrite <-(ascii_nat_embedding c). f_equal. lia. Qed.

Lemma line_separator_inv s :
  line_separator s = true -> exists c r, (c = ascii_of_nat 168 \/ c = ascii_of_nat 169) /\
    s = String (ascii_of_nat 226) (String (ascii_of_nat 128) (String c r)).
Proof.
  destruct s as [|a [|b [|c r]]]; try done. cbn [line_separator].
  intros [[Ha Hb]%andb_true_iff Hc]%andb_true_iff. apply byte_is in Ha as ->, Hb as ->.
  exists c, r. split; [|done]. apply byte_in_range in Hc.
  assert (nat_of_ascii c = 168 \/ nat_of_ascii c = 169)%nat as [E|E] by lia;
    [left|right]; by rewrite <-(ascii_nat_embedding c), E.
Qed.

(** An escape that is not one half of a pair stands for itself. *)
Lemma unquote_unicode h1 h2 h3 h4 v r :
  hex4 h1 h2 h3 h4 = Some v -> (v <? 55296) || (57343 <? v) = true ->
  unquote_from 0 (String backslash (String "u" (String h1 (String h2 (String h3 (String h4 r)))))) =
  prepend (encode_rune v) (unquote_from 0 r).
Proof.
  intros Hv Hs. cbn [unquote_from Ascii.eqb backslash]. simpl. rewrite Hv.
  assert (forall low, surrogate_pair v low = None) as Hp.
  { intros low. unfold surrogate_pair. destruct (Z.leb_spec 55296 v), (Z.ltb_spec v 56320); simpl; try done.
    rewrite orb_true_iff, !Z.ltb_lt in Hs. lia. }
  repeat case_match; try done; rewrite Hp in *; done.
Qed.

Lemma unquote_ascii c r :
  byte_in 0 127 c = true ->
  unquote_from 0 (escape_ascii c +:+ r) = prepend (String c "") (unquote_from 0 r).
Proof.
  destruct c as [[] [] [] [] [] [] [] []]; intros Hc;
    first [discriminate Hc | reflexivity | etransitivity; [eapply unquote_unicode; reflexivity|reflexivity]].
Qed.
Lemma unquote_high a s n :
  high a = true -> rune_length (String a s) = n -> unquote_from 0 (String a s) =
    match n with
    | O => prepend replacement_character (unquote_from 0 s)
    | S n => prepend (String a "") (unquote_from n s)
    end.
Proof.
  intros Ha <-. cbn [unquote_from]. assert (Ascii.eqb a backslash = false /\
    Ascii.eqb a quotation || byte_in 0 31 a = false) as [-> ->]; [|done].
  revert Ha. clear. by destruct a as [[] [] [] [] [] [] [] []].
Qed.

(** Reading back what was quoted gives the text with its invalid bytes
    replaced. *)
Lemma unquote_escape s : unquote (escape s) = Some (valid_text s).
Proof.
  unfold unquote, valid_text, escape.
  induction s as [s IH] using (well_founded_induction (well_founded_ltof _ String.length)).
  unfold ltof in IH. destruct s as [|a r]; [done|].
  cbn [escape_from]. destruct (line_separator (String a r)) eqn:Hsep.
  { apply line_separator_inv in Hsep as (c & r' & Hc & [= -> ->]).
    specialize (IH r' ltac:(simpl; lia)). destruct Hc as [-> | ->].
    - trans (prepend (encode_rune 8232) (unquote_from 0 (escape_from 0 r')));
        [by apply unquote_unicode|by rewrite IH].
    - trans (prepend (encode_rune 8233) (unquote_from 0 (escape_from 0 r')));
        [by apply unquote_unicode|by rewrite IH]. }
  destruct (front_of a r) as [r H0 Ha|r Ha|b r Ha Hb H2|b c r Ha Hb Hc H3|b c d r Ha Hb Hc Hd H4];
    specialize (IH r ltac:(simpl; lia)).
  - cbn [valid_text_from]. rewrite H0.
    trans (prepend (encode_rune 65533) (unquote_from 0 (escape_from 0 r)));
      [by apply unquote_unicode|by rewrite IH].
  - assert (rune_length (String a r) = 1%nat) as H1 by (cbn [rune_length]; by rewrite Ha).
    cbn [valid_text_from]. rewrite H1, unquote_ascii by done. by rewrite IH.
  - cbn [valid_text_from]. rewrite H2. cbn [escape_from]. rewrite (unquote_high _ _ _ Ha (H2 _)).
    cbn [unquote_from]. by rewrite IH.
  - cbn [valid_text_from]. rewrite H3. cbn [escape_from]. rewrite (unquote_high _ _ _ Ha (H3 _)).
    cbn [unquote_from]. by rewrite IH.
  - cbn [valid_text_from]. rewrite H4. cbn [escape_from]. rewrite (unquote_high _ _ _ Ha (H4 _)).
    cbn [unquote_from]. by rewrite IH.
Qed.

(** ** Scanning what was written *)

(** The state after a piece of a string. *)
Fixpoint str_run (e : strstate) (s : string) : option strstate :=
  match s with
  | EmptyString => Some e
  | String c r =>
      if Ascii.eqb c quotation && bool_decide (e = Plain) then None
      else match str_step e c with Some e => str_run e r | None => None end
  end.

Lemma str_run_app e a b :
  str_run e (a +:+ b) = match str_run e a with Some e => str_run e b | None => None end.
Proof.
  revert e. induction a as [|c a IH]; intros e; [done|].
  change (String c a +:+ b) with (String c (a +:+ b)). cbn [str_run].
  destruct (_ && _); [done|]. by destruct (str_step e c).
Qed.
Lemma str_run_high a s : high a = true -> str_run Plain (String a s) = str_run Plain s.
Proof.
  intros Ha. cbn [str_run]. assert (Ascii.eqb a quotation = false /\ str_step Plain a = Some Plain)
    as [-> ->]; [|done].
  revert Ha. clear. by destruct a as [[] [] [] [] [] [] [] []].
Qed.

Lemma str_run_ascii c s : byte_in 0 127 c = true -> str_run Plain (escape_ascii c +:+ s) = str_run Plain s.
Proof. destruct c as [[] [] [] [] [] [] [] []]; intros Hc; first [discriminate Hc | reflexivity]. Qed.

Lemma escape_run s : str_run Plain (escape s) = Some Plain.
Proof.
  unfold escape.
  induction s as [s IH] using (well_founded_induction (well_founded_ltof _ String.length)).
  unfold ltof in IH. destruct s as [|a r]; [done|].
  cbn [escape_from]. destruct (line_separator (String a r)) eqn:Hsep.
  { apply line_separator_inv in Hsep as (c & r' & Hc & [= -> ->]).
    specialize (IH r' ltac:(simpl; lia)). destruct Hc as [-> | ->]; exact IH. }
  destruct (front_of a r) as [r H0 Ha|r Ha|b r Ha Hb H2|b c r Ha Hb Hc H3|b c d r Ha Hb Hc Hd H4];
    specialize (IH r ltac:(simpl; lia)).
  - rewrite H0. exact IH.
  - assert (rune_length (String a r) = 1%nat) as -> by (cbn [rune_length]; by rewrite Ha).
    by rewrite str_run_ascii.
  - rewrite H2. cbn [escape_from]. by rewrite !str_run_high.
  - rewrite H3. cbn [escape_from]. by rewrite !str_run_high.
  - rewrite H4. cbn [escape_from]. by rewrite !str_run_high.
Qed.

Lemma scan_step st c r :
  scan st (String c r) = match step st c with
    | Go st => scan st r | Stop v => Found v (String c r) | Fail => Syntax end.
Proof. by destruct st as [k []]. Qed.

Lemma scan_in_string k b raw e t e' rest :
  str_run e t = Some e' ->
  scan (k, InString b raw e) (t +:+ rest) = scan (k, InString b (raw +:+ t) e') rest.
Proof.
  revert raw e. induction t as [|c t IH]; intros raw e Hrun.
  { cbn in Hrun. simplify_eq. by rewrite string_app_nil. }
  change (String c t +:+ rest) with (String c (t +:+ rest)). rewrite scan_step.
  cbn [str_run] in Hrun. destruct (_ && _) eqn:Hq; [done|].
  destruct (str_step e c) as [e1|] eqn:Hs; [|done].
  assert (step (k, InString b raw e) c = Go (k, InString b (raw +:+ String c "") e1)) as ->.
  { cbn [step]. rewrite Hs. destruct e; [|done..].
    rewrite bool_decide_eq_true_2, andb_true_r in Hq by done. by rewrite Hq. }
  rewrite IH by done. by rewrite string_app_assoc.
Qed.

Lemma scan_quoted k b raw rest :
  str_run Plain raw = Some Plain ->
  scan (k, InString b "" Plain) (raw +:+ String quotation rest) =
  match end_string k b raw with Some st => scan st rest | None => Syntax end.
Proof.
  intros Hraw. rewrite (scan_in_string _ _ _ _ _ _ _ Hraw). rewrite scan_step.
  change ("" +:+ raw) with raw. cbn [step].
  assert (Ascii.eqb quotation quotation = true) as -> by done. by destruct (end_string k b raw).
Qed.

(** The state after a piece of a number. *)
Fixpoint num_run (n : numstate) (s : string) : option numstate :=
  match s with
  | EmptyString => Some n
  | String c r => match num_step n c with Some n => num_run n r | None => None end
  end.

Lemma scan_in_number k text n t n' rest :
  num_run n t = Some n' ->
  scan (k, InNumber text n) (t +:+ rest) = scan (k, InNumber (text +:+ t) n') rest.
Proof.
  revert text n. induction t as [|c t IH]; intros text n Hrun.
  { cbn in Hrun. simplify_eq. by rewrite string_app_nil. }
  change (String c t +:+ rest) with (String c (t +:+ rest)). rewrite scan_step.
  cbn [num_run] in Hrun. cbn [step]. destruct (num_step n c) as [n1|]; [|done].
  rewrite IH by done. by rewrite string_app_assoc.
Qed.

(** A number as the scanner accepts it. *)
Definition is_number (text : string) : Prop :=
  exists c r text0 n n', text = String c r /\ is_space c = false /\ byte_in 93 93 c = false /\
    (forall k, begin_value k c = Some (k, InNumber text0 n)) /\ text0 = String c "" /\
    num_run n r = Some n' /\ num_final n' = true.

(** What may follow an element of an array or object. *)
Definition delimiter (c : ascii) : bool := byte_in 44 44 c || byte_in 93 93 c || byte_in 125 125 c.

Lemma delimiter_ends n c : num_final n = true -> delimiter c = true -> num_step n c = None.
Proof. destruct c as [[] [] [] [] [] [] [] []]; intros Hn Hc; try discriminate Hc; by destruct n. Qed.

Lemma scan_number_in f k b text c rest :
  is_number text -> delimiter c = true ->
  scan (f :: k, Value b) (text +:+ String c rest) =
  scan (deliver (JNumber text) (f :: k)) (String c rest).
Proof.
  intros (a & r & ? & n & n' & -> & Hsp & Hcl & Hbegin & -> & Hrun & Hfin) Hc.
  change (String a r +:+ String c rest) with (String a (r +:+ String c rest)).
  rewrite scan_step. cbn [step]. rewrite Hsp, Hcl, andb_false_r, Hbegin. cbn [go].
  rewrite (scan_in_number _ _ _ _ _ _ Hrun), scan_step. cbn [step].
  rewrite delimiter_ends, Hfin by done. destruct f; cbn [deliver]; by rewrite scan_step.
Qed.
Fixpoint depth (j : json) : Z :=
  match j with
  | JArray l => 1 + foldr Z.max 0 (map depth l)
  | JObject m => 1 + foldr Z.max 0 (map (fun kv => depth kv.2) m)
  | _ => 0
  end.

(** Its numbers are numbers and its strings can stand between quotes. *)
Definition quotable (raw : string) : Prop := str_run Plain raw = Some Plain.
Fixpoint proper (j : json) : Prop :=
  match j with
  | JNumber text => is_number text
  | JString raw => quotable raw
  | JArray l => foldr and True (map proper l)
  | JObject m => foldr and True (map (fun kv => quotable kv.1 /\ proper kv.2) m)
  | _ => True
  end.

(** A number must be followed by a delimiter. *)
Definition delimited (j : json) (k : list frame) (rest : string) : Prop :=
  match j with
  | JNumber _ => k <> [] /\ exists c r, rest = String c r /\ delimiter c = true
  | _ => True
  end.

Definition scans (j : json) : Prop := forall k b rest,
  proper j -> Z.of_nat (length k) + depth j <= max_depth -> delimited j k rest ->
  scan (k, Value b) (print j +:+ rest) = scan (deliver j k) rest.

Lemma delimited_by j f k c r : delimiter c = true -> delimited j (f :: k) (String c r).
Proof. intros Hc. destruct j; try done. split; [done|]. by exists c, r. Qed.

(** The elements of an array up to its end, and the members of an object. *)
Lemma scan_elements l : Forall scans l -> forall k b seen rest,
  l <> [] -> foldr and True (map proper l) ->
  Z.of_nat (length k) + 1 + foldr Z.max 0 (map depth l) <= max_depth ->
  scan (InArray seen :: k, Value b) (joined (map print l) +:+ String "]" rest) =
  scan (deliver (JArray (rev seen ++ l)) k) rest.
Proof.
  induction 1 as [|j l Hj Hl IH]; intros k b seen rest Hne Hp Hd; [done|]. clear Hne.
  cbn [map foldr] in Hp, Hd. destruct Hp as [Hpj Hpl].
  assert (Z.of_nat (length (InArray seen :: k)) + depth j <= max_depth) as Hdj by (cbn [length]; lia).
  destruct l as [|j' l].
  - cbn [map joined]. rewrite Hj by (done || by apply delimited_by).
    cbn [deliver]. by rewrite scan_step.
  - change (joined (map print (j :: j' :: l)))
      with (print j +:+ String "," (joined (map print (j' :: l)))).
    rewrite string_app_assoc. change (String "," ?s +:+ ?t) with (String "," (s +:+ t)).
    rewrite Hj by (done || by apply delimited_by). cbn [deliver]. rewrite scan_step.
    change (step (InArray (j :: seen) :: k, Next) ",")
      with (Go (InArray (j :: seen) :: k, Value false)). cbv iota beta.
    rewrite IH by (done || lia). cbn [rev]. by rewrite <-app_assoc.
Qed.
Lemma scan_members m : Forall (fun kv => scans kv.2) m -> forall k b seen key rest,
  m <> [] -> foldr and True (map (fun kv => quotable kv.1 /\ proper kv.2) m) ->
  Z.of_nat (length k) + 1 + foldr Z.max 0 (map (fun kv => depth kv.2) m) <= max_depth ->
  scan (InObject seen key :: k, Key b)
    (joined (map (fun kv => quoted kv.1 +:+ ":" +:+ print kv.2) m) +:+ String "}" rest) =
  scan (deliver (JObject (rev seen ++ m)) k) rest.
Proof.
  induction 1 as [|[name j] m Hj Hm IH]; intros k b seen key rest Hne Hp Hd; [done|]. clear Hne.
  cbn [map foldr fst snd] in Hp, Hd, Hj. destruct Hp as [[Hpn Hpj] Hpm].
  assert (forall x, Z.of_nat (length (InObject seen x :: k)) + depth j <= max_depth) as Hdj
    by (intros x; cbn [length]; lia).
  assert (forall tail, delimiter (match tail with String c _ => c | _ => " "%char end) = true ->
    scan (InObject seen key :: k, Key b) (quoted name +:+ ":" +:+ print j +:+ tail) =
    scan (InObject ((name, j) :: seen) "" :: k, Next) tail) as Hmember.
  { intros tail Htail. unfold quoted.
    change (String quotation ?s +:+ ?t) with (String quotation (s +:+ t)).
    rewrite scan_step. replace (step (InObject seen key :: k, Key b) quotation)
      with (Go (InObject seen key :: k, InString true "" Plain)) by by destruct b.
    rewrite string_app_assoc.
    change (String quotation "" +:+ ?t) with (String quotation t). rewrite scan_quoted by done.
    cbn [end_string]. change (":" +:+ ?t) with (String ":" t). rewrite scan_step.
    change (step (InObject seen name :: k, Colon) ":")
      with (Go (InObject seen name :: k, Value false)). cbv iota beta.
    destruct tail as [|c tail]; [done|]. by rewrite Hj by (done || by apply delimited_by). }
  destruct m as [|[name' j'] m].
  - cbn [map joined fst snd]. rewrite !string_app_assoc, Hmember by done. by rewrite scan_step.
  - change (joined (map _ ((name, j) :: (name', j') :: m)))
      with ((quoted name +:+ ":" +:+ print j) +:+ String "," (joined
        (map (fun kv => quoted kv.1 +:+ ":" +:+ print kv.2) ((name', j') :: m)))).
    rewrite !string_app_assoc, Hmember by done.
    change (String "," ?s +:+ ?t) with (String "," (s +:+ t)). rewrite scan_step.
    change (step (InObject ?s "" :: k, Next) ",") with (Go (InObject s "" :: k, Key false)).
    cbv iota beta. rewrite IH by (done || lia). cbn [rev]. by rewrite <-app_assoc.
Qed.

Lemma depths_nonneg l : 0 <= foldr Z.max 0 l.
Proof. induction l; cbn; lia. Qed.

Lemma push_ok f k m : Z.of_nat (length k) < max_depth -> push f k m = Some (f :: k, m).
Proof. intros Hk. unfold push. by destruct (Z.ltb_spec (Z.of_nat (length k)) max_depth); [|lia]. Qed.

(** Scanning what was written gives the value, wherever it stands. *)
Lemma scan_print j : scans j.
Proof.
  induction j as [|b|t|s|l IH|m IH] using json_nested_ind; intros k first rest Hp Hd Hf.
  - cbn [print]. by destruct first.
  - destruct b, first; done.
  - destruct Hf as [Hk (c & r & -> & Hc)]. destruct k as [|f k]; [done|]. by apply scan_number_in.
  - cbn [print]. unfold quoted.
    change (String quotation ?s +:+ ?t) with (String quotation (s +:+ t)). rewrite scan_step.
    replace (step (k, Value first) quotation) with (Go (k, InString false "" Plain))
      by by destruct first.
    rewrite string_app_assoc.
    change (String quotation "" +:+ ?t) with (String quotation t). by rewrite scan_quoted.
  - cbn [print proper depth] in *. rewrite !string_app_assoc.
    change ("[" +:+ ?s) with (String "[" s). rewrite scan_step.
    replace (step (k, Value first) "[") with (go (push (InArray []) k (Value true)))
      by by destruct first.
    pose proof (depths_nonneg (map depth l)). rewrite push_ok by lia. cbn [go].
    destruct l as [|j l]; [done|]. change ("]" +:+ rest) with (String "]" rest).
    by rewrite (scan_elements _ IH) by (done || lia).
  - cbn [print proper depth] in *. rewrite !string_app_assoc.
    change ("{" +:+ ?s) with (String "{" s). rewrite scan_step.
    replace (step (k, Value first) "{") with (go (push (InObject [] "") k (Key true)))
      by by destruct first.
    pose proof (depths_nonneg (map (fun kv => depth kv.2) m)). rewrite push_ok by lia. cbn [go].
    destruct m as [|j m]; [done|]. change ("}" +:+ rest) with (String "}" rest).
    by rewrite (scan_members _ IH) by (done || lia).
Qed.

(** ** Objects

    The values exchanged are objects, which end with their last byte: what
    follows is left alone, and a part of an object is not a value. *)
Section objects.
Context (m : list (string * json)).
Let j := JObject m.
Context (Hproper : proper j) (Hdepth : depth j <= max_depth).

Lemma scan_object rest : scan start (print j +:+ rest) = Found j rest.
Proof using All.
  unfold start. rewrite scan_print by (done || (cbn [length]; lia)). by destruct rest.
Qed.

Lemma parse_first_object rest e : parse_first (print j +:+ rest) e = Ok j.
Proof using All. unfold parse_first. by rewrite scan_object. Qed.

Lemma parse_all_object : parse_all (print j) = Ok j.
Proof using All.
  unfold parse_all. rewrite <-(string_app_nil (print j)). by rewrite scan_object.
Qed.
End objects.

(** Once a value that is not a number was found, more input changes only what
    follows it. *)
Lemma scan_extend st s t v rest :
  scan st s = Found v rest -> (forall text, v <> JNumber text) ->
  scan st (s +:+ t) = Found v (rest +:+ t).
Proof.
  revert st. induction s as [|c s IH]; intros [k md] Hs Hv.
  - destruct md; try done. cbn in Hs. simplify_eq. by destruct t.
  - change (String c s +:+ t) with (String c (s +:+ t)). rewrite scan_step in Hs |- *.
    destruct (step (k, md) c) as [st|v'|] eqn:Hstep; [by apply IH| |done].
    by simplify_eq.
Qed.

Lemma take_drop n s : exists d, s = take_bytes n s +:+ d /\
  byte_length d = byte_length s - byte_length (take_bytes n s).
Proof.
  revert n. induction s as [|c s IH]; intros n; [by exists ""|]. cbn [take_bytes].
  destruct (n <=? 0); [by exists (String c s); cbn; split; [|lia]|].
  destruct (IH (n - 1)) as (d & Hd & Hl). exists d. cbn [byte_length]. split; [|lia].
  change (String c ?x +:+ d) with (String c (x +:+ d)). by rewrite <-Hd.
Qed.

Lemma take_bytes_short n s :
  0 < byte_length s -> n < byte_length s -> byte_length (take_bytes n s) < byte_length s.
Proof.
  revert n. induction s as [|c s IH]; intros n; cbn [byte_length take_bytes]; [lia|].
  intros _ Hn. pose proof (byte_length_nonneg s).
  destruct (Z.leb_spec n 0); cbn [byte_length]; [lia|]. specialize (IH (n - 1)). lia.
Qed.

(** Inside an array or object no number is found at the top level. *)
Definition inside (st : state) : Prop :=
  match st.2 with Done v => forall text, v <> JNumber text | _ => st.1 <> [] end.

Lemma deliver_inside v k : k <> [] \/ (forall text, v <> JNumber text) -> inside (deliver v k).
Proof. destruct k as [|[] k]; cbn; naive_solver. Qed.

Lemma after_value_inside k c st : after_value k c = Some st -> k <> [] -> inside st.
Proof.
  unfold after_value. intros Hst Hk.
  destruct k as [|[] k]; repeat case_match; simplify_eq; try done; apply deliver_inside; by right.
Qed.

Lemma step_inside st c st' : inside st -> step st c = Go st' -> inside st'.
Proof.
  destruct st as [k md]. intros Hin Hs.
  assert (forall f m st, push f k m = Some st -> inside st \/ exists v, m = Done v) as Hpush.
  { unfold push. intros f m st. case_match; [|done]. intros [= <-]. destruct m; cbn; eauto. }
  destruct md as [first|first| | |b raw e|text n|lit v|v]; cbn [step inside fst snd] in *.
  - repeat case_match; simplify_eq; try done; [apply deliver_inside; by right|].
    unfold begin_value, go in Hs. repeat case_match; simplify_eq; try done;
      match goal with H : push _ _ _ = Some _ |- _ => by destruct (Hpush _ _ _ H) as [|[? [=]]] end.
  - repeat case_match; simplify_eq; try done. apply deliver_inside; by right.
  - repeat case_match; by simplify_eq.
  - unfold go in Hs. case_match eqn:Ha; [|done]. simplify_eq. by eapply after_value_inside.
  - assert (forall st, end_string k b raw = Some st -> inside st) as Hend.
    { unfold end_string. intros st. destruct b.
      - destruct k as [|[] k]; intros; by simplify_eq.
      - intros [= <-]. apply deliver_inside. by left. }
    unfold go in Hs. repeat case_match; simplify_eq; try done; eauto.
  - destruct (num_step n c); [by simplify_eq|]. destruct (num_final n); [|done].
    destruct k as [|f k]; [done|]. destruct f; cbn [deliver] in Hs; unfold go in Hs;
      (case_match eqn:Ha; [|done]); simplify_eq; by eapply after_value_inside.
  - repeat case_match; simplify_eq; try done. apply deliver_inside. by left.
  - done.
Qed.

Lemma scan_inside st s :
  inside st -> match scan st s with
    | Found v _ => forall text, v <> JNumber text
    | Syntax => True
    | More v => v = None
    end.
Proof.
  revert st. induction s as [|c s IH]; intros [k md] Hin.
  - destruct md; try done; cbn; by destruct k.
  - rewrite scan_step. destruct (step (k, md) c) as [st|v|] eqn:Hs; [|clear IH|done].
    + by eapply IH, step_inside.
    + destruct md; cbn [step] in Hs; unfold go in Hs; repeat case_match; simplify_eq; try done;
        destruct k as [|[]]; cbn in *; simplify_eq; done.
Qed.

Lemma parse_first_incomplete m n e :
  let j := JObject m in
  proper j -> depth j <= max_depth -> n < byte_length (print j) ->
  is_ok (parse_first (take_bytes n (print j)) e) = false.
Proof.
  intros j Hp Hd Hn. unfold parse_first.
  pose proof (scan_object m Hp Hd "") as Hwhole. fold j in Hwhole. rewrite string_app_nil in Hwhole.
  destruct (take_drop n (print j)) as (d & Hs & Hlen). apply take_bytes_short in Hn;
    [|change (print j) with (String "{" (joined (map (fun kv => quoted kv.1 +:+ ":" +:+ print kv.2) m)
       +:+ "}")); cbn [byte_length]; pose proof (byte_length_nonneg (joined (map (fun kv => quoted kv.1
       +:+ ":" +:+ print kv.2) m) +:+ "}")); lia].
  assert (match scan start (take_bytes n (print j)) with
    | Found v _ => forall text, v <> JNumber text | Syntax => True | More v => v = None end) as Hin.
  { change (print j) with (String "{" (joined (map (fun kv => quoted kv.1 +:+ ":" +:+ print kv.2) m)
      +:+ "}")). cbn [take_bytes]. destruct (n <=? 0); [done|]. rewrite scan_step.
    by apply scan_inside. }
  destruct (scan start (take_bytes n (print j))) as [v rest| |v] eqn:Hscan; [exfalso|done|].
  - rewrite Hs, (scan_extend _ _ _ _ _ Hscan Hin) in Hwhole. injection Hwhole as _ Hrest.
    destruct d; [change (byte_length "") with 0 in Hlen; lia|]. by destruct rest.
  - rewrite Hin. by destruct e.
Qed.

Lemma parse_all_incomplete m n :
  let j := JObject m in
  proper j -> depth j <= max_depth -> n < byte_length (print j) ->
  is_ok (parse_all (take_bytes n (print j))) = false.
Proof.
  intros j Hp Hd Hn. pose proof (parse_first_incomplete m n None Hp Hd Hn) as Hi.
  unfold parse_first, parse_all in *. fold j in Hi. by destruct (scan start _) as [| |[]].
Qed.
End Text.
