(* ===== verification/GoTime.v ===== *)
(** * Dates and their text

    The part of the [time] package a [time.Time] passes through when it is
    written to and read from JSON: the civil date of an instant and RFC 3339.
    Times are in UTC, as the program makes them with [UTC()]; a time read with
    another offset is the instant it denotes. *)
From Stdlib Require Import Ascii.
From S2P Require Import Prelude GoStd Model.

Module GoTime.

(** ** Civil dates *)

Definition is_leap (year : Z) : bool :=
  (year mod 4 =? 0) && (negb (year mod 100 =? 0) || (year mod 400 =? 0)).

(** The days of a year before its months, in a year that is no leap year. *)
Definition days_before (month : Z) : Z :=
  nth (Z.to_nat month) [0; 31; 59; 90; 120; 151; 181; 212; 243; 273; 304; 334; 365] 0.

(** The year of a day counted from January 1 of year 1, and its day in that
    year: cycles of 400, 100, 4 and 1 years are cut off, the last one of a
    century or of four years being a day short or long. *)
Definition year_of (d : Z) : Z * Z :=
  let n400 := d / 146097 in
  let d := d - 146097 * n400 in
  let n100 := d / 36524 in
  let n100 := n100 - n100 / 4 in
  let d := d - 36524 * n100 in
  let n4 := d / 1461 in
  let d := d - 1461 * n4 in
  let n1 := d / 365 in
  let n1 := n1 - n1 / 4 in
  (400 * n400 + 100 * n100 + 4 * n4 + n1 + 1, d - 365 * n1).

(** Month and day of a day of a year. *)
Definition month_of (leap : bool) (yday : Z) : Z * Z :=
  if leap && (yday =? 59) then (2, 29)
  else
    let day := if leap && (59 <? yday) then yday - 1 else yday in
    let month := day / 31 in
    let next := days_before (month + 1) in
    if next <=? day then (month + 2, day - next + 1)
    else (month + 1, day - days_before month + 1).

Definition date_of (d : Z) : Z * Z * Z :=
  let '(year, yday) := year_of d in
  let '(month, day) := month_of (is_leap year) yday in (year, month, day).

(** The days from January 1 of year 1 to that of [year]. *)
Definition days_to_year (year : Z) : Z :=
  let y := year - 1 in
  let n := y / 400 in
  let y := y - 400 * n in
  let d := 146097 * n in
  let n := y / 100 in
  let y := y - 100 * n in
  let d := d + 36524 * n in
  let n := y / 4 in
  let y := y - 4 * n in
  d + 1461 * n + 365 * y.

Definition days_of (year month day : Z) : Z :=
  days_to_year year + days_before (month - 1)
  + (if is_leap year && (3 <=? month) then 1 else 0) + (day - 1).

Definition days_in (month year : Z) : Z :=
  if (month =? 2) && is_leap year then 29
  else days_before month - days_before (month - 1).

(** ** Instants *)

(** Seconds from January 1 of year 1 to the Unix epoch. *)
Definition unix_offset : Z := 62135596800.

Definition nanos (t : time) : Z := t mod 1000000000.
Definition seconds (t : time) : Z := t / 1000000000 + unix_offset.

Definition instant (days secs ns : Z) : time :=
  (days * 86400 + secs - unix_offset) * 1000000000 + ns.

(** ** Writing *)

Definition digit (z : Z) : ascii := ascii_of_N (Z.to_N (48 + z)).

(** The last [n] decimal digits. *)
Fixpoint pad (n : nat) (z : Z) : string :=
  match n with
  | O => ""
  | S n => String (digit (z / 10 ^ Z.of_nat n mod 10)) (pad n z)
  end.

Fixpoint trim_zeros (s : string) : string :=
  match s with
  | EmptyString => EmptyString
  | String c r =>
      match trim_zeros r with
      | EmptyString => if Ascii.eqb c "0" then EmptyString else String c EmptyString
      | r => String c r
      end
  end.

Definition fraction (ns : Z) : string :=
  if ns =? 0 then "" else String "." (trim_zeros (pad 9 ns)).

(** [t.MarshalJSON] without the quotes, for a time in UTC. *)
Definition format_time (t : time) : result string :=
  let secs := seconds t in
  let '(year, month, day) := date_of (secs / 86400) in
  let s := secs mod 86400 in
  if (year <? 0) || (9999 <? year) then
    Err "Time.MarshalJSON: year outside of range [0,9999]"
  else Ok (pad 4 year +:+ "-" +:+ pad 2 month +:+ "-" +:+ pad 2 day +:+ "T" +:+
    pad 2 (s / 3600) +:+ ":" +:+ pad 2 (s / 60 mod 60) +:+ ":" +:+ pad 2 (s mod 60) +:+
    fraction (nanos t) +:+ "Z").

(** ** Reading *)

(** A number of exactly [n] digits between [lo] and [hi]. *)
Fixpoint digits (n : nat) (acc : Z) (s : string) : option (Z * string) :=
  match n with
  | O => Some (acc, s)
  | S n =>
      match s with
      | String c r =>
          match digit_of c with Some d => digits n (10 * acc + d) r | None => None end
      | EmptyString => None
      end
  end.

Definition number (n : nat) (lo hi : Z) (s : string) : option (Z * string) :=
  match digits n 0 s with
  | Some (v, r) => if (lo <=? v) && (v <=? hi) then Some (v, r) else None
  | None => None
  end.

Definition expect (c : ascii) (s : string) : option string :=
  match s with String c' r => if Ascii.eqb c c' then Some r else None | EmptyString => None end.

(** The digits at the front. *)
Fixpoint span_digits (s : string) : string * string :=
  match s with
  | String c r =>
      match digit_of c with
      | Some _ => let '(ds, r) := span_digits r in (String c ds, r)
      | None => ("", s)
      end
  | EmptyString => ("", "")
  end.

(** The value of the first [n] digits after a point, in units of the last. *)
Fixpoint fraction_value (n : nat) (s : string) : Z :=
  match n, s with
  | S n, String c r =>
      match digit_of c with Some d => d * 10 ^ Z.of_nat n + fraction_value n r | None => 0 end
  | _, _ => 0
  end.

Definition read_fraction (s : string) : Z * string :=
  match s with
  | String "." r =>
      match span_digits r with
      | (EmptyString, _) => (0, s)
      | (ds, r) => (fraction_value 9 ds, r)
      end
  | _ => (0, s)
  end.

(** The offset from UTC in seconds, at the end of the text. *)
Definition read_zone (s : string) : option Z :=
  if bool_decide (s = "Z") then Some 0
  else match s with
       | String sign r =>
           '(h, r) ← number 2 0 23 r;
           r ← expect ":" r;
           '(m, r) ← number 2 0 59 r;
           if negb (bool_decide (r = "")) then None
           else if Ascii.eqb sign "+" then Some ((h * 60 + m) * 60)
           else if Ascii.eqb sign "-" then Some (- ((h * 60 + m) * 60))
           else None
       | EmptyString => None
       end.

(** [t.UnmarshalJSON] of a quoted text. *)
Definition parse_time (s : string) : option time :=
  '(year, s) ← number 4 0 9999 s; s ← expect "-" s;
  '(month, s) ← number 2 1 12 s; s ← expect "-" s;
  '(day, s) ← number 2 1 (days_in month year) s; s ← expect "T" s;
  '(hour, s) ← number 2 0 23 s; s ← expect ":" s;
  '(min, s) ← number 2 0 59 s; s ← expect ":" s;
  '(sec, s) ← number 2 0 59 s;
  let '(ns, s) := read_fraction s in
  zone ← read_zone s;
  Some (instant (days_of year month day) (hour * 3600 + min * 60 + sec - zone) ns).

Example format_zero : format_time time_zero = Ok "0001-01-01T00:00:00Z".
Proof. reflexivity. Qed.
Example format_leap : format_time 1709210096012300000 = Ok "2024-02-29T12:34:56.0123Z".
Proof. reflexivity. Qed.
Example parse_offset : parse_time "2024-02-29T14:34:56.0123+02:00" = Some 1709210096012300000.
Proof. reflexivity. Qed.
Example parse_no_leap : parse_time "2023-02-29T00:00:00Z" = None.
Proof. reflexivity. Qed.

(** ** Dates and days correspond *)

#[local] Ltac Zify.zify_post_hook ::= Z.to_euclidean_division_equations.

(** A year is given by its place in the cycles; it is a leap year when it is the
    last of four, unless these are the last of a century that is not the last
    of four. *)
Lemma leap_in_cycle a b c n :
  0 <= b <= 3 -> 0 <= c <= 24 -> 0 <= n <= 3 ->
  is_leap (400 * a + 100 * b + 4 * c + n + 1) =
  (n =? 3) && (negb (c =? 24) || (b =? 3)).
Proof.
  intros Hb Hc Hn. unfold is_leap.
  replace (400 * a + 100 * b + 4 * c + n + 1) with (n + 1 + (100 * a + 25 * b + c) * 4) at 1 by ring.
  replace (400 * a + 100 * b + 4 * c + n + 1) with (4 * c + n + 1 + (4 * a + b) * 100) at 1 by ring.
  replace (400 * a + 100 * b + 4 * c + n + 1) with (100 * b + 4 * c + n + 1 + a * 400) by ring.
  rewrite !Z_mod_plus_full.
  destruct (Z.eqb_spec n 3), (Z.eqb_spec c 24), (Z.eqb_spec b 3), (Z.eqb_spec ((n + 1) mod 4) 0),
    (Z.eqb_spec ((4 * c + n + 1) mod 100) 0), (Z.eqb_spec ((100 * b + 4 * c + n + 1) mod 400) 0);
    simpl; try done; lia.
Qed.

Lemma days_in_cycle a b c n :
  0 <= b <= 3 -> 0 <= c <= 24 -> 0 <= n <= 3 ->
  days_to_year (400 * a + 100 * b + 4 * c + n + 1) = 146097 * a + 36524 * b + 1461 * c + 365 * n.
Proof. intros. unfold days_to_year. lia. Qed.

Lemma year_of_days d : let '(y, yd) := year_of d in
  days_to_year y + yd = d /\ 0 <= yd < 365 + Z.b2z (is_leap y).
Proof.
  unfold year_of.
  set (a := d / 146097). set (d1 := d - 146097 * a).
  set (b := d1 / 36524 - d1 / 36524 / 4). set (d2 := d1 - 36524 * b).
  set (c := d2 / 1461). set (d3 := d2 - 1461 * c).
  set (n := d3 / 365 - d3 / 365 / 4).
  assert (0 <= d1 < 146097) as Hd1 by lia.
  assert (0 <= b <= 3) as Hb by lia.
  assert (0 <= d2 <= 36524 /\ (d2 = 36524 -> b = 3)) as Hd2 by lia.
  assert (0 <= c <= 24) as Hc by lia.
  assert (0 <= d3 < 1461 /\ (c = 24 -> b < 3 -> d3 < 1460)) as Hd3 by lia.
  assert (0 <= n <= 3) as Hn by lia.
  rewrite leap_in_cycle, days_in_cycle by done. split; [lia|].
  destruct (Z.eqb_spec n 3), (Z.eqb_spec c 24), (Z.eqb_spec b 3); simpl; lia.
Qed.
(** The days of a month, as [days_in] has them. *)
Definition month_days (leap : bool) (month : Z) : Z :=
  if (month =? 2) && leap then 29 else days_before month - days_before (month - 1).

Definition month_ok (leap : bool) (yday : Z) : bool :=
  let '(month, day) := month_of leap yday in
  (1 <=? month) && (month <=? 12) && (1 <=? day) && (day <=? month_days leap month) &&
  (days_before (month - 1) + (if leap && (3 <=? month) then 1 else 0) + (day - 1) =? yday).

Lemma month_of_ok leap yday : 0 <= yday < 365 + Z.b2z leap -> month_ok leap yday = true.
Proof.
  intros Hy. assert (forallb (month_ok leap) (seqZ 0 (365 + Z.b2z leap)) = true) as Hall
    by by destruct leap; vm_compute.
  rewrite forallb_forall in Hall. apply Hall, list_elem_of_In, elem_of_seqZ. lia.
Qed.

(** The date of a day is a date, and the day of that date is the day. *)
Lemma days_of_date d : let '(year, month, day) := date_of d in
  days_of year month day = d /\ 1 <= month <= 12 /\ 1 <= day <= days_in month year.
Proof.
  unfold date_of. pose proof (year_of_days d) as Hy. destruct (year_of d) as [year yday].
  destruct Hy as [Hd Hy]. apply month_of_ok in Hy. unfold month_ok in Hy.
  destruct (month_of (is_leap year) yday) as [month day].
  rewrite !andb_true_iff, !Z.leb_le, Z.eqb_eq in Hy. destruct Hy as [[[[? ?] ?] Hin] Hyday].
  unfold days_of. split; [lia|]. split; [done|]. by split.
Qed.

(** ** Numbers of a fixed width *)

Lemma digit_of_digit z : 0 <= z < 10 -> digit_of (digit z) = Some z.
Proof.
  intros Hz. assert (z ∈ seqZ 0 10) as Hin by by apply elem_of_seqZ.
  repeat (apply elem_of_cons in Hin as [->|Hin]; [done|]). by apply elem_of_nil in Hin.
Qed.

Lemma digits_pad n acc z rest :
  digits n acc (pad n z +:+ rest) = Some (acc * 10 ^ Z.of_nat n + z mod 10 ^ Z.of_nat n, rest).
Proof.
  revert acc. induction n as [|n IH]; intros acc.
  { cbn. rewrite Z.mod_1_r. do 2 f_equal. lia. }
  cbn [pad]. change (String ?c ?s +:+ rest) with (String c (s +:+ rest)). cbn [digits].
  rewrite digit_of_digit by (apply Z.mod_pos_bound; lia). rewrite IH. do 2 f_equal.
  rewrite Nat2Z.inj_succ, Z.pow_succ_r, (Z.mul_comm 10 (10 ^ _)) by lia.
  rewrite (Z.rem_mul_r z) by lia. ring.
Qed.

Lemma number_pad n lo hi z rest :
  0 <= z < 10 ^ Z.of_nat n -> lo <= z <= hi -> number n lo hi (pad n z +:+ rest) = Some (z, rest).
Proof.
  intros Hz Hr. unfold number. rewrite digits_pad, Z.mod_small by done.
  rewrite Z.mul_0_l, Z.add_0_l.
  destruct (Z.leb_spec lo z), (Z.leb_spec z hi); simpl; (done || lia).
Qed.

Lemma expect_ok c rest : expect c (String c rest) = Some rest.
Proof. cbn [expect]. by rewrite Ascii.eqb_refl. Qed.

(** ** Fractions *)

Fixpoint all_digits (s : string) : bool :=
  match s with
  | EmptyString => true
  | String c r => match digit_of c with Some _ => all_digits r | None => false end
  end.

Lemma span_all_digits s rest :
  all_digits s = true -> span_digits (s +:+ String "Z" rest) = (s, String "Z" rest).
Proof.
  induction s as [|c s IH]; [done|]. change (String c s +:+ ?r) with (String c (s +:+ r)).
  cbn [all_digits span_digits]. destruct (digit_of c); [|done]. intros Hs. by rewrite IH.
Qed.

Lemma pad_digits n z : all_digits (pad n z) = true.
Proof.
  induction n as [|n IH]; [done|]. cbn [pad all_digits].
  by rewrite digit_of_digit by (apply Z.mod_pos_bound; lia).
Qed.

Lemma trim_digits s : all_digits s = true -> all_digits (trim_zeros s) = true.
Proof.
  induction s as [|c s IH]; [done|]. cbn [all_digits trim_zeros].
  destruct (digit_of c) eqn:Hc; [|done]. intros Hs%IH. destruct (trim_zeros s).
  - destruct (Ascii.eqb c "0"); [done|]. cbn. by rewrite Hc.
  - cbn [all_digits] in *. by rewrite Hc.
Qed.

Lemma fraction_value_empty n : fraction_value n "" = 0.
Proof. by destruct n. Qed.

Lemma fraction_value_trim n s : fraction_value n (trim_zeros s) = fraction_value n s.
Proof.
  revert n. induction s as [|c s IH]; intros n; [done|]. cbn [trim_zeros].
  destruct n as [|n]; [by destruct (trim_zeros s), (Ascii.eqb c "0")|]. specialize (IH n).
  destruct (trim_zeros s) as [|c' s'].
  - rewrite fraction_value_empty in IH. destruct (Ascii.eqb_spec c "0") as [->|_]; cbn [fraction_value].
    + change (digit_of "0") with (Some 0). by rewrite <-IH.
    + by rewrite <-IH, fraction_value_empty.
  - cbn [fraction_value]. cbn [fraction_value] in IH. by rewrite IH.
Qed.

Lemma fraction_value_pad n z : fraction_value n (pad n z) = z mod 10 ^ Z.of_nat n.
Proof.
  induction n as [|n IH]; [by rewrite Z.mod_1_r|]. cbn [pad fraction_value].
  rewrite digit_of_digit by (apply Z.mod_pos_bound; lia). rewrite IH.
  rewrite Nat2Z.inj_succ, Z.pow_succ_r, (Z.mul_comm 10 (10 ^ _)) by lia.
  rewrite (Z.rem_mul_r z) by lia. ring.
Qed.

Lemma read_fraction_ok ns :
  0 <= ns < 1000000000 -> read_fraction (fraction ns +:+ "Z") = (ns, "Z").
Proof.
  intros Hns. unfold fraction. destruct (Z.eqb_spec ns 0) as [->|Hne]; [done|].
  change (String "." ?s +:+ "Z") with (String "." (s +:+ "Z")). cbn [read_fraction].
  rewrite span_all_digits by (apply trim_digits, pad_digits).
  pose proof (fraction_value_trim 9 (pad 9 ns)) as Hv.
  rewrite fraction_value_pad, Z.mod_small in Hv by done.
  destruct (trim_zeros (pad 9 ns)); [rewrite fraction_value_empty in Hv; lia|]. by rewrite Hv.
Qed.

(** ** Reading what was written *)
Ltac time_field := rewrite number_pad by (cbn; lia); cbn [mbind option_bind].
Ltac time_mark :=
  match goal with |- context [expect ?c (_ +:+ ?r)] =>
    change (expect c (_ +:+ r)) with (expect c (String c r))
  end; rewrite expect_ok; cbn [mbind option_bind].

#[local] Opaque pad.
Lemma parse_format t s : format_time t = Ok s -> parse_time s = Some t.
Proof.
  unfold format_time. pose proof (days_of_date (seconds t / 86400)) as Hdate.
  destruct (date_of (seconds t / 86400)) as [[year month] day].
  destruct Hdate as (Hdays & Hm & Hd).
  destruct (Z.ltb_spec year 0), (Z.ltb_spec 9999 year); cbn [orb]; try done. intros [= <-].
  assert (days_in month year <= 31) as Hin.
  { unfold days_in, days_before. assert (month ∈ seqZ 1 12) as Hi by (apply elem_of_seqZ; lia).
    repeat (apply elem_of_cons in Hi as [->|Hi]; [by destruct (is_leap year)|]).
    by apply elem_of_nil in Hi. }
  set (x := seconds t mod 86400). assert (0 <= x < 86400) by (apply Z.mod_pos_bound; lia).
  assert (0 <= x / 3600 < 24 /\ 0 <= x / 60 mod 60 < 60 /\ 0 <= x mod 60 < 60) as (? & ? & ?) by lia.
  unfold parse_time.
  time_field. do 5 (time_mark; time_field).
  rewrite read_fraction_ok by (apply Z.mod_pos_bound; lia).
  change (read_zone "Z") with (Some 0). cbn [mbind option_bind]. f_equal. rewrite Hdays.
  assert (x / 3600 * 3600 + x / 60 mod 60 * 60 + x mod 60 = x) as Hx by lia.
  rewrite Hx, Z.sub_0_r. unfold instant.
  rewrite (Z.mul_comm _ 86400), <-Z.div_mod by done. unfold seconds, nanos. lia.
Qed.
End GoTime.
