(* ===== verification/Wire.v ===== *)
(** * The wire format of the program's types

    What [encoding/json] makes of the types of [internal/model/model.go]: the
    names and the [omitempty] options of the struct tags, and decoding into a
    struct.  A value whose integers do not fit their type does not exist in Go;
    encoding it is an error here.  The text of a decoding error is abbreviated. *)
From Stdlib Require Import Ascii.
From S2P Require Import Prelude GoStd Model Json JsonText GoTime.

(** ** Encoding *)

(** A member of an object, [None] when [omitempty] leaves it out. *)
Definition member : Type := string * result (option json).

Definition required (name : string) (r : result json) : member :=
  (name, match r with Ok j => Ok (Some j) | Err e => Err e end).

Definition enc_string (s : string) : json := JString (Text.escape s).
Definition enc_uint (z : Z) : result json :=
  if is_uint64 z then Ok (JNumber (fmt_d z)) else Err "not a uint64".
Definition enc_int (z : Z) : result json :=
  if is_int64 z then Ok (JNumber (fmt_d z)) else Err "not an int64".
Definition enc_time (t : time) : result json :=
  match GoTime.format_time t with Ok s => Ok (JString s) | Err e => Err e end.

(** A pointer: [null] when it is nil, else what it points to. *)
Definition enc_pointer {A} (enc : A -> result json) (o : option A) : result json :=
  match o with Some a => enc a | None => Ok JNull end.

Definition text (name s : string) : member := required name (Ok (enc_string s)).
Definition flag (name : string) (b : bool) : member := required name (Ok (JBool b)).
Definition text_omitempty (name s : string) : member :=
  (name, Ok (if bool_decide (s = "") then None else Some (enc_string s))).

Definition pointer_omitempty {A} (name : string) (enc : A -> result json) (o : option A) : member :=
  match o with Some a => required name (enc a) | None => (name, Ok None) end.

Fixpoint collect (members : list member) : result (list (string * json)) :=
  match members with
  | [] => Ok []
  | (name, r) :: members =>
      match r, collect members with
      | Ok (Some j), Ok ms => Ok ((name, j) :: ms)
      | Ok None, Ok ms => Ok ms
      | Err e, _ => Err e
      | _, Err e => Err e
      end
  end.

(** A [map[string]string]: its keys in the order of their bytes. *)
Definition key_order (a b : string * string) : Prop := String.leb a.1 b.1 = true.
#[export] Instance key_order_dec : RelDecision key_order.
Proof. intros a b. unfold key_order. apply _. Defined.
Definition map_members (m : list (string * string)) : list member :=
  (fun kv => text (Text.escape kv.1) kv.2) <$> merge_sort key_order m.

Definition enc_struct (members : list member) : result json :=
  match collect members with Ok ms => Ok (JObject ms) | Err e => Err e end.

(** ** Decoding

    A value is decoded into an existing one; [strict] is
    [DisallowUnknownFields]. *)
Definition decoder (A : Type) : Type := bool -> json -> A -> result A.

Definition mismatch {A} : result A := Err "json: cannot unmarshal value into Go struct field".

Definition dec_string : decoder string := fun _ j old =>
  match j with
  | JNull => Ok old
  | JString raw => match Text.unquote raw with Some s => Ok s | None => mismatch end
  | _ => mismatch
  end.

Definition dec_bool : decoder bool := fun _ j old =>
  match j with JNull => Ok old | JBool b => Ok b | _ => mismatch end.

(** [strconv.ParseUint(s, 10, 64)] *)
Definition ParseUint (s : string) : option Z :=
  match parse_unsigned s with Some n => if n <? two64 then Some n else None | None => None end.

Definition dec_uint : decoder Z := fun _ j old =>
  match j with
  | JNull => Ok old
  | JNumber t => match ParseUint t with Some n => Ok n | None => mismatch end
  | _ => mismatch
  end.

Definition dec_int : decoder Z := fun _ j old =>
  match j with
  | JNull => Ok old
  | JNumber t => match ParseInt t with Some n => Ok n | None => mismatch end
  | _ => mismatch
  end.

(** [Time.UnmarshalJSON], which reads the text between the quotes as it is. *)
Definition dec_time : decoder time := fun _ j old =>
  match j with
  | JNull => Ok old
  | JString raw =>
      match GoTime.parse_time raw with Some t => Ok t | None => Err "parsing time" end
  | _ => Err "Time.UnmarshalJSON: input is not a JSON string"
  end.

Definition dec_pointer {A} (zero : A) (dec : decoder A) : decoder (option A) := fun strict j old =>
  match j with
  | JNull => Ok None
  | _ => match dec strict j (default zero old) with Ok a => Ok (Some a) | Err e => Err e end
  end.

(** A slice, decoded into a nil one. *)
Definition dec_slice {A} (zero : A) (dec : decoder A) : decoder (list A) := fun strict j old =>
  match j with
  | JNull => Ok []
  | JArray l => foldr (fun j rest =>
      match dec strict j zero, rest with
      | Ok a, Ok l => Ok (a :: l)
      | Err e, _ => Err e
      | _, Err e => Err e
      end) (Ok []) l
  | _ => mismatch
  end.

(** A field of a struct. *)
Record field (A : Type) : Type := { f_name : string; f_decode : decoder A }.
Arguments f_name {A}.
Arguments f_decode {A}.

Definition fld {A B} (name : string) (dec : decoder B) (get : A -> B) (set : B -> A -> A) : field A :=
  {| f_name := name;
     f_decode strict j a :=
       match dec strict j (get a) with Ok b => Ok (set b a) | Err e => Err e end |}.

(** Names are compared up to case; two characters outside ASCII fold to an ASCII
    letter, the long s and the Kelvin sign. *)
Fixpoint fold_name (s : string) : string :=
  match s with
  | EmptyString => EmptyString
  | String a r =>
      match r with
      | String b r' =>
          if byte_in 197 197 a && byte_in 191 191 b then String "S" (fold_name r')
          else match r' with
               | String c r'' =>
                   if byte_in 226 226 a && byte_in 132 132 b && byte_in 170 170 c
                   then String "K" (fold_name r'')
                   else String (if byte_in 97 122 a then ascii_of_nat (nat_of_ascii a - 32) else a)
                          (fold_name r)
               | EmptyString =>
                   String (if byte_in 97 122 a then ascii_of_nat (nat_of_ascii a - 32) else a)
                     (fold_name r)
               end
      | EmptyString =>
          String (if byte_in 97 122 a then ascii_of_nat (nat_of_ascii a - 32) else a) EmptyString
      end
  end.

Definition find_field {A} (fields : list (field A)) (key : string) : option (field A) :=
  match List.find (fun f => String.eqb (f_name f) key) fields with
  | Some f => Some f
  | None => List.find (fun f => String.eqb (fold_name (f_name f)) (fold_name key)) fields
  end.

Fixpoint decode_members {A} (fields : list (field A)) (strict : bool) (ms : list (string * json))
    (a : A) : result A :=
  match ms with
  | [] => Ok a
  | (raw, j) :: ms =>
      match Text.unquote raw with
      | None => mismatch
      | Some key =>
          match find_field fields key with
          | Some f =>
              match f_decode f strict j a with
              | Ok a => decode_members fields strict ms a
              | Err e => Err e
              end
          | None =>
              if strict then Err ("json: unknown field " +:+ fmt_q key)
              else decode_members fields strict ms a
          end
      end
  end.

Definition dec_struct {A} (fields : list (field A)) : decoder A := fun strict j old =>
  match j with
  | JNull => Ok old
  | JObject ms => decode_members fields strict ms old
  | _ => mismatch
  end.

(** ** The library's functions *)
Section functions.
Context {A : Type} (enc : A -> result json) (dec : decoder A) (zero : A).

Definition marshal (a : A) : result string :=
  match enc a with Ok j => Ok (Text.print j) | Err e => Err e end.
Definition unmarshal (s : string) : result A :=
  match Text.parse_all s with Ok j => dec false j zero | Err e => Err e end.
Definition decode (strict : bool) (s : string) (e : option string) : result A :=
  match Text.parse_first s e with Ok j => dec strict j zero | Err e => Err e end.
End functions.

(** ** Encoded values are well formed *)

Definition good (d : Z) (j : json) : Prop := Text.proper j /\ Text.depth j <= d.

Lemma digits_number d : Text.num_run Text.Digits (DecimalString.NilEmpty.string_of_uint d) = Some Text.Digits.
Proof. by induction d. Qed.

(** The decimal digits of a positive number do not start with zero. *)
Lemma to_uint_head p d : Pos.to_uint p <> Decimal.D0 d.
Proof.
  intros Hp. pose proof (DecimalPos.Unsigned.to_uint_nonzero p) as Hz.
  assert (Decimal.unorm (Pos.to_uint p) = Pos.to_uint p) as Hn.
  { rewrite <-DecimalN.Unsigned.to_of. unfold N.of_uint. by rewrite DecimalPos.Unsigned.of_to. }
  rewrite Hp in Hn, Hz. unfold Decimal.unorm in Hn. cbn [Decimal.nzhead] in Hn.
  destruct (Decimal.nzhead d) eqn:Hd; simplify_eq. by eapply DecimalFacts.nzhead_nonzero.
Qed.

Lemma pos_number p : exists c r, DecimalString.NilZero.string_of_uint (Pos.to_uint p) = String c r /\
  byte_in 49 57 c = true /\ Text.num_run Text.Digits r = Some Text.Digits.
Proof.
  pose proof (DecimalPos.Unsigned.to_uint_nonnil p). pose proof (to_uint_head p).
  destruct (Pos.to_uint p) as [|d|d|d|d|d|d|d|d|d|d]; [done|naive_solver|..];
    (eexists _, _; split; [reflexivity|]; split; [done|apply digits_number]).
Qed.

Lemma fmt_d_number z : Text.is_number (fmt_d z).
Proof.
  unfold Text.is_number, fmt_d. destruct z as [|p|p]; cbn [Z.to_int DecimalString.NilZero.string_of_int].
  - by exists "0"%char, "", "0", Text.Zero, Text.Zero.
  - destruct (pos_number p) as (c & r & -> & Hc & Hr).
    exists c, r, (String c ""), Text.Digits, Text.Digits.
    assert (Text.is_space c = false /\ byte_in 93 93 c = false /\
      forall k, Text.begin_value k c = Some (k, Text.InNumber (String c "") Text.Digits)) as (? & ? & ?).
    { revert Hc. clear. by destruct c as [[] [] [] [] [] [] [] []]. }
    done.
  - destruct (pos_number p) as (c & r & -> & Hc & Hr).
    exists "-"%char, (String c r), "-", Text.Minus, Text.Digits. repeat split.
    change (Text.num_run Text.Minus (String c r)) with (match Text.num_step Text.Minus c with
      Some n => Text.num_run n r | None => None end).
    assert (Text.num_step Text.Minus c = Some Text.Digits) as -> by
      (revert Hc; clear; by destruct c as [[] [] [] [] [] [] [] []]). done.
Qed.

Lemma ParseUint_fmt_d z : is_uint64 z = true -> ParseUint (fmt_d z) = Some z.
Proof.
  unfold is_uint64. intros Hz. propify. destruct z as [|p|p]; [done| |lia].
  unfold ParseUint, fmt_d. cbn [Z.to_int DecimalString.NilZero.string_of_int].
  pose proof (parse_unsigned_pos p) as Hp. pose proof (DecimalPos.Unsigned.to_uint_nonnil p).
  destruct (Pos.to_uint p) eqn:Hu; [done|..]; cbn [DecimalString.NilZero.string_of_uint];
    rewrite Hp; destruct (Z.ltb_spec (Z.pos p) two64); (done || lia).
Qed.

(** Digits and the separators of a date can stand between quotes. *)
Lemma digits_run s t :
  GoTime.all_digits s = true -> Text.str_run Text.Plain (s +:+ t) = Text.str_run Text.Plain t.
Proof.
  induction s as [|c s IH]; [done|]. change (String c s +:+ t) with (String c (s +:+ t)).
  cbn [GoTime.all_digits]. unfold digit_of. destruct (byte_in 48 57 c) eqn:Hc; [|done].
  intros Hs. rewrite <-IH by done. revert Hc. clear.
  destruct c as [[] [] [] [] [] [] [] []]; intros Hc; first [discriminate Hc | reflexivity].
Qed.

Lemma format_time_quotable t s : GoTime.format_time t = Ok s -> Text.quotable s.
Proof.
  unfold GoTime.format_time, Text.quotable.
  destruct (GoTime.date_of _) as [[year month] day]. destruct (_ || _); [done|].
  intros Hs. assert (forall n z t, Text.str_run Text.Plain (GoTime.pad n z +:+ t) =
    Text.str_run Text.Plain t) as Hpad by (intros; apply digits_run, GoTime.pad_digits).
  apply (f_equal (fun r => match r with Ok s => s | Err e => e end)) in Hs. cbv beta iota in Hs. subst s.
  repeat (rewrite Hpad; change (String ?c "" +:+ ?r) with (String c r);
    change (Text.str_run Text.Plain (String _ ?r)) with (Text.str_run Text.Plain r)).
  unfold GoTime.fraction. destruct (_ =? 0); [done|].
  change (String "." ?a +:+ ?r) with (String "." (a +:+ r)).
  change (Text.str_run Text.Plain (String "." ?r)) with (Text.str_run Text.Plain r).
  by rewrite digits_run by apply GoTime.trim_digits, GoTime.pad_digits.
Qed.

Lemma good_string s : good 0 (enc_string s).
Proof. split; [apply Text.escape_run|done]. Qed.
Lemma good_bool b : good 0 (JBool b).
Proof. done. Qed.
Lemma good_uint z j : enc_uint z = Ok j -> good 0 j.
Proof. unfold enc_uint. case_match; [|done]. intros [= <-]. split; [apply fmt_d_number|done]. Qed.
Lemma good_int z j : enc_int z = Ok j -> good 0 j.
Proof. unfold enc_int. case_match; [|done]. intros [= <-]. split; [apply fmt_d_number|done]. Qed.
Lemma good_time t j : enc_time t = Ok j -> good 0 j.
Proof.
  unfold enc_time. destruct (GoTime.format_time t) eqn:Ht; [|done]. intros [= <-].
  split; [by eapply format_time_quotable|done].
Qed.

(** ** Decoding what was encoded *)
Lemma dec_string_enc strict s old : dec_string strict (enc_string s) old = Ok (valid_text s).
Proof. unfold dec_string, enc_string. by rewrite Text.unquote_escape. Qed.
Lemma dec_bool_enc strict b old : dec_bool strict (JBool b) old = Ok b.
Proof. done. Qed.
Lemma dec_uint_enc strict z j old : enc_uint z = Ok j -> dec_uint strict j old = Ok z.
Proof. unfold enc_uint. case_match; [|done]. intros [= <-]. cbn. by rewrite ParseUint_fmt_d. Qed.
Lemma dec_int_enc strict z j old : enc_int z = Ok j -> dec_int strict j old = Ok z.
Proof. unfold enc_int. case_match; [|done]. intros [= <-]. cbn. by rewrite ParseInt_fmt_d. Qed.
Lemma dec_time_enc strict t j old : enc_time t = Ok j -> dec_time strict j old = Ok t.
Proof.
  unfold enc_time. destruct (GoTime.format_time t) eqn:Ht; [|done]. intros [= <-].
  cbn. by erewrite GoTime.parse_format.
Qed.

(** Reading the member of a known field. *)
Lemma decode_member {A} (fields : list (field A)) strict name j ms a f :
  Text.unquote name = Some name -> find_field fields name = Some f ->
  decode_members fields strict ((name, j) :: ms) a =
    match f_decode f strict j a with
    | Ok a => decode_members fields strict ms a
    | Err e => Err e
    end.
Proof. intros Hn Hf. cbn [decode_members]. by rewrite Hn, Hf. Qed.

(** A pointer to a value that is not written as [null], read over a nil one. *)
Lemma dec_pointer_enc {A} (zero : A) (f : A -> A) enc dec strict o j :
  (forall a j, enc a = Ok j -> j <> JNull /\ dec strict j zero = Ok (f a)) ->
  enc_pointer enc o = Ok j -> dec_pointer zero dec strict j None = Ok (f <$> o).
Proof.
  intros He. destruct o as [a|]; cbn [enc_pointer]; [|by intros [= <-]].
  intros [Hn Hd]%He. unfold dec_pointer. destruct j; cbn [default]; try done; by rewrite Hd.
Qed.

(** ** Objects *)

Lemma good_mono d d' j : d <= d' -> good d j -> good d' j.
Proof. intros Hd [? ?]. split; [done|lia]. Qed.

(** A member that is written is well formed. *)
Definition member_ok (d : Z) (m : member) : Prop :=
  Text.quotable m.1 /\ forall j, m.2 = Ok (Some j) -> good d j.

Lemma required_ok d name r :
  Text.quotable name -> (forall j, r = Ok j -> good d j) -> member_ok d (required name r).
Proof. intros Hn Hr. split; [done|]. cbn. intros j. destruct r; [|done]. intros [= <-]. by apply Hr. Qed.

Lemma text_ok d name s : 0 <= d -> Text.quotable name -> member_ok d (text name s).
Proof.
  intros Hd Hn. apply required_ok; [done|]. intros j [= <-]. eapply good_mono, good_string. lia.
Qed.

Lemma omitempty_ok d name s : 0 <= d -> Text.quotable name -> member_ok d (text_omitempty name s).
Proof.
  intros Hd Hn. split; [done|]. cbn. intros j. case_bool_decide; [done|]. intros [= <-].
  eapply good_mono, good_string. lia.
Qed.

Lemma flag_ok d name b : 0 <= d -> Text.quotable name -> member_ok d (flag name b).
Proof. intros Hd Hn. apply required_ok; [done|]. intros j [= <-]. eapply good_mono, good_bool. lia. Qed.

(** A struct is an object whose members are those of its fields. *)
Lemma good_struct d members j :
  0 <= d -> Forall (member_ok d) members -> enc_struct members = Ok j ->
  exists ms, j = JObject ms /\ good (1 + d) j.
Proof.
  unfold enc_struct. intros Hd Hm. destruct (collect members) as [ms|] eqn:Hc; [|done].
  intros [= <-]. exists ms. split; [done|].
  cut (foldr and True (map (fun kv => Text.quotable kv.1 /\ Text.proper kv.2) ms) /\
    foldr Z.max 0 (map (fun kv => Text.depth kv.2) ms) <= d).
  { intros [? ?]. split; cbn [Text.proper Text.depth]; [done|lia]. }
  revert ms Hc. induction Hm as [|[name r] members [Hq Hg] Hm IH]; intros ms Hc; cbn in Hc.
  { simplify_eq. done. }
  destruct r as [[j|]|]; [..|done]; destruct (collect members) as [ms'|]; simplify_eq; [|by apply IH].
  destruct (IH ms' eq_refl) as [? ?], (Hg j eq_refl) as [? ?]. cbn. split; [done|]. lia.
Qed.

(** ** The interface

    A type that is encoded as an object, and for which decoding its encoding
    into a zero value gives the value back, satisfies what the program relies
    on. *)
Definition struct_json {A} `{!Sanitize A} (enc : A -> result json) (dec : decoder A) (zero : A)
    (Hgood : forall a j, enc a = Ok j -> exists ms, j = JObject ms /\ good 3 j)
    (Hdec : forall strict a j, enc a = Ok j -> dec strict j zero = Ok (sanitize a)) : Json A.
Proof.
  refine {| Marshal := marshal enc; Unmarshal := unmarshal dec zero;
            Decode := decode dec zero false; DecodeStrict := decode dec zero true |};
    unfold marshal, unmarshal, decode.
  - intros a s. destruct (enc a) as [j|] eqn:Ha; [|done]. intros [= <-].
    destruct (Hgood a j Ha) as (ms & -> & [Hp Hd]%(good_mono _ Text.max_depth)); [|done]. rewrite Text.parse_all_object by done. by apply Hdec.
  - intros a s rest e. destruct (enc a) as [j|] eqn:Ha; [|done]. intros [= <-].
    destruct (Hgood a j Ha) as (ms & -> & [Hp Hd]%(good_mono _ Text.max_depth)); [|done]. rewrite Text.parse_first_object by done. by apply Hdec.
  - intros a s rest e. destruct (enc a) as [j|] eqn:Ha; [|done]. intros [= <-].
    destruct (Hgood a j Ha) as (ms & -> & [Hp Hd]%(good_mono _ Text.max_depth)); [|done]. rewrite Text.parse_first_object by done. by apply Hdec.
  - intros a s n e. destruct (enc a) as [j|] eqn:Ha; [|done]. intros [= <-] Hn.
    destruct (Hgood a j Ha) as (ms & -> & [Hp Hd]%(good_mono _ Text.max_depth)); [|done].
    pose proof (Text.parse_first_incomplete ms n e Hp Hd Hn) as Hi.
    by destruct (Text.parse_first _ e).
  - intros a s n e. destruct (enc a) as [j|] eqn:Ha; [|done]. intros [= <-] Hn.
    destruct (Hgood a j Ha) as (ms & -> & [Hp Hd]%(good_mono _ Text.max_depth)); [|done].
    pose proof (Text.parse_first_incomplete ms n e Hp Hd Hn) as Hi.
    by destruct (Text.parse_first _ e).
  - intros a s n. destruct (enc a) as [j|] eqn:Ha; [|done]. intros [= <-] Hn.
    destruct (Hgood a j Ha) as (ms & -> & [Hp Hd]%(good_mono _ Text.max_depth)); [|done].
    pose proof (Text.parse_all_incomplete ms n Hp Hd Hn) as Hi.
    by destruct (Text.parse_all _).
  - intros [e|]; done.
Defined.
