(* ===== verification/Format.v ===== *)
(** * The JSON of [internal/model/model.go]

    One list of members (what is written, from the struct tags) and one of
    fields (where it is read to) per struct, and the proof that the two agree. *)
From Stdlib Require Import Ascii.
From S2P Require Import Prelude GoStd Model Json JsonText GoTime Wire.

(** Encoding a field may fail: the cases in which all were encoded. *)
Ltac encoded :=
  unfold enc_struct; cbn [collect required text flag text_omitempty];
  repeat match goal with
  | |- context [match ?e with Ok _ => _ | Err _ => _ end] =>
      lazymatch type of e with
      | result json => let E := fresh "E" in destruct e eqn:E; cbn [collect]
      end
  end; try done.

(** Read the members one by one; [nested] reads the value of a nested struct. *)
Ltac read_value nested :=
  first
    [ rewrite dec_string_enc
    | erewrite dec_uint_enc by eassumption
    | erewrite dec_int_enc by eassumption
    | erewrite dec_time_enc by eassumption
    | rewrite dec_bool_enc
    | nested ].
Ltac read_members nested :=
  unfold dec_struct;
  repeat (erewrite decode_member by reflexivity; cbn [f_decode fld]; read_value nested; cbv beta iota).

(** The members of a struct are well formed; [nested] proves it of those that
    are not strings, flags, numbers or times. *)
Ltac members_ok nested :=
  repeat (apply Forall_cons_2);
  [ first [ by apply text_ok | by apply omitempty_ok | by apply flag_ok
          | apply required_ok; [reflexivity|]; intros ? ?;
            first [ eapply good_mono, good_uint; [lia|eassumption]
                  | eapply good_mono, good_int; [lia|eassumption]
                  | eapply good_mono, good_time; [lia|eassumption] ]
          | nested ] .. | apply Forall_nil_2 ].

(** ** Authorizations and node configurations *)

Definition auth_members (a : SwitchAuthorization) : list member :=
  [text "operation_id" (OperationID a);
   required "from_epoch" (enc_uint (FromEpoch a));
   required "to_epoch" (enc_uint (ToEpoch a))].
Definition enc_auth (a : SwitchAuthorization) : result json := enc_struct (auth_members a).

Definition auth_zero : SwitchAuthorization := {| OperationID := ""; FromEpoch := 0; ToEpoch := 0 |}.
Definition auth_fields : list (field SwitchAuthorization) :=
  [fld "operation_id" dec_string OperationID
     (fun x a => {| OperationID := x; FromEpoch := FromEpoch a; ToEpoch := ToEpoch a |});
   fld "from_epoch" dec_uint FromEpoch
     (fun x a => {| OperationID := OperationID a; FromEpoch := x; ToEpoch := ToEpoch a |});
   fld "to_epoch" dec_uint ToEpoch
     (fun x a => {| OperationID := OperationID a; FromEpoch := FromEpoch a; ToEpoch := x |})].
Definition dec_auth : decoder SwitchAuthorization := dec_struct auth_fields.

Lemma good_auth a j : enc_auth a = Ok j -> exists ms, j = JObject ms /\ good 1 j.
Proof. apply (good_struct 0); [done|]. members_ok fail. Qed.

Lemma dec_auth_enc strict a j : enc_auth a = Ok j -> dec_auth strict j auth_zero = Ok (sanitize a).
Proof. unfold enc_auth, auth_members. encoded. intros [= <-]. unfold dec_auth. by read_members fail. Qed.

#[export] Instance json_auth : Json SwitchAuthorization.
Proof.
  apply (struct_json enc_auth dec_auth auth_zero); [|apply dec_auth_enc].
  intros a j Ha. destruct (good_auth a j Ha) as (ms & ? & Hg). exists ms. split; [done|].
  by eapply good_mono, Hg.
Defined.

Definition node_members (n : AgentNodeConfig) : list member :=
  [text "id" (an_ID n); text "address" (an_Address n); text "agent_url" (an_AgentURL n)].
Definition enc_node (n : AgentNodeConfig) : result json := enc_struct (node_members n).

Definition node_fields : list (field AgentNodeConfig) :=
  [fld "id" dec_string an_ID
     (fun x n => {| an_ID := x; an_Address := an_Address n; an_AgentURL := an_AgentURL n |});
   fld "address" dec_string an_Address
     (fun x n => {| an_ID := an_ID n; an_Address := x; an_AgentURL := an_AgentURL n |});
   fld "agent_url" dec_string an_AgentURL
     (fun x n => {| an_ID := an_ID n; an_Address := an_Address n; an_AgentURL := x |})].
Definition dec_node : decoder AgentNodeConfig := dec_struct node_fields.

Lemma good_node n j : enc_node n = Ok j -> exists ms, j = JObject ms /\ good 1 j.
Proof. apply (good_struct 0); [done|]. members_ok fail. Qed.

Lemma dec_node_enc strict n j :
  enc_node n = Ok j -> dec_node strict j AgentNodeConfig_zero = Ok (sanitize n).
Proof. unfold enc_node, node_members. encoded. intros [= <-]. unfold dec_node. by read_members fail. Qed.

(** ** Requests *)

Ltac nested_auth := first [ erewrite dec_auth_enc by eassumption | erewrite dec_node_enc by eassumption ].
Ltac nested_good H := apply required_ok; [reflexivity|]; intros ? ?;
  edestruct H as (? & ? & ?); [eassumption|]; eapply good_mono; [|eassumption]; lia.

Definition operation_members (r : OperationRequest) : list member :=
  [required "authorization" (enc_auth (or_Authorization r))].
Definition operation_zero : OperationRequest := {| or_Authorization := auth_zero |}.
Definition operation_fields : list (field OperationRequest) :=
  [fld "authorization" dec_auth or_Authorization (fun x _ => {| or_Authorization := x |})].

#[export] Instance json_operation : Json OperationRequest.
Proof.
  apply (struct_json (fun r => enc_struct (operation_members r)) (dec_struct operation_fields)
    operation_zero).
  - intros a j Ha. eapply (good_struct 2) in Ha; [done..|]. members_ok ltac:(nested_good good_auth).
  - intros strict a j. unfold operation_members. encoded. intros [= <-]. by read_members nested_auth.
Defined.

Definition wait_members (r : WaitGTIDRequest) : list member :=
  [required "authorization" (enc_auth (wr_Authorization r));
   text "gtid" (wr_GTID r);
   required "timeout_seconds" (enc_int (wr_TimeoutSeconds r))].
Definition wait_zero : WaitGTIDRequest :=
  {| wr_Authorization := auth_zero; wr_GTID := ""; wr_TimeoutSeconds := 0 |}.
Definition wait_fields : list (field WaitGTIDRequest) :=
  [fld "authorization" dec_auth wr_Authorization
     (fun x r => {| wr_Authorization := x; wr_GTID := wr_GTID r; wr_TimeoutSeconds := wr_TimeoutSeconds r |});
   fld "gtid" dec_string wr_GTID
     (fun x r => {| wr_Authorization := wr_Authorization r; wr_GTID := x;
                    wr_TimeoutSeconds := wr_TimeoutSeconds r |});
   fld "timeout_seconds" dec_int wr_TimeoutSeconds
     (fun x r => {| wr_Authorization := wr_Authorization r; wr_GTID := wr_GTID r; wr_TimeoutSeconds := x |})].

#[export] Instance json_wait : Json WaitGTIDRequest.
Proof.
  apply (struct_json (fun r => enc_struct (wait_members r)) (dec_struct wait_fields) wait_zero).
  - intros a j Ha. eapply (good_struct 2) in Ha; [done..|]. members_ok ltac:(nested_good good_auth).
  - intros strict a j. unfold wait_members. encoded. intros [= <-]. by read_members nested_auth.
Defined.

Definition replica_request_members (r : ReplicaRequest) : list member :=
  [required "authorization" (enc_auth (rr_Authorization r));
   required "source" (enc_node (rr_Source r))].
Definition replica_request_zero : ReplicaRequest :=
  {| rr_Authorization := auth_zero; rr_Source := AgentNodeConfig_zero |}.
Definition replica_request_fields : list (field ReplicaRequest) :=
  [fld "authorization" dec_auth rr_Authorization
     (fun x r => {| rr_Authorization := x; rr_Source := rr_Source r |});
   fld "source" dec_node rr_Source
     (fun x r => {| rr_Authorization := rr_Authorization r; rr_Source := x |})].

#[export] Instance json_replica_request : Json ReplicaRequest.
Proof.
  apply (struct_json (fun r => enc_struct (replica_request_members r))
    (dec_struct replica_request_fields) replica_request_zero).
  - intros a j Ha. eapply (good_struct 2) in Ha; [done..|].
    members_ok ltac:(first [nested_good good_auth | nested_good good_node]).
  - intros strict a j. unfold replica_request_members. encoded. intros [= <-].
    by read_members nested_auth.
Defined.

(** ** Statuses *)

(** [omitempty] leaves out an empty string and a nil pointer; an encoder that
    leaves them out writes what the decoder's zero value already holds. *)
Ltac left_out :=
  repeat match goal with
  | |- context [bool_decide (?s = EmptyString)] => is_var s; case_bool_decide; [subst s|]; cbn [collect]
  end.

Definition replica_members (r : ReplicaStatus) : list member :=
  [flag "io_thread_running" (IOThreadRunning r);
   flag "sql_thread_running" (SQLThreadRunning r);
   required "seconds_behind" (enc_pointer enc_int (SecondsBehind r));
   text_omitempty "last_io_error" (LastIOError r);
   text_omitempty "last_sql_error" (LastSQLError r);
   text_omitempty "executed_gtid" (rs_ExecutedGTID r);
   text_omitempty "retrieved_gtid" (RetrievedGTID r)].
Definition enc_replica (r : ReplicaStatus) : result json := enc_struct (replica_members r).

Definition replica_zero : ReplicaStatus :=
  {| IOThreadRunning := false; SQLThreadRunning := false; SecondsBehind := None; LastIOError := "";
     LastSQLError := ""; rs_ExecutedGTID := ""; RetrievedGTID := "" |}.
Definition replica_fields : list (field ReplicaStatus) :=
  [fld "io_thread_running" dec_bool IOThreadRunning (fun x '(Build_ReplicaStatus _ b c d e f g) =>
     Build_ReplicaStatus x b c d e f g);
   fld "sql_thread_running" dec_bool SQLThreadRunning (fun x '(Build_ReplicaStatus a _ c d e f g) =>
     Build_ReplicaStatus a x c d e f g);
   fld "seconds_behind" (dec_pointer 0 dec_int) SecondsBehind (fun x '(Build_ReplicaStatus a b _ d e f g) =>
     Build_ReplicaStatus a b x d e f g);
   fld "last_io_error" dec_string LastIOError (fun x '(Build_ReplicaStatus a b c _ e f g) =>
     Build_ReplicaStatus a b c x e f g);
   fld "last_sql_error" dec_string LastSQLError (fun x '(Build_ReplicaStatus a b c d _ f g) =>
     Build_ReplicaStatus a b c d x f g);
   fld "executed_gtid" dec_string rs_ExecutedGTID (fun x '(Build_ReplicaStatus a b c d e _ g) =>
     Build_ReplicaStatus a b c d e x g);
   fld "retrieved_gtid" dec_string RetrievedGTID (fun x '(Build_ReplicaStatus a b c d e f _) =>
     Build_ReplicaStatus a b c d e f x)].
Definition dec_replica : decoder ReplicaStatus := dec_struct replica_fields.

Lemma good_replica r j : enc_replica r = Ok j -> exists ms, j = JObject ms /\ good 1 j.
Proof.
  apply (good_struct 0); [done|].
  members_ok ltac:(apply required_ok; [reflexivity|]; destruct (SecondsBehind r);
    [apply good_int|by intros ? [= <-]]).
Qed.

Lemma dec_lag_enc strict o j : enc_pointer enc_int o = Ok j -> dec_pointer 0 dec_int strict j None = Ok o.
Proof.
  intros Ho. erewrite (dec_pointer_enc _ id); [|intros a j' Ha|eassumption]; [by destruct o|].
  split; [|by apply dec_int_enc]. revert Ha. unfold enc_int. case_match; [|done]. by intros [= <-].
Qed.

Lemma dec_replica_enc strict r j : enc_replica r = Ok j -> dec_replica strict j replica_zero = Ok (sanitize r).
Proof.
  unfold enc_replica, replica_members, dec_replica. destruct r as [io sql lag ioe sqle ex re].
  cbn [IOThreadRunning SQLThreadRunning SecondsBehind LastIOError LastSQLError rs_ExecutedGTID RetrievedGTID].
  encoded; left_out; intros [= <-].
  all: unfold replica_zero; read_members ltac:(erewrite dec_lag_enc by eassumption). all: reflexivity.
Qed.

Definition status_members (s : NodeStatus) : list member :=
  [text "node_id" (NodeID s);
   text "address" (ns_Address s);
   flag "reachable" (Reachable s);
   flag "healthy" (Healthy s);
   text "role" (ns_Role s);
   text_omitempty "server_uuid" (ServerUUID s);
   flag "read_only" (ReadOnly s);
   flag "super_read_only" (SuperReadOnly s);
   pointer_omitempty "replica" enc_replica (Replica s);
   text_omitempty "error" (ns_Error s);
   required "checked_at" (enc_time (CheckedAt s));
   required "failure_count" (enc_int (FailureCount s))].
Definition status_fields : list (field NodeStatus) :=
  [fld "node_id" dec_string NodeID (fun x '(Build_NodeStatus _ b c d e f g h i j k l) =>
     Build_NodeStatus x b c d e f g h i j k l);
   fld "address" dec_string ns_Address (fun x '(Build_NodeStatus a _ c d e f g h i j k l) =>
     Build_NodeStatus a x c d e f g h i j k l);
   fld "reachable" dec_bool Reachable (fun x '(Build_NodeStatus a b _ d e f g h i j k l) =>
     Build_NodeStatus a b x d e f g h i j k l);
   fld "healthy" dec_bool Healthy (fun x '(Build_NodeStatus a b c _ e f g h i j k l) =>
     Build_NodeStatus a b c x e f g h i j k l);
   fld "role" dec_string ns_Role (fun x '(Build_NodeStatus a b c d _ f g h i j k l) =>
     Build_NodeStatus a b c d x f g h i j k l);
   fld "server_uuid" dec_string ServerUUID (fun x '(Build_NodeStatus a b c d e _ g h i j k l) =>
     Build_NodeStatus a b c d e x g h i j k l);
   fld "read_only" dec_bool ReadOnly (fun x '(Build_NodeStatus a b c d e f _ h i j k l) =>
     Build_NodeStatus a b c d e f x h i j k l);
   fld "super_read_only" dec_bool SuperReadOnly (fun x '(Build_NodeStatus a b c d e f g _ i j k l) =>
     Build_NodeStatus a b c d e f g x i j k l);
   fld "replica" (dec_pointer replica_zero dec_replica) Replica (fun x '(Build_NodeStatus a b c d e f g h _ j k l) =>
     Build_NodeStatus a b c d e f g h x j k l);
   fld "error" dec_string ns_Error (fun x '(Build_NodeStatus a b c d e f g h i _ k l) =>
     Build_NodeStatus a b c d e f g h i x k l);
   fld "checked_at" dec_time CheckedAt (fun x '(Build_NodeStatus a b c d e f g h i j _ l) =>
     Build_NodeStatus a b c d e f g h i j x l);
   fld "failure_count" dec_int FailureCount (fun x '(Build_NodeStatus a b c d e f g h i j k _) =>
     Build_NodeStatus a b c d e f g h i j k x)].

Lemma dec_replica_pointer strict r j :
  enc_replica r = Ok j -> dec_pointer replica_zero dec_replica strict j None = Ok (Some (sanitize r)).
Proof.
  intros Hr. apply (dec_pointer_enc replica_zero sanitize enc_replica _ _ (Some r)); [|done].
  intros a j' Ha. destruct (good_replica a j' Ha) as (ms & -> & _). split; [done|].
  by apply dec_replica_enc.
Qed.

#[export] Instance json_status : Json NodeStatus.
Proof.
  apply (struct_json (fun s => enc_struct (status_members s)) (dec_struct status_fields) NodeStatus_zero).
  - intros a j Ha. eapply (good_struct 2) in Ha; [done..|].
    members_ok ltac:(unfold pointer_omitempty; destruct (Replica a);
      [nested_good good_replica|split; [reflexivity|done]]).
  - intros strict [id a re h ro u r sr rep e t n] j. unfold status_members.
    cbn [NodeID ns_Address Reachable Healthy ns_Role ServerUUID ReadOnly SuperReadOnly Replica
      ns_Error CheckedAt FailureCount].
    destruct rep; cbn [pointer_omitempty]; encoded; left_out; intros [= <-].
    all: unfold NodeStatus_zero; read_members ltac:(erewrite dec_replica_pointer by eassumption).
    all: reflexivity.
Defined.

(** ** The stored values *)

Definition cluster_members (s : ClusterState) : list member :=
  [text "name" (cs_Name s);
   text "primary" (Primary s);
   required "epoch" (enc_uint (Epoch s));
   flag "auto_failover" (AutoFailover s);
   required "updated_at" (enc_time (UpdatedAt s))].
Definition cluster_fields : list (field ClusterState) :=
  [fld "name" dec_string cs_Name (fun x '(Build_ClusterState _ b c d e) => Build_ClusterState x b c d e);
   fld "primary" dec_string Primary (fun x '(Build_ClusterState a _ c d e) => Build_ClusterState a x c d e);
   fld "epoch" dec_uint Epoch (fun x '(Build_ClusterState a b _ d e) => Build_ClusterState a b x d e);
   fld "auto_failover" dec_bool AutoFailover (fun x '(Build_ClusterState a b c _ e) =>
     Build_ClusterState a b c x e);
   fld "updated_at" dec_time UpdatedAt (fun x '(Build_ClusterState a b c d _) =>
     Build_ClusterState a b c d x)].

#[export] Instance json_cluster : Json ClusterState.
Proof.
  apply (struct_json (fun s => enc_struct (cluster_members s)) (dec_struct cluster_fields) ClusterState_zero).
  - intros a j Ha. eapply (good_struct 2) in Ha; [done..|]. members_ok fail.
  - intros strict a j. unfold cluster_members. encoded. intros [= <-].
    unfold ClusterState_zero. by read_members fail.
Defined.

Definition task_members (t : SwitchTask) : list member :=
  [text "id" (task_ID t);
   text_omitempty "from" (From t);
   text "to" (To t);
   flag "automatic" (Automatic t);
   flag "dry_run" (DryRun t);
   text "state" (task_State t);
   text_omitempty "error" (task_Error t);
   required "started_at" (enc_time (StartedAt t));
   (* omitempty has no effect on a struct *)
   required "finished_at" (enc_time (FinishedAt t))].
Definition task_zero : SwitchTask :=
  {| task_ID := ""; From := ""; To := ""; Automatic := false; DryRun := false; task_State := "";
     task_Error := ""; StartedAt := time_zero; FinishedAt := time_zero |}.
Definition task_fields : list (field SwitchTask) :=
  [fld "id" dec_string task_ID (fun x '(Build_SwitchTask _ b c d e f g h i) =>
     Build_SwitchTask x b c d e f g h i);
   fld "from" dec_string From (fun x '(Build_SwitchTask a _ c d e f g h i) =>
     Build_SwitchTask a x c d e f g h i);
   fld "to" dec_string To (fun x '(Build_SwitchTask a b _ d e f g h i) =>
     Build_SwitchTask a b x d e f g h i);
   fld "automatic" dec_bool Automatic (fun x '(Build_SwitchTask a b c _ e f g h i) =>
     Build_SwitchTask a b c x e f g h i);
   fld "dry_run" dec_bool DryRun (fun x '(Build_SwitchTask a b c d _ f g h i) =>
     Build_SwitchTask a b c d x f g h i);
   fld "state" dec_string task_State (fun x '(Build_SwitchTask a b c d e _ g h i) =>
     Build_SwitchTask a b c d e x g h i);
   fld "error" dec_string task_Error (fun x '(Build_SwitchTask a b c d e f _ h i) =>
     Build_SwitchTask a b c d e f x h i);
   fld "started_at" dec_time StartedAt (fun x '(Build_SwitchTask a b c d e f g _ i) =>
     Build_SwitchTask a b c d e f g x i);
   fld "finished_at" dec_time FinishedAt (fun x '(Build_SwitchTask a b c d e f g h _) =>
     Build_SwitchTask a b c d e f g h x)].

#[export] Instance json_task : Json SwitchTask.
Proof.
  apply (struct_json (fun s => enc_struct (task_members s)) (dec_struct task_fields) task_zero).
  - intros a j Ha. eapply (good_struct 2) in Ha; [done..|]. members_ok fail.
  - intros strict [i f t a d s e st fi] j. unfold task_members.
    cbn [task_ID From To Automatic DryRun task_State task_Error StartedAt FinishedAt].
    encoded; left_out; intros [= <-]. all: unfold task_zero; read_members fail. all: reflexivity.
Defined.

(** ** What can be encoded *)

(** A time of a year JSON's time format can hold. *)
Definition time_fits (t : time) : bool :=
  let '(year, _, _) := GoTime.date_of (GoTime.seconds t / 86400) in (0 <=? year) && (year <=? 9999).
Definition auth_fits (a : SwitchAuthorization) : bool := is_uint64 (FromEpoch a) && is_uint64 (ToEpoch a).
Definition wait_fits (r : WaitGTIDRequest) : bool :=
  auth_fits (wr_Authorization r) && is_int64 (wr_TimeoutSeconds r).
Definition replica_fits (r : ReplicaStatus) : bool :=
  match SecondsBehind r with Some z => is_int64 z | None => true end.
Definition status_fits (s : NodeStatus) : bool :=
  match Replica s with Some r => replica_fits r | None => true end &&
  time_fits (CheckedAt s) && is_int64 (FailureCount s).
Definition cluster_fits (s : ClusterState) : bool := is_uint64 (Epoch s) && time_fits (UpdatedAt s).
Definition task_fits (t : SwitchTask) : bool := time_fits (StartedAt t) && time_fits (FinishedAt t).

Lemma is_ok_marshal {A} (enc : A -> result json) a : is_ok (marshal enc a) = is_ok (enc a).
Proof. unfold marshal. by destruct (enc a). Qed.

Lemma collect_required name r members :
  is_ok (collect (required name r :: members)) = is_ok r && is_ok (collect members).
Proof. cbn. by destruct r, (collect members). Qed.
Lemma collect_text name s members : is_ok (collect (text name s :: members)) = is_ok (collect members).
Proof. cbn. by destruct (collect members). Qed.
Lemma collect_flag name b members : is_ok (collect (flag name b :: members)) = is_ok (collect members).
Proof. cbn. by destruct (collect members). Qed.
Lemma collect_omitempty name s members :
  is_ok (collect (text_omitempty name s :: members)) = is_ok (collect members).
Proof. cbn. by case_bool_decide; destruct (collect members). Qed.
Lemma collect_pointer {A} name (enc : A -> result json) o members :
  is_ok (collect (pointer_omitempty name enc o :: members)) =
    match o with Some a => is_ok (enc a) | None => true end && is_ok (collect members).
Proof.
  destruct o; [apply collect_required|]. cbn. by destruct (collect members).
Qed.
Lemma is_ok_enc_struct members : is_ok (enc_struct members) = is_ok (collect members).
Proof. unfold enc_struct. by destruct (collect members). Qed.
Lemma is_ok_enc_uint z : is_ok (enc_uint z) = is_uint64 z.
Proof. unfold enc_uint. by case_match. Qed.
Lemma is_ok_enc_int z : is_ok (enc_int z) = is_int64 z.
Proof. unfold enc_int. by case_match. Qed.
Lemma is_ok_enc_time t : is_ok (enc_time t) = time_fits t.
Proof.
  unfold enc_time, GoTime.format_time, time_fits. destruct (GoTime.date_of _) as [[year month] day].
  destruct (Z.ltb_spec year 0), (Z.ltb_spec 9999 year), (Z.leb_spec 0 year), (Z.leb_spec year 9999);
    cbn [orb andb is_ok]; (done || lia).
Qed.

Create Rewrite HintDb fits.
#[local] Hint Rewrite @is_ok_marshal is_ok_enc_struct collect_required collect_text collect_flag
  collect_omitempty @collect_pointer is_ok_enc_uint is_ok_enc_int is_ok_enc_time andb_true_r : fits.

Lemma is_ok_enc_auth a : is_ok (enc_auth a) = auth_fits a.
Proof. unfold enc_auth, auth_members. by autorewrite with fits. Qed.
Lemma is_ok_enc_node n : is_ok (enc_node n) = true.
Proof. unfold enc_node, node_members. by autorewrite with fits. Qed.
Lemma is_ok_enc_replica r : is_ok (enc_replica r) = replica_fits r.
Proof.
  unfold enc_replica, replica_members, replica_fits. autorewrite with fits.
  destruct (SecondsBehind r); cbn [enc_pointer]; by autorewrite with fits.
Qed.
#[local] Hint Rewrite is_ok_enc_auth is_ok_enc_node is_ok_enc_replica : fits.

(** Encoding succeeds on the values that fit; what it writes is read back as the
    value, by itself or in front of other input, and no proper part of it is
    read as a value, in any of the three ways. *)
Definition round_trips (A : Type) `{Json A} (fits : A -> bool) : Prop := forall a,
  is_ok (Marshal a) = fits a /\
  forall s, Marshal a = Ok s ->
    Unmarshal s = Ok (sanitize a) /\
    (forall rest e, Decode (s +:+ rest) e = Ok (sanitize a) /\
      DecodeStrict (s +:+ rest) e = Ok (sanitize a)) /\
    forall n, n < byte_length s ->
      is_ok (Unmarshal (take_bytes n s) : result A) = false /\
      forall e, is_ok (Decode (take_bytes n s) e : result A) = false /\
        is_ok (DecodeStrict (take_bytes n s) e : result A) = false.

Lemma json_round_trips {A} `{Json A} fits :
  (forall a, is_ok (Marshal a) = fits a) -> round_trips A fits.
Proof.
  intros Hf a. split; [done|]. intros s Hs. split; [by apply Unmarshal_Marshal|]. split.
  - intros rest e. split; [by apply Decode_Marshal|by apply DecodeStrict_Marshal].
  - intros n Hn. split; [by apply (Unmarshal_incomplete a)|].
    intros e. split; [by apply (Decode_incomplete a)|by apply (DecodeStrict_incomplete a)].
Qed.

(** The types the program sends and stores. *)
Ltac fits := apply json_round_trips; intros a; (eapply eq_trans; [apply is_ok_marshal|]);
  unfold operation_members, wait_members, replica_request_members, status_members,
    cluster_members, task_members, wait_fits, status_fits, cluster_fits, task_fits;
  autorewrite with fits; try done.

Lemma cluster_round_trips : round_trips ClusterState cluster_fits.
Proof. fits. Qed.
Lemma task_round_trips : round_trips SwitchTask task_fits.
Proof. fits. Qed.
Lemma status_round_trips : round_trips NodeStatus status_fits.
Proof.
  fits. rewrite andb_assoc. destruct (Replica a) as [r|]; [|done]. by rewrite is_ok_enc_replica.
Qed.
Lemma operation_round_trips : round_trips OperationRequest (fun r => auth_fits (or_Authorization r)).
Proof. fits. Qed.
Lemma wait_round_trips : round_trips WaitGTIDRequest wait_fits.
Proof. fits. Qed.
Lemma replica_request_round_trips : round_trips ReplicaRequest (fun r => auth_fits (rr_Authorization r)).
Proof. fits. Qed.
Lemma auth_round_trips : round_trips SwitchAuthorization auth_fits.
Proof. fits. Qed.

(** ** The text of a status *)
Definition demo_replica : ReplicaStatus :=
  {| IOThreadRunning := true; SQLThreadRunning := false; SecondsBehind := None; LastIOError := "";
     LastSQLError := "duplicate <key>"; rs_ExecutedGTID := ""; RetrievedGTID := "" |}.
Definition replica_text : string :=
  "{'io_thread_running':true,'sql_thread_running':false,'seconds_behind':null,'last_sql_error':'duplicate \u003ckey\u003e'}".

(** The same text with double quotes. *)
Fixpoint double_quotes (s : string) : string :=
  match s with
  | EmptyString => EmptyString
  | String c r => String (if Ascii.eqb c "'" then ascii_of_nat 34 else c) (double_quotes r)
  end.

Example replica_text_ok :
  marshal enc_replica demo_replica = Ok (double_quotes replica_text).
Proof. vm_compute. reflexivity. Qed.

(** Fields are matched up to case, [null] leaves a field as it was, and unknown
    fields are refused when the decoder is strict. *)
Example operation_lenient :
  Decode (A := OperationRequest)
    (double_quotes "{'Authorization':{'operation_id':'op','FROM_EPOCH':7,'to_epoch':null},'x':[1]} rest") None =
  Ok {| or_Authorization := {| OperationID := "op"; FromEpoch := 7; ToEpoch := 0 |} |}.
Proof. vm_compute. reflexivity. Qed.
Example operation_strict :
  is_ok (DecodeStrict (A := OperationRequest)
    (double_quotes "{'authorization':{'operation_id':'op','from_epoch':7,'to_epoch':8,'x':1}}") None) = false.
Proof. vm_compute. reflexivity. Qed.
