(* ===== verification/Config.v ===== *)
(** * Configuration

    The controller's and the agent's configuration of
    [internal/config/config.go].  The environment is the argument [getenv]
    ([os.Getenv]: an unset variable reads as the empty string); the host name,
    the file system and [time.ParseDuration] are arguments too. *)
From Stdlib Require Import Ascii.
From S2P Require Import Prelude GoStd Model Json JsonText GoTime Wire Format.

Record Config : Type := {
  HTTPAddr : string;
  ClusterName : string;
  ControllerID : string;
  EtcdEndpoints : list string;
  Nodes : list AgentNodeConfig;
  AgentCAFile : string;
  AgentCertFile : string;
  AgentKeyFile : string;
  AgentsFile : string;
  ProbeInterval : Z;
  FailureThreshold : Z;
  AlertWebhookURL : string;
  ExecuteActions : bool;
  AutoFailoverExecute : bool;
  RequireEtcd : bool;
  MaxReplicaLagSeconds : Z
}.

Record AgentConfig : Type := {
  ac_HTTPAddr : string;
  ac_NodeID : string;
  ac_NodeAddress : string;
  ac_MySQLDSN : string;
  ac_ReplicationUser : string;
  ac_ReplicationPass : string;
  ac_AgentCAFile : string;
  ac_AgentCertFile : string;
  ac_AgentKeyFile : string;
  ac_EtcdEndpoints : list string;
  ac_ClusterName : string
}.

Definition comma : ascii := ",".

Definition split (value : string) : list string :=
  omap (fun part => let item := TrimSpace part in
    if bool_decide (item = "") then None else Some item) (Split comma value).

Definition hostname (name : result string) : string :=
  match name with
  | Ok value => if bool_decide (value = "") then "ha-controller" else value
  | Err _ => "ha-controller"
  end.

Definition second : Z := 1000000000.

Section environment.
Context (getenv : string -> string).

Definition env (key fallback : string) : string :=
  if bool_decide (getenv key = "") then fallback else getenv key.

Definition duration (ParseDuration : string -> option Z) (key : string) (fallback : Z) : Z :=
  if bool_decide (getenv key = "") then fallback
  else match ParseDuration (getenv key) with Some parsed => parsed | None => fallback end.

Definition integer (key : string) (fallback : Z) : Z :=
  match Atoi (getenv key) with
  | Some value => if 0 <? value then value else fallback
  | None => fallback
  end.

Definition int64Value (key : string) (fallback : Z) : Z :=
  match ParseInt (getenv key) with
  | Some value => if 0 <=? value then value else fallback
  | None => fallback
  end.

Definition boolean (key : string) (fallback : bool) : bool :=
  match ParseBool (getenv key) with Some value => value | None => fallback end.

(** The configuration before the nodes are read. *)
Definition base_config (ParseDuration : string -> option Z) (host : result string) : Config := {|
  HTTPAddr := env "HA_HTTP_ADDR" ":8080";
  ClusterName := env "HA_CLUSTER_NAME" "mysql-ha";
  ControllerID := env "HA_CONTROLLER_ID" (hostname host);
  EtcdEndpoints := split (env "HA_ETCD_ENDPOINTS" "http://127.0.0.1:2379");
  Nodes := [];
  AgentCAFile := env "HA_AGENT_CA_FILE" "/etc/ha/pki/ca.crt";
  AgentCertFile := env "HA_AGENT_CERT_FILE" "/etc/ha/pki/controller.crt";
  AgentKeyFile := env "HA_AGENT_KEY_FILE" "/etc/ha/pki/controller.key";
  AgentsFile := getenv "HA_AGENTS_FILE";
  ProbeInterval := duration ParseDuration "HA_PROBE_INTERVAL" (5 * second);
  FailureThreshold := integer "HA_FAILURE_THRESHOLD" 3;
  AlertWebhookURL := getenv "HA_ALERT_WEBHOOK_URL";
  ExecuteActions := boolean "HA_EXECUTE_ACTIONS" true;
  AutoFailoverExecute := boolean "HA_AUTO_FAILOVER_EXECUTE" false;
  RequireEtcd := boolean "HA_REQUIRE_ETCD" false;
  MaxReplicaLagSeconds := int64Value "HA_MAX_REPLICA_LAG_SECONDS" 30
|}.

Definition set_Nodes (nodes : list AgentNodeConfig) (c : Config) : Config := {|
  HTTPAddr := HTTPAddr c; ClusterName := ClusterName c; ControllerID := ControllerID c;
  EtcdEndpoints := EtcdEndpoints c; Nodes := nodes; AgentCAFile := AgentCAFile c;
  AgentCertFile := AgentCertFile c; AgentKeyFile := AgentKeyFile c; AgentsFile := AgentsFile c;
  ProbeInterval := ProbeInterval c; FailureThreshold := FailureThreshold c;
  AlertWebhookURL := AlertWebhookURL c; ExecuteActions := ExecuteActions c;
  AutoFailoverExecute := AutoFailoverExecute c; RequireEtcd := RequireEtcd c;
  MaxReplicaLagSeconds := MaxReplicaLagSeconds c |}.

(** [json.Unmarshal] of the list of nodes. *)
Definition unmarshal_nodes : string -> result (list AgentNodeConfig) :=
  unmarshal (dec_slice AgentNodeConfig_zero dec_node) [].

(** [Load]; [ReadFile] is [os.ReadFile]. *)
Definition Load (ParseDuration : string -> option Z) (host : result string)
    (ReadFile : string -> result string) : result Config :=
  let c := base_config ParseDuration host in
  let raw :=
    if bool_decide (AgentsFile c = "") then Ok (getenv "HA_AGENTS_JSON")
    else match ReadFile (AgentsFile c) with
         | Err e => Err (wrap_err "read HA_AGENTS_FILE" e)
         | Ok data => Ok data
         end in
  match raw with
  | Err e => Err e
  | Ok raw =>
      if bool_decide (raw = "") then Ok c
      else match unmarshal_nodes raw with
           | Err e => Err e
           | Ok nodes => Ok (set_Nodes nodes c)
           end
  end.

Definition LoadAgent : result AgentConfig :=
  let c := {|
    ac_HTTPAddr := env "HA_AGENT_HTTP_ADDR" ":9443";
    ac_NodeID := getenv "HA_NODE_ID";
    ac_NodeAddress := getenv "HA_NODE_ADDRESS";
    ac_MySQLDSN := getenv "HA_MYSQL_DSN";
    ac_ReplicationUser := getenv "HA_REPLICATION_USER";
    ac_ReplicationPass := getenv "HA_REPLICATION_PASSWORD";
    ac_AgentCAFile := env "HA_AGENT_CA_FILE" "/etc/ha/pki/ca.crt";
    ac_AgentCertFile := env "HA_AGENT_CERT_FILE" "/etc/ha/pki/agent.crt";
    ac_AgentKeyFile := env "HA_AGENT_KEY_FILE" "/etc/ha/pki/agent.key";
    ac_EtcdEndpoints := split (env "HA_ETCD_ENDPOINTS" "http://127.0.0.1:2379");
    ac_ClusterName := env "HA_CLUSTER_NAME" "mysql-ha" |} in
  if bool_decide (ac_NodeID c = "") || bool_decide (ac_NodeAddress c = "")
     || bool_decide (ac_MySQLDSN c = "") || bool_decide (ac_ReplicationUser c = "")
     || bool_decide (ac_ReplicationPass c = "") then
    Err "HA_NODE_ID, HA_NODE_ADDRESS, HA_MYSQL_DSN, HA_REPLICATION_USER and HA_REPLICATION_PASSWORD are required"
  else Ok c.
End environment.

(** ** Lemmas *)

(** Items joined by commas. *)
Fixpoint join (items : list string) : string :=
  match items with
  | [] => ""
  | [item] => item
  | item :: items => item +:+ String comma (join items)
  end.

Definition clean_item (item : string) : Prop :=
  item <> "" /\ trimmed item /\ lacks comma item = true.

Lemma list_of_lacks s c :
  lacks c s = true <-> c ∉ String.list_ascii_of_string s.
Proof.
  induction s as [|d s IH]; simpl; [set_solver|].
  rewrite andb_true_iff, negb_true_iff, bool_decide_eq_false, IH, not_elem_of_cons. naive_solver.
Qed.

Lemma TrimSpace_lacks c s : lacks c s = true -> lacks c (TrimSpace s) = true.
Proof.
  rewrite !list_of_lacks. unfold TrimSpace. rewrite String.list_ascii_of_string_of_list_ascii.
  intros Hs Hin. apply Hs. unfold trim_front in Hin.
  destruct (strip_suffix space_encodings (length (String.list_ascii_of_string s))
    (String.list_ascii_of_string s)) as [pre ->]. apply elem_of_app. right.
  rewrite elem_of_reverse in Hin.
  match goal with H : c ∈ strip ?encs ?n ?l |- _ => destruct (strip_suffix encs n l) as [pre' Hpre] end.
  rewrite <-elem_of_reverse, Hpre. apply elem_of_app. by right.
Qed.

Lemma split_clean value : Forall clean_item (split value).
Proof.
  unfold split. pose proof (Split_parts comma value) as Hparts.
  induction Hparts as [|part parts Hp _ IH]; simpl; [done|].
  case_bool_decide as He; [done|]. constructor; [|done].
  split_and!; [done|apply TrimSpace_trimmed|by apply TrimSpace_lacks].
Qed.

Lemma split_join items : Forall clean_item items -> split (join items) = items.
Proof.
  induction items as [|item items IH]; [done|]. intros [(Hne & Ht & Hl) Hitems]%Forall_cons.
  assert (forall parts, omap (fun part => let item := TrimSpace part in
    if bool_decide (item = "") then None else Some item) (item :: parts) =
    item :: omap (fun part => let item := TrimSpace part in
    if bool_decide (item = "") then None else Some item) parts) as Hcons.
  { intros parts. simpl. rewrite TrimSpace_id by done. by rewrite bool_decide_false. }
  unfold split in *. destruct items as [|item' items].
  - cbn [join]. by rewrite Split_lacks, Hcons.
  - change (join (item :: item' :: items)) with (item +:+ String comma (join (item' :: items))).
    rewrite Split_app by done. by rewrite Hcons, IH.
Qed.

Lemma Load_base getenv PD host RF c :
  Load getenv PD host RF = Ok c -> exists nodes, c = set_Nodes nodes (base_config getenv PD host).
Proof.
  unfold Load. destruct (if bool_decide _ then _ else _) as [raw|e]; [|done].
  case_bool_decide; [intros [= <-]; by exists []|].
  destruct (unmarshal_nodes raw) as [nodes|e]; [|done]. intros [= <-]. by exists nodes.
Qed.

Lemma ParseInt_bounds s n : ParseInt s = Some n -> - two63 <= n < two63.
Proof.
  unfold ParseInt.
  match goal with |- (let '(neg, digits) := ?x in _) = _ -> _ => destruct x as [neg digits] end.
  assert (forall s acc n, 0 <= acc -> parse_digits acc s = Some n -> 0 <= n) as Hpos.
  { clear. induction s as [|c s IH]; intros acc n Ha; simpl; [by intros [= <-]|].
    unfold digit_of. destruct (byte_in 48 57 c) eqn:Hb; [|done]. apply IH.
    unfold byte_in in Hb. apply andb_true_iff in Hb as [Hb _]. apply Nat.leb_le in Hb. lia. }
  destruct (parse_unsigned digits) as [m|] eqn:Hm; [|done].
  assert (0 <= m) by (destruct digits; [done|]; by eapply Hpos; [|exact Hm]).
  destruct neg; case_on_match; try done; intros [= <-]; propify; unfold two63 in *; lia.
Qed.

(** ** Theorems *)

(** C34: the controller's configuration, whatever the environment holds, has a
    failure threshold of at least one and a lag limit of at least zero, both in
    range of their types, a controller ID, and etcd endpoints that are
    non-empty, trimmed and free of commas. *)
Theorem loaded_config_is_sane getenv ParseDuration host ReadFile c :
  Load getenv ParseDuration host ReadFile = Ok c ->
  1 <= FailureThreshold c < two63 /\ 0 <= MaxReplicaLagSeconds c < two63 /\
  ControllerID c <> "" /\ Forall clean_item (EtcdEndpoints c).
Proof.
  intros (nodes & ->)%Load_base. simpl. split_and!; [..|apply split_clean].
  1-4: unfold integer, int64Value, Atoi; destruct (ParseInt _) as [v|] eqn:Hv;
    [apply ParseInt_bounds in Hv; case_on_match; propify; unfold two63 in *; lia
    |unfold two63; lia].
  unfold env, hostname. case_bool_decide; [|done]. destruct host as [h|e]; [|done].
  by case_bool_decide.
Qed.

Definition empty_env (key : string) : string := "".

Lemma loaded_config_is_sane_witness :
  exists c, Load empty_env (fun _ => None) (Err "unknown host") (fun _ => Err "no file") = Ok c /\ 1 <= FailureThreshold c < two63.
Proof.
  eexists. split; [reflexivity|].
  apply (loaded_config_is_sane empty_env (fun _ => None) (Err "unknown host")
    (fun _ => Err "no file")). reflexivity.
Defined.

(** A list of non-empty, trimmed items without commas, joined by commas,
    splits into the same list. *)
Theorem split_join_round_trip items : Forall clean_item items -> split (join items) = items.
Proof. apply split_join. Qed.

(** An agent starts only with all five of its required settings, which it
    takes from the environment unchanged, and refuses to start exactly when one
    is missing. *)
Theorem agent_settings_required getenv :
  match LoadAgent getenv with
  | Ok c => ac_NodeID c = getenv "HA_NODE_ID" /\ ac_NodeID c <> "" /\
      ac_NodeAddress c = getenv "HA_NODE_ADDRESS" /\ ac_NodeAddress c <> "" /\
      ac_MySQLDSN c = getenv "HA_MYSQL_DSN" /\ ac_MySQLDSN c <> "" /\
      ac_ReplicationUser c = getenv "HA_REPLICATION_USER" /\ ac_ReplicationUser c <> "" /\
      ac_ReplicationPass c = getenv "HA_REPLICATION_PASSWORD" /\ ac_ReplicationPass c <> ""
  | Err _ => exists key, key ∈ ["HA_NODE_ID"; "HA_NODE_ADDRESS"; "HA_MYSQL_DSN";
      "HA_REPLICATION_USER"; "HA_REPLICATION_PASSWORD"] /\ getenv key = ""
  end.
Proof.
  unfold LoadAgent. cbn [ac_NodeID ac_NodeAddress ac_MySQLDSN ac_ReplicationUser ac_ReplicationPass].
  destruct (_ || _) eqn:Hreq; propify.
  - destruct_or?; eexists; (split; [|eassumption]); set_solver.
  - destruct_and?. done.
Qed.

(** A list of nodes as it is written in the environment. *)
Example nodes_read :
  unmarshal_nodes (double_quotes "[{'id':'db-1','address':'10.0.0.1:3306','agent_url':'https:\/\/10.0.0.1:9443'}, null]") =
  Ok [{| an_ID := "db-1"; an_Address := "10.0.0.1:3306"; an_AgentURL := "https://10.0.0.1:9443" |};
      AgentNodeConfig_zero].
Proof. vm_compute. reflexivity. Qed.
