(* ===== verification/Agent.v ===== *)
(** * The agent beside a MySQL server

    [internal/agent/server.go].  The interfaces [MySQLOperator] and
    [SwitchVerifier] are the calls [ADb] and [AVerify]; [ASelect] is the
    [select] of the replica handler's loop over the request's context, its
    60-second deadline and its 1-second ticker.  A handler is a program that
    ends with the response it writes. *)
From S2P Require Import Prelude GoStd Effects Model Json JsonText GoTime Wire Format MySQL.

Inductive operatorE : Type -> Type :=
| OStatus (ctx : Context) : operatorE NodeStatus
| OExecutedGTID (ctx : Context) : operatorE (scanned string)
| OWaitForGTID (ctx : Context) (set : string) (timeoutSeconds : Z) : operatorE (result unit)
| ODemote (ctx : Context) : operatorE (result unit)
| OPromote (ctx : Context) : operatorE (result unit)
| OReconfigureReplica (ctx : Context) (source : AgentNodeConfig) : operatorE (result unit)
| OClose : operatorE (result unit).

Inductive selected : Type :=
| Done (err : string)
| Deadline
| Tick.

Inductive agentE : Type -> Type :=
| ADb {X : Type} (e : operatorE X) : agentE X
| AVerify (ctx : Context) (auth : SwitchAuthorization) : agentE (result unit)
| ACancel (ctx : Context) : agentE unit
| ATimers (deadline ticker : Z) : agentE unit
| AStopTimers : agentE unit
| ASelect (ctx : Context) : agentE selected.

Definition db {X} (e : operatorE X) : prog agentE X := call (ADb e).

(** ** Requests and responses *)
Record Request : Type := {
  rq_method : string;
  rq_path : string;
  rq_body : option stream;             (* [None]: a nil body *)
  rq_ctx : Context
}.

Inductive Value : Type :=
| VMap (m : list (string * string))    (* map[string]string *)
| VStatus (s : NodeStatus)
| VPlain (text : string).              (* text the multiplexer writes *)

Record Response : Type := { rp_code : Z; rp_content : string; rp_value : Value }.

#[export] Instance Value_eq_dec : EqDecision Value.
Proof. solve_decision. Defined.
#[export] Instance Response_eq_dec : EqDecision Response.
Proof. solve_decision. Defined.

(** What [json.NewEncoder(w).Encode] (and [http.Error] for plain text) writes of a
    value: its text and a newline, nothing when encoding fails. *)
Definition value_text `{!Json NodeStatus} (v : Value) : result string :=
  match v with
  | VMap m => marshal (fun m => enc_struct (map_members m)) m
  | VStatus s => Marshal s
  | VPlain text => Ok text
  end.
Definition newline : string := byte_string 10.
Definition body_text `{!Json NodeStatus} (v : Value) : string :=
  match value_text v with Ok t => t +:+ newline | Err _ => "" end.

Definition StatusOK : Z := 200.
Definition StatusBadRequest : Z := 400.
Definition StatusForbidden : Z := 403.
Definition StatusRequestTimeout : Z := 408.
Definition StatusConflict : Z := 409.
Definition StatusServiceUnavailable : Z := 503.

Definition writeJSON (status : Z) (value : Value) : Response :=
  {| rp_code := status; rp_content := "application/json"; rp_value := value |}.

Definition writeError (status : Z) (err : string) : Response :=
  writeJSON status (VMap [("error", err)]).

Definition reply {E} (status : Z) (value : Value) : prog E Response := Ret (writeJSON status value).
Definition refuse {E} (status : Z) (err : string) : prog E Response := Ret (writeError status err).

Definition decode {A} `{Json A} (r : Request) : result A :=
  match rq_body r with
  | None => Err "request body is required"
  | Some body => let '(bytes, e) := LimitReader 1048576 body in DecodeStrict bytes e
  end.

(** ** Handlers *)

Definition authorize (ctx : Context) (auth : SwitchAuthorization) : prog agentE (result unit) :=
  if bool_decide (OperationID auth = "") then Ret (Err "operation ID is required")
  else let ctx := WithTimeout ctx 3 in
    defer (call (ACancel ctx)) (call (AVerify ctx auth)).

Definition status (r : Request) : prog agentE Response :=
  s <- db (OStatus (rq_ctx r)) ;; reply StatusOK (VStatus s).

Definition gtid (r : Request) : prog agentE Response :=
  g <- db (OExecutedGTID (rq_ctx r)) ;;
  match g.2 with
  | Some e => refuse StatusServiceUnavailable e
  | None => reply StatusOK (VMap [("gtid", g.1)])
  end.

(** The beginning of the four operations: decode, then authorize. *)
Definition authorized {A} `{Json A} (r : Request) (auth : A -> SwitchAuthorization)
    (k : A -> prog agentE Response) : prog agentE Response :=
  match decode r with
  | Err e => refuse StatusBadRequest e
  | Ok request =>
      try _ <- authorize (rq_ctx r) (auth request) else refuse StatusForbidden ;;
      k request
  end.

Definition waitGTID `{!Json WaitGTIDRequest} (r : Request) : prog agentE Response :=
  authorized r wr_Authorization (fun request =>
    if (wr_TimeoutSeconds request <? 1) || (60 <? wr_TimeoutSeconds request)
       || bool_decide (TrimSpace (wr_GTID request) = "") then
      refuse StatusBadRequest "GTID and timeout from 1 to 60 seconds are required"
    else
    let ctx := WithTimeout (rq_ctx r) (wr_TimeoutSeconds request + 2) in
    defer (call (ACancel ctx)) (
      try _ <- db (OWaitForGTID ctx (wr_GTID request) (wr_TimeoutSeconds request))
        else refuse StatusConflict ;;
      reply StatusOK (VMap [("status", "caught_up")]))).

Definition demote `{!Json OperationRequest} (r : Request) : prog agentE Response :=
  authorized r or_Authorization (fun _ =>
    try _ <- db (ODemote (rq_ctx r)) else refuse StatusConflict ;;
    reply StatusOK (VMap [("status", "read_only")])).

(** A healthy replica whose threads run and whose lag is zero. *)
Definition caught_up (s : NodeStatus) : bool :=
  Healthy s && bool_decide (ns_Role s = RoleReplica) &&
  match Replica s with
  | Some r => IOThreadRunning r && SQLThreadRunning r &&
      match SecondsBehind r with Some lag => lag =? 0 | None => false end
  | None => false
  end.

Definition promote `{!Json OperationRequest} (r : Request) : prog agentE Response :=
  authorized r or_Authorization (fun _ =>
    s <- db (OStatus (rq_ctx r)) ;;
    if negb (caught_up s) then
      refuse StatusConflict "agent refuses promotion: node is not a healthy caught-up replica"
    else
    try _ <- db (OPromote (rq_ctx r)) else refuse StatusConflict ;;
    s <- db (OStatus (rq_ctx r)) ;;
    if negb (Healthy s) || negb (bool_decide (ns_Role s = RolePrimary)) then
      refuse StatusConflict "promoted node did not become writable"
    else reply StatusOK (VMap [("status", "primary")])).

(** A healthy replica whose threads run. *)
Definition replicating (s : NodeStatus) : bool :=
  Healthy s && bool_decide (ns_Role s = RoleReplica) &&
  match Replica s with
  | Some r => IOThreadRunning r && SQLThreadRunning r
  | None => false
  end.

(** The [for] loop of the replica handler; [fuel] bounds its rounds and [None]
    says that it is still running. *)
Fixpoint replica_loop (fuel : nat) (ctx : Context) : prog agentE (option Response) :=
  match fuel with
  | O => Ret None
  | S fuel =>
      s <- db (OStatus ctx) ;;
      if replicating s then Ret (Some (writeJSON StatusOK (VMap [("status", "replica")])))
      else
      sel <- call (ASelect ctx) ;;
      match sel with
      | Done err => Ret (Some (writeError StatusRequestTimeout err))
      | Deadline => Ret (Some (writeError StatusConflict
          (wrap_err "replica reconfiguration did not become healthy" (ns_Error s))))
      | Tick => replica_loop fuel ctx
      end
  end.

Definition answered (p : prog agentE Response) : prog agentE (option Response) :=
  x <- p ;; Ret (Some x).

Definition replica `{!Json ReplicaRequest} (fuel : nat) (nodeID : string) (r : Request)
    : prog agentE (option Response) :=
  match decode r with
  | Err e => answered (refuse StatusBadRequest e)
  | Ok request =>
      try _ <- authorize (rq_ctx r) (rr_Authorization request)
        else (fun e => answered (refuse StatusForbidden e)) ;;
      let source := rr_Source request in
      if bool_decide (an_ID source = "") || bool_decide (an_ID source = nodeID)
         || bool_decide (an_Address source = "") then
        answered (refuse StatusBadRequest "a different source node and address are required")
      else
      try _ <- db (OReconfigureReplica (rq_ctx r) source)
        else (fun e => answered (refuse StatusConflict e)) ;;
      call (ATimers 60 1) ;;;
      defer (call AStopTimers) (replica_loop fuel (rq_ctx r))
  end.

(** ** Routing

    The patterns of [Handler]; a GET pattern also serves HEAD, a known path
    with another method is answered 405, an unknown path 404. *)
Inductive route : Type :=
| RHealth | RStatus | RGtid | RWaitGTID | RDemote | RPromote | RReplica
| RMethodNotAllowed | RNotFound.

Definition get_route (method : string) (r : route) : route :=
  if bool_decide (method = "GET") || bool_decide (method = "HEAD") then r else RMethodNotAllowed.
Definition post_route (method : string) (r : route) : route :=
  if bool_decide (method = "POST") then r else RMethodNotAllowed.

Definition route_of (method path : string) : route :=
  if bool_decide (path = "/healthz") then get_route method RHealth
  else if bool_decide (path = "/api/v1/status") then get_route method RStatus
  else if bool_decide (path = "/api/v1/gtid") then get_route method RGtid
  else if bool_decide (path = "/api/v1/wait-gtid") then post_route method RWaitGTID
  else if bool_decide (path = "/api/v1/demote") then post_route method RDemote
  else if bool_decide (path = "/api/v1/promote") then post_route method RPromote
  else if bool_decide (path = "/api/v1/replica") then post_route method RReplica
  else RNotFound.

Definition plain (code : Z) (text : string) : Response :=
  {| rp_code := code; rp_content := "text/plain; charset=utf-8"; rp_value := VPlain text |}.

Definition Handler `{!Json OperationRequest, !Json WaitGTIDRequest, !Json ReplicaRequest}
    (fuel : nat) (nodeID : string) (r : Request) : prog agentE (option Response) :=
  match route_of (rq_method r) (rq_path r) with
  | RHealth => answered (reply StatusOK (VMap [("status", "ok")]))
  | RStatus => answered (status r)
  | RGtid => answered (gtid r)
  | RWaitGTID => answered (waitGTID r)
  | RDemote => answered (demote r)
  | RPromote => answered (promote r)
  | RReplica => replica fuel nodeID r
  | RMethodNotAllowed => answered (Ret (plain 405 "Method Not Allowed"))
  | RNotFound => answered (Ret (plain 404 "404 page not found"))
  end.

(** [NewServer]: a missing database or verifier is a nil interface. *)
Definition NewServer (nodeID : string) (has_db has_store : bool) : result string :=
  if bool_decide (nodeID = "") || negb has_db || negb has_store then
    Err "node ID, MySQL client and operation verifier are required"
  else Ok nodeID.

(** [MySQLOperator] as the production code implements it: [mysql.Client]. *)
Definition operator (c : MySQLNodeConfig) : forall X, operatorE X -> prog sqlE X := fun X e =>
  match e in operatorE X return prog sqlE X with
  | OStatus ctx => Client.Status c ctx
  | OExecutedGTID ctx => Client.ExecutedGTID ctx
  | OWaitForGTID ctx set t => Client.WaitForGTID ctx set t
  | ODemote ctx => Client.Demote ctx
  | OPromote ctx => Client.Promote ctx
  | OReconfigureReplica ctx source => Client.ReconfigureReplica c ctx source
  | OClose => Client.Close
  end.
