(* ===== verification/AgentSafety.v ===== *)
(** * What an agent does for a request

    Theorems about every trace of the handlers of [Agent.v]: no role change
    without authorization, promotion only of a caught-up replica, what the
    responses mean, and the end of the replica handler's loop. *)
From S2P Require Import Prelude GoStd Effects Model Json JsonText GoTime Wire Format MySQL Agent.

Section handlers.
Context `{JO : !Json OperationRequest, JW : !Json WaitGTIDRequest, JR : !Json ReplicaRequest}.

Definition ok_option {A} (r : result A) : option A :=
  match r with Ok a => Some a | Err _ => None end.

(** The authorization a request of one of the four operations carries. *)
Definition request_auth (r : Request) : option SwitchAuthorization :=
  match route_of (rq_method r) (rq_path r) with
  | RWaitGTID => wr_Authorization <$> ok_option (decode (A := WaitGTIDRequest) r)
  | RDemote | RPromote => or_Authorization <$> ok_option (decode (A := OperationRequest) r)
  | RReplica => rr_Authorization <$> ok_option (decode (A := ReplicaRequest) r)
  | _ => None
  end.

Definition is_operation (rt : route) : bool :=
  match rt with RWaitGTID | RDemote | RPromote | RReplica => true | _ => false end.

(** The calls that need authorization. *)
Definition guarded {X} (e : operatorE X) : bool :=
  match e with
  | OWaitForGTID _ _ _ | ODemote _ | OPromote _ | OReconfigureReplica _ _ => true
  | _ => false
  end.

(** The request began with the verification of [auth], which succeeded. *)
Definition verified (ctx : Context) (auth : SwitchAuthorization) (tr : list (event agentE)) : Prop :=
  OperationID auth <> "" /\
  exists rest, tr = Ev (AVerify (WithTimeout ctx 3) auth) (Ok tt) :: rest.

Definition verify_first (r : Request) (X : Type) (tr : list (event agentE)) (e : agentE X) : Prop :=
  match e with
  | ADb e => guarded e = true -> exists auth, request_auth r = Some auth /\
      verified (rq_ctx r) auth tr
  | _ => True
  end.

Definition any_answer (X : Type) (e : agentE X) (x : X) : Prop := True.
Abbreviation hist r := (history_spec any_answer (verify_first r)).

Lemma verified_app ctx auth tr ev : verified ctx auth tr -> verified ctx auth (tr ++ [ev]).
Proof. intros (Hid & rest & ->). split; [done|]. by exists (rest ++ [ev]). Qed.

(** Once the authorization is verified every call is allowed. *)
Lemma verified_call r auth X (e : agentE X) :
  request_auth r = Some auth -> keeps (hist r) (verified (rq_ctx r) auth) (call e).
Proof.
  intros Ha. apply keeps_call. intros h Hh. split.
  - destruct e; simpl; eauto.
  - intros x h' [_ ->]. by apply verified_app.
Qed.

Lemma verified_loop r auth fuel :
  request_auth r = Some auth ->
  keeps (hist r) (verified (rq_ctx r) auth) (replica_loop fuel (rq_ctx r)).
Proof.
  intros Ha. induction fuel as [|fuel IH]; simpl; [apply keeps_ret|]. unfold db.
  keeping; by apply (verified_call r auth).
Qed.

Lemma authorize_wp {B} r auth (k : result unit -> prog agentE B) :
  (OperationID auth = "" -> wp (hist r) (k (Err "operation ID is required")) (fun _ _ => True) []) ->
  (forall e h, wp (hist r) (k (Err e)) (fun _ _ => True) h) ->
  (OperationID auth <> "" -> keeps (hist r) (verified (rq_ctx r) auth) (k (Ok tt))) ->
  wp (hist r) (bind (authorize (rq_ctx r) auth) k) (fun _ _ => True) [].
Proof.
  intros Hempty Herr Hok. unfold authorize. case_bool_decide as Hid; [by apply Hempty|].
  apply wp_bind, wp_defer, wp_call; [done|]. intros x h [_ ->].
  apply wp_call; [done|]. intros ? h [_ ->]. destruct x as [[]|e]; [|apply Herr].
  eapply wp_mono; [apply Hok; [done|]|done]. apply verified_app.
  split; [done|]. by exists [].
Qed.

Lemma authorized_wp {A} `{Json A} r (auth : A -> SwitchAuthorization) k :
  (forall a, decode r = Ok a -> request_auth r = Some (auth a)) ->
  (forall a, decode r = Ok a -> keeps (hist r) (verified (rq_ctx r) (auth a)) (k a)) ->
  wp (hist r) (authorized r auth k) (fun _ _ => True) [].
Proof.
  intros Hauth Hk. unfold authorized. destruct (decode r) as [a|e]; [|done].
  apply authorize_wp; [done|done|]. intros _. by apply Hk.
Qed.

Lemma answered_wp r (p : prog agentE Response) :
  wp (hist r) p (fun _ _ => True) [] -> wp (hist r) (answered p) (fun _ _ => True) [].
Proof. intros Hp. eapply wp_seq; [exact Hp|]. intros a h _. exact I. Qed.

(** The calls that remain in a handler after authorization. *)
Ltac verified_calls r a :=
  intros a Ha; unfold db, reply, refuse; keeping; apply (verified_call r); unfold request_auth;
  match goal with H : route_of _ _ = _ |- _ => rewrite H end; by rewrite Ha.

Lemma Handler_verifies fuel nodeID r :
  wp (hist r) (Handler fuel nodeID r) (fun _ _ => True) [].
Proof.
  unfold Handler. destruct (route_of (rq_method r) (rq_path r)) eqn:Hroute;
    try (apply answered_wp); try exact I.
  - apply wp_bind, wp_call; [done|]. intros x h _. exact I.
  - apply wp_bind, wp_call; [done|]. intros [g [e|]] h _; exact I.
  - apply authorized_wp; [|verified_calls r a].
    intros a Ha. unfold request_auth. by rewrite Hroute, Ha.
  - apply authorized_wp; [|verified_calls r a].
    intros a Ha. unfold request_auth. by rewrite Hroute, Ha.
  - apply authorized_wp; [|verified_calls r a].
    intros a Ha. unfold request_auth. by rewrite Hroute, Ha.
  - unfold replica. destruct (decode r) as [a|e] eqn:Ha; [|done].
    assert (request_auth r = Some (rr_Authorization a)) as Hauth.
    { unfold request_auth. by rewrite Hroute, Ha. }
    apply authorize_wp; [done|done|]. intros _. unfold db, answered, reply, refuse.
    keeping; first [by apply (verified_call r) | by apply verified_loop].
Qed.

(** ** Refused requests *)

(** What refusing a request without authorization leaves: the verification,
    if one was made, and its cancellation. *)
Definition refusal (r : Request) (auth : option SwitchAuthorization) (tr : list (event agentE))
    (resp : Response) : Prop :=
  match auth with
  | None => tr = [] /\ rp_code resp = StatusBadRequest
  | Some auth =>
      rp_code resp = StatusForbidden /\
      (OperationID auth = "" /\ tr = [] \/
       exists e, tr = [Ev (AVerify (WithTimeout (rq_ctx r) 3) auth) (Err e);
                       Ev (ACancel (WithTimeout (rq_ctx r) 3)) tt] /\ resp = writeError 403 e)
  end.

Definition not_verified (tr : list (event agentE)) : Prop :=
  forall ctx auth rest, tr <> Ev (AVerify ctx auth) (Ok tt) :: rest.

Lemma authorize_behaves {B} ctx auth (k : result unit -> prog agentE B) tr b :
  behaves (bind (authorize ctx auth) k) tr b -> not_verified tr ->
  (OperationID auth = "" /\ behaves (k (Err "operation ID is required")) tr b) \/
  exists e tr', tr = Ev (AVerify (WithTimeout ctx 3) auth) (Err e) ::
    Ev (ACancel (WithTimeout ctx 3)) tt :: tr' /\ behaves (k (Err e)) tr' b.
Proof.
  unfold authorize. case_bool_decide as Hid; [by left|].
  intros ([[]|e] & tr1 & -> & (y & tr2 & -> & Hb)) Hnot; [by destruct (Hnot _ _ _ eq_refl)|].
  right. exists e, tr2. by destruct y.
Qed.

Lemma authorized_refusal {A} `{Json A} r (auth : A -> SwitchAuthorization) k tr resp :
  behaves (authorized r auth k) tr resp -> not_verified tr ->
  refusal r (auth <$> ok_option (decode r)) tr resp.
Proof.
  unfold authorized. destruct (decode r) as [a|e]; simpl; [|by intros [-> ->]].
  intros Hb Hnot. destruct (authorize_behaves _ _ _ _ _ Hb Hnot)
    as [(Hid & -> & ->)|(e & tr' & -> & -> & ->)]; simpl; eauto.
Qed.

Lemma answered_behaves p tr resp :
  behaves (answered p) tr resp -> exists x, resp = Some x /\ behaves p tr x.
Proof.
  intros (tr1 & tr2 & x & -> & Hp & -> & ->)%behaves_bind. rewrite app_nil_r. eauto.
Qed.

Lemma Handler_refusal fuel nodeID r tr resp :
  is_operation (route_of (rq_method r) (rq_path r)) = true ->
  behaves (Handler fuel nodeID r) tr resp -> not_verified tr ->
  exists x, resp = Some x /\ refusal r (request_auth r) tr x.
Proof.
  unfold Handler, request_auth. destruct (route_of _ _) eqn:Hroute; try done; intros _ Hb Hnot.
  1-3: apply answered_behaves in Hb as (x & -> & Hb); exists x; split; [done|];
    by apply (authorized_refusal _ _ _ _ _ Hb).
  unfold replica in Hb. destruct (decode r) as [a|e]; simpl.
  - destruct (authorize_behaves _ _ _ _ _ Hb Hnot)
      as [(Hid & -> & ->)|(e & tr' & -> & -> & ->)];
      (eexists; split; [reflexivity|]); simpl; eauto.
  - destruct Hb as [-> ->]. eauto.
Qed.

(** ** Promotion *)

(** A single status of a healthy primary. *)
Definition shows_primary (tr : list (event agentE)) : bool :=
  match tr with
  | [Ev e x] =>
      match e in agentE X return X -> bool with
      | ADb o =>
          match o in operatorE X return X -> bool with
          | OStatus _ => fun s => Healthy s && bool_decide (ns_Role s = RolePrimary)
          | _ => fun _ => false
          end
      | _ => fun _ => false
      end x
  | _ => false
  end.

(** ** The replica handler's loop *)

(** The ghost state counts the ticks before the deadline or the end of the
    request. *)
Definition ticks_post {X} (e : agentE X) : nat -> X -> nat -> Prop :=
  match e in agentE X return nat -> X -> nat -> Prop with
  | ASelect _ => fun n x n' =>
      match x with Tick => n = S n' | Deadline | Done _ => n' = n end
  | _ => fun n _ n' => n' = n
  end.
Definition ticks_spec : espec agentE nat := {| pre _ _ _ := True; post _ e := ticks_post e |}.

Lemma replica_loop_ends fuel ctx n :
  (n < fuel)%nat -> wp ticks_spec (replica_loop fuel ctx) (fun r _ => is_Some r) n.
Proof.
  revert n. induction fuel as [|fuel IH]; intros n Hn; [lia|]. simpl.
  apply wp_bind, wp_call; [done|]. intros s ? ->. case_on_match; [exact (ex_intro _ _ eq_refl)|].
  apply wp_bind, wp_call; [done|]. intros [e| |] n' Hn'; [exact (ex_intro _ _ eq_refl)..|].
  apply IH. simpl in Hn'. lia.
Qed.

(** ** Theorems *)

(** C21: in every trace of every request the agent serves, a call that waits
    for transactions, demotes, promotes or repoints the server comes after the
    first call of the request, which verified with the store the non-empty
    authorization the request's own body carries, and succeeded. *)
Theorem role_changes_are_authorized fuel nodeID r tr resp tr1 X (e : operatorE X) x tr2 :
  behaves (Handler fuel nodeID r) tr resp -> tr = tr1 ++ Ev (ADb e) x :: tr2 ->
  guarded e = true ->
  exists auth, request_auth r = Some auth /\ verified (rq_ctx r) auth tr1.
Proof.
  intros Hb Htr He.
  assert (verify_first r X tr1 (ADb e)) as Hv; [|by apply Hv].
  apply (adequacy any_answer (verify_first r) _ _ _ _ (Handler_verifies fuel nodeID r) Hb)
    with (x := x) (tr2 := tr2); [|done]. by apply Forall_forall; intros [].
Qed.

(** C27: a request for one of the four operations whose body does not decode
    is answered 400 without any call; one without an operation ID, or whose
    verification fails, is answered 403 and makes no call but the verification:
    the database is not touched. *)
Theorem refused_requests_touch_nothing fuel nodeID r tr resp :
  is_operation (route_of (rq_method r) (rq_path r)) = true ->
  behaves (Handler fuel nodeID r) tr resp -> not_verified tr ->
  exists x, resp = Some x /\ refusal r (request_auth r) tr x.
Proof. apply Handler_refusal. Qed.

(** C22: the promotion handler promotes only when the status taken right before
    shows a healthy replica with both threads running and no lag, and answers
    200 exactly when the promotion succeeded and the status taken right after
    shows a healthy primary. *)
Theorem promotion_is_gated r tr resp :
  behaves (promote r) tr resp ->
  (exists pre ctx s x post, tr = pre ++ Ev (ADb (OStatus ctx)) s ::
      Ev (ADb (OPromote ctx)) x :: post /\ caught_up s = true /\
    (rp_code resp = StatusOK <-> x = Ok tt /\ shows_primary post = true)) \/
  (rp_code resp <> StatusOK /\
   Forall (fun ev => match ev with Ev (ADb (OPromote _)) _ => False | _ => True end) tr).
Proof.
  unfold promote, authorized, authorize. destruct (decode r) as [a|e];
    [|intros [-> ->]; right; by repeat constructor].
  case_bool_decide; [intros [-> ->]; right; by repeat constructor|].
  intros ([[]|e] & ? & -> & ([] & ? & -> & Hb)); [|destruct Hb as [-> ->]; right; by repeat constructor].
  destruct Hb as (s & ? & -> & Hb). resume Hb. destruct (caught_up s) eqn:Hs;
    [|destruct Hb as [-> ->]; right; by repeat constructor].
  destruct Hb as (y & post & -> & Hb). left.
  eexists [_; _], _, s, y, post. split; [reflexivity|]. split; [done|].
  destruct y as [[]|e]; [|destruct Hb as [-> ->]; naive_solver].
  destruct Hb as (s' & ? & -> & Hb). resume Hb.
  destruct (Healthy s') eqn:Hh; [case_bool_decide as Hr|]; destruct Hb as [-> ->]; simpl;
    rewrite Hh; simpl; rewrite ?bool_decide_true, ?bool_decide_false by done; naive_solver.
Qed.

(** C28: the replica handler answers: if the deadline or the end of the request
    comes after at most [n] ticks of the ticker, any fuel above [n] suffices for
    its loop to return a response. *)
Theorem replica_handler_answers fuel nodeID r n :
  (n < fuel)%nat -> wp ticks_spec (replica fuel nodeID r) (fun resp _ => is_Some resp) n.
Proof.
  intros Hn. unfold replica. destruct (decode r) as [a|e]; [|exact (ex_intro _ _ eq_refl)].
  unfold authorize. case_bool_decide; [exact (ex_intro _ _ eq_refl)|].
  apply wp_try, wp_defer, wp_call; [done|]. intros x ? ->.
  apply wp_call; [done|]. intros [] ? ->. destruct x as [[]|e]; [|exact (ex_intro _ _ eq_refl)].
  case_on_match; [exact (ex_intro _ _ eq_refl)|].
  apply wp_try, wp_call; [done|]. intros [[]|e] ? ->; [|exact (ex_intro _ _ eq_refl)].
  apply wp_bind, wp_call; [done|]. intros [] ? ->. apply wp_defer.
  eapply wp_mono; [by apply replica_loop_ends|]. intros resp n' Hr.
  apply wp_call; [done|]. by intros [] ? ->.
Qed.
End handlers.

(** ** A concrete agent

    A replica that has caught up, whose store authorizes switches from epoch 7. *)
Definition demo_status (promoted : bool) : NodeStatus := {|
  NodeID := "db-2"; ns_Address := "10.0.0.2:3306"; Reachable := true; Healthy := true;
  ns_Role := if promoted then RolePrimary else RoleReplica; ServerUUID := "uuid";
  ReadOnly := negb promoted; SuperReadOnly := negb promoted;
  Replica := if promoted then None else Some {| IOThreadRunning := true; SQLThreadRunning := true;
    SecondsBehind := Some 0; LastIOError := ""; LastSQLError := ""; rs_ExecutedGTID := "";
    RetrievedGTID := "" |};
  ns_Error := ""; CheckedAt := 0; FailureCount := 0 |}.

Definition demo_db {X} (e : operatorE X) : bool -> X * bool :=
  match e in operatorE X return bool -> X * bool with
  | OStatus _ => fun p => (demo_status p, p)
  | OExecutedGTID _ => fun p => (("uuid:1-5", None), p)
  | OWaitForGTID _ _ _ => fun p => (Ok tt, p)
  | ODemote _ => fun _ => (Ok tt, false)
  | OPromote _ => fun _ => (Ok tt, true)
  | OReconfigureReplica _ _ => fun _ => (Ok tt, false)
  | OClose => fun p => (Ok tt, p)
  end.

Definition demo_agent : handler agentE bool := fun X e =>
  match e in agentE X return bool -> X * bool with
  | ADb e => demo_db e
  | AVerify _ auth => fun p =>
      (if FromEpoch auth =? 7 then Ok tt else Err "switch operation epoch is stale", p)
  | ACancel _ | ATimers _ _ | AStopTimers => fun p => (tt, p)
  | ASelect _ => fun p => (Deadline, p)
  end.

Definition demo_auth (epoch : Z) : SwitchAuthorization :=
  {| OperationID := "switch-1"; FromEpoch := epoch; ToEpoch := epoch + 1 |}.

Definition demo_request (path : string) (epoch : Z) : Request := {|
  rq_method := "POST"; rq_path := path; rq_ctx := Root "request";
  rq_body := match Marshal {| or_Authorization := demo_auth epoch |} with
             | Ok body => Some (body, None)
             | Err _ => None
             end |}.

Abbreviation demo_handler r :=
  (Handler 1 "db-2" r).

Definition demo_trace (path : string) (epoch : Z) : list (event agentE) :=
  trace_of demo_agent (demo_handler (demo_request path epoch)) false.

Lemma role_changes_are_authorized_witness :
  exists auth, request_auth
      (demo_request "/api/v1/promote" 7) = Some auth /\
    verified (Root "request") auth (take 3 (demo_trace "/api/v1/promote" 7)).
Proof.
  eapply (role_changes_are_authorized 1 "db-2"
    (demo_request "/api/v1/promote" 7) (demo_trace "/api/v1/promote" 7) _
    (take 3 (demo_trace "/api/v1/promote" 7)) _ (OPromote (Root "request")) (Ok tt)
    (drop 4 (demo_trace "/api/v1/promote" 7))).
  - apply behaves_run.
  - vm_compute. reflexivity.
  - reflexivity.
Defined.

Lemma refused_requests_touch_nothing_witness :
  exists x, (run demo_agent (demo_handler (demo_request "/api/v1/promote" 6)) false).1 = Some x /\
    refusal (demo_request "/api/v1/promote" 6)
      (request_auth
        (demo_request "/api/v1/promote" 6)) (demo_trace "/api/v1/promote" 6) x.
Proof.
  apply (refused_requests_touch_nothing 1
    "db-2").
  - reflexivity.
  - apply behaves_run.
  - intros ctx auth rest Heq.
    apply (f_equal (fun tr => match tr with
      | Ev e x :: _ => match e in agentE X return X -> bool with
                       | AVerify _ _ => is_ok | _ => fun _ => true end x
      | [] => true end)) in Heq.
    vm_compute in Heq. discriminate.
Defined.

Lemma promotion_is_gated_witness :
  let p := promote (demo_request "/api/v1/promote" 7) in
  let tr := trace_of demo_agent p false in
  let resp := (run demo_agent p false).1 in
  rp_code resp = StatusOK /\
  ((exists pre ctx s x post, tr = pre ++ Ev (ADb (OStatus ctx)) s ::
      Ev (ADb (OPromote ctx)) x :: post /\ caught_up s = true /\
      (rp_code resp = StatusOK <-> x = Ok tt /\ shows_primary post = true)) \/
   (rp_code resp <> StatusOK /\
    Forall (fun ev => match ev with Ev (ADb (OPromote _)) _ => False | _ => True end) tr)).
Proof.
  intros p tr resp. split; [vm_compute; reflexivity|].
  apply (promotion_is_gated (demo_request "/api/v1/promote" 7)).
  apply behaves_run.
Defined.

Lemma replica_handler_answers_witness :
  wp ticks_spec (replica 62 "db-2" (demo_request "/api/v1/replica" 7))
    (fun resp _ => is_Some resp) 61%nat.
Proof.
  apply (replica_handler_answers 62 "db-2" (demo_request "/api/v1/replica" 7) 61%nat).
  lia.
Defined.
