(* ===== verification/AgentClient.v ===== *)
(** * The controller's HTTP client of an agent

    [internal/agent/client.go].  [HDo] sends a request through an [http.Client]
    and answers with the status code and the reader of the response's body. *)
From Stdlib Require Import Ascii.
From S2P Require Import Prelude GoStd Effects Model Json JsonText GoTime Wire Format Node.

Record HttpResponse : Type := { hr_code : Z; hr_body : stream }.

(** A certificate with its key, as [tls.LoadX509KeyPair] returns it. *)
Definition KeyPair : Type := string.

Definition VersionTLS12 : Z := 771.

(** The [tls.Config] of a client: oldest protocol version, the PEM text of the
    authorities servers are checked against, and its own certificate. *)
Record ClientTLS : Type := {
  ct_MinVersion : Z;
  ct_RootCAs : string;
  ct_Certificate : KeyPair
}.

(** An [http.Client]: the TLS configuration of its transport and the time limit of
    a request, in seconds. *)
Record HttpClient : Type := {
  hc_TLS : ClientTLS;
  hc_Timeout : Z
}.

Inductive httpE : Type -> Type :=
| HNow : httpE time
| HNewRequest (ctx : Context) (method url : string) : httpE (result unit)
| HDo (http : HttpClient) (ctx : Context) (method url : string) (body : option string)
    : httpE (result HttpResponse)
| HCloseBody : httpE unit
| HCancel (ctx : Context) : httpE unit
| HCloseIdleConnections : httpE unit
| HReadFile (path : string) : httpE (result string)
| HAppendCertsFromPEM (pem : string) : httpE bool
| HLoadX509KeyPair (certFile keyFile : string) : httpE (result KeyPair).

Module AgentClient.

(** [type Client struct] *)
Record Client : Type := { node : AgentNodeConfig; http : HttpClient }.

(** [struct { GTID string `json:"gtid"` }] *)
Record GtidResult : Type := { GTID : string }.

#[global] Instance sanitize_gtid : Sanitize GtidResult := fun r => {| GTID := sanitize (GTID r) |}.

#[global] Instance json_gtid : Json GtidResult.
Proof.
  apply (struct_json (fun r => enc_struct [text "gtid" (GTID r)])
    (dec_struct [fld "gtid" dec_string GTID (fun x _ => {| GTID := x |})]) {| GTID := "" |}).
  - intros a j Ha. eapply (good_struct 2) in Ha; [done..|]. members_ok fail.
  - intros strict a j. encoded. intros [= <-]. by read_members fail.
Defined.

Definition slash : ascii := "/".

(** [do]: [out] reads the body of a success. *)
Definition http_do {A} (c : Client) (ctx : Context) (method url : string)
    (body : option string) (out : stream -> result A) : prog httpE (result A) :=
  try response <- call (HDo (http c) ctx method url body) else (fun e => Ret (Err e)) ;;
  defer (call HCloseBody) (Ret (
    if (hr_code response <? 200) || (300 <=? hr_code response) then
      let payload := (LimitReader 65536 (hr_body response)).1 in
      Err ("agent " +:+ an_ID (node c) +:+ " returned HTTP " +:+ fmt_d (hr_code response) +:+ ": "
           +:+ TrimSpace payload)
    else out (hr_body response))).

(** [out == nil]: the body is discarded. *)
Definition discard (body : stream) : result unit :=
  match body.2 with Some e => Err e | None => Ok tt end.

Definition decode_into {A} `{!Sanitize A, !Json A} (body : stream) : result A :=
  let '(bytes, e) := LimitReader 1048576 body in Decode bytes e.

Definition url_of (c : Client) (path : string) : string :=
  TrimRight (an_AgentURL (node c)) slash +:+ path.

Definition get {A} `{!Sanitize A, !Json A} (c : Client) (ctx : Context) (path : string)
    : prog httpE (result A) :=
  let url := url_of c path in
  try _ <- call (HNewRequest ctx "GET" url) else (fun e => Ret (Err e)) ;;
  http_do c ctx "GET" url None decode_into.

Definition post {A} `{!Sanitize A, !Json A} (c : Client) (ctx : Context)
    (path : string) (input : A) : prog httpE (result unit) :=
  match Marshal input with
  | Err e => Ret (Err e)
  | Ok body =>
      let url := url_of c path in
      try _ <- call (HNewRequest ctx "POST" url) else (fun e => Ret (Err e)) ;;
      http_do c ctx "POST" url (Some body) discard
  end.

Definition unreachable_status (c : Client) (now : time) (err : string) : NodeStatus := {|
  NodeID := an_ID (node c); ns_Address := an_Address (node c); Reachable := false; Healthy := false;
  ns_Role := RoleUnknown; ServerUUID := ""; ReadOnly := false; SuperReadOnly := false;
  Replica := None; ns_Error := err; CheckedAt := now; FailureCount := 0 |}.

Definition Status `{!Json NodeStatus} (c : Client) (ctx : Context)
    : prog httpE NodeStatus :=
  let probeCtx := WithTimeout ctx 5 in
  defer (call (HCancel probeCtx)) (
    r <- get c probeCtx "/api/v1/status" ;;
    match r with
    | Err e => now <- call HNow ;; Ret (unreachable_status c now e)
    | Ok status => Ret (set_Identity (an_ID (node c)) (an_Address (node c)) status)
    end).

Definition ExecutedGTID `{!Json GtidResult} (c : Client) (ctx : Context)
    : prog httpE (result string) :=
  let queryCtx := WithTimeout ctx 5 in
  defer (call (HCancel queryCtx)) (
    r <- get c queryCtx "/api/v1/gtid" ;;
    Ret (match r with Ok g => Ok (GTID g) | Err e => Err e end)).

Definition WaitForGTID `{!Json WaitGTIDRequest} (c : Client) (ctx : Context)
    (auth : SwitchAuthorization) (set : string) (timeoutSeconds : Z) : prog httpE (result unit) :=
  post c ctx "/api/v1/wait-gtid"
    {| wr_Authorization := auth; wr_GTID := set; wr_TimeoutSeconds := timeoutSeconds |}.

Definition Demote `{!Json OperationRequest} (c : Client) (ctx : Context)
    (auth : SwitchAuthorization) : prog httpE (result unit) :=
  post c ctx "/api/v1/demote" {| or_Authorization := auth |}.

Definition Promote `{!Json OperationRequest} (c : Client) (ctx : Context)
    (auth : SwitchAuthorization) : prog httpE (result unit) :=
  post c ctx "/api/v1/promote" {| or_Authorization := auth |}.

Definition ReconfigureReplica `{!Json ReplicaRequest} (c : Client) (ctx : Context)
    (auth : SwitchAuthorization) (source : AgentNodeConfig) : prog httpE (result unit) :=
  post c ctx "/api/v1/replica" {| rr_Authorization := auth; rr_Source := source |}.

Definition Close : prog httpE unit := call HCloseIdleConnections.

(** The client made of what was loaded. *)
Definition new_client (node : AgentNodeConfig) (caPEM : string) (cert : KeyPair) : Client := {|
  node := node;
  http := {| hc_TLS := {| ct_MinVersion := VersionTLS12; ct_RootCAs := caPEM;
                          ct_Certificate := cert |};
             hc_Timeout := 75 |} |}.

Definition NewClient (node : AgentNodeConfig) (caFile certFile keyFile : string)
    : prog httpE (result Client) :=
  if bool_decide (an_ID node = "") || bool_decide (an_AgentURL node = "") then
    Ret (Err "agent id and URL are required")
  else if negb (HasPrefix (an_AgentURL node) "https://") then
    Ret (Err ("agent " +:+ an_ID node +:+ " URL must use HTTPS"))
  else
  try caPEM <- call (HReadFile caFile) else (fun e => Ret (Err (wrap_err "read agent CA" e))) ;;
  found <- call (HAppendCertsFromPEM caPEM) ;;
  if negb found then Ret (Err "agent CA file contains no certificates")
  else
  try cert <- call (HLoadX509KeyPair certFile keyFile)
    else (fun e => Ret (Err (wrap_err "load controller client certificate" e))) ;;
  Ret (Ok (new_client node caPEM cert)).

(** The interface [Node] as this client implements it. *)
Definition node_client `{!Json NodeStatus, !Json GtidResult, !Json WaitGTIDRequest,
    !Json OperationRequest, !Json ReplicaRequest} (c : Client)
    : forall X, nodeE X -> prog httpE X := fun X e =>
  match e in nodeE X return prog httpE X with
  | NStatus ctx => Status c ctx
  | NExecutedGTID ctx => ExecutedGTID c ctx
  | NWaitForGTID ctx auth set t => WaitForGTID c ctx auth set t
  | NDemote ctx auth => Demote c ctx auth
  | NPromote ctx auth => Promote c ctx auth
  | NReconfigureReplica ctx auth source => ReconfigureReplica c ctx auth source
  | NClose => Close
  end.

End AgentClient.
