(* ===== verification/Stack.v ===== *)
(** * The agents implement the controller's [Node]

    The controller calls a node through the HTTP client ([AgentClient.v]), the
    agent's handlers ([Agent.v]), the MySQL client ([MySQL.v]) and the server.
    This file composes them: [serve] is the agent's program down to the
    statements sent to MySQL, [http_spec] is a transport that delivers a
    request to the agent and may lose the answer or cut either side short, and
    the theorem shows that every call of the client then honours [node_post],
    the contract the controller's theorems rely on. *)
From stdpp Require Import countable.
From S2P Require Import Prelude GoStd Effects Model Json JsonText GoTime Wire Format Node MySQL Agent AgentClient.

(** ** The agent's program on top of MySQL *)
Inductive lowE : Type -> Type :=
| LSql {X : Type} (e : sqlE X) : lowE X
| LAgent {X : Type} (e : agentE X) : lowE X.

Definition low_sql : forall X, sqlE X -> prog lowE X := fun X e => call (LSql e).

(** [MySQLOperator] calls become MySQL statements; the others stay. *)
Definition low (c : MySQLNodeConfig) : forall X, agentE X -> prog lowE X := fun X e =>
  match e in agentE X return prog lowE X with
  | ADb o => interp low_sql (operator c _ o)
  | e => call (LAgent e)
  end.

Definition low_post {X} (e : lowE X) : Server -> X -> Server -> Prop :=
  match e in lowE X return Server -> X -> Server -> Prop with
  | LSql e => sql_post e
  | LAgent _ => fun s _ s' => s' = s
  end.
Definition low_spec : espec lowE Server := {| pre _ _ _ := True; post _ e := low_post e |}.

(** ** What the operations of [MySQLOperator] do to the flags *)
Definition both (b : bool) : Server := {| read_only := b; super_read_only := b |}.

Definition flags_post {X} (e : operatorE X) : Server -> X -> Server -> Prop :=
  match e in operatorE X return Server -> X -> Server -> Prop with
  | OStatus _ => fun s st s' => s' = s /\ status_sound st s
  | ODemote _ | OReconfigureReplica _ _ => fun s r s' =>
      s' = both true \/ (s' = s /\ is_ok r = false)
  | OPromote _ => fun s r s' =>
      s' = both false \/ (is_ok r = false /\ read_only s' = read_only s)
  | _ => fun s _ s' => s' = s
  end.
Definition agent_post {X} (e : agentE X) : Server -> X -> Server -> Prop :=
  match e in agentE X return Server -> X -> Server -> Prop with
  | ADb o => flags_post o
  | _ => fun s _ s' => s' = s
  end.
Definition agent_spec : espec agentE Server := {| pre _ _ _ := True; post _ e := agent_post e |}.

Lemma operator_flags c X (o : operatorE X) s :
  wp mysql_server (operator c X o) (fun x s' => flags_post o s x s') s.
Proof.
  destruct o; simpl.
  - apply Status_sound.
  - by apply wp_call.
  - unfold Client.WaitForGTID. case_on_match; [done|]. by apply wp_bind, wp_call.
  - apply SetReadOnly_on.
  - apply Promote_flags.
  - apply Reconfigure_flags.
  - by apply wp_call.
Qed.

Lemma low_flags c X (e : agentE X) s :
  wp low_spec (low c X e) (fun x s' => post agent_spec e s x s') s.
Proof.
  destruct e as [X o|ctx auth|ctx|d t| |ctx]; [|by apply wp_call..].
  apply (wp_interp _ mysql_server); [|apply operator_flags].
  intros X' e' s'. by apply wp_call.
Qed.

(** ** Statements by their effect on writability *)

(** The statement does not make a server writable / read-only. *)
Definition not_more (q : string) : Prop :=
  forall s, accepts_writes (exec_effect q s) = true -> accepts_writes s = true.
Definition not_less (q : string) : Prop :=
  forall s, accepts_writes s = true -> accepts_writes (exec_effect q s) = true.

Definition executes (P : string -> Prop) (X : Type) (e : sqlE X) : Prop :=
  match e with QExec _ q => P q | _ => True end.
Definition low_executes (P : string -> Prop) (X : Type) (e : lowE X) : Prop :=
  match e with @LSql Y e => executes P Y e | LAgent _ => True end.

Lemma neutral_statement q : (forall s, exec_effect q s = s) -> not_more q /\ not_less q.
Proof. intros Hq. split; intros s; by rewrite Hq. Qed.

Lemma replicaStatus_executes P ctx : all_calls (executes P) (Client.replicaStatus ctx).
Proof. unfold Client.replicaStatus, Client.read_replica_row. calls; exact I. Qed.

Lemma Status_executes P c ctx : all_calls (executes P) (Client.Status c ctx).
Proof.
  unfold Client.Status. calls; try exact I. apply replicaStatus_executes.
Qed.

Lemma SetReadOnly_executes (P : string -> Prop) ctx (b : bool) :
  P ("SET GLOBAL super_read_only = " +:+ (if b then "ON" else "OFF")) ->
  P ("SET GLOBAL read_only = " +:+ (if b then "ON" else "OFF")) ->
  all_calls (executes P) (Client.SetReadOnly ctx b).
Proof. intros H1 H2. unfold Client.SetReadOnly, try_exec. calls; try exact I; done. Qed.

Lemma exec_unless_absent_executes (P : string -> Prop) ctx q k :
  P q -> all_calls (executes P) k -> all_calls (executes P) (Client.exec_unless_absent ctx q k).
Proof. intros. unfold Client.exec_unless_absent, try_exec. calls; done. Qed.

Lemma Promote_executes ctx : all_calls (executes not_less) (Client.Promote ctx).
Proof.
  do 2 (apply exec_unless_absent_executes; [by apply neutral_statement|]).
  apply SetReadOnly_executes; intros s; unfold exec_effect, accepts_writes; simpl; done.
Qed.

Lemma SetReadOnly_on_executes ctx : all_calls (executes not_more) (Client.SetReadOnly ctx true).
Proof. apply SetReadOnly_executes; intros s; unfold exec_effect, accepts_writes; simpl; done. Qed.

Lemma Reconfigure_executes c ctx source :
  all_calls (executes not_more) (Client.ReconfigureReplica c ctx source).
Proof.
  do 2 (apply exec_unless_absent_executes; [by apply neutral_statement|]).
  case_on_match; [done|]. unfold try_exec.
  apply all_calls_try; [apply all_calls_call, neutral_statement, change_query_effect|done|intros _].
  apply all_calls_try; [by apply all_calls_call, neutral_statement|done|intros _].
  apply SetReadOnly_on_executes.
Qed.

(** Operations of an agent by their effect on writability. *)
Definition lowering (X : Type) (e : agentE X) : Prop :=
  match e with ADb (OPromote _) => False | _ => True end.
Definition raising (X : Type) (e : agentE X) : Prop :=
  match e with ADb (ODemote _) | ADb (OReconfigureReplica _ _) => False | _ => True end.

Lemma low_all_calls (P : string -> Prop) {A} (p : prog sqlE A) :
  all_calls (executes P) p -> all_calls (low_executes P) (interp low_sql p).
Proof. apply all_calls_interp. intros X e He. by apply all_calls_call. Qed.

Lemma WaitForGTID_executes P ctx set t : all_calls (executes P) (Client.WaitForGTID ctx set t).
Proof. unfold Client.WaitForGTID. calls; exact I. Qed.

Lemma lowering_low c X (e : agentE X) :
  lowering X e -> all_calls (low_executes not_more) (low c X e).
Proof.
  destruct e as [X o|ctx auth|ctx|d t| |ctx]; [|by intros _; apply all_calls_call..].
  destruct o; try done; intros _; apply low_all_calls; cbn [operator];
    first [apply Status_executes|apply WaitForGTID_executes|apply SetReadOnly_on_executes
      |apply Reconfigure_executes|by apply all_calls_call].
Qed.

Lemma raising_low c X (e : agentE X) :
  raising X e -> all_calls (low_executes not_less) (low c X e).
Proof.
  destruct e as [X o|ctx auth|ctx|d t| |ctx]; [|by intros _; apply all_calls_call..].
  destruct o; try done; intros _; apply low_all_calls; cbn [operator];
    first [apply Status_executes|apply WaitForGTID_executes|apply Promote_executes
      |by apply all_calls_call].
Qed.

(** An execution of statements none of which makes the server writable (or
    read-only). *)
Lemma not_more_reaches {A} (p : prog lowE A) s s' :
  all_calls (low_executes not_more) p -> reaches low_spec p s s' ->
  accepts_writes s' = accepts_writes s \/ accepts_writes s' = false.
Proof.
  intros Hp Hr. assert (accepts_writes s' = true -> accepts_writes s = true) as Himp.
  { apply (all_calls_reaches low_spec (low_executes not_more)
      (fun s' => accepts_writes s' = true -> accepts_writes s = true) p s s'); auto.
    intros X [Y e|Y e] s1 x s2 He HI; [|by simpl; intros ->]. destruct e; simpl; try by intros ->.
    - by intros [-> _].
    - intros [->|[-> _]]; auto. }
  destruct (accepts_writes s'); [left; symmetry; auto|by right].
Qed.

Lemma not_less_reaches {A} (p : prog lowE A) s s' :
  all_calls (low_executes not_less) p -> reaches low_spec p s s' ->
  accepts_writes s' = accepts_writes s \/ accepts_writes s' = true.
Proof.
  intros Hp Hr. assert (accepts_writes s = true -> accepts_writes s' = true) as Himp.
  { apply (all_calls_reaches low_spec (low_executes not_less)
      (fun s' => accepts_writes s = true -> accepts_writes s' = true) p s s'); auto.
    intros X [Y e|Y e] s1 x s2 He HI; [|by simpl; intros ->]. destruct e; simpl; try by intros ->.
    - by intros [-> _].
    - intros [->|[-> _]]; auto. }
  destruct (accepts_writes s'); [by right|left]. destruct (accepts_writes s); [|done].
  by specialize (Himp eq_refl).
Qed.

(** ** The transport *)
Section stack.
Context `{JO : !Json OperationRequest, JW : !Json WaitGTIDRequest, JR : !Json ReplicaRequest}.
Context `{JS : !Json NodeStatus, JG : !Json AgentClient.GtidResult}.
Context (c : MySQLNodeConfig) (cl : AgentClient.Client).
Abbreviation node := (AgentClient.node cl).

Definition serve (fuel : nat) (r : Request) : prog lowE (option Response) :=
  interp (low c) (Handler fuel (an_ID node) r).

(** The request as it arrives. *)
Definition delivered (method path : string) (body : option string) : Request := {|
  rq_method := method; rq_path := path; rq_body := Some (default "" body, None);
  rq_ctx := Root "request" |}.

(** The body of a response as it arrives: all of it or a part. *)
Definition carries (v : Value) (body : stream) : Prop :=
  exists n e, body = (take_bytes n (body_text v), e).

Definition http_post {X} (e : httpE X) : Server -> X -> Server -> Prop :=
  match e in httpE X return Server -> X -> Server -> Prop with
  | HDo _ _ method url body => fun s r s' =>
      forall path, url = AgentClient.url_of cl path ->
      (exists fuel resp b, can low_spec (serve fuel (delivered method path body)) s (Some resp) s' /\
        r = Ok {| hr_code := rp_code resp; hr_body := b |} /\ carries (rp_value resp) b) \/
      (is_ok r = false /\
        exists fuel, reaches low_spec (serve fuel (delivered method path body)) s s')
  | _ => fun s _ s' => s' = s
  end.
Definition http_spec : espec httpE Server := {| pre _ _ _ := True; post _ e := http_post e |}.

Lemma http_do_wp {A} ctx method path body (out : stream -> result A) Q s :
  (forall e fuel s', reaches low_spec (serve fuel (delivered method path body)) s s' ->
    Q (Err e) s') ->
  (forall fuel resp b x s', can low_spec (serve fuel (delivered method path body)) s (Some resp) s' ->
    carries (rp_value resp) b -> 200 <= rp_code resp < 300 -> out b = Ok x -> Q (Ok x) s') ->
  wp http_spec (AgentClient.http_do cl ctx method (AgentClient.url_of cl path) body out)
    Q s.
Proof.
  intros Herr Hok. apply wp_try, wp_call; [done|]. intros r s' Hpost.
  destruct (Hpost path eq_refl) as [(fuel & resp & b & Hcan & -> & Hb)|[Hr [fuel Hreach]]].
  - apply wp_defer. apply wp_call; [done|]. intros [] s1 ->. simpl.
    destruct ((rp_code resp <? 200) || (300 <=? rp_code resp)) eqn:Hcode.
    + eapply Herr, can_reaches, Hcan.
    + propify. destruct (out b) as [x|e] eqn:Hout;
        [eapply Hok; [exact Hcan|done|lia|done]|eapply Herr, can_reaches, Hcan].
  - destruct r as [x|e]; [done|]. by eapply Herr.
Qed.

(** What a result of the agent's handler means for the server. *)
Lemma serve_result fuel r (Q : option Response -> Server -> Prop) s resp s' :
  wp agent_spec (Handler fuel (an_ID node) r) Q s ->
  can low_spec (serve fuel r) s resp s' -> Q resp s'.
Proof. intros Hwp. apply wp_can, (wp_interp _ agent_spec); [apply low_flags|done]. Qed.

(** A response of success means [R] of the server. *)
Definition if_success (R : Server -> Prop) (resp : Response) (s : Server) : Prop :=
  200 <= rp_code resp < 300 -> R s.

Lemma refuse_success R code e s : 300 <= code -> if_success R (writeError code e) s.
Proof. unfold if_success. simpl. lia. Qed.

Lemma authorize_quiet ctx auth s : wp agent_spec (authorize ctx auth) (fun _ s' => s' = s) s.
Proof.
  unfold authorize. case_bool_decide; [done|]. apply wp_defer, wp_call; [done|].
  intros x ? ->. apply wp_call; [done|]. by intros [] ? ->.
Qed.

Lemma authorized_success {A} `{Json A} r (auth : A -> SwitchAuthorization) k R s :
  (forall a, wp agent_spec (k a) (if_success R) s) ->
  wp agent_spec (authorized r auth k) (if_success R) s.
Proof.
  intros Hk. unfold authorized. destruct (decode r) as [a|e];
    [|by apply (refuse_success R StatusBadRequest)].
  apply wp_try. eapply wp_mono; [apply authorize_quiet|].
  intros [[]|e] ? ->; [apply Hk|by apply (refuse_success R StatusForbidden)].
Qed.

Lemma demote_success r s :
  wp agent_spec (demote r) (if_success (fun s' => accepts_writes s' = false)) s.
Proof.
  apply authorized_success. intros _. apply wp_try, wp_call; [done|].
  intros [[]|e] s' [->|[-> Hr]]; try done; by apply (refuse_success _ StatusConflict).
Qed.

Lemma promote_success r s :
  wp agent_spec (promote r) (if_success (fun s' => accepts_writes s' = true)) s.
Proof.
  apply authorized_success. intros _. apply wp_bind, wp_call; [done|]. intros st ? [-> _].
  case_on_match; [by apply (refuse_success _ StatusConflict)|].
  apply wp_try, wp_call; [done|]. intros [[]|e] s1 _; [|by apply (refuse_success _ StatusConflict)].
  apply wp_bind, wp_call; [done|]. intros st' s2 [-> Hs].
  case_on_match; [by apply (refuse_success _ StatusConflict)|]. intros _. propify.
  destruct Hs as (_ & _ & _ & Hprim & _). destruct_and?. by apply Hprim.
Qed.

Definition option_success (R : Server -> Prop) (resp : option Response) (s : Server) : Prop :=
  forall x, resp = Some x -> if_success R x s.

Lemma answered_success p R s :
  wp agent_spec p (if_success R) s -> wp agent_spec (answered p) (option_success R) s.
Proof. intros Hp. eapply wp_seq; [exact Hp|]. by intros a s' Ha x [= <-]. Qed.

Lemma replica_loop_quiet fuel ctx s :
  wp agent_spec (replica_loop fuel ctx) (fun _ s' => s' = s) s.
Proof.
  induction fuel as [|fuel IH]; [done|]. simpl. apply wp_bind, wp_call; [done|].
  intros st ? [-> _]. case_on_match; [exact eq_refl|]. apply wp_bind, wp_call; [done|].
  intros [e| |] ? ->; [exact eq_refl..|exact IH].
Qed.

Lemma replica_success fuel id r s :
  wp agent_spec (replica fuel id r) (option_success (fun s' => accepts_writes s' = false)) s.
Proof.
  assert (forall code e s, 300 <= code ->
    option_success (fun s' => accepts_writes s' = false) (Some (writeError code e)) s) as Hrefuse.
  { intros code e s1 Hc x [= <-]. by apply refuse_success. }
  unfold replica. destruct (decode r) as [a|e]; [|by apply (Hrefuse StatusBadRequest)].
  apply wp_try. eapply wp_mono; [apply authorize_quiet|].
  intros [[]|e] ? ->; [|by apply (Hrefuse StatusForbidden)].
  case_on_match; [by apply (Hrefuse StatusBadRequest)|].
  apply wp_try, wp_call; [done|]. intros [[]|e] s1 Hs1; [|by apply (Hrefuse StatusConflict)].
  destruct Hs1 as [->|[_ Hr]]; [|done].
  apply wp_bind, wp_call; [done|]. intros [] ? ->. apply wp_defer.
  eapply wp_mono; [apply replica_loop_quiet|]. intros resp ? ->.
  apply wp_call; [done|]. by intros [] ? -> x _ _.
Qed.

(** The handlers by the operations they use. *)
Lemma handlers_lowering r fuel id :
  all_calls lowering (demote r) /\ all_calls lowering (replica fuel id r) /\
  all_calls lowering (waitGTID r) /\ all_calls lowering (status r) /\ all_calls lowering (gtid r).
Proof.
  assert (forall ctx auth, all_calls lowering (authorize ctx auth)) as Hauth.
  { intros. unfold authorize. calls; exact I. }
  assert (forall n ctx, all_calls lowering (replica_loop n ctx)) as Hloop.
  { induction n as [|n IH]; intros ctx; cbn [replica_loop]; [exact I|]. unfold db. calls; try exact I; auto. }
  unfold demote, replica, waitGTID, status, gtid, authorized, answered, db, reply, refuse.
  split_and!; calls; try exact I; auto.
Qed.

Lemma handlers_raising r :
  all_calls raising (promote r) /\ all_calls raising (waitGTID r) /\
  all_calls raising (status r) /\ all_calls raising (gtid r).
Proof.
  assert (forall ctx auth, all_calls raising (authorize ctx auth)) as Hauth.
  { intros. unfold authorize. calls; exact I. }
  unfold promote, waitGTID, status, gtid, authorized, answered, db, reply, refuse.
  split_and!; calls; try exact I; auto.
Qed.

(** ** The calls of the client *)

(** The set of writable nodes when this one is in state [s]. *)
Definition writers (W : gset string) (s : Server) : gset string :=
  if accepts_writes s then {[an_ID node]} ∪ W else W ∖ {[an_ID node]}.

Lemma writers_same W s s' : accepts_writes s' = accepts_writes s -> writers W s' = writers W s.
Proof. unfold writers. by intros ->. Qed.

Lemma writers_off W s s' :
  accepts_writes s' = false -> writers W s' = writers W s ∖ {[an_ID node]}.
Proof. unfold writers. intros ->. destruct (accepts_writes s); set_solver. Qed.

Lemma writers_on W s s' :
  accepts_writes s' = true -> writers W s' = writers W s ∪ {[an_ID node]}.
Proof.
  unfold writers. intros ->. destruct (accepts_writes s); [set_solver|].
  apply set_eq. intros x. destruct (decide (x = an_ID node)); set_solver.
Qed.

(** The routes of the client's requests. *)
Lemma serve_calls (P : string -> Prop) (L : forall X, agentE X -> Prop) fuel method path body :
  (forall X e, L X e -> all_calls (low_executes P) (low c X e)) ->
  all_calls L (Handler fuel (an_ID node) (delivered method path body)) ->
  all_calls (low_executes P) (serve fuel (delivered method path body)).
Proof. apply all_calls_interp. Qed.

Lemma answered_calls L (p : prog agentE Response) : all_calls L p -> all_calls L (answered p).
Proof. intros Hp. by apply all_calls_bind. Qed.

(** A request whose handler only lowers and only raises changes nothing. *)
Lemma quiet_reaches fuel method path body s s' :
  all_calls lowering (Handler fuel (an_ID node) (delivered method path body)) ->
  all_calls raising (Handler fuel (an_ID node) (delivered method path body)) ->
  reaches low_spec (serve fuel (delivered method path body)) s s' ->
  accepts_writes s' = accepts_writes s.
Proof.
  intros Hl Hr Hreach.
  destruct (not_more_reaches _ _ _ (serve_calls _ _ _ _ _ _ (lowering_low c) Hl) Hreach),
    (not_less_reaches _ _ _ (serve_calls _ _ _ _ _ _ (raising_low c) Hr) Hreach); congruence.
Qed.

Lemma status_quiet fuel body s s' :
  reaches low_spec (serve fuel (delivered "GET" "/api/v1/status" body)) s s' ->
  accepts_writes s' = accepts_writes s.
Proof.
  apply quiet_reaches; apply answered_calls;
    [apply (handlers_lowering _ 0 "")|apply handlers_raising].
Qed.

Lemma gtid_quiet fuel body s s' :
  reaches low_spec (serve fuel (delivered "GET" "/api/v1/gtid" body)) s s' ->
  accepts_writes s' = accepts_writes s.
Proof.
  apply quiet_reaches; apply answered_calls;
    [apply (handlers_lowering _ 0 "")|apply handlers_raising].
Qed.

Lemma wait_quiet fuel body s s' :
  reaches low_spec (serve fuel (delivered "POST" "/api/v1/wait-gtid" body)) s s' ->
  accepts_writes s' = accepts_writes s.
Proof.
  apply quiet_reaches; apply answered_calls;
    [apply (handlers_lowering _ 0 "")|apply handlers_raising].
Qed.

Lemma demote_reaches fuel body s s' :
  reaches low_spec (serve fuel (delivered "POST" "/api/v1/demote" body)) s s' ->
  accepts_writes s' = accepts_writes s \/ accepts_writes s' = false.
Proof.
  apply not_more_reaches, (serve_calls _ lowering); [apply lowering_low|].
  apply answered_calls, (handlers_lowering _ 0 "").
Qed.

Lemma replica_reaches fuel body s s' :
  reaches low_spec (serve fuel (delivered "POST" "/api/v1/replica" body)) s s' ->
  accepts_writes s' = accepts_writes s \/ accepts_writes s' = false.
Proof.
  apply not_more_reaches, (serve_calls _ lowering); [apply lowering_low|].
  apply (handlers_lowering _ fuel (an_ID node)).
Qed.

Lemma promote_reaches fuel body s s' :
  reaches low_spec (serve fuel (delivered "POST" "/api/v1/promote" body)) s s' ->
  accepts_writes s' = accepts_writes s \/ accepts_writes s' = true.
Proof.
  apply not_less_reaches, (serve_calls _ raising); [apply raising_low|].
  apply answered_calls, handlers_raising.
Qed.

(** ** A posted operation *)
Lemma post_wp {A} `{!Sanitize A, !Json A} ctx path (input : A) (Q : result unit -> Server -> Prop) s :
  (forall e, Q (Err e) s) ->
  (forall e body fuel s', reaches low_spec (serve fuel (delivered "POST" path (Some body))) s s' ->
    Q (Err e) s') ->
  (forall body fuel resp s',
    can low_spec (serve fuel (delivered "POST" path (Some body))) s (Some resp) s' ->
    200 <= rp_code resp < 300 -> Q (Ok tt) s') ->
  wp http_spec (AgentClient.post cl ctx path input) Q s.
Proof.
  intros Hsame Herr Hok. unfold AgentClient.post. destruct (Marshal input) as [body|e]; [|apply Hsame].
  apply wp_try, wp_call; [done|]. intros [[]|e] ? ->; [|apply Hsame].
  apply http_do_wp; [eauto|]. intros fuel resp b [] s' Hcan _ Hcode _. eauto.
Qed.

(** A status that arrives is the one taken. *)
Lemma status_result fuel body b resp s s' x :
  can low_spec (serve fuel (delivered "GET" "/api/v1/status" body)) s (Some resp) s' ->
  carries (rp_value resp) b -> AgentClient.decode_into b = Ok x ->
  ReadOnly x = true -> accepts_writes s' = false.
Proof.
  intros Hcan Hb Hd Hro.
  assert (exists st, resp = writeJSON StatusOK (VStatus st) /\ status_sound st s') as (st & -> & Hs).
  { cut (exists st, Some resp = Some (writeJSON StatusOK (VStatus st)) /\ status_sound st s').
    { intros (st & [= ->] & ?). eauto. }
    revert Hcan. apply serve_result with (Q := fun resp s' =>
      exists st, resp = Some (writeJSON StatusOK (VStatus st)) /\ status_sound st s').
    apply wp_bind, wp_bind, wp_call; [done|]. intros st ? [-> Hs]. exists st. by split. }
  destruct Hb as (n & e & ->). unfold AgentClient.decode_into, body_text in Hd. simpl in Hd.
  destruct (Marshal st) as [t|err] eqn:Hm.
  - pose proof (Decode_limited st t n 1048576 newline e x Hm Hd) as ->. simpl in Hro.
    unfold accepts_writes. destruct Hs as (Hread & _). by rewrite Hread.
  - unfold LimitReader in Hd. simpl in Hd.
    pose proof (Decode_empty (A := NodeStatus) e) as He. by rewrite Hd in He.
Qed.

Lemma demote_done fuel body resp s s' :
  can low_spec (serve fuel (delivered "POST" "/api/v1/demote" body)) s (Some resp) s' ->
  200 <= rp_code resp < 300 -> accepts_writes s' = false.
Proof.
  intros Hcan. refine (serve_result fuel (delivered "POST" "/api/v1/demote" body)
    (option_success (fun s' => accepts_writes s' = false)) s (Some resp) s' _ Hcan resp eq_refl).
  apply answered_success, demote_success.
Qed.

Lemma promote_done fuel body resp s s' :
  can low_spec (serve fuel (delivered "POST" "/api/v1/promote" body)) s (Some resp) s' ->
  200 <= rp_code resp < 300 -> accepts_writes s' = true.
Proof.
  intros Hcan. refine (serve_result fuel (delivered "POST" "/api/v1/promote" body)
    (option_success (fun s' => accepts_writes s' = true)) s (Some resp) s' _ Hcan resp eq_refl).
  apply answered_success, promote_success.
Qed.

Lemma replica_done fuel body resp s s' :
  can low_spec (serve fuel (delivered "POST" "/api/v1/replica" body)) s (Some resp) s' ->
  200 <= rp_code resp < 300 -> accepts_writes s' = false.
Proof.
  intros Hcan. refine (serve_result fuel (delivered "POST" "/api/v1/replica" body)
    (option_success (fun s' => accepts_writes s' = false)) s (Some resp) s' _ Hcan resp eq_refl).
  apply replica_success.
Qed.

Lemma Status_refines W ctx s :
  wp http_spec (AgentClient.Status cl ctx)
    (fun x s' => node_post (an_ID node) (NStatus ctx) (writers W s) x (writers W s')) s.
Proof.
  assert (forall now e s', accepts_writes s' = accepts_writes s ->
    node_post (an_ID node) (NStatus ctx) (writers W s)
      (AgentClient.unreachable_status cl now e) (writers W s')) as Hun.
  { intros now e s' Hs. split; [by apply writers_same|done]. }
  apply wp_defer, wp_bind. unfold AgentClient.get. apply wp_try, wp_call; [done|].
  intros [[]|e] ? ->.
  - apply http_do_wp.
    + intros e fuel s' Hr%status_quiet. apply wp_bind, wp_call; [done|]. intros now ? ->.
      apply wp_call; [done|]. intros [] ? ->. by apply Hun.
    + intros fuel resp b x s' Hcan Hb _ Hd. apply wp_call; [done|]. intros [] ? ->.
      pose proof (status_quiet _ _ _ _ (can_reaches _ _ _ _ _ Hcan)) as Hq.
      split; [by apply writers_same|]. intros Hro. simpl in Hro. propify. destruct_and?.
      rewrite <-(writers_same W s s' Hq), (writers_off W s s'); [set_solver|].
      by eapply status_result.
  - apply wp_bind, wp_call; [done|]. intros now ? ->. apply wp_call; [done|].
    intros [] ? ->. by apply Hun.
Qed.

Lemma ExecutedGTID_refines W ctx s :
  wp http_spec (AgentClient.ExecutedGTID cl ctx) (fun _ s' => writers W s' = writers W s) s.
Proof.
  apply wp_defer, wp_bind. unfold AgentClient.get. apply wp_try, wp_call; [done|].
  intros [[]|e] ? ->; [|apply wp_call; [done|]; by intros [] ? ->].
  apply http_do_wp.
  - intros e fuel s' Hr%gtid_quiet. apply wp_call; [done|]. intros [] ? ->. by apply writers_same.
  - intros fuel resp b x s' Hcan%can_reaches%gtid_quiet _ _ _. apply wp_call; [done|].
    intros [] ? ->. by apply writers_same.
Qed.

(** ** Theorem *)

(** C18: the chain from the controller's HTTP client through the agent's
    handlers and the MySQL client to the server honours what the controller
    assumes of a node, for every call, whatever the transport loses and
    whichever statements fail: a confirmed read-only status means the server
    accepts no writes, demotion and repointing never make it writable and
    succeed only when it is not, promotion succeeds only when it is, and the
    other calls leave it as it was. *)
Theorem agent_stack_refines_node W X (e : nodeE X) s :
  wp http_spec (AgentClient.node_client cl X e)
    (fun x s' => node_post (an_ID node) e (writers W s) x (writers W s')) s.
Proof.
  destruct e; [apply Status_refines|apply ExecutedGTID_refines|..].
  - apply post_wp; [done|..]; [by intros e body fuel s' Hr%wait_quiet; apply writers_same|].
    intros body fuel resp s' Hcan%can_reaches%wait_quiet _. by apply writers_same.
  - apply post_wp; [by right|..].
    + intros e body fuel s' [Hs|Hs]%demote_reaches; [right; split; [by apply writers_same|done]|].
      left. by apply writers_off.
    + intros body fuel resp s' Hcan Hcode. left. by eapply writers_off, demote_done.
  - apply post_wp; [by right|..].
    + intros e body fuel s' [Hs|Hs]%promote_reaches; [right; split; [by apply writers_same|done]|].
      left. by apply writers_on.
    + intros body fuel resp s' Hcan Hcode. left. by eapply writers_on, promote_done.
  - apply post_wp; [by right|..].
    + intros e body fuel s' [Hs|Hs]%replica_reaches; [right; split; [by apply writers_same|done]|].
      left. by apply writers_off.
    + intros body fuel resp s' Hcan Hcode. left. by eapply writers_off, replica_done.
  - apply wp_call; [done|]. by intros [] ? ->.
Qed.
End stack.

(** ** An instance *)
Definition demo_node : AgentNodeConfig :=
  {| an_ID := "db-2"; an_Address := "10.0.0.2:3306"; an_AgentURL := "https://10.0.0.2:9443" |}.
Definition demo_client : AgentClient.Client := AgentClient.new_client demo_node "ca" "controller".
Definition demo_mysql : MySQLNodeConfig := {|
  mc_ID := "db-2"; mc_Address := "10.0.0.2:3306"; mc_DSN := "dsn";
  mc_ReplicationUser := "repl"; mc_ReplicationPass := "secret" |}.
Definition demo_operation : SwitchAuthorization :=
  {| OperationID := "switch-1"; FromEpoch := 7; ToEpoch := 8 |}.

(** A promotion through the stack, with every format instantiated. *)
Lemma agent_stack_refines_node_witness :
  wp (http_spec demo_mysql demo_client)
    (AgentClient.Promote demo_client Background demo_operation)
    (fun r s' => node_post "db-2" (NPromote Background demo_operation) (∅ ∖ {["db-2"]}) r
      (writers demo_client ∅ s')) (both true).
Proof.
  apply (agent_stack_refines_node demo_mysql demo_client ∅ _
    (NPromote Background demo_operation) (both true)).
Defined.
