(* ===== verification/Alert.v ===== *)
(** * Alerts

    The webhook client ([internal/alert/webhook.go]) and the receiver used for
    validation ([cmd/alert-receiver/main.go]): its handlers as programs over the
    clock, the mutex and the shared slice, the goroutines that run them side by
    side, and its [main]. *)
From Stdlib Require Import Ascii.
From stdpp Require Import functions.
From S2P Require Import Prelude GoStd Effects Model Json JsonText GoTime Wire Format.

(** [type event struct] of the receiver. *)
Record Event : Type := {
  Severity : string;
  Title : string;
  Message : string;
  At : time
}.

Definition event_zero : Event := {| Severity := ""; Title := ""; Message := ""; At := time_zero |}.
Definition event_members (e : Event) : list member :=
  [text "severity" (Severity e); text "title" (Title e); text "message" (Message e);
   required "at" (enc_time (At e))].
Definition event_fields : list (field Event) :=
  [fld "severity" dec_string Severity (fun x '(Build_Event _ b c d) => Build_Event x b c d);
   fld "title" dec_string Title (fun x '(Build_Event a _ c d) => Build_Event a x c d);
   fld "message" dec_string Message (fun x '(Build_Event a b _ d) => Build_Event a b x d);
   fld "at" dec_time At (fun x '(Build_Event a b c _) => Build_Event a b c x)].

(** [json.Marshal] of the map of the three fields, and [Decode] into a zero
    [event] from a reader that supplies the given bytes and then fails with the
    given error. *)
Definition alert_members (severity title message : string) : list member :=
  map_members [("severity", severity); ("title", title); ("message", message)].
Definition MarshalAlert (severity title message : string) : result string :=
  marshal (fun '(s, t, m) => enc_struct (alert_members s t m)) (severity, title, message).
Definition DecodeEvent : string -> option string -> result Event :=
  decode (dec_struct event_fields) event_zero false.

(** ** The client *)
Inductive webhookE : Type -> Type :=
| WNewRequest (ctx : Context) (method url : string) : webhookE (result unit)
| WDo (ctx : Context) (url contentType body : string) : webhookE (result Z)
| WCloseBody : webhookE unit.

Definition Send (URL : string) (ctx : Context) (severity title message : string)
    : prog webhookE (result unit) :=
  if bool_decide (URL = "") then Ret (Ok tt)
  else
  match MarshalAlert severity title message with
  | Err e => Ret (Err e)
  | Ok payload =>
      try _ <- call (WNewRequest ctx "POST" URL) else (fun e => Ret (Err e)) ;;
      try code <- call (WDo ctx URL "application/json" payload) else (fun e => Ret (Err e)) ;;
      defer (call WCloseBody) (Ret (
        if 400 <=? code then Err ("alert webhook returned HTTP " +:+ fmt_d code) else Ok tt))
  end.

(** ** The receiver

    Its state is the slice [events] and the mutex that guards it. *)
Definition max_body : Z := 1048576.

(** [http.MaxBytesReader] fails beyond its limit. *)
Definition MaxBytesReader (n : Z) (body : stream) : stream :=
  if n <? byte_length body.1 then (take_bytes n body.1, Some "http: request body too large")
  else body.

Definition set_At (now : time) (e : Event) : Event :=
  {| Severity := Severity e; Title := Title e; Message := Message e; At := now |}.

(** What a handler writes: status code, content type and body. *)
Record Reply : Type := { re_code : Z; re_content : string; re_body : string }.
Definition line (s : string) : string := s +:+ String (ascii_of_nat 10) "".
Definition plain_reply (code : Z) (text : string) : Reply :=
  {| re_code := code; re_content := "text/plain; charset=utf-8"; re_body := line text |}.
Definition bare_reply (code : Z) : Reply := {| re_code := code; re_content := ""; re_body := "" |}.

(** The event a body decodes to, before it is stamped with the time. *)
Definition read_body (body : stream) : result Event :=
  let '(bytes, e) := MaxBytesReader max_body body in DecodeEvent bytes e.

(** The answer of [GET /events]; the error of encoding is ignored. *)
Definition enc_event (e : Event) : result json := enc_struct (event_members e).
Definition enc_events (events : list Event) : result json :=
  foldr (fun e rest =>
    match enc_event e, rest with
    | Ok j, Ok (JArray l) => Ok (JArray (j :: l))
    | Err e, _ => Err e
    | _, r => r
    end) (Ok (JArray [])) events.
Definition listing (events : list Event) : Reply :=
  {| re_code := 200; re_content := "application/json";
     re_body := match marshal enc_events events with Ok s => line s | Err _ => "" end |}.

(** What a handler does: the clock, the mutex [mu], the reads and writes of the
    shared slice [events], the log, the answer, and closing the body. *)
Inductive serveE : Type -> Type :=
| RNow : serveE time
| RLock : serveE unit
| RUnlock : serveE unit
| RLoad : serveE (list Event)
| RStore (l : list Event) : serveE unit
| RInfo (severity title : string) : serveE unit
| RReply (r : Reply) : serveE unit
| RCloseBody : serveE unit.

(** [POST /webhook]; [append] reads the slice and writes it back. *)
Definition webhook (body : stream) : prog serveE unit :=
  defer (call RCloseBody) (
    match read_body body with
    | Err _ => call (RReply (plain_reply 400 "invalid JSON"))
    | Ok payload =>
        now <- call RNow ;;
        let payload := set_At now payload in
        call RLock ;;;
        events <- call RLoad ;;
        call (RStore (events ++ [payload])) ;;;
        call RUnlock ;;;
        call (RInfo (Severity payload) (Title payload)) ;;;
        call (RReply (bare_reply 202))
    end).

(** [GET /events] *)
Definition list_events : prog serveE unit :=
  call RLock ;;;
  defer (call RUnlock) (
    events <- call RLoad ;;
    call (RReply (listing events))).

(** The multiplexer: a GET pattern also serves HEAD. *)
Record Request : Type := { q_method : string; q_path : string; q_body : stream }.
Definition gets (q : Request) : bool :=
  bool_decide (q_method q = "GET") || bool_decide (q_method q = "HEAD").
Definition receiver_handler (q : Request) : prog serveE unit :=
  let not_allowed := call (RReply (plain_reply 405 "Method Not Allowed")) in
  if bool_decide (q_path q = "/webhook") then
    if bool_decide (q_method q = "POST") then webhook (q_body q) else not_allowed
  else if bool_decide (q_path q = "/events") then
    if gets q then list_events else not_allowed
  else if bool_decide (q_path q = "/healthz") then
    if gets q then call (RReply (bare_reply 200)) else not_allowed
  else call (RReply (plain_reply 404 "404 page not found")).

(** ** [main]

    [listen] is the flag, when it is given; a listener that was closed is [None]. *)
Inductive receiverE : Type -> Type :=
| RLog (message : string) : receiverE unit
| RListenAndServe (addr : string) : receiverE (option string).

Definition receiver_main (listen : option string) : prog receiverE Z :=
  let addr := default "127.0.0.1:9099" listen in
  call (RLog "validation alert receiver started") ;;;
  err <- call (RListenAndServe addr) ;;
  match err with
  | Some _ => call (RLog "alert receiver stopped") ;;; Ret 1
  | None => Ret 0
  end.

(** ** Requests side by side

    The server runs each request in a goroutine of its own.  The state they share
    is the owner of the mutex and the slice; [threads] holds what is left of each
    request.  A step is one call of one goroutine: only [Lock] waits, and nothing
    but the handlers themselves keeps a load or a store inside the mutex. *)
Record Receiver : Type := {
  owner : option nat;
  events : list Event;
  threads : nat -> prog serveE unit
}.

(** The effect and the answer of a call of request [id]. *)
Definition access (id : nat) {X} (e : serveE X) (o : option nat) (l : list Event)
    : X -> option nat -> list Event -> Prop :=
  match e in serveE X return X -> option nat -> list Event -> Prop with
  | RLock => fun _ o' l' => o = None /\ o' = Some id /\ l' = l
  | RUnlock => fun _ o' l' => o' = None /\ l' = l
  | RLoad => fun x o' l' => x = l /\ o' = o /\ l' = l
  | RStore l1 => fun _ o' l' => o' = o /\ l' = l1
  | _ => fun _ o' l' => o' = o /\ l' = l
  end.

Definition receiver_step (r : Receiver) (id : nat) (ev : Effects.event serveE) (r' : Receiver) : Prop :=
  match threads r id with
  | Ret _ => False
  | Vis e k => exists x, ev = Ev e x /\ access id e (owner r) (events r) x (owner r') (events r') /\
      threads r' = <[id := k x]> (threads r)
  end.

Definition serving (q : nat -> Request) : Receiver :=
  {| owner := None; events := []; threads := fun id => receiver_handler (q id) |}.

(** The runs from the start of the server, with the calls made and by whom. *)
Inductive receiver_run (q : nat -> Request) : list (nat * Effects.event serveE) -> Receiver -> Prop :=
| run_nil : receiver_run q [] (serving q)
| run_snoc tr r id ev r' :
    receiver_run q tr r -> receiver_step r id ev r' -> receiver_run q (tr ++ [(id, ev)]) r'.

(** The event a call adds to the slice, and the events added in a run with the
    requests that added them. *)
Definition added (ev : Effects.event serveE) : option Event :=
  match ev with Ev e _ => match e with RStore l => last l | _ => None end end.
Definition recorded (tr : list (nat * Effects.event serveE)) : list (nat * Event) :=
  omap (fun '(id, ev) => pair id <$> added ev) tr.
Definition own (id : nat) (tr : list (nat * Effects.event serveE)) : list (Effects.event serveE) :=
  omap (fun '(i, ev) => if decide (i = id) then Some ev else None) tr.

(** [e] is the event in the body of [q], at the time its handler read. *)
Definition received (q : Request) (past : list (Effects.event serveE)) (e : Event) : Prop :=
  q_path q = "/webhook" /\ q_method q = "POST" /\
  exists payload now, read_body (q_body q) = Ok payload /\ Ev RNow now ∈ past /\ e = set_At now payload.

(** The answer a request may get: 202 only for an event that is [stored], a
    listing of just the events [l] of the slice. *)
Definition deserves (q : Request) (stored : Prop) (l : option (list Event)) (reply : Reply) : Prop :=
  if bool_decide (q_path q = "/webhook") && bool_decide (q_method q = "POST") then
    match read_body (q_body q) with
    | Err _ => reply = plain_reply 400 "invalid JSON"
    | Ok _ => reply = bare_reply 202 /\ stored
    end
  else if bool_decide (q_path q = "/events") && gets q then listing <$> l = Some reply
  else True.

(** ** Theorems *)

(** Without a configured URL an alert is dropped with success and without any
    call; otherwise [Send] succeeds exactly when the webhook, called once with
    the encoded alert, answers with a code below 400. *)
Lemma send_succeeds_iff_delivered URL ctx severity title message tr r :
  behaves (Send URL ctx severity title message) tr r ->
  if bool_decide (URL = "") then tr = [] /\ r = Ok tt
  else r = Ok tt <-> exists payload code, MarshalAlert severity title message = Ok payload /\
    code < 400 /\
    tr = [Ev (WNewRequest ctx "POST" URL) (Ok tt);
          Ev (WDo ctx URL "application/json" payload) (Ok code); Ev WCloseBody tt].
Proof.
  unfold Send. case_bool_decide; [by intros [-> ->]|].
  destruct (MarshalAlert severity title message) as [payload|e]; [|intros [-> ->]; naive_solver].
  intros ([[]|e] & ? & -> & Hb);
    [|destruct Hb as [-> ->]; split; [done|]; by intros (? & ? & _ & _ & ?%(f_equal length))].
  destruct Hb as ([code|e] & ? & -> & Hb);
    [|destruct Hb as [-> ->]; split; [done|]; by intros (? & ? & _ & _ & ?%(f_equal length))].
  destruct Hb as ([] & ? & -> & -> & ->). destruct (Z.leb_spec 400 code).
  - split; [done|]. intros (p & code' & _ & Hc & Heq).
    apply (f_equal (fun tr => match tr with
      | [_; Ev e x; _] => match e in webhookE X return X -> option Z with
          | WDo _ _ _ _ => fun r => match r with Ok z => Some z | Err _ => None end
          | _ => fun _ => None end x
      | _ => None end)) in Heq. simplify_eq/=. lia.
  - split; [|done]. intros _. eauto.
Qed.

(** The alert as it is sent: the members in the order of their names. *)
Definition alert_json (severity title message : string) : json :=
  JObject [("message", enc_string message); ("severity", enc_string severity); ("title", enc_string title)].

Lemma alert_text severity title message :
  MarshalAlert severity title message = Ok (Text.print (alert_json severity title message)).
Proof. reflexivity. Qed.

Lemma good_alert severity title message : good 1 (alert_json severity title message).
Proof.
  assert (Forall (member_ok 0) [text "message" message; text "severity" severity; text "title" title])
    as Hm by members_ok fail.
  by destruct (good_struct 0 _ _ (Z.le_refl 0) Hm eq_refl) as (ms & _ & Hg).
Qed.

Lemma event_decoded severity title message rest e :
  DecodeEvent (Text.print (alert_json severity title message) +:+ rest) e =
    Ok {| Severity := valid_text severity; Title := valid_text title;
          Message := valid_text message; At := time_zero |}.
Proof.
  destruct (good_mono 1 Text.max_depth _ ltac:(done) (good_alert severity title message)) as [? ?].
  unfold DecodeEvent, decode, alert_json. rewrite Text.parse_first_object by done.
  unfold event_zero. by read_members fail.
Qed.

(** The client can encode every alert, and the receiver accepts what it
    encodes, if it is no larger than the receiver's limit of 1 MiB. *)
Lemma alert_accepted severity title message :
  exists payload, MarshalAlert severity title message = Ok payload /\
  (byte_length payload <= max_body ->
   read_body (payload, None) = Ok {| Severity := valid_text severity; Title := valid_text title;
      Message := valid_text message; At := time_zero |}).
Proof.
  eexists. split; [apply alert_text|]. intros Hlen. unfold read_body, MaxBytesReader. cbn [fst].
  destruct (Z.ltb_spec max_body (byte_length (Text.print (alert_json severity title message)))); [lia|].
  pose proof (event_decoded severity title message "" None) as Hd.
  by rewrite string_app_nil in Hd.
Qed.

(** *** One goroutine

    Seen from one request, the others only act while it does not hold the
    mutex: its state is the slice while it holds the mutex, and its own calls. *)
Record Goroutine : Type := { view : option (list Event); past : list (Effects.event serveE) }.

Definition serve_spec (q : Request) : espec serveE Goroutine := {|
  pre X e s := match e with
    | RLock => view s = None
    | RUnlock | RLoad => is_Some (view s)
    | RStore l => omap added (past s) = [] /\
        exists l0 e, view s = Some l0 /\ l = l0 ++ [e] /\ received q (past s) e
    | RReply r => deserves q (omap added (past s) <> []) (view s) r
    | _ => True
    end;
  post X e s x s' := past s' = past s ++ [Ev e x] /\
    match e in serveE X return X -> Prop with
    | RLock => fun _ => is_Some (view s')
    | RUnlock => fun _ => view s' = None
    | RLoad => fun x => view s = Some x /\ view s' = view s
    | RStore l => fun _ => view s' = Some l
    | _ => fun _ => view s' = view s
    end x
|}.

Lemma omap_snoc {A B} (f : A -> option B) l x : omap f (l ++ [x]) = omap f l ++ option_list (f x).
Proof. rewrite omap_app. cbn. by destruct (f x). Qed.

Ltac serve_call :=
  apply wp_call; [cbn; try by eauto|intros ? [? ?] [Hp Hv]; cbn in Hp, Hv; subst;
    try (destruct Hv as [? Hv]); simplify_eq].

Lemma webhook_serves q :
  q_path q = "/webhook" -> q_method q = "POST" ->
  wp (serve_spec q) (webhook (q_body q)) (fun _ s => view s = None) {| view := None; past := [] |}.
Proof.
  intros Hpath Hmethod. unfold webhook. apply wp_defer.
  destruct (read_body (q_body q)) as [payload|e] eqn:Hbody.
  - apply wp_bind. serve_call. apply wp_bind. serve_call. apply wp_bind. serve_call.
    apply wp_bind. serve_call.
    { split; [done|]. eexists _, _. split_and!; [done..|]. split_and!; [done..|].
      eexists _, _. split_and!; [done|by left|done]. }
    apply wp_bind. serve_call. apply wp_bind. serve_call. serve_call.
    + unfold deserves. rewrite !bool_decide_true, Hbody by done. split; [done|].
      cbn. by rewrite last_snoc.
    + by serve_call.
  - serve_call; [|by serve_call].
    unfold deserves. by rewrite !bool_decide_true, Hbody by done.
Qed.

Lemma list_events_serves q :
  q_path q = "/events" ->
  wp (serve_spec q) list_events (fun _ s => view s = None) {| view := None; past := [] |}.
Proof.
  intros Hpath. unfold list_events. apply wp_bind. serve_call.
  apply wp_defer, wp_bind. serve_call. serve_call; [|by serve_call].
  cbn. unfold deserves. rewrite Hpath, bool_decide_false by done. cbn. by case_match.
Qed.

Lemma handler_serves q :
  wp (serve_spec q) (receiver_handler q) (fun _ s => view s = None) {| view := None; past := [] |}.
Proof.
  unfold receiver_handler.
  repeat case_bool_decide; try destruct (gets q) eqn:Hg;
    auto using webhook_serves, list_events_serves; serve_call; unfold deserves; rewrite ?Hg;
    repeat case_bool_decide; cbn; congruence || done.
Qed.

(** *** All of them

    What one request knows, out of the state they share. *)
Definition seen_by (id : nat) (tr : list (nat * Effects.event serveE)) (r : Receiver) : Goroutine :=
  {| view := if decide (owner r = Some id) then Some (events r) else None; past := own id tr |}.

Lemma own_snoc id tr i ev :
  own id (tr ++ [(i, ev)]) = own id tr ++ (if decide (i = id) then [ev] else []).
Proof. unfold own. rewrite omap_snoc. by case_decide. Qed.

Lemma recorded_snoc tr id ev :
  recorded (tr ++ [(id, ev)]) = recorded tr ++ option_list (pair id <$> added ev).
Proof. unfold recorded. by rewrite omap_snoc. Qed.

Lemma recorded_own id tr : id ∈ (recorded tr).*1 <-> omap added (own id tr) <> [].
Proof.
  induction tr as [|[i ev] tr IH] using rev_ind; [set_solver|].
  rewrite recorded_snoc, own_snoc, fmap_app, elem_of_app, IH.
  case_decide as Hi; [subst i|]; rewrite ?omap_snoc, ?app_nil_r; destruct (added ev); cbn;
    rewrite ?app_nil_r; try set_solver.
  split; [|set_solver]. by destruct (omap added (own id tr)).
Qed.

Lemma access_local q id {X} (e : serveE X) tr r x r' :
  pre (serve_spec q) e (seen_by id tr r) ->
  access id e (owner r) (events r) x (owner r') (events r') ->
  post (serve_spec q) e (seen_by id tr r) x (seen_by id (tr ++ [(id, Ev e x)]) r').
Proof.
  intros Hpre Ha. split; [cbn; by rewrite own_snoc, decide_True by done|].
  destruct e; cbn in *; destruct_and?; repeat case_decide; simplify_eq/=;
    try done; destruct_or?; naive_solver congruence.
Qed.

Lemma access_others q id id' {X} (e : serveE X) tr r x r' :
  id' <> id -> pre (serve_spec q) e (seen_by id tr r) ->
  access id e (owner r) (events r) x (owner r') (events r') ->
  seen_by id' (tr ++ [(id, Ev e x)]) r' = seen_by id' tr r.
Proof.
  intros Hid Hpre Ha. unfold seen_by. rewrite own_snoc.
  destruct (decide (id = id')); [congruence|]. rewrite app_nil_r. f_equal.
  destruct e; cbn in *; destruct_and?; repeat case_decide; simplify_eq/=; try done; naive_solver congruence.
Qed.

(** What holds of the calls of every run. *)
Definition answers_deserved (q : nat -> Request) (tr : list (nat * Effects.event serveE)) : Prop :=
  forall tr1 id reply x tr2, tr = tr1 ++ (id, Ev (RReply reply) x) :: tr2 ->
    deserves (q id) (id ∈ (recorded tr1).*1) (Some (recorded tr1).*2) reply.

Definition recorded_received (q : nat -> Request) (tr : list (nat * Effects.event serveE)) : Prop :=
  forall id e, (id, e) ∈ recorded tr -> received (q id) (own id tr) e.

Record receiver_inv (q : nat -> Request) (tr : list (nat * Effects.event serveE)) (r : Receiver) : Prop := {
  inv_threads id : wp (serve_spec (q id)) (threads r id) (fun _ s => view s = None) (seen_by id tr r);
  inv_events : events r = (recorded tr).*2;
  inv_once : NoDup (recorded tr).*1;
  inv_received : recorded_received q tr;
  inv_answers : answers_deserved q tr
}.

Lemma received_more q past past' e : received q past e -> past ⊆ past' -> received q past' e.
Proof. intros (? & ? & p & now & ? & ? & ->) ?. split_and!; [done..|]. exists p, now. auto. Qed.

Lemma step_threads q tr r id {X} (e : serveE X) k x r' :
  receiver_inv q tr r -> threads r id = Vis e k ->
  access id e (owner r) (events r) x (owner r') (events r') ->
  threads r' = <[id := k x]> (threads r) ->
  forall id', wp (serve_spec (q id')) (threads r' id') (fun _ s => view s = None)
    (seen_by id' (tr ++ [(id, Ev e x)]) r').
Proof.
  intros Hinv Hid Ha Hr id'. pose proof (inv_threads _ _ _ Hinv id) as Hwp.
  rewrite Hid in Hwp. destruct Hwp as [Hpre Hk]. rewrite Hr.
  destruct (decide (id' = id)) as [->|Hne].
  - rewrite fn_lookup_insert. by apply Hk, access_local.
  - rewrite fn_lookup_insert_ne by done. erewrite access_others by done. apply Hinv.
Qed.

Lemma step_recorded q tr r id {X} (e : serveE X) x r' :
  receiver_inv q tr r -> pre (serve_spec (q id)) e (seen_by id tr r) ->
  access id e (owner r) (events r) x (owner r') (events r') ->
  events r' = (recorded (tr ++ [(id, Ev e x)])).*2 /\
  NoDup (recorded (tr ++ [(id, Ev e x)])).*1 /\ recorded_received q (tr ++ [(id, Ev e x)]).
Proof.
  intros [_ He Hn Hr _] Hpre Ha. rewrite recorded_snoc, !fmap_app.
  assert (recorded_received q tr -> forall i y, (i, y) ∈ recorded tr ->
    received (q i) (own i (tr ++ [(id, Ev e x)])) y) as Hold.
  { intros _ i y Hi. eapply received_more; [by apply Hr|]. rewrite own_snoc. set_solver. }
  unfold recorded_received. setoid_rewrite recorded_snoc. setoid_rewrite elem_of_app.
  destruct e; cbn in *;
    try (destruct_and?; rewrite ?app_nil_r; split_and!; [congruence|done|];
      intros ? ? [?|?]; [by apply Hold|set_solver]).
  destruct Ha as [_ ->], Hpre as (Hnone & l0 & y & Hv & -> & Hy). rewrite last_snoc. cbn.
  case_decide; [|done]. injection Hv as <-. split_and!.
  - congruence.
  - apply NoDup_app. split_and!; [done| |apply NoDup_singleton].
    intros i Hi ->%list_elem_of_singleton. by apply recorded_own in Hi.
  - intros i z [Hi|[= -> ->]%list_elem_of_singleton]; [by apply Hold|].
    eapply received_more; [done|]. rewrite own_snoc. set_solver.
Qed.

Lemma deserves_seen q (P P' : Prop) l l' reply :
  deserves q P l reply -> (P -> P') -> (forall x, l = Some x -> l' = Some x) -> deserves q P' l' reply.
Proof.
  unfold deserves. intros Hd HP Hl. repeat case_match; try done; [naive_solver|].
  destruct l as [x|]; [|done]. by rewrite (Hl x).
Qed.

Lemma step_answers q tr r id {X} (e : serveE X) x :
  receiver_inv q tr r -> pre (serve_spec (q id)) e (seen_by id tr r) ->
  answers_deserved q (tr ++ [(id, Ev e x)]).
Proof.
  intros [_ He _ _ Hr] Hpre tr1 i reply y tr2 Htr. destruct tr2 as [|ev tr2 _] using rev_ind.
  - apply app_inj_tail in Htr as [<- Heq].
    assert (pre (serve_spec (q i)) (RReply reply) (seen_by i tr r)) as Hp.
    { apply (f_equal (fun p => match p with (i, Ev e _) => pre (serve_spec (q i)) e (seen_by i tr r) end))
        in Heq. by rewrite <-Heq. }
    cbn in Hp. eapply deserves_seen; [done|by rewrite recorded_own|].
    intros l. case_decide; [|done]. by rewrite He.
  - rewrite app_comm_cons, app_assoc in Htr. apply app_inj_tail in Htr as [-> _]. by eapply Hr.
Qed.

Lemma receiver_invariant q tr r : receiver_run q tr r -> receiver_inv q tr r.
Proof.
  induction 1 as [|tr r id ev r' _ IH Hstep].
  - split; [intros id; apply handler_serves|done|constructor|by intros ? ? ?%not_elem_of_nil|by intros []].
  - unfold receiver_step in Hstep. destruct (threads r id) as [|X e k] eqn:Hid; [done|].
    destruct Hstep as (x & -> & Ha & Hr). pose proof (inv_threads _ _ _ IH id) as Hwp.
    rewrite Hid in Hwp. destruct Hwp as [Hpre _].
    destruct (step_recorded _ _ _ _ _ _ _ IH Hpre Ha) as (? & ? & ?).
    split; [by eapply step_threads|done..|]. by eapply step_answers.
Qed.

(** A call that is not an attempt to take a mutex that is taken can be made. *)
Lemma access_enabled id {X} (e : serveE X) o l :
  (o = None \/ match e with RLock => False | _ => True end) -> exists x o' l', access id e o l x o' l'.
Proof. intros He. destruct e; cbn in *; naive_solver eauto using time_zero. Qed.

Definition can_step (r : Receiver) (id : nat) : Prop := exists ev r', receiver_step r id ev r'.

Lemma step_enabled r id {X} (e : serveE X) k :
  threads r id = Vis e k -> (owner r = None \/ match e with RLock => False | _ => True end) ->
  can_step r id.
Proof.
  intros Hid (x & o' & l' & Ha)%(access_enabled id e (owner r) (events r)).
  exists (Ev e x), {| owner := o'; events := l'; threads := <[id := k x]> (threads r) |}.
  unfold receiver_step. rewrite Hid. by exists x.
Qed.

Lemma receiver_progress q tr r id :
  receiver_inv q tr r ->
  threads r id = Ret tt \/ can_step r id \/ exists holder, owner r = Some holder /\ can_step r holder.
Proof.
  intros Hinv. destruct (threads r id) as [[]|X e k] eqn:Hid; [by left|right].
  destruct (owner r) as [holder|] eqn:Ho; [|left; eapply step_enabled; eauto].
  right. exists holder. split; [done|].
  pose proof (inv_threads _ _ _ Hinv holder) as Hwp.
  destruct (threads r holder) as [|Y f k'] eqn:Hh;
    unfold seen_by in Hwp; rewrite decide_True in Hwp by done; [done|].
  destruct Hwp as [Hpre _]. eapply step_enabled; [done|]. right. by destruct f; cbn in Hpre.
Qed.

(** C39: however the goroutines of the receiver interleave, call by call, no
    alert is lost or recorded twice.  The slice holds exactly the events that
    were ever added to it, at most one for each request, and that is the event
    in the request's body with the time the request read.  A webhook request
    whose body decodes is answered 202, and only when its event is in the slice;
    other bodies are answered 400.  A listing shows exactly the events added
    before it, so at least all those answered for by then.  The mutex is never
    held for good: a request that has not finished can make a step, or the one
    that holds the mutex can. *)
Theorem receiver_records_exactly_once q tr r :
  receiver_run q tr r ->
  events r = (recorded tr).*2 /\ NoDup (recorded tr).*1 /\
  (forall id e, (id, e) ∈ recorded tr -> received (q id) (own id tr) e) /\
  (forall tr1 id reply x tr2, tr = tr1 ++ (id, Ev (RReply reply) x) :: tr2 ->
    deserves (q id) (id ∈ (recorded tr1).*1) (Some (recorded tr1).*2) reply) /\
  (forall id, threads r id = Ret tt \/ can_step r id \/
    exists holder, owner r = Some holder /\ can_step r holder).
Proof.
  intros Hinv%receiver_invariant. split_and!; [apply Hinv..|].
  intros id. by eapply receiver_progress.
Qed.

(** ** Two alerts and a listing

    A scheduler: the requests to step, with the time each would read. *)
Definition act (id : nat) (now : time) {X} (e : serveE X) (o : option nat) (l : list Event)
    : option (X * option nat * list Event) :=
  match e in serveE X return option (X * option nat * list Event) with
  | RNow => Some (now, o, l)
  | RLock => match o with None => Some (tt, Some id, l) | Some _ => None end
  | RUnlock => Some (tt, None, l)
  | RLoad => Some (l, o, l)
  | RStore l' => Some (tt, o, l')
  | RInfo _ _ | RReply _ | RCloseBody => Some (tt, o, l)
  end.

Fixpoint schedule (l : list (nat * time)) (tr : list (nat * Effects.event serveE)) (r : Receiver)
    : option (list (nat * Effects.event serveE) * Receiver) :=
  match l with
  | [] => Some (tr, r)
  | (id, now) :: l =>
      match threads r id with
      | Ret _ => None
      | Vis e k =>
          match act id now e (owner r) (events r) with
          | Some (x, o, l') => schedule l (tr ++ [(id, Ev e x)])
              {| owner := o; events := l'; threads := <[id := k x]> (threads r) |}
          | None => None
          end
      end
  end.

Lemma act_access id now {X} (e : serveE X) o l x o' l' :
  act id now e o l = Some (x, o', l') -> access id e o l x o' l'.
Proof. destruct e; cbn; repeat case_match; naive_solver. Qed.

Lemma schedule_runs q l tr r tr' r' :
  receiver_run q tr r -> schedule l tr r = Some (tr', r') -> receiver_run q tr' r'.
Proof.
  revert tr r. induction l as [|[id now] l IH]; intros tr r Hrun; cbn; [by intros [= <- <-]|].
  destruct (threads r id) as [|X e k] eqn:Hid; [done|].
  destruct (act id now e (owner r) (events r)) as [[[x o] l']|] eqn:Ha; [|done].
  apply IH. apply run_snoc with r; [done|]. unfold receiver_step. rewrite Hid.
  exists x. by split_and!; [|apply act_access in Ha|].
Qed.

Definition demo_body (title : string) : stream :=
  match MarshalAlert "info" title "m" with Ok s => (s, None) | Err _ => ("", None) end.
Definition demo_event (title : string) (now : time) : Event :=
  {| Severity := "info"; Title := title; Message := "m"; At := now |}.
Definition demo_requests (id : nat) : Request :=
  match id with
  | O => {| q_method := "POST"; q_path := "/webhook"; q_body := demo_body "a" |}
  | S O => {| q_method := "POST"; q_path := "/webhook"; q_body := demo_body "b" |}
  | _ => {| q_method := "GET"; q_path := "/events"; q_body := ("", None) |}
  end.

Example listed_text : listing [demo_event "a" 1000000000] =
  {| re_code := 200; re_content := "application/json";
     re_body := line (Text.print (JArray [JObject [("severity", JString "info"); ("title", JString "a");
       ("message", JString "m"); ("at", JString "1970-01-01T00:00:01Z")]])) |}.
Proof. vm_compute. reflexivity. Qed.

(** The second alert overtakes the first on the way to the mutex, and is listed
    before it is answered. *)
Definition overtaking : list (nat * Effects.event serveE) * Receiver :=
  default ([], serving demo_requests) (schedule
    ((fun id => (id, 5 + Z.of_nat id)) <$> [0; 1; 1; 1; 1; 1; 2; 2; 2; 2; 1; 1; 0; 0; 0; 0]%nat)
    [] (serving demo_requests)).

Lemma overtaking_run : receiver_run demo_requests overtaking.1 overtaking.2.
Proof.
  unfold overtaking. destruct (schedule _ _ _) as [[tr r]|] eqn:Hs; [|constructor].
  eapply schedule_runs; [constructor|exact Hs].
Qed.

Lemma receiver_records_exactly_once_witness :
  recorded overtaking.1 = [(1%nat, demo_event "b" 6); (0%nat, demo_event "a" 5)] /\
  events overtaking.2 = [demo_event "b" 6; demo_event "a" 5] /\
  deserves (demo_requests 2) (2%nat ∈ (recorded (take 8 overtaking.1)).*1)
    (Some [demo_event "b" 6]) (listing [demo_event "b" 6]).
Proof.
  destruct (receiver_records_exactly_once _ _ _ overtaking_run) as (He & _ & _ & Ha & _).
  split; [vm_compute; reflexivity|]. split; [rewrite He; vm_compute; reflexivity|].
  apply (Ha (take 8 overtaking.1) 2%nat _ tt (drop 9 overtaking.1)). vm_compute. reflexivity.
Defined.
