(* ===== verification/RoundTrip.v ===== *)
(** * What one part of the program writes, another reads

    The values that cross a boundary inside the program: requests of the
    controller to an agent ([internal/agent/client.go]) and the agent's answers
    ([internal/agent/server.go]); the cluster state, the tasks and the switch
    operation in etcd ([internal/store/store.go]); alerts
    ([internal/alert/webhook.go]) and the receiver that stores them
    ([cmd/alert-receiver/main.go]).  Answers of the HTTP API and error messages are
    read by no part of the program. *)
From S2P Require Import Prelude GoStd Effects Model Json JsonText GoTime Wire Format Node MySQL Agent AgentClient Alert.

(** ** The agent's GTID answer

    A map with one entry on the agent's side, a struct on the controller's. *)
Lemma gtid_result_round_trips : round_trips AgentClient.GtidResult (fun _ => true).
Proof. by apply json_round_trips. Qed.

Lemma gtid_reply_text r g resp :
  behaves (gtid r) [Ev (ADb (OExecutedGTID (rq_ctx r))) (g, None)] resp ->
  rp_code resp = StatusOK /\ value_text (rp_value resp) = Marshal {| AgentClient.GTID := g |}.
Proof.
  intros (x & tr & Heq & Hb).
  apply (f_equal (fun tr => match tr with
    | Ev e x :: _ => match e in agentE X return X -> option (scanned string) with
        | ADb e => match e in operatorE X return X -> option (scanned string) with
            | OExecutedGTID _ => fun x => Some x
            | _ => fun _ => None
            end
        | _ => fun _ => None
        end x
    | [] => None end)) in Heq. cbn in Heq. injection Heq as <-.
  destruct Hb as [_ ->]. by split.
Qed.

(** The client finds in the body of that answer the GTID set itself, however the
    transport goes on after it, and nothing in a part of it. *)
Definition gtid_arrives : Prop := forall r g resp,
  behaves (gtid r) [Ev (ADb (OExecutedGTID (rq_ctx r))) (g, None)] resp ->
  rp_code resp = StatusOK /\ exists s, value_text (rp_value resp) = Ok s /\
    (forall rest e, Decode (s +:+ rest) e = Ok {| AgentClient.GTID := valid_text g |}) /\
    forall n e, n < byte_length s ->
      is_ok (Decode (take_bytes n s) e : result AgentClient.GtidResult) = false.

(** ** Alerts *)
Definition alert_arrives : Prop := forall severity title message,
  exists s, MarshalAlert severity title message = Ok s /\
    (forall rest e, DecodeEvent (s +:+ rest) e =
      Ok {| Severity := valid_text severity; Title := valid_text title;
            Message := valid_text message; At := time_zero |}) /\
    forall n e, n < byte_length s -> is_ok (DecodeEvent (take_bytes n s) e) = false.

Lemma gtid_round_trip : gtid_arrives.
Proof.
  intros r g resp [Hcode Htext]%gtid_reply_text. split; [done|].
  destruct (gtid_result_round_trips {| AgentClient.GTID := g |}) as [Hok Hs].
  destruct (Marshal {| AgentClient.GTID := g |}) as [s|e]; [|done]. exists s. split; [done|].
  destruct (Hs s eq_refl) as (_ & Hd & Hn). split; [intros; apply Hd|].
  intros n e Hlt. by apply Hn.
Qed.

Lemma alerts_round_trip : alert_arrives.
Proof.
  intros severity title message. eexists. split; [apply alert_text|].
  split; [intros; apply event_decoded|]. intros n e Hn.
  destruct (good_mono 1 Text.max_depth _ ltac:(done) (good_alert severity title message)) as [Hp Hd].
  pose proof (Text.parse_first_incomplete _ n e Hp Hd Hn) as Hi.
  unfold DecodeEvent, Wire.decode. change (JObject _) with (alert_json severity title message) in Hi.
  by destruct (Text.parse_first _ e).
Qed.

(** C37: the JSON text of every value one part of the program writes for another
    to decode (the controller's requests to an agent, the agent's status and GTID
    answers, the cluster state, tasks and authorizations in the store, and
    alerts; with the struct tags' names, [omitempty], RFC 3339 times and escaped
    strings) is read back as that value, strings as far as they are valid UTF-8,
    whatever follows the text and also when unknown fields are refused, while a
    text that was cut off is refused by every way of reading it; encoding
    succeeds exactly on the values whose numbers fit their Go types and whose
    times lie in the years 0 to 9999. *)
Theorem wire_round_trip :
  round_trips OperationRequest (fun r => auth_fits (or_Authorization r)) /\
  round_trips WaitGTIDRequest wait_fits /\
  round_trips ReplicaRequest (fun r => auth_fits (rr_Authorization r)) /\
  round_trips NodeStatus status_fits /\
  round_trips ClusterState cluster_fits /\
  round_trips SwitchTask task_fits /\
  round_trips SwitchAuthorization auth_fits /\
  gtid_arrives /\ alert_arrives.
Proof.
  eauto 12 using operation_round_trips, wait_round_trips, replica_request_round_trips,
    status_round_trips, cluster_round_trips, task_round_trips, auth_round_trips,
    gtid_round_trip, alerts_round_trip.
Qed.
