(* ===== verification/Migrate.v ===== *)
(** * Moving the state between etcd clusters

    [cmd/state-migrate/main.go].  [GGet] and [GPut] are the etcd client's calls
    on the source (read only) and the destination; a [log.Fatal] ends the
    program with its message, without running deferred calls. *)
From S2P Require Import Prelude GoStd Effects Model Config.

Inductive endpoint : Type := Source | Destination.

Inductive migE : Type -> Type :=
| GNew (side : endpoint) (endpoints : list string) : migE (result unit)
| GGet (side : endpoint) (ctx : Context) (prefix : string) : migE (result (list (string * string)))
| GPut (ctx : Context) (key value : string) : migE (result unit)
| GCancel (ctx : Context) : migE unit
| GClose (side : endpoint) : migE unit
| GPrint (text : string) : migE unit.

Module Migrate.

(** [split]: fatal when there is no endpoint. *)
Definition split (value : string) : result (list string) :=
  match Config.split value with
  | [] => Err "migration endpoints are required"
  | result => Ok result
  end.

(** The keys that are state or task history. *)
Definition selected (prefix key : string) : bool :=
  bool_decide (key = prefix +:+ "/cluster") || HasPrefix key (prefix +:+ "/tasks/").

(** The writes, in the order of the source's answer. *)
Definition copy (ctx : Context) (kvs : list (string * string)) : prog migE (option string) :=
  for_return kvs (fun '(key, value) =>
    r <- call (GPut ctx key value) ;;
    Ret (match r with
         | Err e => Some (wrap_err ("write destination key " +:+ key) e)
         | Ok _ => None
         end)).

Definition verify (actual : gmap string string) (kvs : list (string * string)) : option string :=
  match list_find (fun '(key, value) => default "" (actual !! key) <> value) kvs with
  | Some (_, (key, _)) => Some ("destination verification failed at " +:+ key)
  | None => None
  end.

(** [main] once both clients exist. *)
Definition migrate (name : string) : prog migE (result unit) :=
  let ctx := WithTimeout Background 30 in
  let prefix := "/ha/" +:+ name in
  try sourceKvs <- call (GGet Source ctx (prefix +:+ "/"))
    else (fun e => Ret (Err (wrap_err "read source" e))) ;;
  let chosen := filter (fun kv => selected prefix kv.1 = true) sourceKvs in
  if bool_decide (chosen = []) then Ret (Err "source has no cluster state or task history")
  else
  try destinationKvs <- call (GGet Destination ctx (prefix +:+ "/"))
    else (fun e => Ret (Err (wrap_err "read destination" e))) ;;
  match list_find (fun kv => selected prefix kv.1 = true) destinationKvs with
  | Some (_, kv) => Ret (Err ("destination already contains HA state at " +:+ kv.1))
  | None =>
      if negb (bool_decide (prefix +:+ "/cluster" ∈ chosen.*1)) then
        Ret (Err "source cluster state key is missing")
      else
      failed <- copy ctx chosen ;;
      match failed with
      | Some e => Ret (Err e)
      | None =>
          try verifyKvs <- call (GGet Destination ctx (prefix +:+ "/"))
            else (fun e => Ret (Err (wrap_err "verify destination" e))) ;;
          match verify (foldl (fun m '(k, v) => <[k := v]> m) ∅ verifyKvs) chosen with
          | Some e => Ret (Err e)
          | None =>
              call (GPrint ("migrated and verified " +:+ fmt_d (Z.of_nat (length chosen)) +:+
                " HA state/task keys for cluster " +:+ name)) ;;;
              call (GCancel ctx) ;;; call (GClose Destination) ;;; call (GClose Source) ;;;
              Ret (Ok tt)
          end
      end
  end.

Definition main (getenv : string -> string) : prog migE (result unit) :=
  let name := env getenv "HA_CLUSTER_NAME" "mysql-ha" in
  match split (getenv "HA_MIGRATE_SOURCE_ENDPOINTS") with
  | Err e => Ret (Err e)
  | Ok endpoints =>
      try _ <- call (GNew Source endpoints) else (fun e => Ret (Err e)) ;;
      match split (getenv "HA_MIGRATE_DEST_ENDPOINTS") with
      | Err e => Ret (Err e)
      | Ok endpoints =>
          try _ <- call (GNew Destination endpoints) else (fun e => Ret (Err e)) ;;
          migrate name
      end
  end.

(** ** The two clusters

    The source does not change; a write that reports an error may have taken
    effect or not. *)
Section clusters.
Context (source : gmap string string).

Definition answers (m : gmap string string) (prefix : string)
    (r : result (list (string * string))) : Prop :=
  forall l, r = Ok l -> forall k v, (k, v) ∈ l <-> m !! k = Some v /\ HasPrefix k prefix = true.

Definition mig_post {X} (e : migE X) : gmap string string -> X -> gmap string string -> Prop :=
  match e in migE X return gmap string string -> X -> gmap string string -> Prop with
  | GGet Source _ prefix => fun d r d' => d' = d /\ answers source prefix r
  | GGet Destination _ prefix => fun d r d' => d' = d /\ answers d prefix r
  | GPut _ key value => fun d r d' => d' = <[key := value]> d \/ (d' = d /\ is_ok r = false)
  | _ => fun d _ d' => d' = d
  end.
Definition clusters : espec migE (gmap string string) :=
  {| pre _ _ _ := True; post _ e := mig_post e |}.

(** No HA state. *)
Definition pristine (prefix : string) (d : gmap string string) : Prop :=
  forall k, selected prefix k = true -> d !! k = None.

(** Every difference is a state or task key with the source's value. *)
Definition copied_in (prefix : string) (d d' : gmap string string) : Prop :=
  forall k, d' !! k = d !! k \/
    (selected prefix k = true /\ is_Some (source !! k) /\ d' !! k = source !! k).

Definition migrated (prefix : string) (d d' : gmap string string) : Prop :=
  is_Some (source !! (prefix +:+ "/cluster")) /\ pristine prefix d /\
  forall k, if selected prefix k && bool_decide (is_Some (source !! k))
    then d' !! k = source !! k else d' !! k = d !! k.

Definition outcome (prefix : string) (d : gmap string string) (r : result unit)
    (d' : gmap string string) : Prop :=
  match r with
  | Ok _ => migrated prefix d d'
  | Err _ => d' = d \/ (pristine prefix d /\ copied_in prefix d d')
  end.

Lemma selected_prefix prefix k : selected prefix k = true -> HasPrefix k (prefix +:+ "/") = true.
Proof.
  unfold selected. rewrite orb_true_iff, bool_decide_eq_true, !HasPrefix_spec.
  intros [->|[r ->]]; [exists "cluster"|exists ("tasks/" +:+ r)]; by rewrite !string_app_assoc.
Qed.

(** Writing entries that are all [good]. *)
Lemma copy_wp ctx kvs (good : string -> string -> Prop) (d0 d : gmap string string) :
  (forall k v, (k, v) ∈ kvs -> good k v) ->
  (forall k, d !! k = d0 !! k \/ exists v, good k v /\ d !! k = Some v) ->
  wp clusters (copy ctx kvs) (fun r d' =>
    (forall k, d' !! k = d0 !! k \/ exists v, good k v /\ d' !! k = Some v) /\
    (r = None -> forall k, (k ∈ kvs.*1 -> exists v, good k v /\ d' !! k = Some v) /\
      (k ∉ kvs.*1 -> d' !! k = d !! k))) d.
Proof.
  intros Hgood. revert d. induction kvs as [|[key value] kvs IH]; intros d Hd; simpl.
  { split; [done|]. intros _ k. set_solver. }
  assert (forall d1, d1 = <[key := value]> d -> forall k, d1 !! k = d0 !! k \/
    exists v, good k v /\ d1 !! k = Some v) as Hins.
  { intros d1 -> k. destruct (decide (key = k)) as [<-|Hne].
    - right. exists value. rewrite lookup_insert_eq. split; [apply Hgood; by left|done].
    - rewrite lookup_insert_ne by done. apply Hd. }
  apply wp_bind, wp_bind, wp_call; [done|]. intros [[]|e] d1 [->|[-> Hr]]; try done.
  - refine (wp_mono _ _ _ _ _ (IH _ (<[key := value]> d) (Hins _ eq_refl)) _).
    { intros k v Hin. apply Hgood. by right. }
    intros r d' [Hall Hok]. split; [done|]. intros Hr k.
    destruct (Hok Hr k) as [Hin Hout]. destruct (decide (k ∈ kvs.*1)) as [Hk|Hk].
    + split; [auto|set_solver].
    + specialize (Hout Hk). split; intros Hk'.
      * assert (k = key) as -> by set_solver. rewrite Hout, lookup_insert_eq. exists value.
        split; [apply Hgood; by left|done].
      * rewrite Hout, lookup_insert_ne; [done|set_solver].
  - split; [by apply Hins|done].
Qed.

Lemma migrate_wp name d :
  wp clusters (migrate name) (outcome ("/ha/" +:+ name) d) d.
Proof.
  unfold migrate. set (prefix := "/ha/" +:+ name).
  apply wp_try, wp_call; [done|]. intros [kvs|e] ? [-> Hsrc]; [|by left].
  specialize (Hsrc _ eq_refl). set (chosen := filter _ kvs).
  case_bool_decide; [by left|].
  apply wp_try, wp_call; [done|]. intros [dkvs|e] ? [-> Hdst]; [|by left].
  specialize (Hdst _ eq_refl).
  destruct (list_find _ dkvs) as [[i kv]|] eqn:Hfind; [by left|].
  assert (pristine prefix d) as Hprist.
  { intros k Hk. destruct (d !! k) as [v|] eqn:Hv; [|done]. exfalso.
    apply list_find_None in Hfind. rewrite Forall_forall in Hfind.
    apply (Hfind (k, v)); [|done]. apply Hdst. split; [done|]. by apply selected_prefix. }
  destruct (bool_decide (prefix +:+ "/cluster" ∈ chosen.*1)) eqn:Hcl; [|by left]. simpl.
  apply bool_decide_eq_true in Hcl.
  assert (forall k v, (k, v) ∈ chosen <-> source !! k = Some v /\ selected prefix k = true) as Hch.
  { intros k v. unfold chosen. rewrite list_elem_of_filter, Hsrc. simpl. split; [naive_solver|].
    intros [Hs Hsel]. split_and!; [done|done|]. by apply selected_prefix. }
  assert (forall k, k ∈ chosen.*1 <-> selected prefix k = true /\ is_Some (source !! k)) as Hkeys.
  { intros k. rewrite list_elem_of_fmap. split.
    - intros ([k' v] & -> & [Hv Hs]%Hch). simpl. eauto.
    - intros [Hs [v Hv]]. exists (k, v). split; [done|]. by apply Hch. }
  apply wp_bind. eapply wp_mono; [apply (copy_wp _ chosen (fun k v => source !! k = Some v /\
    selected prefix k = true) d d); [intros; by apply Hch|by left]|].
  intros r d' [Hall Hok].
  assert (pristine prefix d /\ copied_in prefix d d') as Hpart.
  { split; [done|]. intros k. destruct (Hall k) as [?|(v & [Hv Hs] & Hd')]; [by left|right].
    rewrite Hv, Hd'. eauto. }
  destruct r as [e|]; [by right|].
  apply wp_try, wp_call; [done|]. intros [vkvs|e] ? [-> _]; [|by right].
  case_on_match; [by right|].
  do 4 (apply wp_bind, wp_call; [done|]; intros [] ? ->).
  split_and!; [|done|].
  - apply Hkeys in Hcl. by destruct Hcl.
  - intros k. destruct (Hok eq_refl k) as [Hin Hout].
    destruct (selected prefix k && bool_decide (is_Some (source !! k))) eqn:Hk.
    + propify. destruct (Hin (proj2 (Hkeys k) Hk)) as (v & [Hv _] & ->). done.
    + apply Hout. rewrite Hkeys. intros [Hs Hv]. rewrite Hs, bool_decide_true in Hk; done.
Qed.

(** ** Theorem *)

(** C33: a migration that reports success moved exactly the cluster state and
    the task history of the cluster's prefix into a destination that had none
    of them, and changed no other key; one that fails wrote nothing, or only
    part of these keys with the source's values into such a destination. *)
Theorem migration_is_exact getenv d :
  wp clusters (main getenv)
    (outcome ("/ha/" +:+ env getenv "HA_CLUSTER_NAME" "mysql-ha") d) d.
Proof.
  unfold main. destruct (split _) as [src|e]; [|by left].
  apply wp_try, wp_call; [done|]. intros [[]|e] ? ->; [|by left].
  destruct (split _) as [dst|e]; [|by left].
  apply wp_try, wp_call; [done|]. intros [[]|e] ? ->; [|by left]. apply migrate_wp.
Qed.
End clusters.
End Migrate.
