(* ===== verification/Pki.v ===== *)
(** * The generator of the private PKI

    [cmd/pki-gen/main.go].  Keys, certificates and files are behind [pkiE]; an IP
    address of a certificate is the text it was read from.  A call of [fail] ends
    the program with its message. *)
From Stdlib Require Import Ascii.
From S2P Require Import Prelude GoStd Effects Model Config.

Inductive ExtKeyUsage : Type := ServerAuth | ClientAuth.
Inductive KeyUsage : Type := CertSign | CRLSign | DigitalSignature | KeyEncipherment.

Record Template : Type := {
  tp_SerialNumber : Z;
  tp_CommonName : string;
  tp_NotBefore : time;
  tp_NotAfterYears : Z;                (* [now.AddDate(years, 0, 0)] *)
  tp_IsCA : bool;
  tp_KeyUsage : list KeyUsage;
  tp_ExtKeyUsage : list ExtKeyUsage;
  tp_IPAddresses : list string;
  tp_DNSNames : list string
}.

Definition key : Type := nat.

Inductive Pem : Type :=
| PemCertificate (der : string)
| PemPrivateKey (der : string).

Inductive pkiE : Type -> Type :=
| PMkdirAll (path : string) (mode : Z) : pkiE (result unit)
| PGenerateKey : pkiE (result key)
| PRandInt : pkiE (result Z)
| PNow : pkiE time
| PCreateCertificate (template parent : Template) (public signer : key) : pkiE (result string)
| PParseCertificate (der : string) : pkiE (result Template)
| PMarshalKey (k : key) : pkiE (result string)
| PWriteFile (dir base : string) (data : Pem) (mode : Z) : pkiE (result unit)
| PPrint (text : string) : pkiE unit.

Module Pki.

Definition split : string -> list string := Config.split.

Definition dns_char (c : ascii) : bool :=
  byte_in 97 122 c || byte_in 65 90 c || byte_in 48 57 c || byte_in 45 45 c || byte_in 46 46 c.

(** A character outside ASCII is none of the allowed ones, so testing bytes is
    testing characters. *)
Definition validDNSName (value : string) : bool :=
  if bool_decide (value = "") || Contains value ".." then false else all_bytes dns_char value.

(** ["agent-" + strings.NewReplacer(".", "-", ":", "-").Replace(rawIP)] *)
Definition agent_file (rawIP : string) : string :=
  "agent-" +:+ ReplaceAll ":" "-" (ReplaceAll "." "-" rawIP).

(** [strings.ContainsAny(id, "/\")] *)
Definition has_separator (id : string) : bool :=
  negb (lacks "/" id) || negb (lacks "\" id).

Definition minute : Z := 60000000000.

Definition serial : prog pkiE (result Z) := call PRandInt.

Definition writeKey (dir base : string) (k : key) : prog pkiE (result unit) :=
  try der <- call (PMarshalKey k) else (fun e => Ret (Err e)) ;;
  call (PWriteFile dir base (PemPrivateKey der) 384).

Definition leaf_template (n : Z) (name : string) (now : time) (ips dnsNames : list string)
    (usage : ExtKeyUsage) : Template := {|
  tp_SerialNumber := n; tp_CommonName := name; tp_NotBefore := now - minute;
  tp_NotAfterYears := 2; tp_IsCA := false; tp_KeyUsage := [DigitalSignature; KeyEncipherment];
  tp_ExtKeyUsage := [usage]; tp_IPAddresses := ips; tp_DNSNames := dnsNames |}.

Definition leaf (out : string) (ca : Template) (caKey : key) (name : string)
    (ips dnsNames : list string) (usage : ExtKeyUsage) : prog pkiE (result unit) :=
  try k <- call PGenerateKey else (fun e => Ret (Err e)) ;;
  now <- call PNow ;;
  try n <- serial else (fun e => Ret (Err e)) ;;
  try der <- call (PCreateCertificate (leaf_template n name now ips dnsNames usage) ca k caKey)
    else (fun e => Ret (Err e)) ;;
  try _ <- call (PWriteFile out (name +:+ ".crt") (PemCertificate der) 420)
    else (fun e => Ret (Err e)) ;;
  writeKey out (name +:+ ".key") k.

Definition ca_template (n : Z) (now : time) : Template := {|
  tp_SerialNumber := n; tp_CommonName := "mysql-ha-agent-ca"; tp_NotBefore := now - minute;
  tp_NotAfterYears := 5; tp_IsCA := true;
  tp_KeyUsage := [CertSign; CRLSign; DigitalSignature]; tp_ExtKeyUsage := [];
  tp_IPAddresses := []; tp_DNSNames := [] |}.

(** The loop over the agents; [Some e]: the program failed with [e]. *)
Definition agent_leaf (out : string) (ca : Template) (caKey : key) (rawIP : string)
    : prog pkiE (option string) :=
  if negb (ParseIP rawIP) && negb (validDNSName rawIP) then
    Ret (Some ("invalid agent IP or DNS name: " +:+ rawIP))
  else
  let '(ips, dnsNames) := if ParseIP rawIP then ([rawIP], []) else ([], [rawIP]) in
  r <- leaf out ca caKey (agent_file rawIP) ips dnsNames ServerAuth ;;
  Ret (match r with Err e => Some e | Ok _ => None end).

Definition controller_leaf (out : string) (ca : Template) (caKey : key) (id : string)
    : prog pkiE (option string) :=
  if has_separator id then Ret (Some "controller ID may not contain path separators")
  else
  r <- leaf out ca caKey id [] [] ClientAuth ;;
  Ret (match r with Err e => Some e | Ok _ => None end).

Definition main (out agents controllers : string) : prog pkiE (result unit) :=
  if bool_decide (out = "") then Ret (Err "-out is required")
  else
  let agentIPs := split agents in
  let controllerIDs := split controllers in
  if bool_decide (agentIPs = []) || bool_decide (controllerIDs = []) then
    Ret (Err "-agents and -controllers are required")
  else
  try _ <- call (PMkdirAll out 448) else (fun e => Ret (Err e)) ;;
  key <- call PGenerateKey ;;
  now <- call PNow ;;
  try n <- serial else (fun e => Ret (Err e)) ;;
  match key with
  | Err _ => Ret (Err "nil pointer dereference")   (* the error was ignored *)
  | Ok caKey =>
      let template := ca_template n now in
      try caDER <- call (PCreateCertificate template template caKey caKey)
        else (fun e => Ret (Err e)) ;;
      try ca <- call (PParseCertificate caDER) else (fun e => Ret (Err e)) ;;
      try _ <- call (PWriteFile out "ca.crt" (PemCertificate caDER) 420)
        else (fun e => Ret (Err e)) ;;
      _ <- writeKey out "ca.key" caKey ;;
      failed <- for_return agentIPs (agent_leaf out ca caKey) ;;
      match failed with
      | Some e => Ret (Err e)
      | None =>
          failed <- for_return controllerIDs (controller_leaf out ca caKey) ;;
          match failed with
          | Some e => Ret (Err e)
          | None =>
              call (PPrint ("generated CA and " +:+ fmt_d (Z.of_nat (length agentIPs)) +:+
                " agent server plus " +:+ fmt_d (Z.of_nat (length controllerIDs)) +:+
                " controller client certificates in " +:+ out)) ;;;
              Ret (Ok tt)
          end
      end
  end.

(** ** What is written *)

(** A file of the output directory: certificates are readable by all (0644),
    private keys by the owner only (0600), and the name holds no separator. *)
Definition confined (out base : string) (data : Pem) (mode : Z) (dir : string) : Prop :=
  dir = out /\ has_separator base = false /\
  match data with
  | PemCertificate _ => mode = 420 /\ exists n, base = n +:+ ".crt"
  | PemPrivateKey _ => mode = 384 /\ exists n, base = n +:+ ".key"
  end.

Definition history : Type := list (event pkiE).

(** The certificate of an agent: a server's, for its one name; that of a
    controller: a client's. *)
Definition agent_certificate (a : string) (t : Template) : Prop :=
  tp_IsCA t = false /\ tp_CommonName t = agent_file a /\ tp_ExtKeyUsage t = [ServerAuth] /\
  tp_IPAddresses t ++ tp_DNSNames t = [a].
Definition controller_certificate (id : string) (t : Template) : Prop :=
  tp_IsCA t = false /\ tp_CommonName t = id /\ tp_ExtKeyUsage t = [ClientAuth] /\
  tp_IPAddresses t ++ tp_DNSNames t = [].

(** [parent] is the certificate of the CA this run created, and [signer] its key. *)
Definition from_ca (parent : Template) (signer : key) (h : history) : Prop :=
  exists ca der, tp_IsCA ca = true /\ tp_CommonName ca = "mysql-ha-agent-ca" /\
    Ev (PCreateCertificate ca ca signer signer) (Ok der) ∈ h /\
    Ev (PParseCertificate der) (Ok parent) ∈ h.

(** A certificate is issued for a key of this run: the CA's own, first and signed
    with its own key, or one for a named agent or controller, signed by the CA. *)
Definition issuable (agents controllers : string) (t parent : Template) (public signer : key)
    (h : history) : Prop :=
  Ev PGenerateKey (Ok public) ∈ h /\
  ((tp_IsCA t = true /\ tp_CommonName t = "mysql-ha-agent-ca" /\ parent = t /\ signer = public /\
    Forall (fun ev => match ev with Ev (PCreateCertificate _ _ _ _) _ => False | _ => True end) h) \/
   (((exists a, a ∈ split agents /\ agent_certificate a t) \/
     (exists id, id ∈ split controllers /\ controller_certificate id t)) /\
    from_ca parent signer h)).

Definition pki_call (out agents controllers : string) (X : Type) (h : history) (e : pkiE X) : Prop :=
  match e with
  | PWriteFile dir base data mode => confined out base data mode dir
  | PCreateCertificate t parent public signer => issuable agents controllers t parent public signer h
  | _ => True
  end.

(** A certificate that satisfies [P] was created, and written with its private key
    under [name]. *)
Definition delivered (out name : string) (P : Template -> Prop) (h : history) : Prop :=
  exists t parent k signer der kder, P t /\
    Ev (PCreateCertificate t parent k signer) (Ok der) ∈ h /\
    Ev (PWriteFile out (name +:+ ".crt") (PemCertificate der) 420) (Ok tt) ∈ h /\
    Ev (PMarshalKey k) (Ok kder) ∈ h /\
    Ev (PWriteFile out (name +:+ ".key") (PemPrivateKey kder) 384) (Ok tt) ∈ h.

(** All that was asked for. *)
Definition complete (out agents controllers : string) (h : history) : Prop :=
  (exists ca k der, tp_IsCA ca = true /\ Ev (PCreateCertificate ca ca k k) (Ok der) ∈ h /\
    Ev (PWriteFile out "ca.crt" (PemCertificate der) 420) (Ok tt) ∈ h) /\
  (forall a, a ∈ split agents -> delivered out (agent_file a) (agent_certificate a) h) /\
  (forall id, id ∈ split controllers -> delivered out id (controller_certificate id) h).

Lemma lacks_app c a b : lacks c (a +:+ b) = lacks c a && lacks c b.
Proof.
  induction a as [|d a IH]; [done|].
  change (String d a +:+ b) with (String d (a +:+ b)). simpl. by rewrite IH, andb_assoc.
Qed.

Lemma lacks_ReplaceAll c old new s :
  lacks c new = true -> lacks c s = true -> lacks c (ReplaceAll old new s) = true.
Proof.
  intros Hn. induction s as [|d s IH]; [done|]. simpl. intros [Hd Hs]%andb_true_iff.
  destruct (bool_decide (d = old)); [by rewrite lacks_app, Hn, IH|]. simpl. by rewrite Hd, IH.
Qed.

Lemma all_bytes_lacks P c s : P c = false -> all_bytes P s = true -> lacks c s = true.
Proof.
  intros Hc. induction s as [|d s IH]; [done|]. simpl. intros [Hd Hs]%andb_true_iff.
  rewrite IH by done. rewrite bool_decide_false; [done|]. intros ->. congruence.
Qed.

Lemma has_separator_app a b : has_separator (a +:+ b) = has_separator a || has_separator b.
Proof.
  unfold has_separator. rewrite !lacks_app.
  by destruct (lacks "/" a), (lacks "/" b), (lacks "\" a), (lacks "\" b).
Qed.

Lemma agent_file_confined a :
  ParseIP a || validDNSName a = true -> has_separator (agent_file a) = false.
Proof.
  intros Ha. assert (lacks "/" a = true /\ lacks "\" a = true) as [H1 H2].
  { apply orb_true_iff in Ha as [Ha|Ha].
    - apply ParseIP_text in Ha. split; by eapply (all_bytes_lacks ip_char).
    - unfold validDNSName in Ha. case_on_match_in Ha; [done|].
      split; by eapply (all_bytes_lacks dns_char). }
  unfold agent_file. rewrite has_separator_app. unfold has_separator at 2.
  rewrite (lacks_ReplaceAll "/"), (lacks_ReplaceAll "\"); try done; by apply lacks_ReplaceAll.
Qed.

(** Further calls take nothing away. *)
Lemma from_ca_mono parent signer h h' : h ⊆ h' -> from_ca parent signer h -> from_ca parent signer h'.
Proof. intros Hh (ca & der & ? & ? & ? & ?). exists ca, der. auto. Qed.
Lemma delivered_mono out name P h h' : h ⊆ h' -> delivered out name P h -> delivered out name P h'.
Proof. intros Hh (t & p & k & sg & der & kder & ? & ? & ? & ? & ?). exists t, p, k, sg, der, kder. auto 10. Qed.

Section run.
Context (out agents controllers : string).
Definition any_pki_answer (X : Type) (_ : pkiE X) (_ : X) : Prop := True.
Let spec := history_spec any_pki_answer (pki_call out agents controllers).

Ltac next := apply wp_call; [try exact I|intros ? ? [_ ->]].

Lemma writeKey_wp name k h :
  has_separator name = false ->
  wp spec (writeKey out (name +:+ ".key") k) (fun r h' => h ⊆ h' /\ (r = Ok tt ->
    exists kder, Ev (PMarshalKey k) (Ok kder) ∈ h' /\
      Ev (PWriteFile out (name +:+ ".key") (PemPrivateKey kder) 384) (Ok tt) ∈ h')) h.
Proof.
  intros Hn. unfold writeKey. apply wp_try. next. destruct x as [kder|e]; [|split; [set_solver|done]].
  apply wp_call; [split; [done|]; rewrite has_separator_app, Hn; eauto|].
  intros r ? [_ ->]. split; [set_solver|]. intros ->. exists kder. set_solver.
Qed.

Lemma leaf_wp ca caKey name ips dns usage (P : Template -> Prop) h :
  has_separator name = false -> from_ca ca caKey h ->
  (forall n now, P (leaf_template n name now ips dns usage)) ->
  (forall t, P t -> (exists a, a ∈ split agents /\ agent_certificate a t) \/
    (exists id, id ∈ split controllers /\ controller_certificate id t)) ->
  wp spec (leaf out ca caKey name ips dns usage)
    (fun r h' => h ⊆ h' /\ (r = Ok tt -> delivered out name P h')) h.
Proof.
  intros Hn Hca HP Hissue. unfold leaf, serial.
  apply wp_try. next. destruct x as [k|e]; [|split; [set_solver|done]].
  apply wp_bind. next. apply wp_try. next. destruct x0 as [n|e]; [|split; [set_solver|done]].
  apply wp_try, wp_call.
  { split; [set_solver|]. right. split; [by eapply Hissue|].
    eapply from_ca_mono, Hca. set_solver. }
  intros [der|e] ? [_ ->]; [|split; [set_solver|done]].
  apply wp_try, wp_call; [split; [done|]; rewrite has_separator_app, Hn; eauto|].
  intros [[]|e] ? [_ ->]; [|split; [set_solver|done]].
  eapply wp_mono; [by apply writeKey_wp|]. intros r h' [Hh Hr]. split; [set_solver|]. intros Hok.
  destruct (Hr Hok) as (kder & ? & ?). exists (leaf_template n name x ips dns usage), ca, k, caKey, der, kder.
  split; [apply HP|]. split; [apply Hh; set_solver|]. split; [apply Hh; set_solver|done].
Qed.

(** The loop over the names: each is served, or the program fails. *)
Lemma leaves_wp names (body : string -> prog pkiE (option string)) file (P : string -> Template -> Prop)
    ca caKey h :
  (forall a h, a ∈ names -> from_ca ca caKey h -> wp spec (body a) (fun r h' =>
    h ⊆ h' /\ (r = None -> delivered out (file a) (P a) h')) h) ->
  from_ca ca caKey h ->
  wp spec (for_return names body) (fun r h' =>
    h ⊆ h' /\ (r = None -> forall a, a ∈ names -> delivered out (file a) (P a) h')) h.
Proof.
  intros Hbody Hca.
  apply (wp_for_return _ _ _ (fun rest h' => h ⊆ h' /\ rest ⊆ names /\
    forall a, a ∈ names -> a ∈ rest \/ delivered out (file a) (P a) h')).
  - intros a rest h1 (Hh1 & Hrest & Hdone). eapply wp_mono.
    + apply Hbody; [set_solver|by eapply from_ca_mono].
    + intros [e|] h2 [Hh2 Ha]; [split; [by etrans|done]|]. split; [by etrans|]. split; [set_solver|].
      intros b [Hb|Hb]%Hdone; [|right; by eapply delivered_mono].
      apply elem_of_cons in Hb as [->|Hb]; [right; by apply Ha|by left].
  - intros h1 (Hh1 & _ & Hdone). split; [done|]. intros _ a [Ha|Ha]%Hdone; [set_solver|done].
  - split; [done|]. split; [done|]. by left.
Qed.

Lemma agent_leaf_wp ca caKey a h :
  a ∈ split agents -> from_ca ca caKey h ->
  wp spec (agent_leaf out ca caKey a) (fun r h' =>
    h ⊆ h' /\ (r = None -> delivered out (agent_file a) (agent_certificate a) h')) h.
Proof.
  intros Ha Hca. unfold agent_leaf. destruct (negb (ParseIP a) && _) eqn:Hvalid; [by split|].
  assert (has_separator (agent_file a) = false) as Hsep.
  { apply agent_file_confined. destruct (ParseIP a), (validDNSName a); done. }
  destruct (ParseIP a); (apply wp_bind; eapply wp_mono;
    [apply (leaf_wp _ _ _ _ _ _ (agent_certificate a)); [done|done|by repeat split|eauto]|];
    intros r h' [Hh Hr]; split; [done|]; destruct r as [[]|e]; [by intros _; apply Hr|done]).
Qed.

Lemma controller_leaf_wp ca caKey id h :
  id ∈ split controllers -> from_ca ca caKey h ->
  wp spec (controller_leaf out ca caKey id) (fun r h' =>
    h ⊆ h' /\ (r = None -> delivered out id (controller_certificate id) h')) h.
Proof.
  intros Hid Hca. unfold controller_leaf. destruct (has_separator id) eqn:Hsep; [by split|].
  apply wp_bind. eapply wp_mono;
    [apply (leaf_wp _ _ _ _ _ _ (controller_certificate id)); [done|done|by repeat split|eauto]|].
  intros r h' [Hh Hr]. split; [done|]. destruct r as [[]|e]; [by intros _; apply Hr|done].
Qed.

Lemma main_wp :
  wp spec (main out agents controllers) (fun r h => r = Ok tt -> complete out agents controllers h) [].
Proof.
  unfold main, serial. do 2 (case_match; [done|]).
  apply wp_try. next. destruct x as [[]|e]; [|done]. apply wp_bind. next. apply wp_bind. next.
  apply wp_try. next. destruct x1 as [n|e]; [|done]. destruct x as [caKey|e]; [|done].
  apply wp_try, wp_call.
  { split; [set_solver|]. left. do 4 (split; [done|]). by repeat constructor. }
  intros [der|e] ? [_ ->]; [|done]. apply wp_try. next. destruct x as [ca|e]; [|done].
  apply wp_try, wp_call; [split; [done|]; split; [done|]; split; [done|by exists "ca"]|].
  intros [[]|e] h [_ Hh]; [|done].
  assert (from_ca ca caKey h) as Hca.
  { exists (ca_template n x0), der. subst h. split; [done|]. split; [done|]. set_solver. }
  assert (exists ca k der, tp_IsCA ca = true /\ Ev (PCreateCertificate ca ca k k) (Ok der) ∈ h /\
    Ev (PWriteFile out "ca.crt" (PemCertificate der) 420) (Ok tt) ∈ h) as (ca0 & k0 & der0 & H1 & H2 & H3).
  { exists (ca_template n x0), caKey, der. subst h. split; [done|]. set_solver. }
  clear Hh. apply wp_bind. eapply wp_mono; [by apply (writeKey_wp "ca")|]. intros _ h1 [Hh1 _].
  apply wp_bind. eapply wp_mono;
    [apply (leaves_wp _ _ agent_file agent_certificate ca caKey);
      [intros; by apply agent_leaf_wp|by eapply from_ca_mono]|].
  intros [e|] h2 [Hh2 Ha]; [done|]. apply wp_bind. eapply wp_mono;
    [apply (leaves_wp _ _ (fun id => id) controller_certificate ca caKey);
      [intros; by apply controller_leaf_wp|by eapply from_ca_mono, Hca; etrans]|].
  intros [e|] h3 [Hh3 Hc]; [done|]. apply wp_bind. next. intros _. split; [|split].
  - exists ca0, k0, der0. set_solver.
  - intros a Hin. eapply delivered_mono, Ha; [set_solver|done|done].
  - intros id Hin. eapply delivered_mono, Hc; [set_solver|done|done].
Qed.
End run.

(** ** Theorem *)

(** C35: in every run, the generator writes only into its output directory, under
    names without path separators, private keys readable by their owner only.
    Every certificate it creates is for a key generated in the run and is either
    the CA's own, created first and signed with its own key, or, signed with the
    CA's key, a server certificate for a named agent and its one name or a client
    certificate for a named controller; only the CA's is a CA.  A run that
    succeeds has created and written the CA's certificate and, for each named
    agent and each named controller, its certificate and the private key that
    belongs to it. *)
Theorem pki_output_is_confined out agents controllers tr r :
  behaves (main out agents controllers) tr r ->
  (forall tr1 X (e : pkiE X) x tr2, tr = tr1 ++ Ev e x :: tr2 ->
    pki_call out agents controllers X tr1 e) /\
  (r = Ok tt -> complete out agents controllers tr).
Proof.
  intros Hb.
  destruct (adequacy _ _ _ _ _ _ (main_wp out agents controllers) Hb) as [? ?]; [|done].
  by apply Forall_forall; intros [].
Qed.
End Pki.

(** ** An instance: every call succeeds. *)
Definition parsed_ca : Template := Pki.ca_template 0 0.
Definition pki_step : handler pkiE nat := fun X e =>
  match e in pkiE X return nat -> X * nat with
  | PMkdirAll _ _ => fun n => (Ok tt, n)
  | PGenerateKey => fun n => (Ok n, S n)
  | PRandInt => fun n => (Ok (Z.of_nat n), S n)
  | PNow => fun n => (0, n)
  | PCreateCertificate t _ _ _ => fun n => (Ok (tp_CommonName t), n)
  | PParseCertificate _ => fun n => (Ok parsed_ca, n)
  | PMarshalKey k => fun n => (Ok (fmt_d (Z.of_nat k)), n)
  | PWriteFile _ _ _ _ => fun n => (Ok tt, n)
  | PPrint _ => fun n => (tt, n)
  end.

Lemma pki_output_is_confined_witness :
  let p := Pki.main "work/pki" "10.0.0.1,mysql-agent-2" "controller-1" in
  (run pki_step p 0%nat).1 = Ok tt /\
  Pki.complete "work/pki" "10.0.0.1,mysql-agent-2" "controller-1" (trace_of pki_step p 0%nat).
Proof.
  intros p. assert ((run pki_step p 0%nat).1 = Ok tt) as Hok by (vm_compute; reflexivity).
  split; [exact Hok|].
  apply (proj2 (Pki.pki_output_is_confined "work/pki" "10.0.0.1,mysql-agent-2" "controller-1" _ _
    (behaves_run pki_step p 0%nat)) Hok).
Defined.
