(* ===== verification/Etcd.v ===== *)
(** * The state store on etcd

    [EtcdStore] of [internal/store/store.go].  The etcd client and its
    [concurrency] package are the signature [etcdE]; the operations of the store
    are programs over it.  The goroutines that watch a session cancel the
    context derived from it ([Locked], [LeaderBound]); they are part of the
    environment that decides which contexts are cancelled. *)
From S2P Require Import Prelude GoStd Effects Model Json Store.

Record KeyValue : Type := { kv_key : string; kv_value : string; kv_mod : Z }.

(** [clientv3.Compare]: the key does not exist, or was last written at [rev]. *)
Inductive Compare : Type :=
| VersionIsZero
| ModRevisionIs (rev : Z).

Definition lease : Type := nat.

Inductive etcdE : Type -> Type :=
| KNew (endpoints : list string) : etcdE (result unit)
| KStatus (ctx : Context) (endpoint : string) : etcdE (result unit)
| KGet (ctx : Context) (key : string) : etcdE (result (option KeyValue))
| KGetNewestFirst (ctx : Context) (prefix : string) : etcdE (result (list KeyValue))
| KPut (ctx : Context) (key value : string) (l : option lease) : etcdE (result unit)
| KDelete (ctx : Context) (key : string) : etcdE (result unit)
| KTxnPut (ctx : Context) (compare : Compare) (key value : string) : etcdE (result bool)
| KNewSession (ctx : Context) (ttlSeconds : Z) : etcdE (result lease)
| KLock (ctx : Context) (l : lease) (prefix : string) : etcdE (result unit)
| KUnlock (ctx : Context) (l : lease) (prefix : string) : etcdE (result unit)
| KCloseSession (l : lease) : etcdE (result unit)
| KOnce (l : lease) : etcdE bool       (* [once.Do] runs its function *)
| KCancel (ctx : Context) : etcdE unit
| KCampaign (ctx : Context) (l : lease) (prefix id : string) : etcdE (result unit)
| KResign (ctx : Context) (l : lease) (prefix : string) : etcdE (result unit)
| KCtxErr (ctx : Context) : etcdE (option string)
| KSleep (seconds : Z) : etcdE unit
| KOnLeader (ctx : Context) : etcdE unit   (* the callback [onLeader] *)
| KClose : etcdE (result unit).

Fixpoint drop_bytes (n : nat) (s : string) : string :=
  match n, s with
  | S n, String _ r => drop_bytes n r
  | _, _ => s
  end.

Module EtcdStore.
Section store.
Context `{JC : !Json ClusterState, JA : !Json SwitchAuthorization, JT : !Json SwitchTask}.
(** The field [prefix]. *)
Context (prefix : string).

Definition cluster_key : string := prefix +:+ "/cluster".
Definition operation_key : string := prefix +:+ "/switch-operation".
Definition task_prefix : string := prefix +:+ "/tasks/".
Definition lock_prefix : string := prefix +:+ "/switch-lock/".

(** [s.prefix[4:]] *)
Definition default_cluster : ClusterState := {|
  cs_Name := drop_bytes 4 prefix; Primary := ""; Epoch := 0; AutoFailover := false;
  UpdatedAt := time_zero |}.

Definition GetCluster (ctx : Context) : prog etcdE (result ClusterState) :=
  try kvs <- call (KGet ctx cluster_key) else (fun e => Ret (Err e)) ;;
  Ret (match kvs with
       | None => Ok default_cluster
       | Some kv => Unmarshal (kv_value kv)
       end).

Definition PutCluster (ctx : Context) (state : ClusterState) : prog etcdE (result unit) :=
  match Marshal state with
  | Err e => Ret (Err e)
  | Ok payload => call (KPut ctx cluster_key payload None)
  end.

(** The comparison of the transaction, or the error that precedes it. *)
Definition epoch_compare (expected : Z) (kvs : option KeyValue) : result Compare :=
  match kvs with
  | Some kv =>
      match Unmarshal (A := ClusterState) (kv_value kv) with
      | Err e => Err e
      | Ok current =>
          if negb (Epoch current =? expected) then Err "cluster epoch changed"
          else Ok (ModRevisionIs (kv_mod kv))
      end
  | None => if negb (expected =? 0) then Err "cluster epoch changed" else Ok VersionIsZero
  end.

Definition PutClusterIfEpoch (ctx : Context) (expected : Z) (state : ClusterState)
    : prog etcdE (result unit) :=
  try kvs <- call (KGet ctx cluster_key) else (fun e => Ret (Err e)) ;;
  match epoch_compare expected kvs with
  | Err e => Ret (Err e)
  | Ok compare =>
      match Marshal state with
      | Err e => Ret (Err e)
      | Ok payload =>
          try succeeded <- call (KTxnPut ctx compare cluster_key payload)
            else (fun e => Ret (Err e)) ;;
          Ret (if (succeeded : bool) then Ok tt else Err "cluster state changed concurrently")
      end
  end.

(** ** The switch lock *)

(** The release closure of [acquireEtcdLock]. *)
Definition release_lock (lockCtx : Context) (l : lease) : prog etcdE unit :=
  first_time <- call (KOnce l) ;;
  if (first_time : bool) then
    call (KCancel lockCtx) ;;;
    _ <- call (KUnlock Background l lock_prefix) ;;
    _ <- call (KCloseSession l) ;;
    Ret tt
  else Ret tt.

(** The context of the lock and its session. *)
Definition acquireEtcdLock (ctx : Context) (ttl : Z) : prog etcdE (result (Context * lease)) :=
  let ttlSeconds := if ttl <? 1 then 1 else ttl in
  try l <- call (KNewSession ctx ttlSeconds) else (fun e => Ret (Err e)) ;;
  locked <- call (KLock ctx l lock_prefix) ;;
  match locked with
  | Err e => _ <- call (KCloseSession l) ;; Ret (Err e)
  | Ok _ => Ret (Ok (Locked ctx l, l))
  end.

Definition AcquireLock (ctx : Context) (ttl : Z) : prog etcdE (result LockHandle) :=
  try lock <- acquireEtcdLock ctx ttl else (fun e => Ret (Err e)) ;;
  Ret (Ok {| lh_ctx := lock.1; lh_lock := lock.2; lh_switch := false |}).

Definition well_formed (auth : SwitchAuthorization) : bool :=
  negb (bool_decide (OperationID auth = "")) && (ToEpoch auth =? uint64 (FromEpoch auth + 1)).

Definition AcquireSwitchLock (ctx : Context) (ttl : Z) (auth : SwitchAuthorization)
    : prog etcdE (result LockHandle) :=
  try state <- GetCluster ctx else (fun e => Ret (Err e)) ;;
  if negb (Epoch state =? FromEpoch auth) || negb (ToEpoch auth =? uint64 (FromEpoch auth + 1))
     || bool_decide (OperationID auth = "") then
    Ret (Err "invalid switch authorization epoch")
  else
  try lock <- acquireEtcdLock ctx ttl else (fun e => Ret (Err e)) ;;
  let '(lockCtx, l) := lock in
  put <- match Marshal auth with
         | Err e => Ret (Err e)
         | Ok payload => call (KPut lockCtx operation_key payload (Some l))
         end ;;
  match put with
  | Err e => release_lock lockCtx l ;;; Ret (Err e)
  | Ok _ => Ret (Ok {| lh_ctx := lockCtx; lh_lock := l; lh_switch := true |})
  end.

(** The release functions the two acquisitions return. *)
Definition Release (h : LockHandle) : prog etcdE unit :=
  (if lh_switch h then _ <- call (KDelete Background operation_key) ;; Ret tt else Ret tt) ;;;
  release_lock (lh_ctx h) (lh_lock h).

Definition VerifySwitchOperation (ctx : Context) (auth : SwitchAuthorization)
    : prog etcdE (result unit) :=
  if bool_decide (OperationID auth = "") || negb (ToEpoch auth =? uint64 (FromEpoch auth + 1)) then
    Ret (Err "invalid switch authorization")
  else
  try state <- GetCluster ctx else (fun e => Ret (Err e)) ;;
  if negb (Epoch state =? FromEpoch auth) && negb (Epoch state =? ToEpoch auth) then
    Ret (Err "switch operation epoch is stale")
  else
  try kvs <- call (KGet ctx operation_key) else (fun e => Ret (Err e)) ;;
  Ret (match kvs with
       | None => Err "no active switch operation"
       | Some kv =>
           match Unmarshal (A := SwitchAuthorization) (kv_value kv) with
           | Err e => Err e
           | Ok active =>
               if negb (bool_decide (active = auth)) then
                 Err "switch operation authorization mismatch"
               else Ok tt
           end
       end).

(** ** Tasks *)

Definition PutTask (ctx : Context) (task : SwitchTask) : prog etcdE (result unit) :=
  match Marshal task with
  | Err e => Ret (Err e)
  | Ok payload => call (KPut ctx (task_prefix +:+ task_ID task) payload None)
  end.

(** The loop of [ListTasks], with the tasks collected so far. *)
Fixpoint collect_tasks (limit : Z) (tasks : list SwitchTask) (kvs : list KeyValue)
    : result (list SwitchTask) :=
  match kvs with
  | [] => Ok tasks
  | kv :: kvs =>
      match Unmarshal (kv_value kv) with
      | Err e => Err e
      | Ok task =>
          let tasks := tasks ++ [task] in
          if (0 <? limit) && (limit <=? Z.of_nat (length tasks)) then Ok tasks
          else collect_tasks limit tasks kvs
      end
  end.

Definition ListTasks (ctx : Context) (limit : Z) : prog etcdE (result (list SwitchTask)) :=
  try kvs <- call (KGetNewestFirst ctx task_prefix) else (fun e => Ret (Err e)) ;;
  Ret (collect_tasks limit [] kvs).

Definition Close : prog etcdE (result unit) := call KClose.

(** ** Leadership

    [fuel] bounds the rounds of the loop; [None]: it is still running. *)
Definition leader_prefix : string := prefix +:+ "/leader".

(** The rest of a round after a failure: return the context's error, or wait
    and go on. *)
Definition retry (ctx : Context) (again : prog etcdE (option (option string)))
    : prog etcdE (option (option string)) :=
  err <- call (KCtxErr ctx) ;;
  match err with
  | Some e => Ret (Some (Some e))
  | None => call (KSleep 1) ;;; again
  end.

Fixpoint RunLeaderElection (fuel : nat) (ctx : Context) (id : string)
    : prog etcdE (option (option string)) :=
  match fuel with
  | O => Ret None
  | S fuel =>
      done <- call (KCtxErr ctx) ;;
      match done with
      | Some e => Ret (Some (Some e))
      | None =>
          session <- call (KNewSession ctx 10) ;;
          match session with
          | Err _ => retry ctx (RunLeaderElection fuel ctx id)
          | Ok l =>
              won <- call (KCampaign ctx l leader_prefix id) ;;
              match won with
              | Err _ =>
                  _ <- call (KCloseSession l) ;;
                  retry ctx (RunLeaderElection fuel ctx id)
              | Ok _ =>
                  let leaderCtx := Locked ctx l in
                  call (KOnLeader leaderCtx) ;;;
                  call (KCancel leaderCtx) ;;;
                  _ <- call (KResign Background l leader_prefix) ;;
                  _ <- call (KCloseSession l) ;;
                  RunLeaderElection fuel ctx id
              end
          end
      end
  end.

(** The interface [Store] as this store implements it. *)
Definition step : forall X, storeE X -> prog etcdE X := fun X e =>
  match e in storeE X return prog etcdE X with
  | SGetCluster ctx => GetCluster ctx
  | SPutCluster ctx c => PutCluster ctx c
  | SPutClusterIfEpoch ctx n c => PutClusterIfEpoch ctx n c
  | SAcquireLock ctx _ ttl => AcquireLock ctx ttl
  | SAcquireSwitchLock ctx _ ttl auth => AcquireSwitchLock ctx ttl auth
  | SRelease h => Release h
  | SVerifySwitchOperation ctx auth => VerifySwitchOperation ctx auth
  | SPutTask ctx task => PutTask ctx task
  | SListTasks ctx limit => ListTasks ctx limit
  | SClose => Close
  end.
End store.

(** ** Construction *)

(** The loop over the endpoints: the first that answers is enough. *)
Fixpoint connect (endpoints : list string) (clusterName : string) (lastErr : option string)
    : prog etcdE (result string) :=
  match endpoints with
  | [] =>
      _ <- call KClose ;;
      Ret (Err (match lastErr with
                | Some e => wrap_err "no Etcd endpoint is reachable" e
                | None => "no Etcd endpoint is reachable"
                end))
  | endpoint :: endpoints =>
      let ctx := WithTimeout Background 3 in
      r <- call (KStatus ctx endpoint) ;;
      match r with
      | Ok _ => call (KCancel ctx) ;;; Ret (Ok ("/ha/" +:+ clusterName))
      | Err e => call (KCancel ctx) ;;; connect endpoints clusterName (Some e)
      end
  end.

Definition NewEtcdStore (endpoints : list string) (clusterName : string)
    : prog etcdE (result string) :=
  match endpoints with
  | [] => Ret (Err "at least one Etcd endpoint is required")
  | _ =>
      try _ <- call (KNew endpoints) else (fun e => Ret (Err e)) ;;
      connect endpoints clusterName None
  end.

End EtcdStore.
