(* ===== verification/EtcdSafety.v ===== *)
(** * What the etcd store guarantees

    [etcd_post] is the documented behaviour of an etcd cluster for each call:
    reads are of the current state, a write gives its key the next revision, a
    transaction is atomic, a new session has a fresh lease, a lock or a campaign
    keeps a key of that lease under its prefix, closing the session deletes the
    keys of its lease, and a call that reports an error may have taken effect or
    not.  [etcd_spec env]
    lets other clients take steps [env] before each call.  The theorems show
    that the store honours the contract of [Store.v] when left alone, and which
    guarantees survive interference. *)
From S2P Require Import Prelude GoStd Effects Model Json JsonText GoTime Wire Format Store Etcd.

(** ** The cluster *)
Record Etcd : Type := {
  revision : Z;
  keys : gmap string KeyValue;
  attached : gmap string lease         (* the lease a key is attached to *)
}.

Definition put (key value : string) (l : option lease) (s : Etcd) : Etcd := {|
  revision := revision s + 1;
  keys := <[key := {| kv_key := key; kv_value := value; kv_mod := revision s + 1 |}]> (keys s);
  attached := match l with
              | Some l => <[key := l]> (attached s)
              | None => base.delete key (attached s)
              end |}.

Definition remove (key : string) (s : Etcd) : Etcd := {|
  revision := revision s + 1; keys := base.delete key (keys s);
  attached := base.delete key (attached s) |}.

(** Revoking a lease deletes the keys attached to it. *)
Definition revoke (l : lease) (s : Etcd) : Etcd := {|
  revision := revision s + 1;
  keys := filter (fun '(k, _) => attached s !! k <> Some l) (keys s);
  attached := filter (fun '(_, l') => l' <> l) (attached s) |}.

Definition compare_holds (c : Compare) (key : string) (s : Etcd) : Prop :=
  match c with
  | VersionIsZero => keys s !! key = None
  | ModRevisionIs rev => exists kv, keys s !! key = Some kv /\ kv_mod kv = rev
  end.

(** The package [concurrency] keeps the keys of a lock or an election under its
    prefix: only these change, whatever becomes of the call. *)
Definition changes_under (pre : string) (s s' : Etcd) : Prop :=
  revision s <= revision s' /\
  forall k, HasPrefix k pre = false -> keys s' !! k = keys s !! k /\ attached s' !! k = attached s !! k.

(** The session [l] has a key under the prefix, and no key there is older. *)
Definition first_under (pre : string) (l : lease) (s : Etcd) : Prop :=
  exists k kv, HasPrefix k pre = true /\ keys s !! k = Some kv /\ attached s !! k = Some l /\
    forall k' kv', HasPrefix k' pre = true -> keys s !! k' = Some kv' -> kv_mod kv <= kv_mod kv'.

Definition etcd_post {X} (e : etcdE X) : Etcd -> X -> Etcd -> Prop :=
  match e in etcdE X return Etcd -> X -> Etcd -> Prop with
  | KGet _ key => fun s r s' => s' = s /\ forall o, r = Ok o -> o = keys s !! key
  | KGetNewestFirst _ pre => fun s r s' => s' = s /\ forall l, r = Ok l ->
      StronglySorted (fun a b => kv_mod b <= kv_mod a) l /\
      forall kv, kv ∈ l <-> keys s !! kv_key kv = Some kv /\ HasPrefix (kv_key kv) pre = true
  | KPut _ key value l => fun s r s' => s' = put key value l s \/ (s' = s /\ is_ok r = false)
  | KDelete _ key => fun s r s' => s' = remove key s \/ (s' = s /\ is_ok r = false)
  | KTxnPut _ c key value => fun s r s' =>
      match r with
      | Ok true => compare_holds c key s /\ s' = put key value None s
      | Ok false => ~ compare_holds c key s /\ s' = s
      | Err _ => s' = s \/ (compare_holds c key s /\ s' = put key value None s)
      end
  | KNewSession _ _ => fun s r s' =>
      s' = s /\ forall l, r = Ok l -> forall k, attached s !! k <> Some l
  | KCloseSession l => fun s r s' => s' = revoke l s \/ (s' = s /\ is_ok r = false)
  | KLock _ l pre => fun s r s' =>
      changes_under pre s s' /\ (is_ok r = true -> first_under pre l s')
  | KCampaign _ l pre _ => fun s r s' =>
      changes_under pre s s' /\ (is_ok r = true -> first_under pre l s')
  | KUnlock _ l pre => fun s r s' =>
      changes_under pre s s' /\ (is_ok r = true -> ~ first_under pre l s')
  | KResign _ l pre => fun s r s' =>
      changes_under pre s s' /\ (is_ok r = true -> ~ first_under pre l s')
  | _ => fun s _ s' => s' = s
  end.

Definition etcd_spec (env : Etcd -> Etcd -> Prop) : espec etcdE Etcd := {|
  pre _ _ _ := True;
  post _ e s x s' := exists s1, env s s1 /\ etcd_post e s1 x s'
|}.

(** No other client. *)
Definition alone : espec etcdE Etcd := etcd_spec eq.

Section store.
Import EtcdStore.
Context `{JC : !Json ClusterState, JA : !Json SwitchAuthorization, JT : !Json SwitchTask}.
Context (prefix : string).

(** ** Refinement of the contract *)

Definition cluster_of (s : Etcd) : result ClusterState :=
  match keys s !! cluster_key prefix with
  | None => Ok (default_cluster prefix)
  | Some kv => Unmarshal (kv_value kv)
  end.

Definition operation_of (s : Etcd) : option SwitchAuthorization :=
  match keys s !! operation_key prefix with
  | None => None
  | Some kv => match Unmarshal (kv_value kv) with Ok a => Some a | Err _ => None end
  end.

Definition tasks_of (s : Etcd) (m : gmap string SwitchTask) : Prop :=
  forall k kv t, keys s !! (task_prefix prefix +:+ k) = Some kv ->
    Unmarshal (kv_value kv) = Ok t -> m !! k = Some t.

(** The abstract store an etcd state stands for: its decoded values. *)
Definition abstracts (s : Etcd) (a : AbsStore) : Prop :=
  (forall c, cluster_of s = Ok c -> a_cluster a = c) /\
  a_operation a = operation_of s /\ tasks_of s (a_tasks a).

(** The values written are text [encoding/json] leaves alone, and a plain lock
    handle is not the switch operation's. *)
Definition proper {X} (e : storeE X) (s : Etcd) : Prop :=
  match e with
  | SPutCluster _ c | SPutClusterIfEpoch _ _ c => sanitize c = c
  | SAcquireSwitchLock _ _ _ auth => sanitize auth = auth
  | SPutTask _ t => sanitize t = t
  | SRelease h => lh_switch h = false -> attached s !! operation_key prefix <> Some (lh_lock h)
  | _ => True
  end.

(** The keys attached to leases are the switch operation and those of the lock
    and of the election: never the cluster state nor a task. *)
Definition switch_leases (s : Etcd) : Prop :=
  forall k l, attached s !! k = Some l ->
    k = operation_key prefix \/ HasPrefix k (lock_prefix prefix) = true \/
    HasPrefix k (leader_prefix prefix) = true.

Lemma cluster_not_operation : cluster_key prefix <> operation_key prefix.
Proof. intros H. apply (inj (String.append prefix)) in H. done. Qed.

Lemma cluster_not_task k : cluster_key prefix <> task_prefix prefix +:+ k.
Proof.
  unfold task_prefix. rewrite string_app_assoc. intros H.
  apply (inj (String.append prefix)) in H. done.
Qed.

Lemma operation_not_task k : operation_key prefix <> task_prefix prefix +:+ k.
Proof.
  unfold task_prefix. rewrite string_app_assoc. intros H.
  apply (inj (String.append prefix)) in H. done.
Qed.

(** The keys whose values the abstract store is read off. *)
Definition stored_key (k : string) : Prop :=
  k = cluster_key prefix \/ k = operation_key prefix \/ exists t, k = task_prefix prefix +:+ t.

Lemma stored_key_apart k :
  stored_key k -> HasPrefix k (lock_prefix prefix) = false /\ HasPrefix k (leader_prefix prefix) = false.
Proof.
  intros Hk. rewrite <-!not_true_iff_false, !HasPrefix_spec.
  unfold stored_key, cluster_key, operation_key, task_prefix, lock_prefix, leader_prefix in *.
  split; intros [r Hr]; rewrite string_app_assoc in Hr; destruct Hk as [->|[->|[t ->]]];
    rewrite ?string_app_assoc in Hr; by apply (inj (String.append prefix)) in Hr.
Qed.

Lemma stored_key_unleased k s l :
  switch_leases s -> stored_key k -> k <> operation_key prefix -> attached s !! k <> Some l.
Proof.
  intros Hs Hk Hne Hl. destruct (stored_key_apart k Hk), (Hs k l Hl) as [?|[?|?]]; congruence.
Qed.

Lemma cluster_stored : stored_key (cluster_key prefix).
Proof. by left. Qed.
Lemma operation_stored : stored_key (operation_key prefix).
Proof. by right; left. Qed.
Lemma task_stored t : stored_key (task_prefix prefix +:+ t).
Proof. right; right. by exists t. Qed.
#[local] Hint Resolve cluster_stored operation_stored task_stored : ha.

Lemma put_cluster_abstracts c payload s a :
  Marshal c = Ok payload -> sanitize c = c -> abstracts s a ->
  abstracts (put (cluster_key prefix) payload None s) (with_cluster c a).
Proof.
  intros Hm Hc (Ha & Ho & Ht). split_and!.
  - unfold cluster_of. simpl. rewrite lookup_insert_eq. simpl.
    rewrite (Unmarshal_Marshal _ _ Hm), Hc. by intros ? [= <-].
  - simpl. rewrite Ho. unfold operation_of. simpl.
    by rewrite lookup_insert_ne by apply cluster_not_operation.
  - intros k kv t Hk. simpl in Hk.
    rewrite lookup_insert_ne in Hk by apply cluster_not_task. by apply Ht.
Qed.

Lemma put_operation_abstracts auth payload l s a :
  Marshal auth = Ok payload -> sanitize auth = auth -> abstracts s a ->
  abstracts (put (operation_key prefix) payload l s) (with_operation (Some auth) a).
Proof.
  intros Hm Hc (Ha & Ho & Ht). split_and!.
  - unfold cluster_of. simpl.
    rewrite lookup_insert_ne by (intros ?; by apply cluster_not_operation). apply Ha.
  - simpl. unfold operation_of. simpl. rewrite lookup_insert_eq. simpl.
    by rewrite (Unmarshal_Marshal _ _ Hm), Hc.
  - intros k kv t Hk. simpl in Hk.
    rewrite lookup_insert_ne in Hk by apply operation_not_task. by apply Ht.
Qed.

Lemma put_task_abstracts task payload s a :
  Marshal task = Ok payload -> sanitize task = task -> abstracts s a ->
  abstracts (put (task_prefix prefix +:+ task_ID task) payload None s) (with_task task a).
Proof.
  intros Hm Hc (Ha & Ho & Ht). split_and!.
  - unfold cluster_of. simpl.
    rewrite lookup_insert_ne by (intros H; symmetry in H; by apply cluster_not_task in H). apply Ha.
  - simpl. rewrite Ho. unfold operation_of. simpl.
    rewrite lookup_insert_ne by (intros H; symmetry in H; by apply operation_not_task in H). done.
  - intros k kv t Hk Hu. simpl in *.
    destruct (decide (task_ID task = k)) as [<-|Hne].
    + rewrite lookup_insert_eq in Hk. simplify_eq/=.
      rewrite (Unmarshal_Marshal _ _ Hm), Hc in Hu. simplify_eq. by rewrite lookup_insert_eq.
    + rewrite lookup_insert_ne by done. rewrite lookup_insert_ne in Hk; [by eapply Ht|].
      by intros ?%(inj (String.append (task_prefix prefix))).
Qed.

(** Removing the operation key, directly or with its lease. *)
Lemma remove_operation_abstracts s a :
  abstracts s a -> abstracts (remove (operation_key prefix) s) (with_operation None a).
Proof.
  intros (Ha & Ho & Ht). split_and!.
  - unfold cluster_of. simpl.
    rewrite lookup_delete_ne by (intros ?; by apply cluster_not_operation). apply Ha.
  - simpl. unfold operation_of. simpl. by rewrite lookup_delete_eq.
  - intros k kv t Hk. simpl in Hk.
    rewrite lookup_delete_ne in Hk by apply operation_not_task. by apply Ht.
Qed.

Lemma revoke_lookup l s k :
  switch_leases s -> stored_key k -> k <> operation_key prefix -> keys (revoke l s) !! k = keys s !! k.
Proof.
  intros Hl Hk Hne. simpl. rewrite map_lookup_filter. destruct (keys s !! k) as [kv|]; [|done].
  simpl. rewrite option_guard_True; [done|]. by eapply stored_key_unleased.
Qed.

Lemma revoke_abstracts l s a :
  switch_leases s -> abstracts s a ->
  abstracts (revoke l s) (with_operation (operation_of (revoke l s)) a).
Proof.
  intros Hl (Ha & Ho & Ht). split_and!; [|done|].
  - unfold cluster_of. rewrite revoke_lookup; [apply Ha|done|auto with ha|apply cluster_not_operation].
  - intros k kv t Hk. rewrite revoke_lookup in Hk;
      [by apply Ht|done|auto with ha|intros H; symmetry in H; by apply operation_not_task in H].
Qed.

(** The lock and the election leave what is stored alone. *)
Lemma changes_under_stored pre s s' k :
  pre = lock_prefix prefix \/ pre = leader_prefix prefix -> changes_under pre s s' ->
  stored_key k -> keys s' !! k = keys s !! k /\ attached s' !! k = attached s !! k.
Proof. intros Hpre [_ Hs] Hk. apply Hs. by destruct (stored_key_apart k Hk), Hpre as [->| ->]. Qed.

(** Revoking keeps the operation or removes it. *)
Lemma revoke_operation l s :
  operation_of (revoke l s) = operation_of s \/ operation_of (revoke l s) = None.
Proof.
  unfold operation_of. simpl. rewrite map_lookup_filter.
  destruct (keys s !! operation_key prefix) as [kv|]; [|by left].
  simpl. case_guard; [by left|by right].
Qed.

Definition tracks (s : Etcd) (a : AbsStore) : Prop := abstracts s a /\ switch_leases s.

Lemma put_plain_leases key payload s :
  switch_leases s -> switch_leases (put key payload None s).
Proof. intros Hl k l. simpl. rewrite lookup_delete_Some. intros [_ Hk]. by eapply Hl. Qed.

Lemma put_operation_leases payload l s :
  switch_leases s -> switch_leases (put (operation_key prefix) payload (Some l) s).
Proof.
  intros Hl k l'. simpl. rewrite lookup_insert_Some. intros [[<- _]|[_ Hk]]; [by left|by eapply Hl].
Qed.

Lemma remove_leases key s : switch_leases s -> switch_leases (remove key s).
Proof. intros Hl k l. simpl. rewrite lookup_delete_Some. intros [_ Hk]. by eapply Hl. Qed.

Lemma revoke_leases l s : switch_leases s -> switch_leases (revoke l s).
Proof. intros Hl k l'. simpl. rewrite map_lookup_filter_Some. intros [Hk _]. by eapply Hl. Qed.

Lemma with_same_operation a : with_operation (a_operation a) a = a.
Proof. by destruct a. Qed.

(** Revoking a lease the operation is not attached to keeps it. *)
Lemma revoke_other l s :
  attached s !! operation_key prefix <> Some l -> operation_of (revoke l s) = operation_of s.
Proof.
  intros Hl. unfold operation_of. simpl. rewrite map_lookup_filter.
  destruct (keys s !! operation_key prefix) as [kv|]; [|done]. simpl. by rewrite option_guard_True.
Qed.

Lemma revoke_tracks l s a :
  tracks s a -> tracks (revoke l s) (with_operation (operation_of (revoke l s)) a).
Proof. intros [Ha Hl]. split; [by apply revoke_abstracts|by apply revoke_leases]. Qed.

Lemma changes_under_tracks pre s s' a :
  pre = lock_prefix prefix \/ pre = leader_prefix prefix -> changes_under pre s s' ->
  tracks s a -> tracks s' a.
Proof.
  intros Hpre Hs [(Ha & Ho & Ht) Hl].
  assert (forall k, stored_key k -> keys s' !! k = keys s !! k) as Hk.
  { intros k Hk. by apply (changes_under_stored pre). }
  split; [split_and!|].
  - unfold cluster_of. rewrite Hk by auto with ha. apply Ha.
  - rewrite Ho. unfold operation_of. by rewrite Hk by auto with ha.
  - intros k kv t Hkv. rewrite Hk in Hkv by auto with ha. by apply Ht.
  - intros k l Hkl. destruct (HasPrefix k pre) eqn:Hp; [destruct Hpre as [->| ->]; auto|].
    destruct Hs as [_ Hs]. destruct (Hs k Hp) as [_ Heq]. rewrite Heq in Hkl. by eapply Hl.
Qed.

Lemma close_session_wp l s a :
  tracks s a -> wp alone (call (KCloseSession l)) (fun _ s' => exists o,
    tracks s' (with_operation o a) /\ (o = a_operation a \/ o = None) /\
    (attached s !! operation_key prefix <> Some l -> o = a_operation a)) s.
Proof.
  intros Ht. apply wp_call; [done|]. intros r s' (? & <- & [->|[-> _]]).
  - exists (operation_of (revoke l s)). destruct Ht as [(Ha & Ho & Htask) Hl].
    split; [by apply revoke_tracks|]. rewrite Ho. split; [apply revoke_operation|].
    apply revoke_other.
  - exists (a_operation a). rewrite with_same_operation. auto.
Qed.

Lemma release_lock_wp ctx l s a :
  tracks s a -> wp alone (release_lock prefix ctx l) (fun _ s' => exists o,
    tracks s' (with_operation o a) /\ (o = a_operation a \/ o = None) /\
    (attached s !! operation_key prefix <> Some l -> o = a_operation a)) s.
Proof.
  intros Ht. assert (exists o, tracks s (with_operation o a) /\ (o = a_operation a \/ o = None) /\
    (attached s !! operation_key prefix <> Some l -> o = a_operation a)) as Hsame.
  { exists (a_operation a). rewrite with_same_operation. auto. }
  unfold release_lock. apply wp_bind, wp_call; [done|]. intros [] ? (? & <- & ->); [|exact Hsame].
  apply wp_bind, wp_call; [done|]. intros ? ? (? & <- & ->).
  apply wp_bind, wp_call; [done|]. intros ? s1 (? & <- & Hs1 & _).
  destruct (changes_under_stored _ _ _ _ (or_introl eq_refl) Hs1 operation_stored) as [_ <-].
  apply (changes_under_tracks _ _ _ _ (or_introl eq_refl) Hs1) in Ht.
  apply wp_bind. eapply wp_mono; [by apply close_session_wp|]. intros r s2 Hs2. exact Hs2.
Qed.

Lemma acquireEtcdLock_wp ctx ttl s a :
  tracks s a -> wp alone (acquireEtcdLock prefix ctx ttl) (fun _ s' => tracks s' a) s.
Proof.
  intros Ht. unfold acquireEtcdLock. apply wp_try, wp_call; [done|].
  intros [l|e] ? (? & <- & -> & Hfresh); [|exact Ht].
  apply wp_bind, wp_call; [done|]. intros r s1 (? & <- & Hs1 & _).
  apply (changes_under_tracks _ _ _ _ (or_introl eq_refl) Hs1) in Ht.
  destruct r as [[]|e]; [exact Ht|].
  apply wp_bind. eapply wp_mono; [by apply close_session_wp|]. intros _ s' (o & Hs' & _ & Ho).
  destruct (changes_under_stored _ _ _ _ (or_introl eq_refl) Hs1 operation_stored) as [_ Heq].
  rewrite Ho, with_same_operation in Hs' by (rewrite Heq; by apply Hfresh). exact Hs'.
Qed.

Lemma GetCluster_wp ctx s :
  wp alone (GetCluster prefix ctx) (fun r s' => s' = s /\ forall c, r = Ok c -> cluster_of s = Ok c) s.
Proof.
  unfold GetCluster. apply wp_try, wp_call; [done|].
  intros [o|e] ? (? & <- & -> & Ho); [|split; [done|]; by intros].
  split; [done|]. unfold cluster_of. rewrite <-(Ho o eq_refl). by destruct o.
Qed.

(** ** Each operation against the contract *)

Definition honours {X} (e : storeE X) (a : AbsStore) (x : X) (s' : Etcd) : Prop :=
  exists a', tracks s' a' /\ store_post e a x a'.

Lemma PutCluster_honours ctx c s a :
  tracks s a -> sanitize c = c ->
  wp alone (PutCluster prefix ctx c) (honours (SPutCluster ctx c) a) s.
Proof.
  intros [Ha Hl] Hc. unfold PutCluster. destruct (Marshal c) as [payload|e] eqn:Hm.
  - apply wp_call; [done|]. intros r ? (? & <- & [->|[-> Hr]]).
    + exists (with_cluster c a). split; [|by left].
      split; [by apply put_cluster_abstracts|by apply put_plain_leases].
    + exists a. split; [done|]. by right.
  - exists a. split; [done|]. by right.
Qed.

Lemma epoch_compare_spec n s a compare :
  tracks s a -> epoch_compare n (keys s !! cluster_key prefix) = Ok compare ->
  Epoch (a_cluster a) = n.
Proof.
  intros [(Ha & _) _]. unfold epoch_compare, cluster_of in *.
  destruct (keys s !! cluster_key prefix) as [kv|]; intros Hc.
  - destruct (Unmarshal (kv_value kv)) as [c|e]; [|done]. rewrite (Ha c eq_refl).
    destruct (Z.eqb_spec (Epoch c) n); by simplify_eq/=.
  - rewrite (Ha _ eq_refl). destruct (Z.eqb_spec n 0); by simplify_eq/=.
Qed.

Lemma PutClusterIfEpoch_honours ctx n c s a :
  tracks s a -> sanitize c = c ->
  wp alone (PutClusterIfEpoch prefix ctx n c) (honours (SPutClusterIfEpoch ctx n c) a) s.
Proof.
  intros Ht Hc. assert (forall e, honours (SPutClusterIfEpoch ctx n c) a (Err e) s) as Hfail.
  { intros e. exists a. split; [done|]. by right. }
  unfold PutClusterIfEpoch. apply wp_try, wp_call; [done|].
  intros [o|e] ? (? & <- & -> & Ho); [|apply Hfail]. rewrite (Ho o eq_refl).
  destruct (epoch_compare _ _) as [compare|e] eqn:Hcmp; [|apply Hfail].
  pose proof (epoch_compare_spec n s a compare Ht Hcmp) as Hn.
  destruct (Marshal c) as [payload|e] eqn:Hm; [|apply Hfail].
  assert (forall r, honours (SPutClusterIfEpoch ctx n c) a r
    (put (cluster_key prefix) payload None s)) as Hput.
  { intros r. exists (with_cluster c a). split; [|by left]. destruct Ht.
    split; [by apply put_cluster_abstracts|by apply put_plain_leases]. }
  apply wp_try, wp_call; [done|]. intros [[]|e] ? (? & <- & Hpost).
  - destruct Hpost as [_ ->]. apply Hput.
  - destruct Hpost as [_ ->]. apply Hfail.
  - destruct Hpost as [->|[_ ->]]; [apply Hfail|apply Hput].
Qed.

Lemma AcquireSwitchLock_honours ctx holder ttl auth s a :
  tracks s a -> sanitize auth = auth ->
  wp alone (AcquireSwitchLock prefix ctx ttl auth)
    (honours (SAcquireSwitchLock ctx holder ttl auth) a) s.
Proof.
  intros Ht Hc.
  assert (forall e s1 o, tracks s1 (with_operation o a) ->
    honours (SAcquireSwitchLock ctx holder ttl auth) a (Err e) s1) as Hfail.
  { intros e s1 o Hs1. exists (with_operation o a). split; [done|]. right. eauto. }
  assert (forall s1, tracks s1 a -> tracks s1 (with_operation (a_operation a) a)) as Hsame.
  { intros s1. by rewrite with_same_operation. }
  unfold AcquireSwitchLock. apply wp_try. eapply wp_mono; [apply GetCluster_wp|].
  intros [st|e] ? [-> _]; [|eapply Hfail, Hsame, Ht].
  case_on_match; [eapply Hfail, Hsame, Ht|].
  apply wp_try. eapply wp_mono; [by apply acquireEtcdLock_wp|].
  intros [[lockCtx l]|e] s1 Ht1; [|eapply Hfail, Hsame, Ht1].
  assert (forall e s2 a2, tracks s2 a2 -> (exists o, a2 = with_operation o a) ->
    wp alone (release_lock prefix lockCtx l ;;; Ret (Err e))
      (honours (SAcquireSwitchLock ctx holder ttl auth) a) s2) as Hrel.
  { intros e s2 a2 Ht2 [o ->]. apply wp_bind. eapply wp_mono; [by apply release_lock_wp|].
    intros _ s3 (o' & Ht3 & _). eapply (Hfail e s3 o'). exact Ht3. }
  apply wp_bind. destruct (Marshal auth) as [payload|e] eqn:Hm.
  - apply wp_call; [done|]. intros r s2 (? & <- & Hpost).
    assert (tracks (put (operation_key prefix) payload (Some l) s1) (with_operation (Some auth) a))
      as Hput.
    { destruct Ht1. split; [by apply put_operation_abstracts|by apply put_operation_leases]. }
    destruct r as [[]|e], Hpost as [->|[-> Hr]]; try done.
    + exists (with_operation (Some auth) a). split; [exact Hput|by left].
    + apply (Hrel e _ _ Hput). eauto.
    + apply (Hrel e _ _ Ht1). exists (a_operation a). by rewrite with_same_operation.
  - apply (Hrel e _ _ Ht1). exists (a_operation a). by rewrite with_same_operation.
Qed.

Lemma Release_honours h s a :
  tracks s a -> proper (SRelease h) s ->
  wp alone (Release prefix h) (honours (SRelease h) a) s.
Proof.
  intros Ht Hp. unfold Release. destruct (lh_switch h) eqn:Hsw.
  - apply wp_bind, wp_bind, wp_call; [done|]. intros r s1 (? & <- & Hpost).
    assert (exists o, tracks s1 (with_operation o a) /\ (o = a_operation a \/ o = None)) as (o & Ht1 & Ho).
    { destruct Hpost as [->|[-> _]].
      - exists None. split; [|by right]. destruct Ht.
        split; [by apply remove_operation_abstracts|by apply remove_leases].
      - exists (a_operation a). rewrite with_same_operation. auto. }
    refine (wp_mono _ _ _ _ _ (release_lock_wp (lh_ctx h) (lh_lock h) s1 _ Ht1) _).
    intros [] s2 (o' & Ht2 & Ho' & _).
    exists (with_operation o' a). split; [exact Ht2|].
    assert (o' = a_operation a \/ o' = None) as [->| ->] by (simpl in Ho'; destruct Ho, Ho'; subst; auto).
    + left. apply with_same_operation.
    + by right.
  - refine (wp_mono _ _ _ _ _ (release_lock_wp (lh_ctx h) (lh_lock h) s a Ht) _).
    intros [] s1 (o & Ht1 & _ & Ho).
    rewrite Ho, with_same_operation in Ht1 by by apply Hp. exists a. split; [done|]. by left.
Qed.

Lemma Verify_honours ctx auth s a :
  tracks s a ->
  wp alone (VerifySwitchOperation prefix ctx auth) (honours (SVerifySwitchOperation ctx auth) a) s.
Proof.
  intros Ht. assert (forall e, honours (SVerifySwitchOperation ctx auth) a (Err e) s) as Hfail.
  { intros e. exists a. done. }
  unfold VerifySwitchOperation. case_on_match; [apply Hfail|].
  apply wp_try. eapply wp_mono; [apply GetCluster_wp|].
  intros [st|e] ? [-> Hst]; [|apply Hfail]. case_on_match; [apply Hfail|].
  apply wp_try, wp_call; [done|]. intros [o|e] ? (? & <- & -> & Ho); [|apply Hfail].
  specialize (Ho o eq_refl). destruct o as [kv|]; [|apply Hfail].
  destruct (Unmarshal (kv_value kv)) as [active|e] eqn:Hu; [|apply Hfail].
  destruct (bool_decide (active = auth)) eqn:Heq; [|apply Hfail].
  apply bool_decide_eq_true in Heq as ->. exists a. split; [done|]. split; [done|]. intros _. destruct Ht as [(Hc & Hop & _) _].
  rewrite Hop. unfold operation_of, epoch_in_window. rewrite <-Ho, Hu. split; [done|].
  rewrite (Hc st (Hst st eq_refl)). propify. destruct_or?; auto.
Qed.

(** The decoded tasks of the first entries, as many as the limit allows. *)
Definition limit_count (limit : Z) (n : nat) : nat :=
  if 0 <? limit then Nat.min (Z.to_nat limit) n else n.

Fixpoint decode_all (kvs : list KeyValue) : result (list SwitchTask) :=
  match kvs with
  | [] => Ok []
  | kv :: kvs =>
      match Unmarshal (kv_value kv) with
      | Err e => Err e
      | Ok task => match decode_all kvs with Ok tasks => Ok (task :: tasks) | Err e => Err e end
      end
  end.

Lemma collect_tasks_spec limit acc kvs :
  (0 < limit -> Z.of_nat (length acc) < limit) ->
  collect_tasks limit acc kvs =
    match decode_all (take (limit_count (if 0 <? limit then limit - Z.of_nat (length acc) else 0)
      (length kvs)) kvs) with
    | Ok tasks => Ok (acc ++ tasks)
    | Err e => Err e
    end.
Proof.
  revert acc. induction kvs as [|kv kvs IH]; intros acc Hacc; cbn [collect_tasks].
  { rewrite take_nil. simpl. by rewrite app_nil_r. }
  assert (take (limit_count (if 0 <? limit then limit - Z.of_nat (length acc) else 0)
    (length (kv :: kvs))) (kv :: kvs) =
    kv :: take (pred (limit_count (if 0 <? limit then limit - Z.of_nat (length acc) else 0)
      (length (kv :: kvs)))) kvs) as ->.
  { unfold limit_count. simpl length. destruct (Z.ltb_spec 0 limit); [|done].
    specialize (Hacc ltac:(done)). destruct (Z.ltb_spec 0 (limit - Z.of_nat (length acc))); [|lia].
    destruct (Z.to_nat (limit - Z.of_nat (length acc))) eqn:?; [lia|done]. }
  cbn [decode_all]. destruct (Unmarshal (kv_value kv)) as [task|e]; [|done].
  rewrite length_app. simpl length.
  destruct ((0 <? limit) && _) eqn:Hstop.
  - propify. destruct Hstop as [H0 H1]. rewrite (proj2 (Z.ltb_lt 0 limit)) by done.
    specialize (Hacc ltac:(done)). unfold limit_count.
    destruct (Z.ltb_spec 0 (limit - Z.of_nat (length acc))); [|lia].
    replace (Z.to_nat (limit - Z.of_nat (length acc))) with 1%nat by lia. done.
  - rewrite IH by (propify; rewrite length_app; simpl; lia). rewrite length_app. simpl length.
    match goal with |- context [decode_all (take ?n kvs)] =>
      match goal with |- context [decode_all (take (pred ?m) kvs)] =>
        replace (pred m) with n end end.
    + destruct (decode_all _); [by rewrite <-app_assoc|done].
    + unfold limit_count. propify. destruct (Z.ltb_spec 0 limit) as [H0|H0]; [|done].
      destruct Hstop as [Hstop|Hstop]; [lia|].
      destruct (Z.ltb_spec 0 (limit - Z.of_nat (length acc + 1))); [|lia].
      destruct (Z.ltb_spec 0 (limit - Z.of_nat (length acc))); [|lia]. lia.
Qed.

Lemma decode_all_elem kvs l t :
  decode_all kvs = Ok l -> t ∈ l -> exists kv, kv ∈ kvs /\ Unmarshal (kv_value kv) = Ok t.
Proof.
  revert l. induction kvs as [|kv kvs IH]; intros l; cbn [decode_all];
    [intros [= <-]; set_solver|].
  destruct (Unmarshal (kv_value kv)) as [task|e] eqn:Hu; [|done].
  destruct (decode_all kvs) as [tasks|e]; [|done]. intros [= <-].
  rewrite elem_of_cons. intros [->|Ht].
  - exists kv. split; [by left|done].
  - destruct (IH _ eq_refl Ht) as (kv' & ? & ?). exists kv'. split; [by right|done].
Qed.

Lemma ListTasks_honours ctx limit s a :
  tracks s a -> wp alone (ListTasks prefix ctx limit) (honours (SListTasks ctx limit) a) s.
Proof.
  intros Ht. unfold ListTasks. apply wp_try, wp_call; [done|].
  intros [kvs|e] ? (? & <- & -> & Hkvs); [|by exists a].
  exists a. split; [done|]. split; [done|]. intros l Hl t Hin.
  rewrite collect_tasks_spec in Hl by (simpl; lia).
  destruct (decode_all _) as [tasks|e] eqn:Hd; simplify_eq/=.
  destruct (decode_all_elem _ _ _ Hd Hin) as (kv & Hkv & Hu).
  apply subseteq_take in Hkv. apply (Hkvs _ eq_refl) in Hkv as [Hk Hpre].
  apply HasPrefix_spec in Hpre as [k Hkey]. exists k.
  destruct Ht as [(_ & _ & Htasks) _]. eapply Htasks; [by rewrite <-Hkey|done].
Qed.

Lemma GetCluster_behaves ctx tr r :
  behaves (GetCluster prefix ctx) tr r <-> exists o, tr = [Ev (KGet ctx (cluster_key prefix)) o] /\
    r = match o with
        | Err e => Err e
        | Ok None => Ok (default_cluster prefix)
        | Ok (Some kv) => Unmarshal (kv_value kv)
        end.
Proof.
  split.
  - intros (o & ? & -> & Hb). exists o. destruct o as [[kv|]|e]; by destruct Hb as [-> ->].
  - intros (o & -> & ->). exists o, []. split; [done|]. by destruct o as [[kv|]|e].
Qed.

(** ** Withdrawal of the operation *)

(** No other client, and deletions go through. *)
Definition reachable_etcd : espec etcdE Etcd := {|
  pre _ _ _ := True;
  post X e s x s' := etcd_post e s x s' /\
    match e in etcdE X return X -> Prop with KDelete _ _ => fun r => is_ok r = true | _ => fun _ => True end x
|}.

(** The operation key is absent, and nothing the release does brings it back. *)
Lemma release_lock_absent ctx l s :
  keys s !! operation_key prefix = None ->
  wp reachable_etcd (release_lock prefix ctx l)
    (fun _ s' => keys s' !! operation_key prefix = None) s.
Proof.
  intros Hs. unfold release_lock. apply wp_bind, wp_call; [done|].
  intros [] ? [-> _]; [|exact Hs].
  apply wp_bind, wp_call; [done|]. intros ? ? [-> _].
  apply wp_bind, wp_call; [done|]. intros ? s1 [[Hs1 _] _].
  destruct (changes_under_stored _ _ _ _ (or_introl eq_refl) Hs1 operation_stored) as [Heq _].
  rewrite <-Heq in Hs. clear s Heq Hs1. rename s1 into s.
  apply wp_bind, wp_call; [done|]. intros r s' [[->|[-> _]] _]; [|exact Hs].
  change (keys (revoke l s) !! operation_key prefix = None). simpl.
  by rewrite map_lookup_filter, Hs.
Qed.

Lemma verify_absent ctx auth s :
  keys s !! operation_key prefix = None ->
  wp reachable_etcd (VerifySwitchOperation prefix ctx auth) (fun r _ => is_ok r = false) s.
Proof.
  intros Hs. unfold VerifySwitchOperation. case_on_match; [exact eq_refl|].
  apply wp_try. eapply (wp_mono _ _ (fun _ s' => s' = s)).
  - unfold GetCluster. apply wp_try, wp_call; [done|]. by intros [o|e] ? [[-> _] _].
  - intros [c|e] ? ->; [|exact eq_refl]. case_on_match; [exact eq_refl|].
    apply wp_try, wp_call; [done|]. intros [o|e] ? [[-> Ho] _]; [|exact eq_refl].
    rewrite (Ho o eq_refl), Hs. exact eq_refl.
Qed.

(** ** Interference

    What other clients may do between two calls: revisions grow, and a key that
    was written anew carries a revision beyond those seen before. *)
Definition interferes (s s' : Etcd) : Prop :=
  revision s <= revision s' /\
  forall k, keys s' !! k = keys s !! k \/ keys s' !! k = None \/
    exists kv, keys s' !! k = Some kv /\ revision s < kv_mod kv <= revision s'.

(** Revisions of keys are revisions of the cluster. *)
Definition revisions_ok (s : Etcd) : Prop :=
  forall k kv, keys s !! k = Some kv -> kv_mod kv <= revision s.

(** The epoch a reader would find. *)
Definition epoch_of (s : Etcd) : option Z :=
  match cluster_of s with Ok c => Some (Epoch c) | Err _ => None end.

(** The ghost state records the states around each write of the call. *)
Definition is_write {X} (e : etcdE X) : bool :=
  match e with
  | KPut _ _ _ _ | KDelete _ _ | KTxnPut _ _ _ _ | KCloseSession _
  | KLock _ _ _ | KUnlock _ _ _ | KCampaign _ _ _ _ | KResign _ _ _ => true
  | _ => false
  end.

Definition logged_spec : espec etcdE (Etcd * list (Etcd * Etcd)) := {|
  pre _ _ _ := True;
  post _ e w x w' := exists s1, interferes w.1 s1 /\ etcd_post e s1 x w'.1 /\
    w'.2 = if is_write e then w.2 ++ [(s1, w'.1)] else w.2
|}.

(** An unchanged modification revision means an unchanged value. *)
Lemma unchanged_revision s s' k kv kv' :
  revisions_ok s -> interferes s s' -> keys s !! k = Some kv -> keys s' !! k = Some kv' ->
  kv_mod kv' = kv_mod kv -> kv' = kv.
Proof.
  intros Hok [_ Hk] Hs Hs' Hmod. destruct (Hk k) as [Heq|[Hn|(kv'' & Hkv & Hlt)]].
  - congruence.
  - congruence.
  - specialize (Hok k kv Hs). simplify_eq. lia.
Qed.

Lemma compare_epoch n s s' compare :
  revisions_ok s -> interferes s s' ->
  epoch_compare n (keys s !! cluster_key prefix) = Ok compare ->
  compare_holds compare (cluster_key prefix) s' -> epoch_of s' = Some n.
Proof.
  unfold epoch_compare, epoch_of, cluster_of. intros Hok Hint Hc Hholds.
  destruct (keys s !! cluster_key prefix) as [kv|] eqn:Hkv.
  - destruct (Unmarshal (kv_value kv)) as [c|e] eqn:Hu; [|done].
    destruct (Z.eqb_spec (Epoch c) n) as [<-|]; simplify_eq/=.
    destruct Hholds as (kv' & Hkv' & Hmod).
    rewrite Hkv', (unchanged_revision _ _ _ _ _ Hok Hint Hkv Hkv' Hmod), Hu. done.
  - destruct (Z.eqb_spec n 0) as [->|]; simplify_eq/=. by rewrite Hholds.
Qed.

Lemma interferes_revisions s s' : revisions_ok s -> interferes s s' -> revisions_ok s'.
Proof.
  intros Hok [Hle Hk] k kv Hkv. destruct (Hk k) as [Heq|[Hn|(kv' & Hkv' & Hlt)]].
  - rewrite Heq in Hkv. specialize (Hok k kv Hkv). lia.
  - congruence.
  - simplify_eq. lia.
Qed.

(** A write of the call, if it took effect, replaced a state of epoch [n]. *)
Definition swapped (n : Z) (payload : string) (w : Etcd * Etcd) : Prop :=
  epoch_of w.1 = Some n /\ w.2 = put (cluster_key prefix) payload None w.1.

Definition cas_outcome (n : Z) (c : ClusterState) (r : result unit)
    (log : list (Etcd * Etcd)) : Prop :=
  match Marshal c with
  | Err _ => is_ok r = false /\ log = []
  | Ok payload =>
      match r with
      | Ok _ => exists w, log = [w] /\ swapped n payload w
      | Err _ => log = [] \/ exists w, log = [w] /\ (w.2 = w.1 \/ swapped n payload w)
      end
  end.

Lemma PutClusterIfEpoch_cas ctx n c s :
  revisions_ok s ->
  wp logged_spec (PutClusterIfEpoch prefix ctx n c) (fun r w => cas_outcome n c r w.2) (s, []).
Proof.
  intros Hok. assert (forall e, cas_outcome n c (Err e) []) as Hfail.
  { intros e. unfold cas_outcome. destruct (Marshal c); auto. }
  unfold PutClusterIfEpoch. apply wp_try, wp_call; [done|].
  intros [o|e] [s1 log] (s0 & Hint & [Hs1 Ho] & Hlog); simpl in *; subst s1 log; [|apply Hfail].
  rewrite (Ho o eq_refl). destruct (epoch_compare _ _) as [compare|e] eqn:Hcmp; [|apply Hfail].
  unfold cas_outcome in *. destruct (Marshal c) as [payload|e] eqn:Hm; [|done].
  pose proof (interferes_revisions _ _ Hok Hint) as Hok0.
  apply wp_try, wp_call; [done|]. intros r [s2 log] (s1 & Hint1 & Hpost & Hlog). simpl in *.
  subst log. destruct r as [[]|e].
  - destruct Hpost as [Hc ->]. exists (s1, put (cluster_key prefix) payload None s1).
    split; [done|]. split; [|done]. by eapply compare_epoch.
  - destruct Hpost as [_ ->]. right. eexists. split; [done|]. by left.
  - right. eexists. split; [done|]. destruct Hpost as [->|[Hc ->]]; [by left|right].
    split; [|done]. by eapply compare_epoch.
Qed.

(** ** Leadership

    The ghost state is where a candidate stands, and how often its context will
    still be found alive.  A context that was cancelled answers every [Err] with
    the one error that says why ([cause]). *)
Inductive standing : Type :=
| NoSession
| Candidate (l : lease)
| Elected (l : lease)
| Resigned (l : lease).

Definition elect_pre (ctx : Context) {X} (e : etcdE X) (w : standing * nat) : Prop :=
  match e with
  | KNewSession _ _ => w.1 = NoSession
  | KCampaign _ l pre _ => w.1 = Candidate l /\ pre = leader_prefix prefix
  | KOnLeader c => exists l, w.1 = Elected l /\ c = Locked ctx l
  | KResign _ l pre => w.1 = Elected l /\ pre = leader_prefix prefix
  | KCloseSession l => w.1 = Candidate l \/ w.1 = Resigned l
  | _ => True
  end.

Context (cause : Context -> string).

Definition elect_post {X} (e : etcdE X) : standing * nat -> X -> standing * nat -> Prop :=
  match e in etcdE X return standing * nat -> X -> standing * nat -> Prop with
  | KNewSession _ _ => fun w r w' =>
      w' = (match r with Ok l => Candidate l | Err _ => w.1 end, w.2)
  | KCampaign _ l _ _ => fun w r w' =>
      w' = (match r with Ok _ => Elected l | Err _ => w.1 end, w.2)
  | KResign _ l _ => fun w _ w' => w' = (Resigned l, w.2)
  | KCloseSession _ => fun w _ w' => w' = (NoSession, w.2)
  | KCtxErr c => fun w x w' =>
      w'.1 = w.1 /\ match x with None => w.2 = S w'.2 | Some e => w'.2 = w.2 /\ e = cause c end
  | _ => fun w _ w' => w' = w
  end.

Definition elect_spec (ctx : Context) : espec etcdE (standing * nat) :=
  {| pre _ e := elect_pre ctx e; post _ e := elect_post e |}.

(** It has given up every session, and returned what made its context end. *)
Definition elect_outcome (ctx : Context) (fuel n : nat) (r : option (option string))
    (w : standing * nat) : Prop :=
  w.1 = NoSession /\ match r with Some e => e = Some (cause ctx) | None => (fuel <= n)%nat end.

Lemma retry_wp ctx again fuel n :
  (forall m, (m < n)%nat -> wp (elect_spec ctx) again (elect_outcome ctx fuel m) (NoSession, m)) ->
  wp (elect_spec ctx) (retry ctx again) (elect_outcome ctx (S fuel) n) (NoSession, n).
Proof.
  intros Hagain. unfold retry. apply wp_bind, wp_call; [done|].
  intros [e|] [g m] [Hg Hm]; simpl in *; [destruct Hm as [-> ->]; by split|subst].
  apply wp_bind, wp_call; [done|]. intros [] ? ->. eapply wp_mono; [apply Hagain; lia|].
  intros [e|] w [Hw Hr]; split; try done. lia.
Qed.

Lemma RunLeaderElection_wp fuel ctx id n :
  wp (elect_spec ctx) (RunLeaderElection prefix fuel ctx id) (elect_outcome ctx fuel n) (NoSession, n).
Proof.
  revert n. induction fuel as [|fuel IH]; intros n; cbn [RunLeaderElection].
  { split; [done|]. lia. }
  apply wp_bind, wp_call; [done|].
  intros [e|] [g m] [Hg Hm]; simpl in *; [destruct Hm as [-> ->]; by split|subst].
  assert (forall m', (m' <= m)%nat -> wp (elect_spec ctx) (RunLeaderElection prefix fuel ctx id)
    (elect_outcome ctx (S fuel) (S m)) (NoSession, m')) as Hnext.
  { intros m' Hm'. eapply wp_mono; [apply IH|]. intros [e|] w [Hw Hr]; split; try done. lia. }
  assert (wp (elect_spec ctx) (retry ctx (RunLeaderElection prefix fuel ctx id))
    (elect_outcome ctx (S fuel) (S m)) (NoSession, m)) as Hretry.
  { eapply wp_mono; [apply (retry_wp _ _ fuel); intros; apply IH|].
    intros [e|] w [Hw Hr]; split; try done. lia. }
  apply wp_bind, wp_call; [done|]. intros [l|e] ? ->; [|exact Hretry]. simpl.
  apply wp_bind, wp_call; [done|]. intros [[]|e] ? ->; simpl.
  - apply wp_bind, wp_call; [by exists l|]. intros [] ? ->.
    apply wp_bind, wp_call; [done|]. intros [] ? ->.
    apply wp_bind, wp_call; [done|]. intros r ? ->. simpl.
    apply wp_bind, wp_call; [by right|]. intros r' ? ->. exact (Hnext m ltac:(lia)).
  - apply wp_bind, wp_call; [by left|]. intros r ? ->. exact Hretry.
Qed.

(** ** Theorems *)

(** C19: with no other client at work and no session expiring, every call of the
    etcd store honours the contract the controller relies on, with the abstract
    store read off the decoded keys, whichever etcd calls fail, with or without
    effect.  It starts from a cluster in which no key but the switch operation
    and the keys of the lock and of the election is attached to a lease, and
    leaves such a one, while the lock and the election write and delete their own
    keys under their prefixes; the values written are ones whose text survives
    JSON, and a plain lock handle is not the switch operation's. *)
Theorem etcd_store_refines_contract X (e : storeE X) s a :
  tracks s a -> proper e s ->
  wp alone (step prefix X e) (fun x s' => exists a', tracks s' a' /\ store_post e a x a') s.
Proof.
  intros Ht Hp. destruct e; simpl in Hp.
  - eapply wp_mono; [apply GetCluster_wp|]. intros r ? [-> Hr]. exists a. split; [done|].
    split; [done|]. intros c Hc. symmetry. destruct Ht as [(Ha & _) _]. by apply Ha, Hr.
  - by apply PutCluster_honours.
  - by apply PutClusterIfEpoch_honours.
  - unfold step, AcquireLock. apply wp_try. eapply wp_mono; [by apply acquireEtcdLock_wp|].
    intros [l|e] s' Hs'; exact (ex_intro _ a (conj Hs' eq_refl)).
  - by apply AcquireSwitchLock_honours.
  - by apply Release_honours.
  - by apply Verify_honours.
  - destruct Ht as [Ha Hl]. unfold step, PutTask. destruct (Marshal task) as [payload|e] eqn:Hm.
    + apply wp_call; [done|]. intros r ? (? & <- & [->|[-> Hr]]).
      * exists (with_task task a). split; [|by left].
        split; [by apply put_task_abstracts|by apply put_plain_leases].
      * exists a. split; [done|]. by right.
    + exists a. split; [done|]. by right.
  - by apply ListTasks_honours.
  - apply wp_call; [done|]. intros r ? (? & <- & ->). by exists a.
Qed.


(** C23: [VerifySwitchOperation] succeeds exactly when the authorization is
    well formed, the cluster state read first has one of its two epochs, and
    the operation key read next holds this very authorization. *)
Theorem etcd_verify_exact ctx auth tr :
  behaves (VerifySwitchOperation prefix ctx auth) tr (Ok tt) <->
  well_formed auth = true /\ exists o kv c,
    tr = [Ev (KGet ctx (cluster_key prefix)) (Ok o);
          Ev (KGet ctx (operation_key prefix)) (Ok (Some kv))] /\
    match o with None => Ok (default_cluster prefix) | Some kv' => Unmarshal (kv_value kv') end
      = Ok c /\
    (Epoch c = FromEpoch auth \/ Epoch c = ToEpoch auth) /\ Unmarshal (kv_value kv) = Ok auth.
Proof.
  unfold VerifySwitchOperation, well_formed.
  destruct (bool_decide (OperationID auth = "")), (ToEpoch auth =? uint64 (FromEpoch auth + 1));
    cbn [negb orb andb]; try by (split; [intros [_ [=]]|intros [[=] _]]).
  unfold try_else. rewrite behaves_bind. setoid_rewrite GetCluster_behaves. split.
  - intros (? & tr2 & r & -> & (o & -> & ->) & Hb). split; [done|].
    destruct o as [o|e]; simpl in Hb; [|by destruct Hb].
    destruct (match o with None => _ | Some kv => _ end) as [c|e] eqn:Hc; [|by destruct Hb].
    case_on_match_in Hb; [by destruct Hb|].
    apply behaves_bind in Hb as (? & tr3 & o' & -> & ->%behaves_call & Hb).
    destruct o' as [[kv|]|e]; [|by destruct Hb..]. destruct Hb as [-> Hr].
    destruct (Unmarshal (kv_value kv)) as [active|] eqn:Hu; [|done].
    destruct (bool_decide (active = auth)) eqn:Heq; [|done].
    apply bool_decide_eq_true in Heq as ->. exists o, kv, c. split_and!; try done.
    propify. destruct_or?; auto.
  - intros (_ & o & kv & c & -> & Hc & Hep & Hu).
    exists [Ev (KGet ctx (cluster_key prefix)) (Ok o)], [Ev (KGet ctx (operation_key prefix))
      (Ok (Some kv))], (Ok c). split_and!; [done|by exists (Ok o)|].
    rewrite (proj2 (andb_false_iff _ _)) by (propify; tauto).
    apply behaves_bind. eexists [_], [], _. split_and!; [done|by apply behaves_call|].
    simpl. rewrite Hu. by rewrite bool_decide_true.
Qed.

(** A task list is the decoding of the most recently written entries, all
    of them when the limit is not positive, otherwise as many as the limit; an
    entry that does not decode is an error only if it is among these. *)
Theorem etcd_list_tasks_decodes ctx limit tr r :
  behaves (ListTasks prefix ctx limit) tr r <-> exists kvs,
    tr = [Ev (KGetNewestFirst ctx (task_prefix prefix)) kvs] /\
    r = match kvs with
        | Err e => Err e
        | Ok kvs => decode_all (take (limit_count limit (length kvs)) kvs)
        end.
Proof.
  assert (forall kvs, collect_tasks limit [] kvs =
    decode_all (take (limit_count limit (length kvs)) kvs)) as Heq.
  { intros kvs. rewrite collect_tasks_spec by (simpl; lia). simpl length. rewrite Z.sub_0_r.
    replace (limit_count (if 0 <? limit then limit else 0) (length kvs))
      with (limit_count limit (length kvs))
      by (unfold limit_count; destruct (0 <? limit) eqn:?; by rewrite ?Heqb).
    by destruct (decode_all _). }
  unfold ListTasks, try_else. rewrite behaves_bind. split.
  - intros (? & ? & kvs & -> & ->%behaves_call & Hb). exists kvs.
    destruct kvs as [kvs|e]; destruct Hb as [-> ->]; by rewrite ?Heq.
  - intros (kvs & -> & ->). eexists [_], [], kvs. split_and!; [done|by apply behaves_call|].
    destruct kvs as [kvs|e]; [|done]. by rewrite <-Heq.
Qed.

(** C36: releasing a switch lock withdraws whatever operation is registered,
    also one that a later holder registered after the session behind this
    handle had expired: when the deletion goes through, no authorization
    verifies after the release, whoever holds the lock. *)
Theorem release_withdraws_any_operation lockCtx l ctx auth s :
  wp reachable_etcd
    (Release prefix {| lh_ctx := lockCtx; lh_lock := l; lh_switch := true |} ;;;
     VerifySwitchOperation prefix ctx auth) (fun r _ => is_ok r = false) s.
Proof.
  apply wp_bind, wp_bind, wp_bind, wp_call; [done|]. intros d s1 [Hd Hok].
  destruct Hd as [->|[_ Hd]]; [|congruence].
  refine (wp_mono _ _ _ _ _ (release_lock_absent lockCtx l _ _) _); [apply lookup_delete_eq|].
  intros [] s2 Hs2. by apply verify_absent.
Qed.

(** A controller leads only between winning a campaign in its open session
    and resigning, under a context bound to that session; it closes every
    session before it opens another and before it returns; it returns only the
    error of its context, and does so once that context is found cancelled: if
    it is found alive [n] times, [n + 1] rounds suffice. *)
Theorem leader_election_discipline fuel ctx id n :
  wp (elect_spec ctx) (RunLeaderElection prefix fuel ctx id) (elect_outcome ctx fuel n) (NoSession, n).
Proof. apply RunLeaderElection_wp. Qed.
End store.

(** ** An instance *)
Definition demo_cluster : ClusterState := {|
  cs_Name := "mysql-ha"; Primary := "db-1"; Epoch := 7; AutoFailover := true; UpdatedAt := 0 |}.

Definition demo_auth : SwitchAuthorization :=
  {| OperationID := "switch-1"; FromEpoch := 0; ToEpoch := 1 |}.

Definition demo_etcd : Etcd := {| revision := 41; keys := ∅; attached := ∅ |}.

Definition demo_abstract : AbsStore := {|
  a_cluster := EtcdStore.default_cluster "/ha/mysql-ha"; a_tasks := ∅; a_operation := None |}.

(** A cluster with a leader, whose key is attached to the lease of its session. *)
Definition leader_entry : string := "/ha/mysql-ha/leader/694d7a".
Definition led_etcd : Etcd := put leader_entry "controller-1" (Some 7%nat) demo_etcd.

Lemma etcd_store_refines_contract_witness :
  wp alone (EtcdStore.AcquireSwitchLock "/ha/mysql-ha" Background 300 demo_auth)
    (fun x s' => exists a',
      tracks "/ha/mysql-ha" s' a' /\
      store_post (SAcquireSwitchLock Background "controller-1" 300 demo_auth) demo_abstract x a') led_etcd.
Proof.
  assert (forall k, k <> leader_entry -> keys led_etcd !! k = None) as Hnone.
  { intros k Hk. cbn. by rewrite lookup_insert_ne. }
  apply (etcd_store_refines_contract
    "/ha/mysql-ha" _ (SAcquireSwitchLock Background "controller-1" 300 demo_auth) led_etcd demo_abstract).
  - split; [split_and!|].
    + intros c Hc. unfold cluster_of in Hc. rewrite Hnone in Hc by done. injection Hc as <-. reflexivity.
    + unfold operation_of. by rewrite Hnone.
    + intros k kv t Hk. rewrite Hnone in Hk; [done|]. cbn. done.
    + intros k l Hk. cbn in Hk. apply lookup_insert_Some in Hk as [[<- _]|[_ Hk]].
      * right; right. vm_compute. reflexivity.
      * by rewrite lookup_empty in Hk.
  - vm_compute. reflexivity.
Defined.

