(* ===== verification/StoreEquivalence.v ===== *)
(** * The two stores give the same answers

    The tests of the repository run the controller on the in-memory store, the
    deployment on etcd.  On the operations whose behaviour the two mean to share
    (reading and writing the cluster state, unconditionally or by epoch, and
    recording tasks) a program cannot tell them apart, as long as etcd answers
    and no other client is at work: every call has the same answer, error texts
    included. *)
From S2P Require Import Prelude GoStd Effects Model Json JsonText GoTime Wire Format Store Etcd EtcdSafety.

#[global] Instance compare_holds_dec c key s : Decision (compare_holds c key s).
Proof.
  destruct c as [|rev]; simpl; [apply _|]. destruct (keys s !! key) as [kv|].
  - destruct (decide (kv_mod kv = rev)); [left; eauto|right; naive_solver].
  - right. naive_solver.
Defined.

(** The key a session keeps under the prefix of a lock or an election. *)
Definition owner_key (pre : string) (l : lease) : string := pre +:+ "/" +:+ fmt_d (Z.of_nat l).

(** An etcd cluster that answers every call the operations make. *)
Definition reliable : handler etcdE Etcd := fun X e =>
  match e in etcdE X return Etcd -> X * Etcd with
  | KGet _ key => fun s => (Ok (keys s !! key), s)
  | KPut _ key value l => fun s => (Ok tt, put key value l s)
  | KDelete _ key => fun s => (Ok tt, remove key s)
  | KTxnPut _ c key value => fun s =>
      if decide (compare_holds c key s) then (Ok true, put key value None s) else (Ok false, s)
  | KNew _ | KStatus _ _ | KClose => fun s => (Ok tt, s)
  | KLock _ l pre => fun s => (Ok tt, put (owner_key pre l) "" (Some l) s)
  | KCampaign _ l pre id => fun s => (Ok tt, put (owner_key pre l) id (Some l) s)
  | KUnlock _ l pre | KResign _ l pre => fun s => (Ok tt, remove (owner_key pre l) s)
  | KNewSession _ _ => fun s =>
      (Ok (fresh (list_to_set (map_to_list (attached s)).*2 : gset lease)), s)
  | KCloseSession l => fun s => (Ok tt, revoke l s)
  | KGetNewestFirst _ pre => fun s => (Ok (sort_slice (fun a b => kv_mod b <? kv_mod a)
      (filter (fun kv => HasPrefix (kv_key kv) pre = true) (map_to_list (keys s)).*2)), s)
  | KOnce _ => fun s => (true, s)
  | KCtxErr _ => fun s => (None, s)
  | KCancel _ | KSleep _ | KOnLeader _ => fun s => (tt, s)
  end.

(** The shared operations, on values JSON can carry. *)
Definition shared (X : Type) (e : storeE X) : Prop :=
  match e with
  | SGetCluster _ => True
  | SPutCluster _ c | SPutClusterIfEpoch _ _ c => cluster_fits c = true /\ sanitize c = c
  | SPutTask _ t => task_fits t = true
  | _ => False
  end.

(** The etcd keys hold the cluster state of the in-memory store. *)
Definition mirrored (prefix : string) (s : Etcd) (m : MemoryStore.t) : Prop :=
  cluster_of prefix s = Ok (MemoryStore.cluster m).

Section stores.
Context (prefix : string).

Lemma fits_marshal {A} `{Json A} fits (a : A) :
  round_trips A fits -> fits a = true -> exists text, Marshal a = Ok text.
Proof.
  intros Hr Hf. pose proof (proj1 (Hr a)) as Hok. rewrite Hf in Hok.
  destruct (Marshal a) as [text|e]; [by exists text|done].
Qed.

Lemma put_cluster_mirrored (c : ClusterState) text s :
  Marshal c = Ok text -> sanitize c = c ->
  cluster_of prefix (put (EtcdStore.cluster_key prefix) text None s) = Ok c.
Proof.
  intros Hm Hc. unfold cluster_of. cbn [put keys]. rewrite lookup_insert_eq. cbn [kv_value].
  by rewrite (Unmarshal_Marshal _ _ Hm), Hc.
Qed.

(** The comparison of the transaction is that of the epochs, and holds. *)
Lemma epoch_compare_mirrored expected s c :
  cluster_of prefix s = Ok c ->
  EtcdStore.epoch_compare expected (keys s !! EtcdStore.cluster_key prefix) =
    (if negb (Epoch c =? expected) then Err "cluster epoch changed"
     else Ok (match keys s !! EtcdStore.cluster_key prefix with
              | Some kv => ModRevisionIs (kv_mod kv)
              | None => VersionIsZero
              end)).
Proof.
  unfold cluster_of, EtcdStore.epoch_compare. intros Hc.
  destruct (keys s !! EtcdStore.cluster_key prefix) as [kv|]; [by rewrite Hc|].
  injection Hc as <-. cbn [EtcdStore.default_cluster Epoch]. by rewrite (Z.eqb_sym 0).
Qed.

Lemma shared_step X (e : storeE X) s m :
  shared X e -> mirrored prefix s m ->
  (run reliable (EtcdStore.step prefix X e) s).1 = (MemoryStore.step X e m).1 /\
  mirrored prefix (run reliable (EtcdStore.step prefix X e) s).2 (MemoryStore.step X e m).2.
Proof.
  unfold mirrored. destruct e; try (by intros []); intros He Hm; cbn [EtcdStore.step MemoryStore.step].
  - destruct He as [Hf Hc]. destruct (fits_marshal _ _ cluster_round_trips Hf) as [text Ht].
    unfold EtcdStore.PutCluster. rewrite Ht. split; [done|]. by apply put_cluster_mirrored.
  - destruct He as [Hf Hc]. destruct (fits_marshal _ _ cluster_round_trips Hf) as [text Ht].
    unfold EtcdStore.PutClusterIfEpoch, MemoryStore.PutClusterIfEpoch, try_else.
    rewrite run_bind. cbn [call run reliable fst snd].
    rewrite (epoch_compare_mirrored _ _ _ Hm). destruct (Epoch _ =? _); cbn [negb]; [|done].
    rewrite Ht, run_bind. cbn [call run reliable].
    rewrite decide_True by (by destruct (keys s !! EtcdStore.cluster_key prefix) eqn:Hk; [exists k|]).
    cbn. split; [done|]. by apply put_cluster_mirrored.
  - destruct (fits_marshal _ _ task_round_trips He) as [text Ht].
    unfold EtcdStore.PutTask. rewrite Ht. split; [done|]. cbn. rewrite <-Hm. unfold cluster_of. cbn.
    rewrite lookup_insert_ne; [done|]. intros Heq. symmetry in Heq. by apply cluster_not_task in Heq.
Qed.

(** C38: reading, writing and conditionally writing the cluster state and
    recording tasks, a program gets the same answers from the store on etcd as
    from the in-memory store, error texts included, and leaves the two with the
    same cluster state, when it starts from the same cluster state, etcd answers
    and no other client is at work (for values JSON can carry). *)
Theorem stores_are_equivalent {A} (p : prog storeE A) s m :
  all_calls shared p -> mirrored prefix s m ->
  (run reliable (interp (EtcdStore.step prefix) p) s).1 = (run MemoryStore.step p m).1 /\
  mirrored prefix (run reliable (interp (EtcdStore.step prefix) p) s).2 (run MemoryStore.step p m).2.
Proof.
  rewrite run_interp. revert s m. induction p as [a|X e k IH]; intros s m; cbn [all_calls run]; [done|].
  intros [He Hk] Hm. destruct (shared_step X e s m He Hm) as [Hx Hm'].
  destruct (run reliable (EtcdStore.step prefix X e) s) as [x s'], (MemoryStore.step X e m) as [y m'].
  cbn in Hx, Hm'. subst y. by apply IH.
Qed.
End stores.

(** Two conditional writes with the same expected epoch, from fresh stores: the
    second is refused by both. *)
Definition contended : prog storeE (result unit * result unit * result ClusterState) :=
  let c n := {| cs_Name := "mysql-ha"; Primary := "db-1"; Epoch := n; AutoFailover := true; UpdatedAt := 0 |} in
  r1 <- call (SPutClusterIfEpoch Background 0 (c 1)) ;;
  r2 <- call (SPutClusterIfEpoch Background 0 (c 2)) ;;
  r3 <- call (SGetCluster Background) ;;
  Ret (r1, r2, r3).

Lemma stores_are_equivalent_witness :
  let memory := run MemoryStore.step contended (MemoryStore.NewMemoryStore "mysql-ha") in
  memory.1.1 = (Ok tt, Err "cluster epoch changed") /\
  (run reliable (interp (EtcdStore.step "/ha/mysql-ha") contended) demo_etcd).1 = memory.1.
Proof.
  intros memory. split; [vm_compute; reflexivity|].
  apply (stores_are_equivalent "/ha/mysql-ha" contended demo_etcd (MemoryStore.NewMemoryStore "mysql-ha")).
  - unfold contended. calls; vm_compute; repeat split; reflexivity.
  - vm_compute. reflexivity.
Defined.
