(* ===== verification/Controller.v ===== *)
(** * The HA controller

    [internal/ha/controller.go].  The fields of [Controller] that are set once
    ([cfg], [clients], [configs]) are the record [Controller]; those guarded by
    [c.mu] are [CtlState], reached by the calls [ERead] and [EUpdate] between
    [ELock]/[EUnlock] or [ERLock]/[ERUnlock]; [c.leader] is the atomic behind
    [ELeaderLoad]/[ELeaderStore].  A [*model.SwitchTask] is a location [loc]:
    [c.lastTask] and the running [Switch] share the task it points to.  The
    order of a [range] over a map is the answer to [ERange]. *)
From S2P Require Import Prelude GoStd Effects Model Config Store Node Json.

Definition loc : Type := nat.

Record Controller : Type := {
  cfg : Config;
  clients : gset string;
  configs : gmap string AgentNodeConfig
}.

Record CtlState : Type := {
  statuses : gmap string NodeStatus;
  lastTask : option loc;
  tripping : bool;
  lastDryRunPrimary : string;
  alertedNodes : gset string;
  leaderCtx : option Context
}.

Inductive Metric : Type :=
| ProbeTotalInc (node result : string)
| ProbeHealthySet (node : string) (value : Z)
| LastSwitchSet (unix : Z).

Inductive ctlE : Type -> Type :=
| EStore {X : Type} (e : storeE X) : ctlE X
| ENode {X : Type} (id : string) (e : nodeE X) : ctlE X
| ESend (ctx : Context) (severity title message : string) : ctlE (result unit)
| EFence (ctx : Context) (node : string) : ctlE (result unit)
| ESetPrimary (ctx : Context) (node : string) : ctlE (result unit)
| ENow : ctlE time
| ELeaderLoad : ctlE bool
| ELeaderStore (b : bool) : ctlE unit
| ELock : ctlE unit
| EUnlock : ctlE unit
| ERLock : ctlE unit
| ERUnlock : ctlE unit
| ERead : ctlE CtlState
| EUpdate (f : CtlState -> CtlState) : ctlE unit
| ECtxErr (ctx : Context) : ctlE bool
| ECancel (ctx : Context) : ctlE unit
| ERange (keys : list string) : ctlE (list string)
| ENewTask (task : SwitchTask) : ctlE loc
| ETask (l : loc) : ctlE SwitchTask
| ESetTask (l : loc) (f : SwitchTask -> SwitchTask) : ctlE unit
| EMetric (m : Metric) : ctlE unit
| ELog (message : string) : ctlE unit
| ETick : ctlE bool.

(** The calls of a component as calls of the controller. *)
Definition store_call {X} (e : storeE X) : prog ctlE X := call (EStore e).
Definition node_call {X} (id : string) (e : nodeE X) : prog ctlE X := call (ENode id e).

(** ** Updates of the guarded fields *)
Definition set_status (id : string) (s : NodeStatus) (c : CtlState) : CtlState := {|
  statuses := <[id := s]> (statuses c); lastTask := lastTask c; tripping := tripping c;
  lastDryRunPrimary := lastDryRunPrimary c; alertedNodes := alertedNodes c;
  leaderCtx := leaderCtx c |}.
Definition set_alerted (a : gset string) (c : CtlState) : CtlState := {|
  statuses := statuses c; lastTask := lastTask c; tripping := tripping c;
  lastDryRunPrimary := lastDryRunPrimary c; alertedNodes := a; leaderCtx := leaderCtx c |}.
Definition set_tripping (b : bool) (c : CtlState) : CtlState := {|
  statuses := statuses c; lastTask := lastTask c; tripping := b;
  lastDryRunPrimary := lastDryRunPrimary c; alertedNodes := alertedNodes c;
  leaderCtx := leaderCtx c |}.
Definition set_lastTask (l : loc) (c : CtlState) : CtlState := {|
  statuses := statuses c; lastTask := Some l; tripping := tripping c;
  lastDryRunPrimary := lastDryRunPrimary c; alertedNodes := alertedNodes c;
  leaderCtx := leaderCtx c |}.
Definition set_lastDryRunPrimary (p : string) (c : CtlState) : CtlState := {|
  statuses := statuses c; lastTask := lastTask c; tripping := tripping c;
  lastDryRunPrimary := p; alertedNodes := alertedNodes c; leaderCtx := leaderCtx c |}.
Definition set_leaderCtx (x : option Context) (c : CtlState) : CtlState := {|
  statuses := statuses c; lastTask := lastTask c; tripping := tripping c;
  lastDryRunPrimary := lastDryRunPrimary c; alertedNodes := alertedNodes c; leaderCtx := x |}.

(** [c.mu.RLock(); x := <fields>; c.mu.RUnlock()] *)
Definition read_locked {X} (f : CtlState -> X) : prog ctlE X :=
  call ERLock ;;; s <- call ERead ;; call ERUnlock ;;; Ret (f s).

(** [c.mu.Lock(); <assignments>; c.mu.Unlock()] *)
Definition update_locked (f : CtlState -> CtlState) : prog ctlE unit :=
  call ELock ;;; call (EUpdate f) ;;; call EUnlock.

(** ** Choosing a target *)

Definition sec_lag (s : NodeStatus) : Z :=
  match Replica s with
  | Some r => match SecondsBehind r with Some lag => lag | None => 0 end
  | None => 0
  end.

Record candidate : Type := { cand_id : string; cand_lag : Z }.

(** The comparison of [chooseTarget]: by lag, then by id. *)
Definition candidate_less (a b : candidate) : bool :=
  if cand_lag a =? cand_lag b then string_lt (cand_id a) (cand_id b)
  else cand_lag a <? cand_lag b.

Definition candidate_of (c : Config) (exclude : string) (id : string) (status : NodeStatus)
    : option candidate :=
  if bool_decide (id = exclude) || negb (Healthy status)
     || negb (bool_decide (ns_Role status = RoleReplica))
  then None
  else let lag := sec_lag status in
    if lag <=? MaxReplicaLagSeconds c then Some {| cand_id := id; cand_lag := lag |} else None.

(** [range] is [c.statuses] in the order the map iteration visits it. *)
Definition choose_target_from (c : Config) (exclude : string)
    (range : list (string * NodeStatus)) : result string :=
  let candidates := omap (fun '(id, status) => candidate_of c exclude id status) range in
  match sort_slice candidate_less candidates with
  | [] => Err "no healthy replica is eligible for promotion"
  | x :: _ => Ok (cand_id x)
  end.

Definition dry_run_candidate (exclude : string) (id : string) (status : NodeStatus) : bool :=
  negb (bool_decide (id = exclude)) && Reachable status
  && bool_decide (ns_Role status = RoleReplica)
  && match Replica status with Some r => SQLThreadRunning r | None => false end.

Definition choose_dry_run_target_from (exclude : string) (range : list (string * NodeStatus))
    : result string :=
  let ids := omap (fun '(id, status) =>
    if dry_run_candidate exclude id status then Some id else None) range in
  match sort_Strings ids with
  | [] => Err "no reachable replica can be reported in dry-run"
  | id :: _ => Ok id
  end.

(** The entries of a map in the order [order] of its keys. *)
Definition in_order {V} (order : list string) (m : gmap string V) : list (string * V) :=
  omap (fun k => (fun v => (k, v)) <$> m !! k) order.

(** Read the guarded fields and the iteration order of the statuses under the
    read lock. *)
Definition range_statuses {X} (f : list (string * NodeStatus) -> X) : prog ctlE X :=
  call ERLock ;;;
  s <- call ERead ;;
  order <- call (ERange (map_to_list (statuses s)).*1) ;;
  call ERUnlock ;;;
  Ret (f (in_order order (statuses s))).

Definition chooseTarget (c : Controller) (exclude : string) : prog ctlE (result string) :=
  range_statuses (choose_target_from (cfg c) exclude).

Definition chooseDryRunTarget (exclude : string) : prog ctlE (result string) :=
  range_statuses (choose_dry_run_target_from exclude).

Definition detect_primary_from (range : list (string * NodeStatus)) : string :=
  match list_find (fun '(_, status) =>
    Healthy status && bool_decide (ns_Role status = RolePrimary) = true) range with
  | Some (_, (id, _)) => id
  | None => ""
  end.

Definition detectPrimary : prog ctlE string := range_statuses detect_primary_from.

(** ** Alerts *)

(** [if message == "" { message = fallback }] *)
Definition or_else (message fallback : string) : string :=
  if bool_decide (message = "") then fallback else message.

Definition failureAlert (status : NodeStatus) : string * string * string :=
  let message :=
    if bool_decide (ns_Error status = "") then
      match Replica status with
      | Some r =>
          if negb (IOThreadRunning r) then
            or_else (LastIOError r) "replica IO thread is stopped"
          else if negb (SQLThreadRunning r) then
            or_else (LastSQLError r) "replica SQL thread is stopped"
          else match SecondsBehind r with
               | None => "replica lag is unknown"
               | Some _ => ""
               end
      | None => ""
      end
    else ns_Error status in
  let message := or_else message "node reported unhealthy without diagnostics" in
  match Replica status with
  | Some r =>
      if bool_decide (ns_Role status = RoleReplica) && negb (IOThreadRunning r)
         && SQLThreadRunning r
      then ("warning", "MySQL replica IO thread unavailable", message)
      else ("critical", "MySQL node unhealthy", message)
  | None => ("critical", "MySQL node unhealthy", message)
  end.

Definition fmt_t (b : bool) : string := if b then "true" else "false".

(** The message of the alert [probe] sends for an event. *)
Definition alert_message (e : AlertEvent) : string :=
  "node=" +:+ ae_NodeID e +:+ " resolved=" +:+ fmt_t (ae_Resolved e) +:+ " " +:+ ae_Message e.

(** ** Leadership *)

Definition IsLeader : prog ctlE bool := call ELeaderLoad.

Definition leaderBoundContext (parent : Context) : prog ctlE (result Context) :=
  lctx <- read_locked leaderCtx ;;
  match lctx with
  | None => Ret (Err "controller leadership lease is not active")
  | Some l =>
      err <- call (ECtxErr l) ;;
      if (err : bool) then Ret (Err "controller leadership lease is not active")
      else Ret (Ok (LeaderBound parent l))
  end.

Definition isTripping : prog ctlE bool := read_locked tripping.

(** ** Switching the primary *)

(** The pair [( *SwitchTask, error)] a switch returns. *)
Definition switch_result : Type := option loc * option string.
Definition fail_switch (e : string) : prog ctlE switch_result := Ret (None, Some e).

Definition not_leader : string := "controller is not the Etcd leader".

Definition set_task_state (st : string) (k : SwitchTask) : SwitchTask :=
  set_outcome st (task_Error k) (FinishedAt k) k.
Definition set_task_error (e : string) (k : SwitchTask) : SwitchTask :=
  set_outcome (task_State k) e (FinishedAt k) k.
Definition set_task_finished (t : time) (k : SwitchTask) : SwitchTask :=
  set_outcome (task_State k) (task_Error k) t k.

Definition finishTask (task : loc) (err : string) : prog ctlE switch_result :=
  call (ESetTask task (set_task_state "failed")) ;;;
  call (ESetTask task (set_task_error err)) ;;;
  now <- call ENow ;;
  call (ESetTask task (set_task_finished now)) ;;;
  alertErr <- call (ESend Background "critical" "MySQL HA switch failed" err) ;;
  match alertErr with
  | Err _ => call (ELog "send switch failure alert")
  | Ok _ => Ret tt
  end ;;;
  Ret (Some task, Some err).

(** A switch executes no action on the nodes. *)
Definition switch_dry_run (c : Config) (automatic : bool) : bool :=
  negb (ExecuteActions c) || (automatic && negb (AutoFailoverExecute c)).

Definition candidate_eligible (c : Config) (dryRun automatic : bool) (candidate : NodeStatus)
    : bool :=
  let strict := Healthy candidate && match Replica candidate with
    | Some r => IOThreadRunning r && SQLThreadRunning r &&
        match SecondsBehind r with Some lag => lag <=? MaxReplicaLagSeconds c | None => false end
    | None => false
    end in
  let relaxed := Reachable candidate && bool_decide (ns_Role candidate = RoleReplica) &&
    match Replica candidate with Some r => SQLThreadRunning r | None => false end in
  if dryRun && automatic then relaxed else strict.

(** The [SwitchAuthorization] a switch registers. *)
Definition switch_authorization (operationID : string) (state : ClusterState)
    : SwitchAuthorization :=
  {| OperationID := operationID; FromEpoch := Epoch state; ToEpoch := uint64 (Epoch state + 1) |}.

(** The cluster state a switch to [target] persists. *)
Definition switched_state (target : string) (now : time) (state : ClusterState) : ClusterState :=
  set_UpdatedAt now (set_Epoch (uint64 (Epoch state + 1)) (set_Primary target state)).

(** [for id, client := range c.clients] of a switch: repoint every other node. *)
Definition reconfigure_replicas (c : Controller) (ctx : Context) (auth : SwitchAuthorization)
    (target : string) (order : list string) : prog ctlE (option string) :=
  for_return order (fun id =>
    if bool_decide (id = target) then Ret None
    else
      r <- node_call id (NReconfigureReplica ctx auth
             (default AgentNodeConfig_zero (configs c !! target))) ;;
      match r with
      | Ok _ => Ret None
      | Err e => Ret (Some (wrap_err ("reconfigure replica " +:+ id) e))
      end).

(** From the persisted switch on: route, replicas, completion. *)
Definition switch_finish (c : Controller) (ctx : Context) (auth : SwitchAuthorization)
    (task : loc) (target : string) (state : ClusterState) : prog ctlE switch_result :=
  try _ <- call (ESetPrimary ctx target)
    else (fun e => finishTask task (wrap_err "update route" e)) ;;
  order <- call (ERange (elements (clients c))) ;;
  failed <- reconfigure_replicas c ctx auth target order ;;
  match failed with
  | Some e => finishTask task e
  | None =>
      unix <- call ENow ;;
      call (EMetric (LastSwitchSet (unix / 1000000000))) ;;;
      r <- call (ESend ctx "info" "MySQL HA switch completed"
             ("new_primary=" +:+ target +:+ " epoch=" +:+ fmt_d (Epoch state))) ;;
      match r with
      | Err _ => call (ELog "send switch completion alert")
      | Ok _ => Ret tt
      end ;;;
      call (ESetTask task (set_task_state "completed")) ;;;
      now <- call ENow ;;
      call (ESetTask task (set_task_finished now)) ;;;
      Ret (Some task, None)
  end.

(** Promotion and the persisted change of primary. *)
Definition switch_promote (c : Controller) (ctx : Context) (auth : SwitchAuthorization)
    (task : loc) (target : string) (state : ClusterState) (gtid : string)
    : prog ctlE switch_result :=
  try _ <- node_call target (NWaitForGTID ctx auth gtid 30)
    else (fun e => finishTask task (wrap_err "wait for target to catch up" e)) ;;
  try _ <- node_call target (NPromote ctx auth)
    else (fun e => finishTask task (wrap_err ("promote " +:+ target) e)) ;;
  promoted <- node_call target (NStatus ctx) ;;
  if negb (Healthy promoted) || negb (bool_decide (ns_Role promoted = RolePrimary)) then
    finishTask task ("promoted node " +:+ target +:+ " is not writable")
  else
  now <- call ENow ;;
  let state' := switched_state target now state in
  try _ <- store_call (SPutClusterIfEpoch ctx (uint64 (Epoch state' - 1)) state')
    else (fun e => finishTask task (wrap_err "persist cluster state" e)) ;;
  switch_finish c ctx auth task target state'.

(** Fencing and demotion of the old primary. *)
Definition switch_execute (c : Controller) (ctx : Context) (auth : SwitchAuthorization)
    (task : loc) (target : string) (state : ClusterState) : prog ctlE switch_result :=
  try _ <- call (EFence ctx (Primary state)) else (fun e => finishTask task e) ;;
  if negb (bool_decide (Primary state ∈ clients c)) then
    finishTask task "current primary is not configured"
  else
  try _ <- node_call (Primary state) (NDemote ctx auth)
    else (fun e => finishTask task (wrap_err "demote old primary" e)) ;;
  demoted <- node_call (Primary state) (NStatus ctx) ;;
  if negb (Reachable demoted) || negb (ReadOnly demoted) || negb (SuperReadOnly demoted) then
    finishTask task ("old primary " +:+ Primary state +:+
      " could not be confirmed read-only; refusing promotion")
  else
  try gtid <- node_call (Primary state) (NExecutedGTID ctx)
    else (fun e => finishTask task (wrap_err "read old primary GTID" e)) ;;
  switch_promote c ctx auth task target state gtid.

Definition switch_dry (ctx : Context) (task : loc) (target : string) (state : ClusterState)
    : prog ctlE switch_result :=
  call (ESetTask task (set_task_state "dry-run")) ;;;
  now <- call ENow ;;
  call (ESetTask task (set_task_finished now)) ;;;
  update_locked (set_lastDryRunPrimary (Primary state)) ;;;
  r <- call (ESend ctx "warning" "MySQL HA automatic failover dry-run"
         ("candidate=" +:+ target +:+ " current_primary=" +:+ Primary state)) ;;
  match r with Err _ => call (ELog "send dry-run alert") | Ok _ => Ret tt end ;;;
  Ret (Some task, None).

(** The deferred end of a switch that started its task. *)
Definition switch_cleanup (task : loc) : prog ctlE unit :=
  update_locked (set_tripping false) ;;;
  k <- call (ETask task) ;;
  r <- store_call (SPutTask Background k) ;;
  match r with Err _ => call (ELog "persist switch task") | Ok _ => Ret tt end.

(** Registering the task, then the dry run or the real switch. *)
Definition switch_task (c : Controller) (ctx : Context) (auth : SwitchAuthorization)
    (target : string) (automatic dryRun : bool) (state : ClusterState)
    : prog ctlE switch_result :=
  now <- call ENow ;;
  task <- call (ENewTask {| task_ID := OperationID auth; From := Primary state; To := target;
    Automatic := automatic; DryRun := dryRun; task_State := "running"; task_Error := "";
    StartedAt := now; FinishedAt := time_zero |}) ;;
  update_locked (fun s => set_lastTask task (set_tripping true s)) ;;;
  k <- call (ETask task) ;;
  try _ <- store_call (SPutTask ctx k) else fail_switch ;;
  defer (switch_cleanup task)
    (if dryRun then switch_dry ctx task target state
     else switch_execute c ctx auth task target state).

(** The checks made once the switch lock is held. *)
Definition switch_locked (c : Controller) (ctx : Context) (auth : SwitchAuthorization)
    (target : string) (automatic : bool) (state : ClusterState) : prog ctlE switch_result :=
  try lockedState <- store_call (SGetCluster ctx) else fail_switch ;;
  if negb (Epoch lockedState =? Epoch state)
     || negb (bool_decide (Primary lockedState = Primary state)) then
    fail_switch "cluster state changed while acquiring switch lock"
  else if bool_decide (Primary lockedState = "") then fail_switch "current primary is unknown"
  else if bool_decide (target = Primary lockedState) then
    fail_switch "target is already the current primary"
  else
  let dryRun := switch_dry_run (cfg c) automatic in
  candidate <- node_call target (NStatus ctx) ;;
  if negb (candidate_eligible (cfg c) dryRun automatic candidate)
     || negb (bool_decide (ns_Role candidate = RoleReplica)) then
    fail_switch ("target " +:+ target +:+ " is not a healthy, caught-up replica")
  else switch_task c ctx auth target automatic dryRun state.

Definition five_minutes : Z := 300.

(** The switch of a leader, in the context bound to its leadership. *)
Definition switch_as_leader (c : Controller) (ctx : Context) (target : string)
    (automatic : bool) : prog ctlE switch_result :=
  try state <- store_call (SGetCluster ctx) else fail_switch ;;
  try target <- (if bool_decide (target = "") then chooseTarget c (Primary state)
                 else Ret (Ok target)) else fail_switch ;;
  if negb (bool_decide (target ∈ clients c)) then
    fail_switch ("unknown target node " +:+ fmt_q target)
  else if bool_decide (target = Primary state) then
    fail_switch "target is already the current primary"
  else
  now <- call ENow ;;
  let auth := switch_authorization ("switch-" +:+ fmt_d now) state in
  try h <- store_call (SAcquireSwitchLock ctx (ControllerID (cfg c)) five_minutes auth)
    else fail_switch ;;
  defer (store_call (SRelease h))
    (switch_locked c (lh_ctx h) auth target automatic state).

Definition Switch (c : Controller) (ctx : Context) (target : string) (automatic : bool)
    : prog ctlE switch_result :=
  leader <- IsLeader ;;
  if negb leader then fail_switch not_leader
  else
  try ctx <- leaderBoundContext ctx else fail_switch ;;
  defer (call (ECancel ctx)) (switch_as_leader c ctx target automatic).

(** ** Automatic failover *)

Definition SetAutoFailover (c : Controller) (ctx : Context) (enabled : bool)
    : prog ctlE (result unit) :=
  leader <- IsLeader ;;
  if negb leader then Ret (Err not_leader)
  else
  try ctx <- leaderBoundContext ctx else (fun e => Ret (Err e)) ;;
  defer (call (ECancel ctx)) (
    try h <- store_call (SAcquireLock ctx (ControllerID (cfg c)) 10)
      else (fun e => Ret (Err e)) ;;
    defer (store_call (SRelease h)) (
      let ctx := lh_ctx h in
      try state <- store_call (SGetCluster ctx) else (fun e => Ret (Err e)) ;;
      now <- call ENow ;;
      store_call (SPutClusterIfEpoch ctx (Epoch state)
        (set_UpdatedAt now (set_AutoFailover enabled state))))).

Definition tryAutomaticFailover (c : Controller) (ctx : Context) (primary : string)
    : prog ctlE unit :=
  status <- read_locked (fun s => statuses s !! primary) ;;
  skip <- match status with
          | None => Ret true
          | Some st =>
              if Healthy st || (FailureCount st <? FailureThreshold (cfg c)) then Ret true
              else isTripping
          end ;;
  if (skip : bool) then
    match status with
    | Some st => if Healthy st then update_locked (set_lastDryRunPrimary "") else Ret tt
    | None => Ret tt
    end
  else
  alreadyReported <- read_locked (fun s => bool_decide (lastDryRunPrimary s = primary)) ;;
  if negb (AutoFailoverExecute (cfg c)) && alreadyReported then Ret tt
  else
  target <- (if AutoFailoverExecute (cfg c) then chooseTarget c primary
             else chooseDryRunTarget primary) ;;
  match target with
  | Err _ => call (ELog "choose automatic failover target")
  | Ok target =>
      r <- Switch c ctx target true ;;
      match r.2 with
      | Some _ => call (ELog "automatic failover attempt")
      | None => Ret tt
      end
  end.

(** ** Probing *)

(** The status recorded for a node and the metrics of its probe. *)
Definition probed_status (status : NodeStatus) (previous : NodeStatus) : NodeStatus :=
  if Healthy status then set_FailureCount 0 status
  else set_FailureCount (int64 (FailureCount previous + 1)) status.

Definition probe_metrics (id : string) (status : NodeStatus) : prog ctlE unit :=
  if Healthy status then
    call (EMetric (ProbeTotalInc id "healthy")) ;;; call (EMetric (ProbeHealthySet id 1))
  else
    call (EMetric (ProbeTotalInc id "unhealthy")) ;;; call (EMetric (ProbeHealthySet id 0)).

(** The alert bookkeeping of a probed node: the alerted set and the event. *)
Definition alert_decision (c : Config) (id : string) (status : NodeStatus)
    (alerted : gset string) : gset string * list AlertEvent :=
  if (FailureThreshold c <=? FailureCount status) && negb (bool_decide (id ∈ alerted)) then
    let '(severity, title, message) := failureAlert status in
    ({[id]} ∪ alerted,
     [{| ae_NodeID := id; ae_Severity := severity; ae_Title := title; ae_Message := message;
         ae_Resolved := false; ae_CreatedAt := CheckedAt status |}])
  else if Healthy status && bool_decide (id ∈ alerted) then
    (alerted ∖ {[id]},
     [{| ae_NodeID := id; ae_Severity := "info"; ae_Title := "MySQL node recovered";
         ae_Message := "health checks passed"; ae_Resolved := true;
         ae_CreatedAt := CheckedAt status |}])
  else (alerted, []).

Definition probe_node (c : Controller) (ctx : Context) (id : string)
    : prog ctlE (list AlertEvent) :=
  status <- node_call id (NStatus ctx) ;;
  s <- call ERead ;;
  let status := probed_status status (default NodeStatus_zero (statuses s !! id)) in
  probe_metrics id status ;;;
  call (EUpdate (set_status id status)) ;;;
  let '(alerted, events) := alert_decision (cfg c) id status (alertedNodes s) in
  call (EUpdate (set_alerted alerted)) ;;;
  Ret events.

Fixpoint probe_nodes (c : Controller) (ctx : Context) (order : list string)
    : prog ctlE (list AlertEvent) :=
  match order with
  | [] => Ret []
  | id :: order =>
      events <- probe_node c ctx id ;;
      rest <- probe_nodes c ctx order ;;
      Ret (events ++ rest)
  end.

Definition send_alert (ctx : Context) (event : AlertEvent) : prog ctlE unit :=
  r <- call (ESend ctx (ae_Severity event) (ae_Title event) (alert_message event)) ;;
  match r with Err _ => call (ELog "send node alert") | Ok _ => Ret tt end.

(** The cluster state after the primary was detected, when it was unknown. *)
Definition adopt_primary (ctx : Context) (state : ClusterState) : prog ctlE ClusterState :=
  if bool_decide (Primary state = "") then
    primary <- detectPrimary ;;
    now <- call ENow ;;
    let state := set_UpdatedAt now (set_Primary primary state) in
    _ <- store_call (SPutCluster ctx state) ;;
    Ret state
  else Ret state.

Definition probe (c : Controller) (ctx : Context) : prog ctlE unit :=
  call ELock ;;;
  order <- call (ERange (elements (clients c))) ;;
  alertEvents <- probe_nodes c ctx order ;;
  call EUnlock ;;;
  for_each alertEvents (send_alert ctx) ;;;
  r <- store_call (SGetCluster ctx) ;;
  match r with
  | Err _ => call (ELog "read cluster state")
  | Ok state =>
      state <- adopt_primary ctx state ;;
      if AutoFailover state && negb (bool_decide (Primary state = "")) then
        tryAutomaticFailover c ctx (Primary state)
      else Ret tt
  end.

(** ** The leader's loop

    [fuel] bounds the number of rounds of the [for] loop; [None] says that the
    loop is still running. *)
Fixpoint leader_loop (fuel : nat) (c : Controller) (ctx : Context) : prog ctlE (option unit) :=
  match fuel with
  | O => Ret None
  | S fuel =>
      tick <- call ETick ;;
      if (tick : bool) then probe c ctx ;;; leader_loop fuel c ctx
      else Ret (Some tt)
  end.

Definition runAsLeader (fuel : nat) (c : Controller) (ctx : Context)
    : prog ctlE (option unit) :=
  call (ELeaderStore true) ;;;
  update_locked (set_leaderCtx (Some ctx)) ;;;
  probe c ctx ;;;
  r <- leader_loop fuel c ctx ;;
  match r with
  | None => Ret None
  | Some _ =>
      update_locked (set_leaderCtx None) ;;;
      call (ELeaderStore false) ;;;
      Ret (Some tt)
  end.

(** [RunLeaderElection] is the store's. *)
Definition Run {A} (RunLeaderElection : Context -> string -> (Context -> prog ctlE (option unit)) -> A)
    (fuel : nat) (c : Controller) (ctx : Context) : A :=
  RunLeaderElection ctx (ControllerID (cfg c)) (runAsLeader fuel c).

(** ** Reports *)

(** [copyStatuses], [c.lastTask] and the cluster state read first. *)
Definition Status : prog ctlE (result ClusterState * gmap string NodeStatus * option loc) :=
  state <- store_call (SGetCluster Background) ;;
  s <- read_locked (fun s => (statuses s, lastTask s)) ;;
  Ret (state, s.1, s.2).

Definition Tasks (ctx : Context) (limit : Z) : prog ctlE (result (list SwitchTask)) :=
  store_call (SListTasks ctx limit).

Definition Close (c : Controller) : prog ctlE (result unit) :=
  order <- call (ERange (elements (clients c))) ;;
  for_each order (fun id => node_call id NClose) ;;;
  store_call SClose.

(** ** Construction *)

(** The loop over the configured nodes; [new_client] is
    [remoteagent.NewClient]. *)
Fixpoint add_nodes {E T} (new_client : AgentNodeConfig -> string -> string -> string -> prog E (result T))
    (nodes : list AgentNodeConfig) (c : Controller) : prog E (result Controller) :=
  match nodes with
  | [] => Ret (Ok c)
  | node :: nodes =>
      if bool_decide (an_ID node = "") || bool_decide (an_Address node = "")
         || bool_decide (an_AgentURL node = "") then
        Ret (Err ("node " +:+ fmt_q (an_ID node) +:+ " must define id, address and agent_url"))
      else
      try _ <- new_client node (AgentCAFile (cfg c)) (AgentCertFile (cfg c)) (AgentKeyFile (cfg c))
        else (fun e => Ret (Err (wrap_err ("create agent client " +:+ an_ID node) e))) ;;
      add_nodes new_client nodes
        {| cfg := cfg c; clients := {[an_ID node]} ∪ clients c;
           configs := <[an_ID node := node]> (configs c) |}
  end.

Definition NewController {E T} (new_client : AgentNodeConfig -> string -> string -> string -> prog E (result T))
    (c : Config) : prog E (result Controller) :=
  match Nodes c with
  | [] => Ret (Err "HA_AGENTS_JSON must contain at least one MySQL agent")
  | nodes => add_nodes new_client nodes {| cfg := c; clients := ∅; configs := ∅ |}
  end.
