(* ===== verification/Sim.v ===== *)
(** * An executable environment for the controller

    A handler for every call of the controller: the store is [MemoryStore],
    each agent is the [fakeAgentNode] of [internal/ha/controller_test.go], the
    managers are the no-op ones ([internal/fence], [internal/route]) and the
    clock advances by one at each reading.  The concrete worlds below are those
    of the repository's tests; they run the definitions of [Controller.v] and
    show that the hypotheses of the theorems can hold. *)
From S2P Require Import Prelude GoStd Effects Model Config Store Node Controller.

(** ** [fakeAgentNode] *)
Record fakeAgentNode : Type := {
  f_status : NodeStatus;
  f_gtid : string;
  f_promoteCalls : Z
}.

Definition set_roles (ro sro healthy : bool) (role : Role) (rep : option ReplicaStatus)
    (s : NodeStatus) : NodeStatus := {|
  NodeID := NodeID s; ns_Address := ns_Address s; Reachable := Reachable s;
  Healthy := healthy; ns_Role := role; ServerUUID := ServerUUID s;
  ReadOnly := ro; SuperReadOnly := sro; Replica := rep;
  ns_Error := ns_Error s; CheckedAt := CheckedAt s; FailureCount := FailureCount s |}.

Definition running_replica (lag : Z) : ReplicaStatus := {|
  IOThreadRunning := true; SQLThreadRunning := true; SecondsBehind := Some lag;
  LastIOError := ""; LastSQLError := ""; rs_ExecutedGTID := ""; RetrievedGTID := "" |}.

Definition fake_step : handler nodeE fakeAgentNode := fun X e =>
  match e in nodeE X return fakeAgentNode -> X * fakeAgentNode with
  | NStatus _ => fun n => (f_status n, n)
  | NExecutedGTID _ => fun n => (Ok (f_gtid n), n)
  | NWaitForGTID _ _ _ _ => fun n => (Ok tt, n)
  | NDemote _ _ => fun n => (Ok tt,
      {| f_status := set_roles true true false RoleReplica None (f_status n);
         f_gtid := f_gtid n; f_promoteCalls := f_promoteCalls n |})
  | NPromote _ _ => fun n => (Ok tt,
      {| f_status := set_roles false false true RolePrimary None (f_status n);
         f_gtid := f_gtid n; f_promoteCalls := f_promoteCalls n + 1 |})
  | NReconfigureReplica _ _ _ => fun n => (Ok tt,
      {| f_status := set_roles true true true RoleReplica (Some (running_replica 0)) (f_status n);
         f_gtid := f_gtid n; f_promoteCalls := f_promoteCalls n |})
  | NClose => fun n => (tt, n)
  end.

(** The answer of a node that does not exist. *)
Definition absent {X} (e : nodeE X) : X :=
  match e in nodeE X return X with
  | NStatus _ => NodeStatus_zero
  | NExecutedGTID _ => Err "no such host"
  | NWaitForGTID _ _ _ _ | NDemote _ _ | NPromote _ _ | NReconfigureReplica _ _ _ =>
      Err "no such host"
  | NClose => tt
  end.

Definition fakes_step (id : string) : handler nodeE (gmap string fakeAgentNode) := fun X e m =>
  match m !! id with
  | Some n => let '(x, n) := fake_step X e n in (x, <[id := n]> m)
  | None => (absent e, m)
  end.

(** ** The no-op managers *)
Definition NoopManager_Fence : result unit := Ok tt.
Definition NoopManager_SetPrimary : result unit := Ok tt.

(** ** Worlds *)
Record World : Type := {
  w_ctl : CtlState;
  w_leader : bool;
  w_store : MemoryStore.t;
  w_store_down : bool;                 (* PutTask fails, as etcd does without quorum *)
  w_nodes : gmap string fakeAgentNode;
  w_heap : list SwitchTask;
  w_clock : Z;
  w_sent : list (string * string * string);
  w_lost : Context -> bool;
  w_ticks : nat
}.

Definition w_set_ctl (f : CtlState -> CtlState) (w : World) : World := {|
  w_ctl := f (w_ctl w); w_leader := w_leader w; w_store := w_store w;
  w_store_down := w_store_down w; w_nodes := w_nodes w; w_heap := w_heap w;
  w_clock := w_clock w; w_sent := w_sent w; w_lost := w_lost w; w_ticks := w_ticks w |}.
Definition w_set_leader (b : bool) (w : World) : World := {|
  w_ctl := w_ctl w; w_leader := b; w_store := w_store w;
  w_store_down := w_store_down w; w_nodes := w_nodes w; w_heap := w_heap w;
  w_clock := w_clock w; w_sent := w_sent w; w_lost := w_lost w; w_ticks := w_ticks w |}.
Definition w_set_store (s : MemoryStore.t) (w : World) : World := {|
  w_ctl := w_ctl w; w_leader := w_leader w; w_store := s;
  w_store_down := w_store_down w; w_nodes := w_nodes w; w_heap := w_heap w;
  w_clock := w_clock w; w_sent := w_sent w; w_lost := w_lost w; w_ticks := w_ticks w |}.
Definition w_set_nodes (n : gmap string fakeAgentNode) (w : World) : World := {|
  w_ctl := w_ctl w; w_leader := w_leader w; w_store := w_store w;
  w_store_down := w_store_down w; w_nodes := n; w_heap := w_heap w;
  w_clock := w_clock w; w_sent := w_sent w; w_lost := w_lost w; w_ticks := w_ticks w |}.
Definition w_set_heap (h : list SwitchTask) (w : World) : World := {|
  w_ctl := w_ctl w; w_leader := w_leader w; w_store := w_store w;
  w_store_down := w_store_down w; w_nodes := w_nodes w; w_heap := h;
  w_clock := w_clock w; w_sent := w_sent w; w_lost := w_lost w; w_ticks := w_ticks w |}.
Definition w_tick (w : World) : World := {|
  w_ctl := w_ctl w; w_leader := w_leader w; w_store := w_store w;
  w_store_down := w_store_down w; w_nodes := w_nodes w; w_heap := w_heap w;
  w_clock := w_clock w + 1; w_sent := w_sent w; w_lost := w_lost w; w_ticks := w_ticks w |}.
Definition w_send (m : string * string * string) (w : World) : World := {|
  w_ctl := w_ctl w; w_leader := w_leader w; w_store := w_store w;
  w_store_down := w_store_down w; w_nodes := w_nodes w; w_heap := w_heap w;
  w_clock := w_clock w; w_sent := w_sent w ++ [m]; w_lost := w_lost w; w_ticks := w_ticks w |}.
Definition w_next_tick (w : World) : World := {|
  w_ctl := w_ctl w; w_leader := w_leader w; w_store := w_store w;
  w_store_down := w_store_down w; w_nodes := w_nodes w; w_heap := w_heap w;
  w_clock := w_clock w; w_sent := w_sent w; w_lost := w_lost w; w_ticks := pred (w_ticks w) |}.

Definition SwitchTask_zero : SwitchTask := {|
  task_ID := ""; From := ""; To := ""; Automatic := false; DryRun := false; task_State := "";
  task_Error := ""; StartedAt := time_zero; FinishedAt := time_zero |}.

Definition store_step {X} (e : storeE X) (w : World) : X * World :=
  let '(x, s) := MemoryStore.step X e (w_store w) in
  match e in storeE X return X -> X * World with
  | SPutTask _ _ => fun x =>
      if w_store_down w then (Err "etcdserver: no leader", w) else (x, w_set_store s w)
  | _ => fun x => (x, w_set_store s w)
  end x.

Definition node_step {X} (id : string) (e : nodeE X) (w : World) : X * World :=
  let '(x, n) := fakes_step id X e (w_nodes w) in (x, w_set_nodes n w).

Definition world_step : handler ctlE World := fun X e =>
  match e in ctlE X return World -> X * World with
  | EStore e => store_step e
  | ENode id e => node_step id e
  | ESend _ severity title message => fun w => (Ok tt, w_send (severity, title, message) w)
  | EFence _ _ => fun w => (NoopManager_Fence, w)
  | ESetPrimary _ _ => fun w => (NoopManager_SetPrimary, w)
  | ENow => fun w => (w_clock w, w_tick w)
  | ELeaderLoad => fun w => (w_leader w, w)
  | ELeaderStore b => fun w => (tt, w_set_leader b w)
  | ELock | EUnlock | ERLock | ERUnlock => fun w => (tt, w)
  | ERead => fun w => (w_ctl w, w)
  | EUpdate f => fun w => (tt, w_set_ctl f w)
  | ECtxErr c => fun w => (cancelled (w_lost w) c, w)
  | ECancel _ => fun w => (tt, w)
  | ERange keys => fun w => (keys, w)
  | ENewTask k => fun w => (length (w_heap w), w_set_heap (w_heap w ++ [k]) w)
  | ETask l => fun w => (default SwitchTask_zero (w_heap w !! l), w)
  | ESetTask l f => fun w => (tt, w_set_heap (alter f l (w_heap w)) w)
  | EMetric _ => fun w => (tt, w)
  | ELog _ => fun w => (tt, w)
  | ETick => fun w => (bool_decide (w_ticks w <> 0%nat), w_next_tick w)
  end.

(** ** The fakes as [Node]s *)
Definition fake_writable (n : fakeAgentNode) : bool :=
  negb (ReadOnly (f_status n) && SuperReadOnly (f_status n)).

Definition fakes_writable (m : gmap string fakeAgentNode) : gset string :=
  dom (filter (fun kv => fake_writable kv.2 = true) m).

Lemma elem_of_fakes_writable id m :
  id ∈ fakes_writable m <-> exists n, m !! id = Some n /\ fake_writable n = true.
Proof.
  unfold fakes_writable. rewrite elem_of_dom. unfold is_Some.
  setoid_rewrite map_lookup_filter_Some. simpl. done.
Qed.

Lemma fakes_writable_insert id n m j :
  j ∈ fakes_writable (<[id := n]> m) <->
  (j = id /\ fake_writable n = true) \/ (j <> id /\ j ∈ fakes_writable m).
Proof.
  rewrite !elem_of_fakes_writable. destruct (decide (j = id)) as [->|Hne].
  - rewrite lookup_insert_eq. naive_solver.
  - rewrite lookup_insert_ne by done. naive_solver.
Qed.

#[export] Program Instance fakes_impl : NodesImpl (gmap string fakeAgentNode) fakes_step :=
  {| writable := fakes_writable |}.
Next Obligation.
  intros id X e m. unfold fakes_step. destruct (m !! id) as [n|] eqn:Hm.
  - assert (forall n', fake_writable n' = fake_writable n ->
      fakes_writable (<[id := n']> m) = fakes_writable m) as Hsame.
    { intros n' Hn'. apply set_eq. intros j. rewrite fakes_writable_insert.
      destruct (decide (j = id)) as [->|]; [|naive_solver].
      rewrite elem_of_fakes_writable, Hm, Hn'. naive_solver. }
    destruct e; simpl; rewrite ?Hsame by done; try done.
    + split; [done|]. intros Hro (n' & Hn' & Hw)%elem_of_fakes_writable. simplify_eq.
      unfold fake_writable in Hw. destruct (Reachable _), (ReadOnly _), (SuperReadOnly _); done.
    + left. apply set_eq. intros j. rewrite fakes_writable_insert. set_solver.
    + left. apply set_eq. intros j. rewrite fakes_writable_insert. simpl.
      destruct (decide (j = id)); set_solver.
    + left. apply set_eq. intros j. rewrite fakes_writable_insert. set_solver.
  - destruct e; simpl; try done; by right.
Qed.

(** ** The worlds of the tests *)
Definition node_status (healthy reachable : bool) (role : Role) (rep : option ReplicaStatus)
    : NodeStatus := {|
  NodeID := ""; ns_Address := ""; Reachable := reachable; Healthy := healthy; ns_Role := role;
  ServerUUID := ""; ReadOnly := false; SuperReadOnly := false; Replica := rep; ns_Error := "";
  CheckedAt := 0; FailureCount := 0 |}.

Definition test_config (execute auto : bool) : Config := {|
  HTTPAddr := ""; ClusterName := "test"; ControllerID := ""; EtcdEndpoints := [];
  Nodes := []; AgentCAFile := ""; AgentCertFile := ""; AgentKeyFile := ""; AgentsFile := "";
  ProbeInterval := 0; FailureThreshold := 3; AlertWebhookURL := ""; ExecuteActions := execute;
  AutoFailoverExecute := auto; RequireEtcd := false; MaxReplicaLagSeconds := 30 |}.

Definition node_config (id address : string) : AgentNodeConfig :=
  {| an_ID := id; an_Address := address; an_AgentURL := "" |}.

Definition test_controller (execute auto : bool) : Controller := {|
  cfg := test_config execute auto;
  clients := {["db-1"; "db-2"; "db-3"]};
  configs := list_to_map [("db-1", node_config "db-1" "10.0.0.1:3306");
                          ("db-2", node_config "db-2" "10.0.0.2:3306");
                          ("db-3", node_config "db-3" "10.0.0.3:3306")] |}.

Definition idle_ctl (leader : option Context) : CtlState := {|
  statuses := ∅; lastTask := None; tripping := false; lastDryRunPrimary := "";
  alertedNodes := ∅; leaderCtx := leader |}.

Definition test_store (primary : string) (epoch : Z) : MemoryStore.t :=
  MemoryStore.set_cluster {| cs_Name := "test"; Primary := primary; Epoch := epoch;
    AutoFailover := false; UpdatedAt := 0 |} (MemoryStore.NewMemoryStore "test").

Definition test_world (down : bool) (nodes : gmap string fakeAgentNode) : World := {|
  w_ctl := idle_ctl (Some (Root "leader")); w_leader := true; w_store := test_store "db-1" 7;
  w_store_down := down; w_nodes := nodes; w_heap := []; w_clock := 1000; w_sent := [];
  w_lost := fun _ => false; w_ticks := 0 |}.

Definition healthy_nodes : gmap string fakeAgentNode := list_to_map [
  ("db-1", {| f_status := node_status true true RolePrimary None;
              f_gtid := "uuid:1-3"; f_promoteCalls := 0 |});
  ("db-2", {| f_status := node_status true true RoleReplica (Some (running_replica 0));
              f_gtid := "uuid:1-3"; f_promoteCalls := 0 |});
  ("db-3", {| f_status := node_status true true RoleReplica (Some (running_replica 0));
              f_gtid := ""; f_promoteCalls := 0 |})].

(** The same nodes with the replicas read-only, as deployed. *)
Definition deployed_nodes : gmap string fakeAgentNode :=
  (fun n => if bool_decide (ns_Role (f_status n) = RoleReplica)
            then {| f_status := set_roles true true true RoleReplica (Some (running_replica 0))
                      (f_status n);
                    f_gtid := f_gtid n; f_promoteCalls := f_promoteCalls n |}
            else n) <$> healthy_nodes.

Definition failover_nodes : gmap string fakeAgentNode := list_to_map [
  ("db-1", {| f_status := node_status false false RoleUnknown None;
              f_gtid := "uuid:1-3"; f_promoteCalls := 0 |});
  ("db-2", {| f_status := node_status false true RoleReplica
                (Some {| IOThreadRunning := false; SQLThreadRunning := true;
                         SecondsBehind := None; LastIOError := ""; LastSQLError := "";
                         rs_ExecutedGTID := ""; RetrievedGTID := "" |});
              f_gtid := ""; f_promoteCalls := 0 |})].

(** TestManualSwitchoverAdvancesEpochAndReconfiguresAgents *)
Definition manual_switch : switch_result * World :=
  run world_step (Switch (test_controller true false) (Root "request") "db-2" false)
    (test_world false healthy_nodes).

Example manual_switch_completes :
  manual_switch.1 = (Some 0%nat, None) /\
  task_State <$> (w_heap manual_switch.2 !! 0%nat) = Some "completed" /\
  Primary (MemoryStore.cluster (w_store manual_switch.2)) = "db-2" /\
  Epoch (MemoryStore.cluster (w_store manual_switch.2)) = 8 /\
  (fun n => ns_Role (f_status n)) <$> (w_nodes manual_switch.2 !! "db-1") = Some RoleReplica.
Proof. by vm_compute. Qed.

(** TestAutomaticDryRunReportsCandidateWithoutPromoting *)
Example dry_run_promotes_nothing :
  let w := run world_step (Switch (test_controller true false) Background "db-2" true)
             (test_world false failover_nodes) in
  w.1 = (Some 0%nat, None) /\
  task_State <$> (w_heap w.2 !! 0%nat) = Some "dry-run" /\
  f_promoteCalls <$> (w_nodes w.2 !! "db-2") = Some 0 /\
  Primary (MemoryStore.cluster (w_store w.2)) = "db-1" /\
  Epoch (MemoryStore.cluster (w_store w.2)) = 7.
Proof. by vm_compute. Qed.
