(* ===== verification/Api.v ===== *)
(** * The controller's HTTP API

    [internal/api/server.go].  A handler is a program over the controller's
    calls that ends with the response it writes, [None] when it panics.  The
    metrics endpoint is the Prometheus library's own handler. *)
From S2P Require Import Prelude GoStd Effects Model Json JsonText GoTime Wire Format Config Store Node Controller Sim.

(** [struct { Target string `json:"target"` }] and
    [struct { Enabled bool `json:"enabled"` }] *)
Record SwitchoverRequest : Type := { Target : string }.
Record AutoFailoverRequest : Type := { Enabled : bool }.

#[export] Instance sanitize_switchover : Sanitize SwitchoverRequest :=
  fun r => {| Target := sanitize (Target r) |}.
#[export] Instance sanitize_auto_failover : Sanitize AutoFailoverRequest := fun r => r.

#[export] Instance json_switchover : Json SwitchoverRequest.
Proof.
  apply (struct_json (fun r => enc_struct [text "target" (Target r)])
    (dec_struct [fld "target" dec_string Target (fun x _ => {| Target := x |})]) {| Target := "" |}).
  - intros a j Ha. eapply (good_struct 2) in Ha; [done..|]. members_ok fail.
  - intros strict a j. encoded. intros [= <-]. by read_members fail.
Defined.

#[export] Instance json_auto_failover : Json AutoFailoverRequest.
Proof.
  apply (struct_json (fun r => enc_struct [flag "enabled" (Enabled r)])
    (dec_struct [fld "enabled" dec_bool Enabled (fun x _ => {| Enabled := x |})]) {| Enabled := false |}).
  - intros a j Ha. eapply (good_struct 2) in Ha; [done..|]. members_ok fail.
  - intros strict [b] j. encoded. intros [= <-]. by read_members fail.
Defined.

Inductive ApiValue : Type :=
| JStatus (s : string)                                   (* {"status": s} *)
| JError (e : string)                                    (* {"error": e} *)
| JReport (cluster : ClusterState) (nodes : gmap string NodeStatus)
    (last_task : option SwitchTask) (is_leader : bool)
| JTasks (tasks : list SwitchTask)
| JTask (task : option SwitchTask)
| JFailed (task : option SwitchTask) (e : string)
| JEnabled (r : AutoFailoverRequest)
| JPlain (text : string).                                (* a plain text body *)

Record ApiResponse : Type := { ar_code : Z; ar_content : string; ar_value : ApiValue }.

Module Api.
Section api.
Context `{JS : !Json SwitchoverRequest, JA : !Json AutoFailoverRequest}.
Context (c : Controller).

Definition writeJSON (code : Z) (value : ApiValue) : ApiResponse :=
  {| ar_code := code; ar_content := "application/json"; ar_value := value |}.
Definition writeError (err : string) : ApiResponse := writeJSON 500 (JError err).

(** Encoding a [*model.SwitchTask] reads the task it points to. *)
Definition read_task (task : option loc) : prog ctlE (option SwitchTask) :=
  match task with
  | Some l => k <- call (ETask l) ;; Ret (Some k)
  | None => Ret None
  end.

Definition health : prog ctlE ApiResponse := Ret (writeJSON 200 (JStatus "ok")).

Definition status : prog ctlE ApiResponse :=
  r <- Status ;;
  match r with
  | (Err e, _, _) => Ret (writeError e)
  | (Ok state, statuses, task) =>
      leader <- IsLeader ;;
      k <- read_task task ;;
      Ret (writeJSON 200 (JReport state statuses k leader))
  end.

Definition tasks (ctx : Context) : prog ctlE ApiResponse :=
  r <- Tasks ctx 50 ;;
  Ret (match r with Err e => writeError e | Ok l => writeJSON 200 (JTasks l) end).

(** The decoded target of a request. *)
Definition decode_target (body : option stream) : result string :=
  match body with
  | None => Err "invalid JSON request"
  | Some (bytes, e) =>
      match Decode (A := SwitchoverRequest) bytes e with
      | Ok request => Ok (Target request)
      | Err _ => Err "invalid JSON request"
      end
  end.

Definition switchover (ctx : Context) (body : option stream) : prog ctlE ApiResponse :=
  match decode_target body with
  | Err e => Ret (writeJSON 400 (JError e))
  | Ok target =>
      if bool_decide (target = "") then Ret (writeJSON 400 (JError "target is required"))
      else
      r <- Switch c ctx target false ;;
      k <- read_task r.1 ;;
      Ret (match r.2 with
           | Some e => writeJSON 409 (JFailed k e)
           | None => writeJSON 202 (JTask k)
           end)
  end.

Definition autoFailover (ctx : Context) (body : option stream)
    : prog ctlE (option ApiResponse) :=
  match body with
  | None => Ret None                     (* decoding from a nil reader panics *)
  | Some (bytes, e) =>
      match Decode (A := AutoFailoverRequest) bytes e with
      | Err e => Ret (Some (writeError e))
      | Ok request =>
          r <- SetAutoFailover c ctx (Enabled request) ;;
          Ret (Some (match r with
                     | Err e => writeError e
                     | Ok _ => writeJSON 200 (JEnabled request)
                     end))
      end
  end.

(** The patterns of [Handler]: a GET pattern also serves HEAD, a known path
    with another method is answered 405, an unknown path 404; [metrics] is the
    answer of the Prometheus handler, which serves every method. *)
Definition plain (code : Z) (text : string) : ApiResponse :=
  {| ar_code := code; ar_content := "text/plain; charset=utf-8"; ar_value := JPlain text |}.
Definition answered (p : prog ctlE ApiResponse) : prog ctlE (option ApiResponse) :=
  r <- p ;; Ret (Some r).
Definition on_get (method : string) (p : prog ctlE ApiResponse) : prog ctlE (option ApiResponse) :=
  answered (if bool_decide (method = "GET") || bool_decide (method = "HEAD") then p
            else Ret (plain 405 "Method Not Allowed")).
Definition on_post (method : string) (p : prog ctlE (option ApiResponse))
    : prog ctlE (option ApiResponse) :=
  if bool_decide (method = "POST") then p else Ret (Some (plain 405 "Method Not Allowed")).

Definition Handler (metrics : ApiResponse) (method path : string) (ctx : Context)
    (body : option stream) : prog ctlE (option ApiResponse) :=
  if bool_decide (path = "/healthz") then on_get method health
  else if bool_decide (path = "/api/v1/status") then on_get method status
  else if bool_decide (path = "/api/v1/tasks") then on_get method (tasks ctx)
  else if bool_decide (path = "/api/v1/switchover") then
    on_post method (answered (switchover ctx body))
  else if bool_decide (path = "/api/v1/auto-failover") then on_post method (autoFailover ctx body)
  else if bool_decide (path = "/metrics") then Ret (Some metrics)
  else Ret (Some (plain 404 "404 page not found")).

(** ** Lemmas *)

(** A call that only reads. *)
Definition reading (X : Type) (e : ctlE X) : Prop :=
  match e with
  | EStore e => match e with SGetCluster _ | SListTasks _ _ => True | _ => False end
  | ELeaderLoad | ERLock | ERUnlock | ERead | ETask _ => True
  | _ => False
  end.

(** The leader flag is never found set. *)
Definition follower_answer (X : Type) (e : ctlE X) : X -> Prop :=
  match e in ctlE X return X -> Prop with ELeaderLoad => fun b => b = false | _ => fun _ => True end.

Definition change_path (path : string) : bool :=
  bool_decide (path = "/api/v1/switchover") || bool_decide (path = "/api/v1/auto-failover").

(** A request that would change something is refused. *)
Definition refused_change (path : string) (body : option stream) (resp : option ApiResponse) : Prop :=
  change_path path = true -> is_Some body -> exists r, resp = Some r /\ 400 <= ar_code r.

Let follower := history_spec follower_answer (fun X _ e => reading X e).

Lemma follower_switchover ctx body h :
  wp follower (switchover ctx body) (fun r _ => 400 <= ar_code r) h.
Proof.
  unfold switchover. destruct (decode_target body) as [target|e]; [|by apply Z.le_refl].
  case_bool_decide; [by apply Z.le_refl|]. apply wp_bind, wp_bind, wp_call; [done|].
  intros b h' [Hb _]. cbn in Hb. subst. by cbn.
Qed.

Lemma follower_auto_failover ctx body h :
  wp follower (autoFailover ctx body)
    (fun r _ => is_Some body -> exists a, r = Some a /\ 400 <= ar_code a) h.
Proof.
  unfold autoFailover. destruct body as [[bytes e]|]; [|by intros []].
  destruct (Decode bytes e) as [request|err]; [|intros _; eexists; by split].
  apply wp_bind, wp_bind, wp_call; [done|]. intros b h' [Hb _]. cbn in Hb. subst.
  intros _. by eexists.
Qed.

Lemma on_get_safe p method : safe follower p -> safe follower (on_get method p).
Proof. intros Hp. unfold on_get, answered. safely. Qed.

Lemma status_safe : safe follower status.
Proof. unfold status, Status, IsLeader, read_task, store_call, read_locked. safely; done. Qed.

Lemma tasks_safe ctx : safe follower (tasks ctx).
Proof. unfold tasks, Tasks, store_call. safely; done. Qed.

Lemma follower_reads path p body h :
  change_path path = false -> safe follower p -> wp follower p (fun r _ => refused_change path body r) h.
Proof. intros Hp Hs. eapply wp_mono; [apply Hs|]. intros r h' _. unfold refused_change. by rewrite Hp. Qed.

Lemma follower_post method path p body h :
  wp follower p (fun r _ => is_Some body -> exists a, r = Some a /\ 400 <= ar_code a) h ->
  wp follower (on_post method p) (fun r _ => refused_change path body r) h.
Proof.
  intros Hp. unfold on_post. case_bool_decide.
  - eapply wp_mono; [exact Hp|]. intros r h' Hr _. exact Hr.
  - intros _ _. by eexists.
Qed.

Lemma follower_handler metrics method path ctx body h :
  wp follower (Handler metrics method path ctx body) (fun r _ => refused_change path body r) h.
Proof.
  unfold Handler.
  case_bool_decide as H1; [subst; apply follower_reads; [done|by apply on_get_safe, safe_ret]|].
  case_bool_decide as H2; [subst; apply follower_reads; [done|apply on_get_safe, status_safe]|].
  case_bool_decide as H3; [subst; apply follower_reads; [done|apply on_get_safe, tasks_safe]|].
  case_bool_decide as H4.
  { apply follower_post, wp_bind. eapply wp_mono; [apply follower_switchover|].
    intros r h' Hr _. by exists r. }
  case_bool_decide as H5; [apply follower_post, follower_auto_failover|].
  assert (change_path path = false) by (by unfold change_path; rewrite !bool_decide_false).
  case_bool_decide as H6; by apply follower_reads; [|apply safe_ret].
Qed.

(** ** Theorems *)

(** C29: as long as a controller finds itself not to be the leader, whatever
    requests it serves make no call but reads of the stored state, of its own
    fields and of its tasks: no node is contacted, nothing is locked or written;
    and a request for a switchover or for automatic failover is refused. *)
Theorem follower_serves_reads_only metrics method path ctx body tr resp :
  behaves (Handler metrics method path ctx body) tr resp ->
  Forall (fun ev => match ev with Ev e x => follower_answer _ e x end) tr ->
  Forall (fun ev => match ev with Ev e _ => reading _ e end) tr /\
  refused_change path body resp.
Proof.
  intros Hb Hans.
  destruct (adequacy _ _ _ _ _ _ (follower_handler metrics method path ctx body []) Hb Hans)
    as [Hresp Hcalls]. split; [|done].
  apply Forall_forall. intros [X e x] (tr1 & tr2 & ->)%list_elem_of_split. by eapply Hcalls.
Qed.
End api.
End Api.

(** ** Instances *)
(** The body of a request for a switch to [db-2]. *)
Definition switchover_body : option stream :=
  match Marshal {| Target := "db-2" |} with
  | Ok s => Some (s, None)
  | Err _ => None
  end.

Definition follower_world : World := w_set_leader false (test_world false healthy_nodes).

Definition follower_demo : prog ctlE (option ApiResponse) :=
  Api.Handler (test_controller true false)
    (Api.plain 200 "") "POST" "/api/v1/switchover" (Root "request") switchover_body.

Lemma follower_serves_reads_only_witness :
  Forall (fun ev => match ev with Ev e _ => Api.reading _ e end)
    (trace_of world_step follower_demo follower_world) /\
  Api.refused_change "/api/v1/switchover" switchover_body (run world_step follower_demo follower_world).1.
Proof.
  apply (Api.follower_serves_reads_only
    (test_controller true false) (Api.plain 200 "") "POST" "/api/v1/switchover" (Root "request")
    switchover_body); [apply behaves_run|].
  vm_compute. repeat constructor.
Defined.
