(* ===== verification/SwitchSafety.v ===== *)
(** * Safety of a switch, whatever the environment answers *)
From S2P Require Import Prelude GoStd Effects Model Json JsonText GoTime Wire Format Config Store Etcd Node Controller Sim.

(** ** Kinds of calls *)

(** A call that changes the role of a node. *)
Definition node_mutation {X} (e : nodeE X) : bool :=
  match e with
  | NDemote _ _ | NPromote _ _ | NReconfigureReplica _ _ _ => true
  | _ => false
  end.

(** A call that changes the recorded cluster state. *)
Definition cluster_mutation {X} (e : storeE X) : bool :=
  match e with
  | SPutCluster _ _ | SPutClusterIfEpoch _ _ _ => true
  | _ => false
  end.

Definition mutation {X} (e : ctlE X) : bool :=
  match e with
  | ENode _ e => node_mutation e
  | EStore e => cluster_mutation e
  | _ => false
  end.

Definition quiet (X : Type) (e : ctlE X) : Prop := mutation e = false.

(** ** What must precede a promotion *)

(** The calls that immediately precede a promotion of [t]. *)
Definition promotion_licensed (t : string) (ctx : Context) (auth : SwitchAuthorization)
    (h : list (event ctlE)) : Prop :=
  exists h0 old demoted gtid,
    h = h0 ++ [Ev (ENode old (NDemote ctx auth)) (Ok tt);
               Ev (ENode old (NStatus ctx)) demoted;
               Ev (ENode old (NExecutedGTID ctx)) (Ok gtid);
               Ev (ENode t (NWaitForGTID ctx auth gtid 30)) (Ok tt)] /\
    old <> t /\
    Reachable demoted = true /\ ReadOnly demoted = true /\ SuperReadOnly demoted = true.

Definition promote_obligation (X : Type) (h : list (event ctlE)) (e : ctlE X) : Prop :=
  match e with
  | ENode t (NPromote ctx auth) => promotion_licensed t ctx auth h
  | _ => True
  end.

(** ** What must precede the persisted change of primary

    [n] is the epoch the write is conditional on. *)
Definition persist_licensed (ctx : Context) (n : Z) (st : ClusterState)
    (h : list (event ctlE)) : Prop :=
  exists h0 t auth promoted now state,
    h = h0 ++ [Ev (ENode t (NPromote ctx auth)) (Ok tt);
               Ev (ENode t (NStatus ctx)) promoted;
               Ev ENow now] /\
    Healthy promoted = true /\ ns_Role promoted = RolePrimary /\
    st = switched_state t now state /\
    t <> Primary state /\
    FromEpoch auth = Epoch state /\ ToEpoch auth = Epoch st /\
    (0 <= Epoch state < two64 -> n = Epoch state).

Definition persist_obligation (X : Type) (h : list (event ctlE)) (e : ctlE X) : Prop :=
  match e with
  | EStore (SPutClusterIfEpoch ctx n st) => persist_licensed ctx n st h
  | EStore (SPutCluster _ _) => False
  | _ => True
  end.

(** ** What must precede the reconfiguration of a replica *)
Definition reconfigure_licensed (c : Controller) (id : string) (ctx : Context)
    (auth : SwitchAuthorization) (source : AgentNodeConfig) (h : list (event ctlE)) : Prop :=
  exists h0 h1 n st,
    h = h0 ++ Ev (EStore (SPutClusterIfEpoch ctx n st)) (Ok tt) :: h1 /\
    id <> Primary st /\ Epoch st = ToEpoch auth /\
    source = default AgentNodeConfig_zero (configs c !! Primary st).

Definition reconfigure_obligation (c : Controller) (X : Type) (h : list (event ctlE))
    (e : ctlE X) : Prop :=
  match e with
  | ENode id (NReconfigureReplica ctx auth source) => reconfigure_licensed c id ctx auth source h
  | _ => True
  end.

(** ** The context of a call

    Of every call to a node and of every call to the store but those that
    report or clean up ([PutTask], the release function). *)
Definition store_ctx {X} (e : storeE X) : option Context :=
  match e with
  | SGetCluster ctx | SPutCluster ctx _ | SPutClusterIfEpoch ctx _ _
  | SAcquireLock ctx _ _ | SAcquireSwitchLock ctx _ _ _ | SVerifySwitchOperation ctx _ => Some ctx
  | _ => None
  end.

Definition node_ctx {X} (e : nodeE X) : option Context :=
  match e with
  | NStatus ctx | NExecutedGTID ctx | NWaitForGTID ctx _ _ _ | NDemote ctx _ | NPromote ctx _
  | NReconfigureReplica ctx _ _ => Some ctx
  | NClose => None
  end.

Definition call_ctx {X} (e : ctlE X) : option Context :=
  match e with
  | EStore e => store_ctx e
  | ENode _ e => node_ctx e
  | _ => None
  end.

(** The controller holds the leadership bound to the context [l]. *)
Definition leads (l : Context) (h : list (event ctlE)) : Prop :=
  Ev ELeaderLoad true ∈ h /\ Ev (ECtxErr l) false ∈ h /\
  exists s, Ev ERead s ∈ h /\ leaderCtx s = Some l.

Definition leader_obligation (X : Type) (h : list (event ctlE)) (e : ctlE X) : Prop :=
  forall ctx, call_ctx e = Some ctx -> exists l, leads l h /\ derives l ctx = true.

(** What the controller relies on about the context of a lock. *)
Definition store_lock_answer {X} (e : storeE X) : X -> Prop :=
  match e in storeE X return X -> Prop with
  | SAcquireLock ctx _ _ => fun r => forall h, r = Ok h -> derives ctx (lh_ctx h) = true
  | SAcquireSwitchLock ctx _ _ _ => fun r => forall h, r = Ok h -> derives ctx (lh_ctx h) = true
  | _ => fun _ => True
  end.

(** The answers a store can give to a call. *)
Definition answering : Type := forall X, storeE X -> X -> Prop.
Class BoundLocks (answers : answering) : Prop :=
  bound_locks : forall X (e : storeE X) x, answers X e x -> store_lock_answer e x.

(** [MemoryStore] in some state, and [EtcdStore] whatever etcd answers it. *)
Definition memory_answers : answering := fun X e x => exists s, x = (MemoryStore.step X e s).1.
Definition etcd_answers (prefix : string) : answering := fun X e x =>
  exists tr, behaves (EtcdStore.step prefix X e) tr x.

(** The store answers as one of the two does. *)
Definition store_answers (prefix : string) (X : Type) (e : ctlE X) : X -> Prop :=
  match e in ctlE X return X -> Prop with
  | EStore e => fun x => memory_answers _ e x \/ etcd_answers prefix _ e x
  | _ => fun _ => True
  end.

Definition any_answer (X : Type) (_ : ctlE X) (_ : X) : Prop := True.

(** ** Programs without mutations *)

Lemma finishTask_quiet task e : all_calls quiet (finishTask task e).
Proof. unfold finishTask. calls; done. Qed.

Lemma read_locked_quiet {X} (f : CtlState -> X) : all_calls quiet (read_locked f).
Proof. unfold read_locked. calls; done. Qed.

Lemma update_locked_quiet f : all_calls quiet (update_locked f).
Proof. unfold update_locked. calls; done. Qed.

Lemma range_statuses_quiet {X} (f : list (string * NodeStatus) -> X) :
  all_calls quiet (range_statuses f).
Proof. unfold range_statuses. calls; done. Qed.

Lemma store_call_quiet {X} (e : storeE X) :
  cluster_mutation e = false -> all_calls quiet (store_call e).
Proof. by split. Qed.

Lemma node_call_quiet {X} id (e : nodeE X) :
  node_mutation e = false -> all_calls quiet (node_call id e).
Proof. by split. Qed.

#[export] Hint Resolve finishTask_quiet read_locked_quiet update_locked_quiet
  range_statuses_quiet : ha.
#[export] Hint Extern 2 (all_calls quiet (store_call _)) => apply store_call_quiet; reflexivity : ha.
#[export] Hint Extern 2 (all_calls quiet (node_call _ _)) => apply node_call_quiet; reflexivity : ha.

Lemma switch_cleanup_quiet task : all_calls quiet (switch_cleanup task).
Proof. unfold switch_cleanup. calls; done. Qed.

Lemma switch_dry_quiet ctx task target state : all_calls quiet (switch_dry ctx task target state).
Proof. unfold switch_dry. calls; done. Qed.

Lemma leaderBoundContext_quiet ctx : all_calls quiet (leaderBoundContext ctx).
Proof. unfold leaderBoundContext. calls; done. Qed.

Lemma chooseTarget_quiet c e : all_calls quiet (chooseTarget c e).
Proof. unfold chooseTarget. calls. Qed.

Lemma chooseDryRunTarget_quiet e : all_calls quiet (chooseDryRunTarget e).
Proof. unfold chooseDryRunTarget. calls. Qed.

#[export] Hint Resolve switch_cleanup_quiet switch_dry_quiet leaderBoundContext_quiet
  chooseTarget_quiet chooseDryRunTarget_quiet : ha.

(** Quiet programs meet any specification that only constrains mutations. *)
Lemma quiet_safe {S A} (sp : espec ctlE S) (p : prog ctlE A) :
  (forall X (e : ctlE X) s, mutation e = false -> pre sp e s) ->
  all_calls quiet p -> safe sp p.
Proof. intros Hpre Hp s. eapply (all_calls_wp quiet _ _ _ (fun _ => True)); eauto. Qed.

(** An obligation on mutations only holds of the other calls. *)
Ltac only_mutations :=
  intros ? e ? ?; destruct e as [? []|? ? []| | | | | | | | | | | | | | | | | | | | |];
  simpl in *; done.

(** ** Promotion *)
Abbreviation promote_spec := (history_spec any_answer promote_obligation).

Lemma quiet_promote {A} (p : prog ctlE A) : all_calls quiet p -> safe promote_spec p.
Proof. apply quiet_safe. only_mutations. Qed.
#[export] Hint Resolve quiet_promote : ha.

Lemma switch_finish_promote c ctx auth task target state :
  safe promote_spec (switch_finish c ctx auth task target state).
Proof.
  unfold switch_finish, reconfigure_replicas. safely; try done.
Qed.
#[export] Hint Resolve switch_finish_promote : ha.

(** Symbolic execution of a history specification: one call. *)
Ltac hist_call :=
  apply wp_call; [try done|intros ? ? [_ ->]].

Lemma switch_promote_licensed c ctx auth task target state gtid h0 demoted :
  Primary state <> target ->
  Reachable demoted = true -> ReadOnly demoted = true -> SuperReadOnly demoted = true ->
  wp promote_spec (switch_promote c ctx auth task target state gtid) (fun _ _ => True)
    (h0 ++ [Ev (ENode (Primary state) (NDemote ctx auth)) (Ok tt);
            Ev (ENode (Primary state) (NStatus ctx)) demoted;
            Ev (ENode (Primary state) (NExecutedGTID ctx)) (Ok gtid)]).
Proof.
  intros Hne H1 H2 H3. unfold switch_promote.
  apply wp_try. hist_call. destruct x as [[]|e]; [|apply safe_wp; calls].
  rewrite <-app_assoc. simpl.
  apply wp_try. hist_call; [by repeat eexists|].
  destruct x as [[]|e]; [|apply safe_wp; calls]. apply safe_wp.
  unfold node_call, store_call. safely; done.
Qed.

Lemma switch_execute_promote c ctx auth task target state :
  Primary state <> target -> safe promote_spec (switch_execute c ctx auth task target state).
Proof.
  intros Hne. unfold switch_execute. apply safe_try; [calls; done|calls|].
  intros []. case_match; [calls|]. intros h.
  apply wp_try. hist_call. destruct x as [[]|e]; [|apply safe_wp; calls].
  apply wp_bind. hist_call. case_match eqn:Hro; [apply safe_wp; calls|].
  apply wp_try. hist_call. destruct x0 as [gtid|e]; [|apply safe_wp; calls].
  rewrite <-!app_assoc. propify. apply switch_promote_licensed; naive_solver.
Qed.

Lemma switch_locked_promote c ctx auth target automatic state :
  safe promote_spec (switch_locked c ctx auth target automatic state).
Proof.
  unfold switch_locked, switch_task, fail_switch. safely; try (calls; done).
  propify. apply switch_execute_promote. naive_solver.
Qed.
#[export] Hint Resolve switch_locked_promote : ha.

Lemma Switch_promote c ctx target automatic :
  safe promote_spec (Switch c ctx target automatic).
Proof.
  unfold Switch, switch_as_leader, fail_switch, IsLeader. safely; try (calls; done).
Qed.
#[export] Hint Resolve Switch_promote : ha.

(** ** The persisted change of primary *)
Abbreviation persist_spec := (history_spec any_answer persist_obligation).

Lemma quiet_persist {A} (p : prog ctlE A) : all_calls quiet p -> safe persist_spec p.
Proof. apply quiet_safe. only_mutations. Qed.
#[export] Hint Resolve quiet_persist : ha.

(** Outside the calls on the store a persist obligation is void. *)
Lemma node_call_persist {X} id (e : nodeE X) : safe persist_spec (node_call id e).
Proof. by apply safe_call. Qed.
#[export] Hint Resolve node_call_persist : ha.

Lemma switch_finish_persist c ctx auth task target state :
  safe persist_spec (switch_finish c ctx auth task target state).
Proof. unfold switch_finish, reconfigure_replicas. safely; done. Qed.
#[export] Hint Resolve switch_finish_persist : ha.

Lemma switch_promote_persist c ctx op task target state gtid :
  target <> Primary state ->
  safe persist_spec (switch_promote c ctx (switch_authorization op state) task target state gtid).
Proof.
  intros Hne. unfold switch_promote. apply safe_try; [calls; done|calls|].
  intros _ h. apply wp_try. hist_call. destruct x as [[]|e]; [|apply safe_wp; calls].
  apply wp_bind. hist_call. case_match eqn:Hok; [apply safe_wp; calls|].
  apply wp_bind. hist_call. rewrite <-!app_assoc. simpl. propify. destruct Hok as [? ?].
  apply wp_try. hist_call.
  - repeat eexists; try done. intros Hep. by apply uint64_succ_pred.
  - destruct x1 as [[]|e]; apply safe_wp; [|calls]. apply switch_finish_persist.
Qed.
#[export] Hint Resolve switch_promote_persist : ha.

Lemma switch_locked_persist c ctx op target automatic state :
  safe persist_spec
    (switch_locked c ctx (switch_authorization op state) target automatic state).
Proof.
  unfold switch_locked, switch_task, switch_execute, fail_switch. safely; try (calls; done).
  propify. apply switch_promote_persist. naive_solver.
Qed.
#[export] Hint Resolve switch_locked_persist : ha.

Lemma Switch_persist c ctx target automatic :
  safe persist_spec (Switch c ctx target automatic).
Proof. unfold Switch, switch_as_leader, fail_switch, IsLeader. safely; try (calls; done). Qed.
#[export] Hint Resolve Switch_persist : ha.

(** ** The reconfiguration of the replicas *)
Abbreviation reconfigure_spec c := (history_spec any_answer (reconfigure_obligation c)).

Lemma quiet_reconfigure c {A} (p : prog ctlE A) : all_calls quiet p -> safe (reconfigure_spec c) p.
Proof. apply quiet_safe. only_mutations. Qed.
#[export] Hint Resolve quiet_reconfigure : ha.

Lemma store_call_reconfigure c {X} (e : storeE X) : safe (reconfigure_spec c) (store_call e).
Proof. by apply safe_call. Qed.
#[export] Hint Resolve store_call_reconfigure : ha.

Lemma switch_finish_reconfigure c ctx auth task st n h0 h1 :
  Epoch st = ToEpoch auth ->
  wp (reconfigure_spec c) (switch_finish c ctx auth task (Primary st) st) (fun _ _ => True)
    (h0 ++ Ev (EStore (SPutClusterIfEpoch ctx n st)) (Ok tt) :: h1).
Proof.
  intros Hep. unfold switch_finish. apply wp_try. hist_call.
  destruct x as [[]|e]; [|apply safe_wp; calls].
  apply wp_bind. hist_call. apply wp_bind. unfold reconfigure_replicas.
  eapply (wp_for_return _ _ _ (fun _ h => exists h1, h =
    h0 ++ Ev (EStore (SPutClusterIfEpoch ctx n st)) (Ok tt) :: h1)).
  - intros id l ? [h2 ->]. case_bool_decide; [by eexists|]. apply wp_bind. hist_call.
    + by repeat eexists.
    + rewrite <-app_assoc. destruct x0 as [[]|e]; [by eexists|]. apply safe_wp. calls.
  - intros h _. apply safe_wp. safely; done.
  - rewrite <-!app_assoc. by eexists.
Qed.

Lemma switch_promote_reconfigure c ctx op task target state gtid :
  safe (reconfigure_spec c)
    (switch_promote c ctx (switch_authorization op state) task target state gtid).
Proof.
  unfold switch_promote. apply safe_try; [calls; done|calls|].
  intros _. apply safe_try; [by apply safe_call|calls|].
  intros _. apply safe_bind; [calls; done|]. intros promoted.
  case_match; [calls|]. apply safe_bind; [calls; done|].
  intros now h. apply wp_try. hist_call. destruct x as [[]|e]; [|apply safe_wp; calls].
  by apply (switch_finish_reconfigure c ctx (switch_authorization op state) task
    (switched_state target now state)).
Qed.
#[export] Hint Resolve switch_promote_reconfigure : ha.

Lemma switch_locked_reconfigure c ctx op target automatic state :
  safe (reconfigure_spec c)
    (switch_locked c ctx (switch_authorization op state) target automatic state).
Proof.
  unfold switch_locked, switch_task, switch_execute, fail_switch. safely; try (calls; done).
Qed.
#[export] Hint Resolve switch_locked_reconfigure : ha.

Lemma Switch_reconfigure c ctx target automatic :
  safe (reconfigure_spec c) (Switch c ctx target automatic).
Proof. unfold Switch, switch_as_leader, fail_switch, IsLeader. safely; try (calls; done). Qed.

(** ** Dry runs *)
Lemma Switch_dry_quiet c ctx target automatic :
  switch_dry_run (cfg c) automatic = true -> all_calls quiet (Switch c ctx target automatic).
Proof.
  intros Hdry. unfold Switch, switch_as_leader, switch_locked, switch_task, fail_switch, IsLeader.
  rewrite Hdry. calls; done.
Qed.
#[export] Hint Resolve Switch_reconfigure Switch_dry_quiet : ha.

(** ** Leadership *)

#[export] Instance memory_bound_locks : BoundLocks memory_answers.
Proof.
  intros X e x [s ->]. destruct e; try done; cbn;
    unfold MemoryStore.AcquireSwitchLock, MemoryStore.AcquireLock;
    destruct (MemoryStore.locked s); try done; intros h [= <-]; apply derives_refl.
Qed.

Lemma lock_ctx prefix ctx ttl tr lock :
  behaves (EtcdStore.acquireEtcdLock prefix ctx ttl) tr (Ok lock) -> lock.1 = Locked ctx lock.2.
Proof.
  intros (? & ? & [l|e] & _ & _ & Hb)%behaves_bind; [|by destruct Hb].
  apply behaves_bind in Hb as (? & ? & [[]|e] & _ & _ & Hb); [by destruct Hb as [_ [= ->]]|].
  apply behaves_bind in Hb as (? & ? & ? & _ & _ & Hb). by destruct Hb.
Qed.

Lemma acquired_ctx prefix ctx ttl tr h :
  behaves (EtcdStore.AcquireLock prefix ctx ttl) tr (Ok h) -> lh_ctx h = Locked ctx (lh_lock h).
Proof.
  intros (? & ? & [lock|e] & _ & Hl & Hb)%behaves_bind; [|by destruct Hb].
  apply lock_ctx in Hl. by destruct Hb as [_ [= ->]].
Qed.

Lemma switch_acquired_ctx prefix ctx ttl auth tr h :
  behaves (EtcdStore.AcquireSwitchLock prefix ctx ttl auth) tr (Ok h) ->
  lh_ctx h = Locked ctx (lh_lock h).
Proof.
  intros (? & ? & [st|e] & _ & _ & Hb)%behaves_bind; [|by destruct Hb].
  case_on_match_in Hb; [by destruct Hb|].
  apply behaves_bind in Hb as (? & ? & [[lockCtx l]|e] & _ & Hl & Hb); [|by destruct Hb].
  apply lock_ctx in Hl. cbn in Hl. subst lockCtx.
  apply behaves_bind in Hb as (? & ? & [[]|e] & _ & _ & Hb); [by destruct Hb as [_ [= ->]]|].
  apply behaves_bind in Hb as (? & ? & ? & _ & _ & Hb). by destruct Hb.
Qed.

#[export] Instance etcd_bound_locks prefix : BoundLocks (etcd_answers prefix).
Proof.
  intros X e x [tr Hb]. destruct e; try done; intros h ->;
    [rewrite (acquired_ctx _ _ _ _ _ Hb)|rewrite (switch_acquired_ctx _ _ _ _ _ _ Hb)];
    cbn; by rewrite derives_refl, orb_true_r.
Qed.

Section leadership.
Context (prefix : string).

Abbreviation leader_spec := (history_spec (store_answers prefix) leader_obligation).

(** Every call of the program runs under a context derived from [l]. *)
Definition under (l : Context) (X : Type) (e : ctlE X) : Prop :=
  forall ctx, call_ctx e = Some ctx -> derives l ctx = true.

Lemma leads_app l h1 h2 : leads l h1 -> leads l (h1 ++ h2).
Proof. unfold leads. set_solver. Qed.

Lemma under_wp l {A} (p : prog ctlE A) h :
  all_calls (under l) p -> leads l h -> wp leader_spec p (fun _ h' => leads l h') h.
Proof.
  intros Hp. apply (all_calls_wp (under l) _ _ _ (leads l)); [done|..|done].
  - intros X e h' He Hl ctx Hctx. eauto.
  - intros X e h' x ? He Hl [_ ->]. by apply leads_app.
Qed.

Ltac by_ctx := intros ctx' Hctx'; simpl in Hctx'; simplify_eq; done.

Lemma finishTask_under l task e : all_calls (under l) (finishTask task e).
Proof. unfold finishTask. calls; by_ctx. Qed.
Lemma update_locked_under l f : all_calls (under l) (update_locked f).
Proof. unfold update_locked. calls; by_ctx. Qed.
Lemma chooseTarget_under l c e : all_calls (under l) (chooseTarget c e).
Proof. unfold chooseTarget, range_statuses. calls; by_ctx. Qed.
#[local] Hint Resolve finishTask_under update_locked_under chooseTarget_under : ha.

Lemma switch_locked_under l c ctx auth target automatic state :
  derives l ctx = true ->
  all_calls (under l) (switch_locked c ctx auth target automatic state).
Proof.
  intros Hd. unfold switch_locked, switch_task, switch_execute, switch_promote, switch_finish,
    reconfigure_replicas, switch_dry, switch_cleanup, fail_switch, node_call, store_call.
  calls; by_ctx.
Qed.
#[local] Hint Resolve switch_locked_under : ha.

Lemma switch_as_leader_leads l c ctx target automatic h :
  derives l ctx = true -> leads l h ->
  wp leader_spec (switch_as_leader c ctx target automatic) (fun _ h' => leads l h') h.
Proof.
  intros Hd Hl. unfold switch_as_leader, fail_switch. apply wp_try.
  eapply wp_mono; [apply (under_wp l); [split; [by_ctx|done]|done]|].
  intros [state|e] h1 Hl1; [|done]. apply wp_try.
  eapply wp_mono; [apply (under_wp l); [calls; by_ctx|done]|].
  intros [target'|e] h2 Hl2; [|done]. case_match; [done|]. case_match; [done|].
  apply wp_bind. eapply wp_mono; [apply (under_wp l); [calls; by_ctx|done]|].
  intros now h3 Hl3. apply wp_try. apply wp_call; [intros ? [= <-]; by exists l|].
  intros [lh|e] ? [Hans ->]; [|by apply leads_app].
  apply wp_defer. eapply wp_mono; [apply (under_wp l)|].
  - apply switch_locked_under. eapply derives_trans; [done|].
    destruct Hans as [Ha|Ha]; by apply (bound_locks _ _ _ Ha).
  - by apply leads_app.
  - intros r h4 Hl4. apply (under_wp l); [split; [by_ctx|done]|done].
Qed.

Lemma leaderBoundContext_leads ctx h :
  Ev ELeaderLoad true ∈ h ->
  wp leader_spec (leaderBoundContext ctx) (fun r h' =>
    forall ctx', r = Ok ctx' -> exists l, leads l h' /\ derives l ctx' = true) h.
Proof.
  intros Hh. unfold leaderBoundContext, read_locked.
  apply wp_bind, wp_bind. hist_call. apply wp_bind. hist_call. apply wp_bind. hist_call.
  simpl. destruct (leaderCtx x0) as [l|] eqn:Hl; [|done].
  apply wp_bind. hist_call. destruct x2; [done|]. intros ? [= <-]. exists l. split.
  - unfold leads. set_solver.
  - simpl. rewrite derives_refl, orb_true_r. apply orb_true_r.
Qed.

Lemma Switch_leads c ctx target automatic :
  wp leader_spec (Switch c ctx target automatic) (fun _ _ => True) [].
Proof.
  unfold Switch, IsLeader, fail_switch. apply wp_bind. hist_call. destruct x; [|done].
  apply wp_try. eapply wp_mono; [apply leaderBoundContext_leads; set_solver|].
  intros [ctx'|e] h Hok; [|done]. destruct (Hok _ eq_refl) as (l & Hl & Hd).
  apply wp_defer. eapply wp_mono; [by apply (switch_as_leader_leads l)|].
  intros r h1 Hl1. by apply wp_call.
Qed.
End leadership.

(** ** Theorems about every trace of a switch *)

(** The manual switch of the tests as a trace. *)
Definition switch_trace : list (event ctlE) :=
  trace_of world_step (Switch (test_controller true false) (Root "request") "db-2" false)
    (test_world false healthy_nodes).

Definition automatic_dry_trace : list (event ctlE) :=
  trace_of world_step (Switch (test_controller true false) Background "db-2" true)
    (test_world false failover_nodes).

(** C1: in every trace of [Switch], a promotion of node [t] is immediately
    preceded by: a successful demotion of another node under the same
    authorization, a status of that node reporting it reachable, read-only and
    super-read-only, its executed GTID set, and a successful wait of [t] for
    exactly that set. *)
Theorem promotion_requires_confirmed_demotion c ctx target automatic tr r tr1 t pctx auth x tr2 :
  behaves (Switch c ctx target automatic) tr r ->
  tr = tr1 ++ Ev (ENode t (NPromote pctx auth)) x :: tr2 ->
  promotion_licensed t pctx auth tr1.
Proof.
  intros Hb ->.
  apply (adequacy any_answer promote_obligation _ (fun _ _ => True) _ _
    (Switch_promote _ _ _ _ _) Hb) with (e := ENode t (NPromote pctx auth)) (tr1 := tr1) (x := x)
    (tr2 := tr2); [|done].
  by apply Forall_forall; intros [].
Qed.

Lemma promotion_requires_confirmed_demotion_witness :
  promotion_licensed "db-2" (LeaderBound (Root "request") (Root "leader"))
    (switch_authorization "switch-1000" (MemoryStore.cluster (test_store "db-1" 7)))
    (take 22 switch_trace).
Proof.
  eapply (promotion_requires_confirmed_demotion (test_controller true false) (Root "request")
    "db-2" false switch_trace _ (take 22 switch_trace) "db-2" _ _ (Ok tt) (drop 23 switch_trace)).
  - apply behaves_run.
  - vm_compute. reflexivity.
Defined.

(** C5: in every trace of [Switch] the only write of the cluster state is the
    conditional one, made right after the node it names answered its promotion
    and reported itself a healthy primary; it changes the primary to that node
    and the epoch to the one the authorization announced, conditional on the
    epoch the authorization started from. *)
Theorem persist_requires_verified_promotion c ctx target automatic tr r tr1 X (e : storeE X) x tr2 :
  behaves (Switch c ctx target automatic) tr r ->
  tr = tr1 ++ Ev (EStore e) x :: tr2 -> cluster_mutation e = true ->
  exists wctx n st, @existT Type storeE X e = existT _ (SPutClusterIfEpoch wctx n st) /\
    persist_licensed wctx n st tr1.
Proof.
  intros Hb -> He.
  assert (persist_obligation X tr1 (EStore e)) as Hp.
  { apply (adequacy any_answer persist_obligation _ (fun _ _ => True) _ _
      (Switch_persist _ _ _ _ _) Hb) with (x := x) (tr2 := tr2); [|done].
    by apply Forall_forall; intros []. }
  destruct e; try done. eauto.
Qed.

Lemma persist_requires_verified_promotion_witness :
  exists wctx n st, @existT Type storeE _ (SPutClusterIfEpoch
      (LeaderBound (Root "request") (Root "leader")) 7
      {| cs_Name := "test"; Primary := "db-2"; Epoch := 8; AutoFailover := false;
         UpdatedAt := 1002 |}) =
      existT _ (SPutClusterIfEpoch wctx n st) /\ persist_licensed wctx n st (take 25 switch_trace).
Proof.
  eapply (persist_requires_verified_promotion (test_controller true false) (Root "request")
    "db-2" false switch_trace _ (take 25 switch_trace) _ _ (Ok tt) (drop 26 switch_trace)).
  - apply behaves_run.
  - vm_compute. reflexivity.
  - reflexivity.
Defined.

(** C6: in every trace of [Switch] a node is repointed only after the new
    primary was persisted, under the authorization of that epoch, at the
    configured address of the new primary, and the new primary itself never. *)
Theorem replicas_follow_persisted_primary c ctx target automatic tr r tr1 id rctx auth source x tr2 :
  behaves (Switch c ctx target automatic) tr r ->
  tr = tr1 ++ Ev (ENode id (NReconfigureReplica rctx auth source)) x :: tr2 ->
  reconfigure_licensed c id rctx auth source tr1.
Proof.
  intros Hb ->.
  apply (adequacy any_answer (reconfigure_obligation c) _ (fun _ _ => True) _ _
    (Switch_reconfigure _ _ _ _ _) Hb) with (e := ENode id (NReconfigureReplica rctx auth source))
    (tr1 := tr1) (x := x) (tr2 := tr2); [|done].
  by apply Forall_forall; intros [].
Qed.

Lemma replicas_follow_persisted_primary_witness :
  reconfigure_licensed (test_controller true false) "db-1"
    (LeaderBound (Root "request") (Root "leader"))
    (switch_authorization "switch-1000" (MemoryStore.cluster (test_store "db-1" 7)))
    (node_config "db-2" "10.0.0.2:3306") (take 29 switch_trace).
Proof.
  eapply (replicas_follow_persisted_primary (test_controller true false) (Root "request")
    "db-2" false switch_trace _ (take 29 switch_trace) _ _ _ _ (Ok tt) (drop 30 switch_trace)).
  - apply behaves_run.
  - vm_compute. reflexivity.
Defined.

(** C7: with actions turned off, or for an automatic switch with automatic
    execution turned off, a switch demotes, promotes and repoints no node and
    writes no cluster state, in any trace. *)
Theorem dry_run_mutates_nothing c ctx target automatic tr r :
  ExecuteActions (cfg c) = false \/ automatic = true /\ AutoFailoverExecute (cfg c) = false ->
  behaves (Switch c ctx target automatic) tr r ->
  Forall (fun ev => match ev with Ev e _ => mutation e = false end) tr.
Proof.
  intros Hdry. apply all_calls_behaves, Switch_dry_quiet. unfold switch_dry_run.
  destruct Hdry as [->|[-> ->]]; [done|]. by rewrite orb_true_r.
Qed.

Lemma dry_run_mutates_nothing_witness :
  AutoFailoverExecute (cfg (test_controller true false)) = false /\
  Forall (fun ev => match ev with Ev e _ => mutation e = false end) automatic_dry_trace.
Proof.
  split; [reflexivity|].
  apply (dry_run_mutates_nothing (test_controller true false) Background "db-2" true _ _
    (or_intror (conj eq_refl eq_refl)) (behaves_run _ _ _)).
Defined.

(** C8: on either store of the program ([MemoryStore], or [EtcdStore] whatever
    etcd answers), every call [Switch] makes to a node, and every call to the
    store but the task reports and the release, comes after the controller found
    itself leader with an active leadership context, and runs under a context
    that is cancelled as soon as that leadership context is; the context of the
    switch lock, which the store derives, included. *)
Theorem calls_need_leadership prefix c ctx target automatic tr r tr1 X (e : ctlE X) x tr2 ectx :
  behaves (Switch c ctx target automatic) tr r -> answers_ok (store_answers prefix) tr ->
  tr = tr1 ++ Ev e x :: tr2 -> call_ctx e = Some ectx ->
  exists l, leads l tr1 /\
    forall lost, cancelled lost l = true -> cancelled lost ectx = true.
Proof.
  intros Hb Hans -> Hctx.
  destruct (proj2 (adequacy _ leader_obligation _ (fun _ _ => True) _ _
    (Switch_leads prefix _ _ _ _) Hb Hans) tr1 X e x tr2 eq_refl ectx Hctx) as (l & Hl & Hd).
  exists l. split; [done|]. intros lost. by apply derives_cancelled.
Qed.

(** The store of a run of [Sim.v] that loses no task report is [MemoryStore]. *)
Lemma world_keeps_store X (e : ctlE X) w :
  w_store_down w = false -> w_store_down (world_step X e w).2 = false.
Proof.
  intros Hw. destruct e as [X e|X id e| | | | | | | | | | | | | | | | | | | | |]; try done.
  - cbn. unfold store_step. destruct (MemoryStore.step X e (w_store w)), e; try done. by rewrite Hw.
  - cbn. unfold node_step. by destruct (fakes_step id X e (w_nodes w)).
Qed.

Lemma world_answers {A} (p : prog ctlE A) prefix w :
  w_store_down w = false -> answers_ok (store_answers prefix) (trace_of world_step p w).
Proof.
  revert w. induction p as [a|X e k IH]; intros w Hw; [constructor|]. cbn [trace_of].
  pose proof (world_keeps_store X e w Hw) as Hw'.
  destruct (world_step X e w) as [x w'] eqn:Hx. constructor; [|by apply IH].
  destruct e; try done. left. exists (w_store w). revert Hx. cbn. unfold store_step. rewrite Hw.
  destruct (MemoryStore.step X e (w_store w)) as [y s]. destruct e; by intros [= <- _].
Qed.

Lemma calls_need_leadership_witness :
  exists l, leads l (take 22 switch_trace) /\
    forall lost, cancelled lost l = true ->
      cancelled lost (LeaderBound (Root "request") (Root "leader")) = true.
Proof.
  eapply (calls_need_leadership "/ha/test" (test_controller true false) (Root "request") "db-2" false
    switch_trace _ (take 22 switch_trace) _
    (ENode "db-2" (NPromote (LeaderBound (Root "request") (Root "leader"))
      (switch_authorization "switch-1000" (MemoryStore.cluster (test_store "db-1" 7)))))
    (Ok tt) (drop 23 switch_trace)).
  - apply behaves_run.
  - apply world_answers. reflexivity.
  - vm_compute. reflexivity.
  - reflexivity.
Defined.
