(* ===== verification/SplitBrain.v ===== *)
(** * At most one writable node, and the recorded primary

    [Switch] run against any store that honours [store_contract] and any
    agents that honour [node_post]: calls may fail before or after they take
    effect, every other answer is arbitrary.  The state is the abstract store
    and the set of nodes that accept writes. *)
From S2P Require Import Prelude GoStd Effects Model Config Store Node Controller Sim SwitchSafety.

Definition world : Type := AbsStore * gset string.

Definition one_writer (W : gset string) : Prop := forall n m, n ∈ W -> m ∈ W -> n = m.

Definition world_post {X} (e : ctlE X) : world -> X -> world -> Prop :=
  match e in ctlE X return world -> X -> world -> Prop with
  | EStore e => fun w x w' => store_post e w.1 x w'.1 /\ w'.2 = w.2
  | ENode id e => fun w x w' => w'.1 = w.1 /\ node_post id e w.2 x w'.2
  | _ => fun w _ w' => w' = w
  end.

(** Obligation at every call: no two nodes accept writes. *)
Definition world_spec : espec ctlE world := {|
  pre _ _ w := one_writer w.2;
  post _ e := world_post e
|}.

(** The cluster state [c0] with primary [t] at the next epoch. *)
Definition succeeded_by (t : string) (now : time) (c0 : ClusterState) : ClusterState := {|
  cs_Name := cs_Name c0; Primary := t; Epoch := uint64 (Epoch c0 + 1);
  AutoFailover := AutoFailover c0; UpdatedAt := now |}.

(** How a switch may leave the cluster state [c0], given its outcome. *)
Definition switch_outcome (c : Controller) (target : string) (automatic : bool)
    (c0 : ClusterState) (r : switch_result) (c1 : ClusterState) : Prop :=
  (c1 = c0 /\ (r.2 = None -> switch_dry_run (cfg c) automatic = true)) \/
  (switch_dry_run (cfg c) automatic = false /\
   exists t now, c1 = succeeded_by t now c0 /\ t ∈ clients c /\ t <> Primary c0 /\
     (target = "" \/ t = target)).

(** The world has cluster state [c0] and writable nodes [W]. *)
Definition at_world (c0 : ClusterState) (W : gset string) (w : world) : Prop :=
  a_cluster w.1 = c0 /\ w.2 = W.

(** ** Writers *)
Lemma one_writer_sub n W : W ⊆ {[n]} -> one_writer W.
Proof. intros HW x y Hx%HW Hy%HW. set_solver. Qed.
#[export] Hint Resolve one_writer_sub : ha.

(** ** Calls that change neither *)
Lemma store_quiet {X} (e : storeE X) a x a' :
  cluster_mutation e = false -> store_post e a x a' -> a_cluster a' = a_cluster a.
Proof. destruct e; simpl; try done; naive_solver. Qed.

Lemma node_quiet {X} id (e : nodeE X) W x W' :
  node_mutation e = false -> node_post id e W x W' -> W' = W.
Proof. destruct e; simpl; try done; naive_solver. Qed.

Lemma world_quiet {X} (e : ctlE X) c0 W w x w' :
  mutation e = false -> world_post e w x w' -> at_world c0 W w -> at_world c0 W w'.
Proof.
  unfold at_world. destruct e as [? e|? id e| | | | | | | | | | | | | | | | | | | | |];
    simpl; intros Hq Hp [Hc HW]; subst; try by subst.
  - destruct Hp as [Hs ->]. split; [by eapply store_quiet|done].
  - destruct Hp as [-> Hn]. split; [done|by eapply node_quiet].
Qed.

Lemma at_world_pre {X} (e : ctlE X) c0 W w :
  at_world c0 W w -> one_writer W -> pre world_spec e w.
Proof. by intros [_ <-]. Qed.
#[export] Hint Resolve at_world_pre : ha.

Lemma quiet_frame {A} (p : prog ctlE A) c0 W w :
  all_calls quiet p -> one_writer W -> at_world c0 W w ->
  wp world_spec p (fun _ w' => at_world c0 W w') w.
Proof.
  intros Hp HW. apply (all_calls_wp quiet _ _ _ (at_world c0 W)); [done|..|done].
  - eauto with ha.
  - intros X e w1 x w2 He Hw Hpost. by eapply world_quiet.
Qed.

(** A quiet program followed by [f]. *)
Lemma quiet_bind {A B} (p : prog ctlE A) (f : A -> prog ctlE B) Q c0 W w :
  all_calls quiet p -> one_writer W -> at_world c0 W w ->
  (forall a w', at_world c0 W w' -> wp world_spec (f a) Q w') -> wp world_spec (bind p f) Q w.
Proof. intros Hp HW Hw Hf. eapply wp_seq; [by eapply quiet_frame|]. auto. Qed.

Lemma quiet_try {A B} (p : prog ctlE (result A)) h (q : A -> prog ctlE B) Q c0 W w :
  all_calls quiet p -> one_writer W -> at_world c0 W w ->
  (forall e w', at_world c0 W w' -> wp world_spec (h e) Q w') ->
  (forall a w', at_world c0 W w' -> wp world_spec (q a) Q w') ->
  wp world_spec (try_else p h q) Q w.
Proof. intros. eapply quiet_bind; eauto. by intros []; auto. Qed.

(** ** The recorded cluster state

    Followed on its own, whatever the nodes do and answer: only the conditional
    write of [switch_promote] can change it. *)
Definition recorded_post {X} (e : ctlE X) : AbsStore -> X -> AbsStore -> Prop :=
  match e in ctlE X return AbsStore -> X -> AbsStore -> Prop with
  | EStore e => store_post e
  | _ => fun a _ a' => a' = a
  end.
Definition recorded_spec : espec ctlE AbsStore :=
  {| pre _ _ _ := True; post _ e := recorded_post e |}.

Definition unrecorded (X : Type) (e : ctlE X) : Prop :=
  match e with EStore e => cluster_mutation e = false | _ => True end.

Lemma quiet_unrecorded {A} (p : prog ctlE A) : all_calls quiet p -> all_calls unrecorded p.
Proof. intros Hp. eapply all_calls_impl; [exact Hp|]. by intros X []. Qed.
#[local] Hint Resolve quiet_unrecorded : ha.

Lemma unrecorded_frame {A} (p : prog ctlE A) c0 a :
  all_calls unrecorded p -> a_cluster a = c0 ->
  wp recorded_spec p (fun _ a' => a_cluster a' = c0) a.
Proof.
  intros Hp. apply (all_calls_wp unrecorded _ _ _ (fun a => a_cluster a = c0)); [done|done|..|done].
  intros X e a1 x a2 He <-. destruct e; try by intros ->. by apply store_quiet.
Qed.

(** A program that leaves the recorded state alone, followed by [f]. *)
Lemma unrecorded_bind {A B} (p : prog ctlE A) (f : A -> prog ctlE B) Q c0 a :
  all_calls unrecorded p -> a_cluster a = c0 ->
  (forall x a', a_cluster a' = c0 -> wp recorded_spec (f x) Q a') -> wp recorded_spec (bind p f) Q a.
Proof. intros Hp Ha Hf. eapply wp_seq; [by apply unrecorded_frame|]. auto. Qed.

Lemma unrecorded_try {A B} (p : prog ctlE (result A)) h (q : A -> prog ctlE B) Q c0 a :
  all_calls unrecorded p -> a_cluster a = c0 ->
  (forall e a', a_cluster a' = c0 -> wp recorded_spec (h e) Q a') ->
  (forall x a', a_cluster a' = c0 -> wp recorded_spec (q x) Q a') ->
  wp recorded_spec (try_else p h q) Q a.
Proof. intros. eapply unrecorded_bind; eauto. by intros []; auto. Qed.

Lemma recorded_GetCluster {B} ctx h (q : ClusterState -> prog ctlE B) Q c0 a :
  a_cluster a = c0 -> (forall e, wp recorded_spec (h e) Q a) -> wp recorded_spec (q c0) Q a ->
  wp recorded_spec (try_else (store_call (SGetCluster ctx)) h q) Q a.
Proof.
  intros <- Hh Hq. apply wp_try, wp_call; [done|]. intros [s|e] a' [-> Hs]; [|done].
  by rewrite (Hs s eq_refl).
Qed.

Section recorded.
Context (c : Controller) (automatic : bool) (target0 : string) (c0 : ClusterState).

Definition recorded_as (r : switch_result) (a : AbsStore) : Prop :=
  switch_outcome c target0 automatic c0 r (a_cluster a).

Lemma failed_as r a : a_cluster a = c0 -> r.2 <> None -> recorded_as r a.
Proof. intros Ha Hr. left. split; [done|]. by intros Hn. Qed.

Lemma switched_as r a target now :
  switch_dry_run (cfg c) automatic = false -> target <> Primary c0 -> target ∈ clients c ->
  target0 = "" \/ target = target0 -> a_cluster a = succeeded_by target now c0 -> recorded_as r a.
Proof. intros Hdry Hne Hcl Ht Ha. right. split; [done|]. exists target, now. naive_solver. Qed.

(** What is left after a failure, or after the change was made. *)
Lemma finishTask_recorded task e a :
  a_cluster a = c0 -> wp recorded_spec (finishTask task e) recorded_as a.
Proof.
  intros Ha. unfold finishTask.
  do 6 (eapply unrecorded_bind; [calls; done|done|]; clear a Ha; intros ? a Ha).
  by apply failed_as.
Qed.

Lemma switch_finish_unrecorded ctx auth task target st :
  all_calls unrecorded (switch_finish c ctx auth task target st).
Proof. unfold switch_finish, reconfigure_replicas, node_call. calls; done. Qed.

Lemma switch_execute_recorded ctx auth task target a :
  switch_dry_run (cfg c) automatic = false -> target <> Primary c0 -> target ∈ clients c ->
  target0 = "" \/ target = target0 -> a_cluster a = c0 ->
  wp recorded_spec (switch_execute c ctx auth task target c0) recorded_as a.
Proof.
  intros Hdry Hne Hcl Ht Ha. unfold switch_execute, switch_promote, node_call.
  eapply unrecorded_try; [calls; done|done|by intros; apply finishTask_recorded|].
  clear a Ha. intros _ a Ha. case_match; [by apply finishTask_recorded|].
  eapply unrecorded_try; [calls; done|done|by intros; apply finishTask_recorded|].
  clear a Ha. intros _ a Ha. eapply unrecorded_bind; [calls; done|done|].
  clear a Ha. intros demoted a Ha. case_match; [by apply finishTask_recorded|].
  do 3 (eapply unrecorded_try; [calls; done|done|by intros; apply finishTask_recorded|];
    clear a Ha; intros ? a Ha).
  eapply unrecorded_bind; [calls; done|done|]. clear a Ha. intros promoted a Ha.
  case_match; [by apply finishTask_recorded|].
  eapply unrecorded_bind; [calls; done|done|]. clear a Ha. intros now a Ha.
  apply wp_try, wp_call; [done|]. intros r a' Hpost. cbn in Hpost.
  assert (a_cluster a' = succeeded_by target now c0 \/ a_cluster a' = c0 /\ is_ok r = false) as [Hs|[Hs Hr]].
  { destruct Hpost as [[_ ->]|[-> ?]]; auto. }
  - assert (all_calls unrecorded (switch_finish c ctx auth task target (switched_state target now c0)) /\
      forall e, all_calls unrecorded (finishTask task e)) as [Hf He].
    { split; [apply switch_finish_unrecorded|]. intros e. apply quiet_unrecorded, finishTask_quiet. }
    destruct r as [[]|e]; (eapply wp_mono; [by apply unrecorded_frame|]);
      intros r a'' Ha''; eapply (switched_as _ _ target now); [done..|by rewrite Ha''].
  - destruct r; [done|]. by apply finishTask_recorded.
Qed.
End recorded.

(** Deferred calls that are quiet keep the outcome. *)
Lemma recorded_frame {A} c automatic target0 c0 (d : prog ctlE A) r a :
  all_calls quiet d -> recorded_as c automatic target0 c0 r a ->
  wp recorded_spec d (fun _ => recorded_as c automatic target0 c0 r) a.
Proof.
  intros Hd Hr. eapply wp_mono; [by apply (unrecorded_frame d (a_cluster a)); [apply quiet_unrecorded|]|].
  intros x a' Ha'. unfold recorded_as in *. by rewrite Ha'.
Qed.

Lemma switch_locked_recorded c ctx auth target automatic target0 c0 a :
  target0 = "" \/ target = target0 -> target ∈ clients c -> a_cluster a = c0 ->
  wp recorded_spec (switch_locked c ctx auth target automatic c0)
    (recorded_as c automatic target0 c0) a.
Proof.
  intros Ht Hc Ha. unfold switch_locked, switch_task, fail_switch.
  assert (forall e a', a_cluster a' = c0 -> recorded_as c automatic target0 c0 (None, Some e) a') as Hfail.
  { intros e a' Ha'. by apply failed_as. }
  eapply recorded_GetCluster; [done|intros; by apply Hfail|].
  do 3 (case_on_match; [by apply Hfail|]).
  eapply unrecorded_bind; [calls; done|done|]. clear a Ha. intros candidate a Ha.
  case_on_match; [by apply Hfail|]. propify.
  do 4 (eapply unrecorded_bind; [calls; done|done|]; clear a Ha; intros ? a Ha).
  eapply unrecorded_try; [calls; done|done|intros; by apply Hfail|]. clear a Ha. intros _ a Ha. apply wp_defer.
  eapply wp_mono; [|intros r a'; apply recorded_frame; eauto with ha].
  destruct (switch_dry_run (cfg c) automatic) eqn:Hdry; [|by eapply switch_execute_recorded].
  eapply wp_mono; [by apply unrecorded_frame; [apply quiet_unrecorded; eauto with ha|]|].
  intros r a' Ha'. by left.
Qed.

Lemma Switch_recorded c ctx target automatic a :
  wp recorded_spec (Switch c ctx target automatic)
    (recorded_as c automatic target (a_cluster a)) a.
Proof.
  unfold Switch, switch_as_leader, fail_switch, IsLeader. set (c0 := a_cluster a).
  assert (a_cluster a = c0) as Ha by done. clearbody c0.
  assert (forall e a', a_cluster a' = c0 -> recorded_as c automatic target c0 (None, Some e) a') as Hfail.
  { intros e a' Ha'. by apply failed_as. }
  eapply unrecorded_bind; [calls; done|done|]. clear a Ha. intros leader a Ha.
  case_match; [by apply Hfail|].
  eapply unrecorded_try; [calls; done|done|intros; by apply Hfail|]. clear a Ha. intros ctx' a Ha.
  apply wp_defer. eapply wp_mono; last (intros r a'; apply recorded_frame; calls; done).
  eapply recorded_GetCluster; [done|intros; by apply Hfail|].
  eapply (wp_seq _ _ _ (fun r a' => a_cluster a' = c0 /\
    forall t, r = Ok t -> target = "" \/ t = target)).
  { case_bool_decide; [|split; [done|naive_solver]].
    eapply wp_mono; [by apply unrecorded_frame; [apply quiet_unrecorded; eauto with ha|]|]. naive_solver. }
  clear a Ha. intros [t|e] a [Ha Ht]; [|by apply Hfail]. specialize (Ht t eq_refl).
  case_bool_decide as Hcl; [|by apply Hfail]. simpl. case_bool_decide; [by apply Hfail|].
  eapply unrecorded_bind; [calls; done|done|]. clear a Ha. intros now a Ha.
  eapply unrecorded_try; [calls; done|done|intros; by apply Hfail|]. clear a Ha. intros h a Ha.
  apply wp_defer. eapply wp_mono; [by eapply switch_locked_recorded|].
  intros r a'. apply recorded_frame. calls; done.
Qed.

(** ** The writable nodes, part by part *)
Definition safely_left {A} (_ : A) (w : world) : Prop := one_writer w.2.

Lemma quiet_left {A} (p : prog ctlE A) c0 W w :
  all_calls quiet p -> one_writer W -> at_world c0 W w -> wp world_spec p safely_left w.
Proof.
  intros Hp HW Hw. eapply wp_mono; [by eapply quiet_frame|]. intros r w' [_ HW'].
  unfold safely_left. by rewrite HW'.
Qed.

Section switch.
Context (c : Controller) (ctx : Context) (task : loc) (target : string).

Lemma finishTask_part c0 e W w :
  one_writer W -> at_world c0 W w -> wp world_spec (finishTask task e) safely_left w.
Proof. intros. eapply quiet_left; eauto with ha. Qed.

Lemma switch_finish_part auth c1 W w :
  W ⊆ {[target]} -> at_world c1 W w ->
  wp world_spec (switch_finish c ctx auth task target c1) safely_left w.
Proof.
  intros HW Hw. unfold switch_finish.
  assert (one_writer W) by eauto with ha.
  eapply quiet_try; [calls; done|done|done|intros; by eapply finishTask_part|].
  clear w Hw. intros _ w Hw. eapply quiet_bind; [calls; done|done|done|].
  clear w Hw. intros order w Hw. apply wp_bind. unfold reconfigure_replicas.
  eapply (wp_for_return _ _ _ (fun _ w => exists W, W ⊆ {[target]} /\ at_world c1 W w)); [..|eauto].
  - intros id l w1 (W1 & HW1 & Hw1). case_bool_decide; [by exists W1|].
    apply wp_bind, wp_call; [eauto with ha|].
    intros x w2 [Hs Hn]. simpl in Hn.
    assert (exists W, W ⊆ {[target]} /\ at_world c1 W w2) as (W2 & HW2 & Hw2).
    { destruct Hw1 as [<- <-], w2 as [a2 W2]. simpl in *. subst. exists W2. split; [|done].
      destruct Hn as [->|[-> _]]; set_solver. }
    destruct x as [[]|e]; [by exists W2|].
    eapply finishTask_part; [by eapply one_writer_sub|done].
  - intros w1 (W1 & HW1 & Hw1). eapply quiet_left; [calls; done|by eapply one_writer_sub|done].
Qed.

Lemma switch_promote_part auth c0 gtid w :
  at_world c0 ∅ w ->
  wp world_spec (switch_promote c ctx auth task target c0 gtid) safely_left w.
Proof.
  intros Hw. unfold switch_promote.
  assert (one_writer ∅) by (apply (one_writer_sub target); set_solver).
  eapply quiet_try; [calls; done|done|done|intros; by eapply finishTask_part|].
  clear w Hw. intros _ w Hw. apply wp_try, wp_call; [eauto with ha|].
  intros x w1 [Hs Hn]. simpl in Hn.
  assert (exists W, W ⊆ {[target]} /\ at_world c0 W w1) as (W & HW & Hw1).
  { destruct Hw as [<- HW], w1 as [a1 W1]. simpl in *. subst. exists W1. split; [|done].
    destruct Hn as [->|[-> _]]; set_solver. }
  clear w Hw Hs Hn. assert (one_writer W) by eauto with ha.
  destruct x as [[]|e]; [|by eapply finishTask_part].
  eapply quiet_bind; [calls; done|done|done|]. clear w1 Hw1. intros promoted w Hw.
  case_match; [by eapply finishTask_part|].
  eapply quiet_bind; [calls; done|done|done|]. clear w Hw. intros now w Hw.
  apply wp_try, wp_call; [eauto with ha|].
  intros x w1 [Hs HW1]. simpl in Hs, HW1. destruct Hw as [Hc <-].
  destruct x as [[]|e]; [|by eapply (finishTask_part (a_cluster w1.1))].
  destruct Hs as [[_ Hs]|[_ [=]]]. eapply switch_finish_part; [done|]. split; [|done]. by rewrite Hs.
Qed.

Lemma switch_execute_part auth c0 W w :
  W ⊆ {[Primary c0]} -> at_world c0 W w ->
  wp world_spec (switch_execute c ctx auth task target c0) safely_left w.
Proof.
  intros HW Hw. unfold switch_execute. assert (one_writer W) by eauto with ha.
  eapply quiet_try; [calls; done|done|done|intros; by eapply finishTask_part|].
  clear w Hw. intros _ w Hw.
  case_match; [by eapply finishTask_part|].
  apply wp_try, wp_call; [eauto with ha|]. intros x w1 [Hs Hn]. simpl in Hn.
  destruct Hw as [<- <-], w1 as [a1 W1]. simpl in *. subst a1.
  assert (one_writer W1) by (apply (one_writer_sub (Primary (a_cluster w.1))); set_solver).
  destruct x as [[]|e]; [|by eapply finishTask_part].
  assert (W1 = ∅) as -> by (destruct Hn as [->|[_ [=]]]; set_solver).
  assert (at_world (a_cluster w.1) ∅ (w.1, ∅)) as Hw1 by done. revert Hw1. clear Hn.
  generalize (w.1, ∅ : gset string). intros w1 Hw1.
  eapply quiet_bind; [calls; done|done|done|]. clear w1 Hw1. intros demoted w1 Hw1.
  case_match; [by eapply finishTask_part|].
  eapply quiet_try; [calls; done|done|done|intros; by eapply finishTask_part|].
  clear w1 Hw1. intros gtid w1 Hw1. by apply switch_promote_part.
Qed.
End switch.

(** Deferred calls that are quiet change nothing. *)
Lemma part_frame {A B} (d : prog ctlE A) (r : B) w :
  all_calls quiet d -> safely_left r w -> wp world_spec d (fun _ => safely_left r) w.
Proof. intros Hd Hone. by apply (quiet_left d (a_cluster w.1) w.2). Qed.

(** Reading the cluster state. *)
Lemma try_GetCluster {B} ctx h (q : ClusterState -> prog ctlE B) Q c0 W w :
  one_writer W -> at_world c0 W w ->
  (forall e w', at_world c0 W w' -> wp world_spec (h e) Q w') ->
  (forall w', at_world c0 W w' -> wp world_spec (q c0) Q w') ->
  wp world_spec (try_else (store_call (SGetCluster ctx)) h q) Q w.
Proof.
  intros HW Hw Hh Hq. apply wp_try, wp_call; [eauto with ha|]. intros x w1 Hpost.
  assert (at_world c0 W w1) as Hw1 by exact (world_quiet (EStore (SGetCluster ctx)) _ _ _ _ _ eq_refl Hpost Hw).
  destruct x as [s|e]; [|by apply Hh]. destruct Hpost as [[_ Hs] _].
  rewrite (Hs s eq_refl). destruct Hw as [-> _]. by apply Hq.
Qed.

Lemma switch_locked_part c ctx auth target automatic c0 W w :
  W ⊆ {[Primary c0]} -> at_world c0 W w ->
  wp world_spec (switch_locked c ctx auth target automatic c0) safely_left w.
Proof.
  intros HW Hw. unfold switch_locked, switch_task, fail_switch. assert (one_writer W) by eauto with ha.
  assert (forall r w', at_world c0 W w' -> safely_left (A := switch_result) r w') as Hfail.
  { by intros r w' [_ <-]. }
  eapply try_GetCluster; [done|done|intros; by apply Hfail|]. clear w Hw. intros w Hw.
  do 3 (case_on_match; [by apply Hfail|]).
  eapply quiet_bind; [calls; done|done|done|]. clear w Hw. intros candidate w Hw.
  case_on_match; [by apply Hfail|].
  do 4 (eapply quiet_bind; [calls; done|done|done|]; clear w Hw; intros ? w Hw).
  eapply quiet_try; [calls; done|done|done|intros; by apply Hfail|]. clear w Hw. intros _ w Hw. apply wp_defer.
  eapply wp_mono; [|intros r w'; apply part_frame; eauto with ha].
  case_match; [by eapply quiet_left; eauto with ha|by eapply switch_execute_part].
Qed.

Lemma Switch_one_writer c ctx target automatic a W :
  W ⊆ {[Primary (a_cluster a)]} ->
  wp world_spec (Switch c ctx target automatic) safely_left (a, W).
Proof.
  intros HW. unfold Switch, switch_as_leader, fail_switch, IsLeader.
  set (c0 := a_cluster a) in *. assert (one_writer W) by eauto with ha.
  assert (at_world c0 W (a, W)) as Hw by done. revert Hw. generalize (a, W). intros w Hw.
  assert (forall r w', at_world c0 W w' -> safely_left (A := switch_result) r w') as Hfail.
  { by intros r w' [_ <-]. }
  eapply quiet_bind; [calls; done|done|done|]. clear w Hw. intros leader w Hw.
  case_match; [by apply Hfail|].
  eapply quiet_try; [calls; done|done|done|intros; by apply Hfail|]. clear w Hw. intros ctx' w Hw.
  apply wp_defer. eapply wp_mono; last (intros r w'; apply part_frame; calls; done).
  eapply try_GetCluster; [done|done|intros; by apply Hfail|]. clear w Hw. intros w Hw.
  eapply quiet_try; [calls; done|done|done|intros; by apply Hfail|]. clear w Hw. intros t w Hw.
  do 2 (case_match; [by apply Hfail|]).
  eapply quiet_bind; [calls; done|done|done|]. clear w Hw. intros now w Hw.
  eapply quiet_try; [calls; done|done|done|intros; by apply Hfail|]. clear w Hw. intros h w Hw.
  apply wp_defer. eapply wp_mono; [by eapply switch_locked_part|].
  intros r w'. apply part_frame. calls; done.
Qed.

Lemma world_recorded X (e : ctlE X) w x w' :
  world_post e w x w' -> recorded_post e w.1 x w'.1.
Proof. destruct e; simpl; (by intros [? ?]) || by intros ->. Qed.

(** Both at once. *)
Lemma Switch_part c ctx target automatic a W :
  W ⊆ {[Primary (a_cluster a)]} ->
  wp world_spec (Switch c ctx target automatic) (fun r w =>
    one_writer w.2 /\ switch_outcome c target automatic (a_cluster a) r (a_cluster w.1)) (a, W).
Proof.
  intros HW. eapply (wp_lift _ recorded_spec fst _ _ (recorded_as c automatic target (a_cluster a)));
    [apply world_recorded|by apply Switch_one_writer|apply Switch_recorded].
Qed.

(** ** The automatic-failover flag *)

(** How [SetAutoFailover] may leave the cluster state [c0]. *)
Definition flag_outcome (enabled : bool) (c0 : ClusterState) (r : result unit)
    (c1 : ClusterState) : Prop :=
  (c1 = c0 /\ is_ok r = false) \/
  exists now, c1 = set_UpdatedAt now (set_AutoFailover enabled c0).

Lemma SetAutoFailover_part c ctx enabled c0 W w :
  one_writer W -> at_world c0 W w ->
  wp world_spec (SetAutoFailover c ctx enabled)
    (fun r w' => flag_outcome enabled c0 r (a_cluster w'.1) /\ w'.2 = W) w.
Proof.
  intros HW Hw. unfold SetAutoFailover, IsLeader.
  assert (forall e w', at_world c0 W w' ->
    flag_outcome enabled c0 (Err e) (a_cluster w'.1) /\ w'.2 = W) as Hfail.
  { intros e w' [<- <-]. split; [|done]. by left. }
  assert (forall (d : prog ctlE unit) r w', all_calls quiet d ->
    flag_outcome enabled c0 r (a_cluster w'.1) /\ w'.2 = W ->
    wp world_spec d (fun _ w'' => flag_outcome enabled c0 r (a_cluster w''.1) /\ w''.2 = W) w')
    as Hframe.
  { intros d r w' Hd [Ho HW']. eapply wp_mono; [by eapply (quiet_frame d (a_cluster w'.1) W)|].
    intros _ w'' [Hc'' HW'']. split; [by rewrite Hc''|done]. }
  eapply quiet_bind; [calls; done|done|done|]. clear w Hw. intros leader w Hw.
  case_on_match; [by apply Hfail|].
  eapply quiet_try; [calls; done|done|done|by auto|]. clear w Hw. intros ctx' w Hw.
  apply wp_defer. eapply wp_mono; [|intros r w'; apply Hframe; calls; done].
  eapply quiet_try; [calls; done|done|done|by auto|]. clear w Hw. intros h w Hw.
  apply wp_defer. eapply wp_mono; [|intros r w'; apply Hframe; calls; done].
  eapply try_GetCluster; [done|done|by auto|]. clear w Hw. intros w Hw.
  eapply quiet_bind; [calls; done|done|done|]. clear w Hw. intros now w Hw.
  apply wp_call; [eauto with ha|]. intros r w1 [Hs HW1]. simpl in Hs.
  destruct Hw as [<- <-]. split; [|done].
  destruct Hs as [[_ ->]|[-> Hr]]; [right; by exists now|by left].
Qed.

(** ** Composition with implementations of the interfaces

    A store that implements [Store], agents, and a handler for everything else. *)
Section composed.
Context {S N O : Type} (hs : handler storeE S) (hn : string -> handler nodeE N)
  (ho : handler ctlE O).

Definition compose : handler ctlE (S * N * O) := fun X e =>
  match e in ctlE X return S * N * O -> X * (S * N * O) with
  | EStore e => fun w => let '(x, s) := hs _ e w.1.1 in (x, (s, w.1.2, w.2))
  | ENode id e => fun w => let '(x, n) := hn id _ e w.1.2 in (x, (w.1.1, n, w.2))
  | e => fun w => let '(x, o) := ho _ e w.2 in (x, (w.1, o))
  end.

Context `{HS : !StoreImpl S hs}.

(** The recorded state of a run, whatever the agents are. *)
Lemma compose_recorded {A} (p : prog ctlE A) Q w a :
  wp recorded_spec p Q a -> abs_store w.1.1 a ->
  exists a', abs_store (run compose p w).2.1.1 a' /\ Q (run compose p w).1 a'.
Proof.
  intros Hwp Ha.
  apply (wp_simulation recorded_spec compose (fun w a => abs_store w.1.1 a) p Q w a); [|done..].
  clear -HS. intros X e w a Ha. destruct e; simpl;
    try (destruct (ho _ _ w.2); simpl; by exists a).
  - destruct (store_refines _ e w.1.1 a Ha) as (a' & Ha' & Hpost).
    destruct (hs X e w.1.1) as [x s]. by exists a'.
  - destruct (hn id X e w.1.2). by exists a.
Qed.

Context `{HN : !NodesImpl N hn}.

Lemma compose_simulates X (e : ctlE X) w (w0 : world) :
  abs_store w.1.1 w0.1 /\ w0.2 = writable w.1.2 ->
  exists w0', (abs_store (compose X e w).2.1.1 w0'.1 /\ w0'.2 = writable (compose X e w).2.1.2) /\
    world_post e w0 (compose X e w).1 w0'.
Proof.
  intros [Ha HW]. destruct w0 as [a W], e; simpl in *;
    try (destruct (ho _ _ w.2); simpl; by exists (a, W)).
  - destruct (store_refines _ e w.1.1 a Ha) as (a' & Ha' & Hpost).
    destruct (hs X e w.1.1) as [x s]. simpl in *. by exists (a', W).
  - pose proof (nodes_refine id _ e w.1.2) as Hpost.
    destruct (hn id X e w.1.2) as [x n]. simpl in *. subst W. by exists (a, writable n).
Qed.
End composed.

(** ** Theorems *)

(** C2: start from a cluster in which only the recorded primary may accept
    writes.  At every call [Switch] makes, and when it returns, no two nodes
    accept writes, whichever calls fail and whether or not the failed ones took
    effect, as long as no one else changes roles meanwhile (which the switch
    lock and the agents' authorization check are there to ensure). *)
Theorem switch_no_split_brain c ctx target automatic a W :
  W ⊆ {[Primary (a_cluster a)]} ->
  wp world_spec (Switch c ctx target automatic) (fun _ w => one_writer w.2) (a, W).
Proof. intros HW. eapply wp_mono; [by apply Switch_part|]. by intros r w [Hone _]. Qed.

Lemma switch_no_split_brain_witness :
  fakes_writable deployed_nodes ⊆ {["db-1"]} /\
  wp world_spec (Switch (test_controller true false) (Root "request") "db-2" false)
    (fun _ w => one_writer w.2)
    (MemoryStore.abstract (test_store "db-1" 7), fakes_writable deployed_nodes).
Proof.
  assert (fakes_writable deployed_nodes ⊆ {["db-1"]}) as HW.
  { apply (bool_decide_unpack _). vm_compute. exact I. }
  split; [exact HW|]. apply (switch_no_split_brain (test_controller true false)). exact HW.
Defined.

(** C3: run [Switch] on any implementation of [Store], whatever the agents do
    and answer, whatever nodes accept writes, and whatever the other calls
    answer.  The recorded cluster state is then either untouched, and the switch
    failed or was a dry run, or it is the old state with one change: a
    configured node other than the old primary (the requested one, if one was
    requested) as primary and the next epoch.  A switch that reports success
    outside a dry run has made that change. *)
Theorem switch_changes_cluster_once {S N O} (hs : handler storeE S) (hn : string -> handler nodeE N)
    (ho : handler ctlE O) `{HS : !StoreImpl S hs} c ctx target automatic s n o a :
  abs_store s a ->
  let out := run (compose hs hn ho) (Switch c ctx target automatic) (s, n, o) in
  exists a', abs_store out.2.1.1 a' /\
    switch_outcome c target automatic (a_cluster a) out.1 (a_cluster a').
Proof.
  intros Ha out. apply (compose_recorded hs hn ho _ _ (s, n, o) a (Switch_recorded _ _ _ _ _) Ha).
Qed.

Lemma switch_changes_cluster_once_witness :
  let out := run (compose MemoryStore.step fakes_step world_step)
      (Switch (test_controller true false) (Root "request") "db-2" false)
      (test_store "db-1" 7, deployed_nodes, test_world false deployed_nodes) in
  out.1 = (Some 0%nat, None) /\
  exists a', abs_store (h := MemoryStore.step) out.2.1.1 a' /\
    switch_outcome (test_controller true false) "db-2" false
      (MemoryStore.cluster (test_store "db-1" 7)) out.1 (a_cluster a').
Proof.
  split; [vm_compute; reflexivity|].
  apply (switch_changes_cluster_once MemoryStore.step fakes_step world_step
    (test_controller true false) (Root "request") "db-2" false (test_store "db-1" 7)
    deployed_nodes (test_world false deployed_nodes) (MemoryStore.abstract (test_store "db-1" 7))).
  reflexivity.
Defined.

(** [SetAutoFailover] changes only the flag (and the time stamp) of the
    cluster state: primary, epoch and name stay, it reports success only when
    it changed the flag, and it touches no node. *)
Theorem set_auto_failover_outcome c ctx enabled a W :
  one_writer W ->
  wp world_spec (SetAutoFailover c ctx enabled)
    (fun r w => flag_outcome enabled (a_cluster a) r (a_cluster w.1) /\ w.2 = W) (a, W).
Proof. intros HW. by apply SetAutoFailover_part. Qed.

Lemma set_auto_failover_outcome_witness :
  wp world_spec (SetAutoFailover (test_controller true false) Background true)
    (fun r w => flag_outcome true (MemoryStore.cluster (test_store "db-1" 7)) r (a_cluster w.1) /\
      w.2 = {["db-1"]})
    (MemoryStore.abstract (test_store "db-1" 7), {["db-1"]}).
Proof.
  apply (set_auto_failover_outcome (test_controller true false) Background true
    (MemoryStore.abstract (test_store "db-1" 7))).
  intros n m Hn%elem_of_singleton Hm%elem_of_singleton. congruence.
Defined.
