(* ===== verification/Replication.v ===== *)
(** * No committed transaction is lost

    [Switch] in a world where clients commit transactions on the nodes that
    accept writes and replicas apply them, at any time between and during the
    controller's calls.  The state is that of [SplitBrain.v] and the set of
    transactions each node has executed.  What the code relies on of MySQL's
    GTIDs is a parameter [gtids], the transactions a GTID set text denotes, with
    the documented behaviour of the two calls that use it: [gtid_executed] names
    the transactions the server has executed, and [WAIT_FOR_EXECUTED_GTID_SET]
    succeeds only once the server has executed all of the given set. *)
From S2P Require Import Prelude GoStd Effects Model Config Store Node Controller Sim SwitchSafety SplitBrain.

(** A transaction, by its GTID: the server it was committed on and its number. *)
Definition txn : Type := string * Z.

(** The transactions each node has executed. *)
Definition history : Type := string -> gset txn.

(** How histories grow while only the nodes of [U] accept writes: nothing is
    forgotten, and what a node has executed was executed by some node before or
    is committed on a node of [U]. *)
Definition evolves (U : gset string) (X X' : history) : Prop :=
  (forall n, X n ⊆ X' n) /\
  forall n t, t ∈ X' n -> (exists m, t ∈ X m) \/ (exists m, m ∈ U /\ t ∈ X' m).

(** Node [n] has executed everything that was executed anywhere. *)
Definition complete (n : string) (X : history) : Prop := forall m, X m ⊆ X n.

Lemma evolves_mono U V X X' : U ⊆ V -> evolves U X X' -> evolves V X X'.
Proof. intros HU [Hg Ho]. split; [done|]. intros n t Ht. destruct (Ho n t Ht); set_solver. Qed.

Lemma complete_evolves n U X X' : U ⊆ {[n]} -> evolves U X X' -> complete n X -> complete n X'.
Proof.
  intros HU [Hg Ho] Hc m t Ht. destruct (Ho m t Ht) as [[k Hk]|(k & Hk%HU & Ht')].
  - by apply Hg, (Hc k).
  - by apply elem_of_singleton in Hk as ->.
Qed.

(** While no node accepts writes, a complete node executes nothing new. *)
Lemma complete_frozen n X X' : evolves ∅ X X' -> complete n X -> X' n ⊆ X n.
Proof. intros [_ Ho] Hc t Ht. destruct (Ho n t Ht) as [[m Hm]|?]; [by apply (Hc m)|set_solver]. Qed.

(** ** Phases

    A switch goes through phases in which the cluster state and the writable
    nodes stay as they are and the histories satisfy [J], whatever is
    replicated meanwhile. *)
Record phase (W : gset string) (J : history -> Prop) : Prop := {
  phase_stable : forall X X', evolves W X X' -> J X -> J X';
  phase_writers : forall X n, J X -> n ∈ W -> complete n X
}.

Lemma phase_complete n W : W ⊆ {[n]} -> phase W (complete n).
Proof.
  intros HW. split; [intros X X'; by apply complete_evolves|].
  by intros X m Hc ->%HW%elem_of_singleton.
Qed.

(** The complete node [p] has executed at most [T]. *)
Lemma phase_frozen p T : phase ∅ (fun X => complete p X /\ X p ⊆ T).
Proof.
  split; [|set_solver]. intros X X' He [Hc HT]. split; [by eapply complete_evolves; [|done..]|].
  etrans; [by apply (complete_frozen p X X')|done].
Qed.

Section replication.
Context (gtids : string -> gset txn).

Definition rworld : Type := world * history.

(** What the answers of the two calls say about the histories before and after. *)
Definition gtid_post {Y} (e : ctlE Y) : history -> Y -> history -> Prop :=
  match e in ctlE Y return history -> Y -> history -> Prop with
  | ENode id e =>
      match e in nodeE Y return history -> Y -> history -> Prop with
      | NExecutedGTID _ => fun X r X' => forall g, r = Ok g -> X id ⊆ gtids g /\ gtids g ⊆ X' id
      | NWaitForGTID _ _ g _ => fun _ r X' => r = Ok tt -> gtids g ⊆ X' id
      | _ => fun _ _ _ => True
      end
  | _ => fun _ _ _ => True
  end.

(** Obligation at every call: whoever accepts writes has executed everything
    committed so far. *)
Definition repl_spec : espec ctlE rworld := {|
  pre _ _ w := forall n, n ∈ w.1.2 -> complete n w.2;
  post _ e w x w' :=
    world_post e w.1 x w'.1 /\ evolves (w.1.2 ∪ w'.1.2) w.2 w'.2 /\ gtid_post e w.2 x w'.2
|}.

Definition in_phase (c0 : ClusterState) (W : gset string) (J : history -> Prop) (w : rworld) : Prop :=
  at_world c0 W w.1 /\ J w.2.

Section in_phase.
Context {c0 : ClusterState} {W : gset string} {J : history -> Prop} (HJ : phase W J).

Lemma phase_pre {Y} (e : ctlE Y) w : in_phase c0 W J w -> pre repl_spec e w.
Proof using HJ. intros [[_ <-] HX] n Hn. by apply (phase_writers _ _ HJ). Qed.

Lemma phase_quiet {Y} (e : ctlE Y) w x w' :
  post repl_spec e w x w' -> in_phase c0 W J w -> mutation e = false -> in_phase c0 W J w'.
Proof using HJ.
  intros (Hp & He & _) [Hw HX] Hq. pose proof (world_quiet e c0 W _ _ _ Hq Hp Hw) as Hw'.
  split; [done|]. eapply (phase_stable _ _ HJ); [|done]. eapply evolves_mono; [|done].
  destruct Hw as [_ <-], Hw' as [_ ->]. set_solver.
Qed.

Lemma phase_frame {A} (p : prog ctlE A) w :
  all_calls quiet p -> in_phase c0 W J w -> wp repl_spec p (fun _ => in_phase c0 W J) w.
Proof using HJ.
  intros Hp. apply (all_calls_wp quiet _ _ _ (in_phase c0 W J)); [done|..|done].
  - intros; by apply phase_pre.
  - intros Y e w1 x w2 He Hw Hpost. by eapply phase_quiet.
Qed.

Lemma phase_bind {A B} (p : prog ctlE A) (f : A -> prog ctlE B) Q w :
  all_calls quiet p -> in_phase c0 W J w ->
  (forall a w', in_phase c0 W J w' -> wp repl_spec (f a) Q w') -> wp repl_spec (bind p f) Q w.
Proof using HJ. intros Hp Hw Hf. eapply wp_seq; [by eapply phase_frame|]. auto. Qed.

Lemma phase_try {A B} (p : prog ctlE (result A)) h (q : A -> prog ctlE B) Q w :
  all_calls quiet p -> in_phase c0 W J w ->
  (forall e w', in_phase c0 W J w' -> wp repl_spec (h e) Q w') ->
  (forall a w', in_phase c0 W J w' -> wp repl_spec (q a) Q w') ->
  wp repl_spec (try_else p h q) Q w.
Proof using HJ. intros. eapply phase_bind; eauto. by intros []; auto. Qed.

(** A call that is not quiet, from a phase. *)
Lemma phase_call {Y} (e : ctlE Y) (Q : Y -> rworld -> Prop) w :
  in_phase c0 W J w ->
  (forall x w', post repl_spec e w x w' -> Q x w') -> wp repl_spec (call e) Q w.
Proof using HJ. intros Hw HQ. apply wp_call; [by apply phase_pre|done]. Qed.
End in_phase.

(** ** How a switch may leave the cluster *)

(** Some node has executed everything; no other accepts writes, and it is the
    recorded primary, unless the recorded state is still the old one. *)
Definition nothing_lost (c0 : ClusterState) (w : rworld) : Prop :=
  exists n, w.1.2 ⊆ {[n]} /\ complete n w.2 /\
    (a_cluster w.1.1 = c0 \/ n = Primary (a_cluster w.1.1)).

Lemma phase_nothing_lost c0 c1 W n w :
  in_phase c1 W (complete n) w -> W ⊆ {[n]} -> c1 = c0 \/ Primary c1 = n -> nothing_lost c0 w.
Proof.
  destruct w as [[a W0] X]. intros [[<- <-] HX] HW Hn. exists n.
  split; [done|]. split; [done|]. destruct Hn; auto.
Qed.

(** Quiet steps stay in their phase; other calls leave it. *)
Ltac known_phase := first [apply phase_frozen | apply phase_complete; set_solver].
Ltac stay Hw := eapply phase_bind; [|calls; done|exact Hw|]; [known_phase|].
Ltac stay_try Hw := eapply phase_try; [|calls; done|exact Hw|..]; [known_phase|..].
Ltac from_phase Hw := eapply phase_call; [|exact Hw|]; [known_phase|].

(** ** The parts of a switch *)
Section switch.
Context (c : Controller) (ctx : Context) (task : loc) (target : string).

Lemma finishTask_repl c0 c1 W n e w :
  in_phase c1 W (complete n) w -> W ⊆ {[n]} -> c1 = c0 \/ Primary c1 = n ->
  wp repl_spec (finishTask task e) (fun _ => nothing_lost c0) w.
Proof.
  intros Hw HW Hn. eapply wp_mono; [eapply (phase_frame (phase_complete n W HW)); [eauto with ha|exact Hw]|].
  intros r w' Hw'. eapply phase_nothing_lost; [exact Hw'|done|done].
Qed.

Lemma switch_finish_repl auth c0 c1 W w :
  W ⊆ {[target]} -> Primary c1 = target -> in_phase c1 W (complete target) w ->
  wp repl_spec (switch_finish c ctx auth task target c1) (fun _ => nothing_lost c0) w.
Proof.
  intros HW Hp Hw. unfold switch_finish.
  stay_try Hw; [intros; eapply finishTask_repl; eauto|].
  clear w Hw. intros _ w Hw. stay Hw. clear w Hw. intros order w Hw. apply wp_bind. unfold reconfigure_replicas.
  eapply (wp_for_return _ _ _ (fun _ w => exists W, W ⊆ {[target]} /\ in_phase c1 W (complete target) w));
    [..|eauto].
  - intros id l w1 (W1 & HW1 & Hw1). case_bool_decide; [by exists W1|].
    apply wp_bind. from_phase Hw1.
    intros x w2 ([Hs Hn] & He & _). simpl in Hn.
    assert (exists W, W ⊆ {[target]} /\ in_phase c1 W (complete target) w2) as (W2 & HW2 & Hw2).
    { destruct Hw1 as [[<- <-] HX], w2 as [[a2 W2] X2]. simpl in *. subst a2.
      assert (W2 ⊆ {[target]}) by (destruct Hn as [->|[-> _]]; set_solver).
      exists W2. split; [done|]. split; [done|]. eapply complete_evolves; [|done..]. set_solver. }
    destruct x as [[]|e]; [by exists W2|]. eapply finishTask_repl; eauto.
  - intros w1 (W1 & HW1 & Hw1).
    do 7 (stay Hw1; clear w1 Hw1; intros ? w1 Hw1).
    eapply phase_nothing_lost; eauto.
Qed.

(** From a caught-up target on. *)
Lemma switch_promote_repl auth c0 g w :
  in_phase c0 ∅ (fun X => complete (Primary c0) X /\ X (Primary c0) ⊆ gtids g) w ->
  wp repl_spec (switch_promote c ctx auth task target c0 g) (fun _ => nothing_lost c0) w.
Proof.
  intros Hw. unfold switch_promote.
  (* the wait: on success the target has all the transactions of the old primary *)
  apply wp_try. from_phase Hw. intros x w1 Hpost.
  pose proof (phase_quiet (phase_frozen (Primary c0) (gtids g)) _ _ _ _ Hpost Hw eq_refl)
    as [Hw1 [Hc1 HT]].
  assert (in_phase c0 ∅ (complete (Primary c0)) w1) as Hold by done.
  destruct Hpost as (_ & _ & Hwait). simpl in Hwait.
  destruct x as [[]|e]; [|eapply finishTask_repl; [exact Hold|set_solver|by left]].
  assert (in_phase c0 ∅ (complete target) w1) as Hnew.
  { split; [done|]. intros m. etrans; [apply Hc1|]. etrans; [exact HT|]. by apply Hwait. }
  clear Hwait Hold Hc1 HT Hw w Hw1. revert Hnew. generalize w1. clear w1. intros w Hw.
  (* the promotion: from now on the target may accept writes *)
  apply wp_try. from_phase Hw.
  intros x w1 ([Hs Hn] & He & _). simpl in Hn.
  assert (exists W, W ⊆ {[target]} /\ in_phase c0 W (complete target) w1) as (W & HW & Hw1).
  { destruct Hw as [[<- HW] HX], w as [[a0 W0] X0], w1 as [[a1 W1] X1]. simpl in *. subst.
    assert (W1 ⊆ {[target]}) by (destruct Hn as [->|[-> _]]; set_solver).
    exists W1. split; [done|]. split; [done|]. eapply complete_evolves; [|done..]. set_solver. }
  clear w Hw Hs Hn He.
  destruct x as [[]|e]; [|eapply finishTask_repl; eauto].
  stay Hw1. clear w1 Hw1. intros promoted w Hw.
  case_match; [eapply finishTask_repl; eauto|].
  stay Hw. clear w Hw. intros now w Hw.
  apply wp_try. from_phase Hw. intros x [[a1 W1] X1] ([Hs HW1] & He & _).
  destruct Hw as [[Hc HW'] HX], w as [[a0 W0] X0]. simpl in *. subst W0 W1.
  assert (complete target X1) as HX1 by (eapply complete_evolves; [|done..]; set_solver).
  destruct Hs as [[_ ->]|[-> Hx]].
  - assert (in_phase (switched_state target now c0) W (complete target)
      (with_cluster (switched_state target now c0) a0, W, X1)) as Hw1 by done.
    destruct x as [[]|e]; [by eapply switch_finish_repl|]. eapply finishTask_repl; eauto.
  - destruct x as [[]|e]; [done|]. eapply (finishTask_repl c0 c0 W target); [done..|by left].
Qed.

Lemma switch_execute_repl auth c0 W w :
  W ⊆ {[Primary c0]} -> in_phase c0 W (complete (Primary c0)) w ->
  wp repl_spec (switch_execute c ctx auth task target c0) (fun _ => nothing_lost c0) w.
Proof.
  intros HW Hw. unfold switch_execute.
  stay_try Hw; [intros; eapply finishTask_repl; eauto|].
  clear w Hw. intros _ w Hw. case_match; [eapply finishTask_repl; eauto|].
  apply wp_try. from_phase Hw. intros x w1 ([Hs Hn] & He & _). simpl in Hn.
  assert (exists W1, W1 ⊆ {[Primary c0]} /\ (is_ok x = true -> W1 = ∅) /\
    in_phase c0 W1 (complete (Primary c0)) w1) as (W1 & HW1 & Hok & Hw1).
  { destruct Hw as [[Hc HW'] HX], w as [[a0 W0] X0], w1 as [[a1 W1] X1]. simpl in *. subst.
    assert (W1 ⊆ {[Primary (a_cluster a0)]}) by (destruct Hn as [->|[-> _]]; set_solver).
    exists W1. split; [done|]. split; [|split; [done|eapply complete_evolves; [|done..]; set_solver]].
    intros Hok. destruct Hn as [->|[_ Hf]]; [set_solver|congruence]. }
  clear w Hw Hs Hn He W HW. destruct x as [[]|e]; [|eapply finishTask_repl; eauto].
  rewrite Hok in * by done. clear Hok W1 HW1.
  assert (∅ ⊆ ({[Primary c0]} : gset string)) by set_solver.
  stay Hw1. clear w1 Hw1. intros demoted w Hw.
  case_match; [eapply finishTask_repl; eauto|].
  (* the executed set of the old primary, which nothing can extend any more *)
  apply wp_try. from_phase Hw. intros x w1 Hpost.
  pose proof (phase_quiet (phase_complete (Primary c0) ∅ ltac:(done)) _ _ _ _ Hpost Hw eq_refl) as Hw1.
  destruct x as [g|e]; [|eapply finishTask_repl; eauto]. apply switch_promote_repl.
  destruct Hpost as ([Hs Hn] & He & Hg). destruct Hw as [Hw HX], Hw1 as [Hw1 HX1].
  split; [done|]. split; [done|]. etrans; [|apply (Hg g eq_refl)].
  apply complete_frozen; [|done]. eapply evolves_mono; [|exact He].
  destruct Hw as [_ Hw], Hw1 as [_ Hw1], w as [[??]?], w1 as [[??]?]. simpl in *. set_solver.
Qed.
End switch.

(** A quiet end does not lose anything either. *)
Lemma nothing_lost_frame {A} c0 (d : prog ctlE A) w :
  all_calls quiet d -> nothing_lost c0 w -> wp repl_spec d (fun _ => nothing_lost c0) w.
Proof.
  intros Hd (n & HW & Hn & Hc). eapply wp_mono;
    [by apply (phase_frame (c0 := a_cluster w.1.1) (phase_complete n w.1.2 HW))|].
  intros r w' Hw'. destruct Hc as [Hc|Hc];
    (eapply phase_nothing_lost; [exact Hw'|done|]); [by left|by right].
Qed.

Section whole.
Context (c : Controller) (target : string) (automatic : bool) (c0 : ClusterState) (W : gset string).
Context (HW : W ⊆ {[Primary c0]}).

Lemma kept w : in_phase c0 W (complete (Primary c0)) w -> nothing_lost c0 w.
Proof using HW. intros Hw. eapply phase_nothing_lost; [exact Hw|done|by left]. Qed.

Lemma switch_task_repl ctx auth dry w :
  in_phase c0 W (complete (Primary c0)) w ->
  wp repl_spec (switch_task c ctx auth target automatic dry c0) (fun _ => nothing_lost c0) w.
Proof using HW.
  intros Hw. unfold switch_task, fail_switch.
  do 4 (stay Hw; clear w Hw; intros ? w Hw).
  stay_try Hw; [intros ? ? Hw'; by apply kept|]. clear w Hw. intros _ w Hw.
  apply wp_defer. apply (wp_mono _ _ (fun _ => nothing_lost c0)).
  - destruct dry; [|by eapply switch_execute_repl].
    eapply wp_mono; [eapply (phase_frame (phase_complete _ _ HW)); [eauto with ha|exact Hw]|].
    intros r w' Hw'. by apply kept.
  - intros r w'. apply nothing_lost_frame. eauto with ha.
Qed.

Lemma try_GetCluster_repl {B} ctx h (q : ClusterState -> prog ctlE B) Q w :
  in_phase c0 W (complete (Primary c0)) w ->
  (forall e w', in_phase c0 W (complete (Primary c0)) w' -> wp repl_spec (h e) Q w') ->
  (forall w', in_phase c0 W (complete (Primary c0)) w' -> wp repl_spec (q c0) Q w') ->
  wp repl_spec (try_else (store_call (SGetCluster ctx)) h q) Q w.
Proof using HW.
  intros Hw Hh Hq. apply wp_try. from_phase Hw. intros x w1 Hpost.
  pose proof (phase_quiet (phase_complete _ _ HW) _ _ _ _ Hpost Hw eq_refl) as Hw1.
  destruct x as [s|e]; [|by apply Hh]. destruct Hpost as ([[_ Hs] _] & _).
  rewrite (Hs s eq_refl). destruct Hw as [[Hc _] _], w as [[a0 W0] X0]. simpl in Hc |- *.
  rewrite Hc. by apply Hq.
Qed.

Lemma switch_locked_repl ctx auth w :
  in_phase c0 W (complete (Primary c0)) w ->
  wp repl_spec (switch_locked c ctx auth target automatic c0) (fun _ => nothing_lost c0) w.
Proof using HW.
  intros Hw. unfold switch_locked, fail_switch.
  eapply try_GetCluster_repl; [exact Hw|intros ? ? Hw'; by apply kept|]. clear w Hw. intros w Hw.
  do 3 (case_on_match; [by apply kept|]).
  stay Hw. clear w Hw. intros candidate w Hw.
  case_on_match; [by apply kept|]. by apply switch_task_repl.
Qed.
End whole.

Lemma Switch_repl c ctx target automatic c0 W w :
  W ⊆ {[Primary c0]} -> in_phase c0 W (complete (Primary c0)) w ->
  wp repl_spec (Switch c ctx target automatic) (fun _ => nothing_lost c0) w.
Proof.
  intros HW Hw. unfold Switch, switch_as_leader, fail_switch, IsLeader.
  assert (forall w', in_phase c0 W (complete (Primary c0)) w' -> nothing_lost c0 w') as Hkept
    by (intros w'; by apply kept).
  stay Hw. clear w Hw. intros leader w Hw. case_match; [by apply Hkept|].
  stay_try Hw; [intros; by apply Hkept|]. clear w Hw. intros ctx' w Hw.
  apply wp_defer. apply (wp_mono _ _ (fun _ => nothing_lost c0));
    last (intros r w'; apply nothing_lost_frame; calls; done).
  eapply try_GetCluster_repl; [done|exact Hw|intros; by apply Hkept|]. clear w Hw. intros w Hw.
  stay_try Hw; [intros; by apply Hkept|]. clear w Hw. intros t w Hw.
  case_on_match; [by apply Hkept|]. case_on_match; [by apply Hkept|].
  stay Hw. clear w Hw. intros now w Hw.
  stay_try Hw; [intros; by apply Hkept|]. clear w Hw. intros h w Hw.
  apply wp_defer. eapply wp_mono; [by eapply switch_locked_repl|].
  intros r w'. apply nothing_lost_frame. calls; done.
Qed.

(** C4: start from a cluster in which only the recorded primary may accept
    writes and has executed every transaction committed so far, with clients
    committing and replicas applying transactions all the time.  At every call
    [Switch] makes, a node that accepts writes has executed every transaction
    committed anywhere up to then, whichever calls fail and whether or not the
    failed ones took effect; and when it returns, one node has them all, no other
    accepts writes, and if the recorded primary was changed it is that node. *)
Theorem switch_loses_no_transaction c ctx target automatic a W X :
  W ⊆ {[Primary (a_cluster a)]} -> complete (Primary (a_cluster a)) X ->
  wp repl_spec (Switch c ctx target automatic) (fun _ => nothing_lost (a_cluster a)) (a, W, X).
Proof. intros HW HX. by apply (Switch_repl _ _ _ _ _ W). Qed.
End replication.

(** ** A replicated cluster

    The nodes of [Sim.v] with a GTID set "n" for the first [n] transactions of
    one server; a node that is asked to wait catches up, if some node has the
    transactions. *)
Definition count (g : string) : Z := default 0 (ParseInt g).
Definition demo_gtids (g : string) : gset txn :=
  list_to_set ((fun k => ("uuid", k)) <$> seqZ 1 (count g)).

Abbreviation nodes_map := (gmap string fakeAgentNode).
Definition executed (m : nodes_map) : history := fun id =>
  match m !! id with Some n => demo_gtids (f_gtid n) | None => ∅ end.
Definition available (g : string) (m : nodes_map) : bool :=
  existsb (fun kv => count g <=? count (f_gtid kv.2)) (map_to_list m).
Definition catch_up (g : string) (n : fakeAgentNode) : fakeAgentNode :=
  {| f_status := f_status n; f_gtid := if count (f_gtid n) <? count g then g else f_gtid n;
     f_promoteCalls := f_promoteCalls n |}.

Definition replicas_step (id : string) : handler nodeE nodes_map := fun Y e =>
  match e in nodeE Y return nodes_map -> Y * nodes_map with
  | NWaitForGTID _ _ g _ => fun m =>
      match m !! id with
      | Some n => if available g m then (Ok tt, <[id := catch_up g n]> m) else (Err "timeout", m)
      | None => (Err "no such host", m)
      end
  | e => fakes_step id _ e
  end.

Lemma elem_of_demo_gtids t g : t ∈ demo_gtids g <-> t.1 = "uuid" /\ 1 <= t.2 <= count g.
Proof.
  unfold demo_gtids. rewrite elem_of_list_to_set, list_elem_of_fmap. setoid_rewrite elem_of_seqZ.
  destruct t as [u k]. simpl. split; [by intros (? & [= -> ->] & ?); split; [|lia]|].
  intros [-> ?]. exists k. split; [done|lia].
Qed.

Lemma fakes_keep_gtid id Y (e : nodeE Y) m j :
  f_gtid <$> ((fakes_step id Y e m).2 !! j) = f_gtid <$> (m !! j).
Proof.
  unfold fakes_step. destruct (m !! id) as [n|] eqn:Hm; [|done].
  destruct (decide (j = id)) as [->|Hne].
  - destruct e; simpl; by rewrite lookup_insert_eq, Hm.
  - destruct e; simpl; by rewrite lookup_insert_ne.
Qed.

Lemma executed_same m m' :
  (forall j, f_gtid <$> (m' !! j) = f_gtid <$> (m !! j)) -> forall j, executed m' j = executed m j.
Proof.
  intros Hm j. unfold executed. specialize (Hm j).
  destruct (m !! j), (m' !! j); simplify_eq/=; congruence.
Qed.

Lemma catch_up_executed m id n g :
  m !! id = Some n -> available g m = true ->
  demo_gtids g ⊆ executed (<[id := catch_up g n]> m) id /\
  evolves ∅ (executed m) (executed (<[id := catch_up g n]> m)).
Proof.
  intros Hid (kv & Hin & Hle)%existsb_exists. apply Z.leb_le in Hle.
  destruct kv as [k nk]. apply list_elem_of_In, elem_of_map_to_list in Hin. simpl in *.
  assert (forall t, t ∈ executed (<[id := catch_up g n]> m) id <-> t ∈ demo_gtids g \/ t ∈ executed m id) as He.
  { intros t. unfold executed. rewrite lookup_insert_eq, Hid. unfold catch_up. cbn [f_gtid].
    destruct (Z.ltb_spec (count (f_gtid n)) (count g)); rewrite !elem_of_demo_gtids;
      intuition lia. }
  assert (forall j, j <> id -> executed (<[id := catch_up g n]> m) j = executed m j) as Hne.
  { intros j Hj. unfold executed. by rewrite lookup_insert_ne. }
  split; [intros t Ht; apply He; by left|]. split.
  - intros j t Ht. destruct (decide (j = id)) as [->|Hj]; [apply He; by right|by rewrite Hne].
  - intros j t Ht. left. destruct (decide (j = id)) as [->|Hj]; [|exists j; by rewrite <-Hne].
    apply He in Ht as [Ht|Ht]; [|by exists id]. exists k. unfold executed. rewrite Hin.
    rewrite elem_of_demo_gtids in *. intuition lia.
Qed.

#[export] Program Instance replicas_impl : NodesImpl nodes_map replicas_step :=
  {| writable := fakes_writable |}.
Next Obligation.
  intros id Y e m.
  destruct e as [| |ctx auth set t| | | |]; try exact (nodes_refine (h := fakes_step) id _ _ m). simpl.
  destruct (m !! id) as [n|] eqn:Hm; [|done]. destruct (available set m); [|done].
  apply set_eq. intros j. simpl. rewrite fakes_writable_insert, !elem_of_fakes_writable.
  destruct (decide (j = id)) as [->|]; [|naive_solver]. rewrite Hm. naive_solver.
Qed.

Section demo.
Context {O : Type} (ho : handler ctlE O).

(** The abstract state that goes with a concrete one. *)
Definition mirrors (w : MemoryStore.t * nodes_map * O) (r : rworld) : Prop :=
  (abs_store (h := MemoryStore.step) w.1.1 r.1.1 /\ r.1.2 = fakes_writable w.1.2) /\ r.2 = executed w.1.2.

Lemma evolves_same U X X' : (forall n, X' n = X n) -> evolves U X X'.
Proof. intros HX. split; [intros n; by rewrite HX|]. intros n t Ht. left. exists n. by rewrite <-HX. Qed.

Lemma replicas_simulate Y (e : ctlE Y) w r :
  mirrors w r -> exists r', mirrors (compose MemoryStore.step replicas_step ho Y e w).2 r' /\
    post (repl_spec demo_gtids) e r (compose MemoryStore.step replicas_step ho Y e w).1 r'.
Proof.
  destruct r as [r X]. intros [Hw HX]. simpl in HX. subst X.
  destruct (compose_simulates (HN := replicas_impl) MemoryStore.step replicas_step ho Y e w r Hw)
    as (w0 & Hw0 & Hpost).
  set (w' := (compose _ _ _ _ _ _).2) in *. exists (w0, executed w'.1.2).
  split; [done|]. split; [exact Hpost|]. subst w'. clear Hw0 Hpost Hw.
  destruct e as [? e|? id e| | | | | | | | | | | | | | | | | | | | |]; simpl;
    try (by destruct (ho _ _ w.2); split; [apply evolves_same|]).
  - destruct (MemoryStore.step X e w.1.1). split; [by apply evolves_same|done].
  - destruct e; cbn -[fakes_step executed available catch_up].
    3: { destruct (w.1.2 !! id) as [n|] eqn:Hn; [|by split; [apply evolves_same|]].
         destruct (available set w.1.2) eqn:Ha; [|by split; [apply evolves_same|]]. simpl.
         destruct (catch_up_executed _ _ _ _ Hn Ha) as [Hg He]. split; [|done].
         apply (evolves_mono ∅); [set_solver|exact He]. }
    all: match goal with |- context [fakes_step ?i ?T ?e ?m] =>
           pose proof (executed_same _ _ (fakes_keep_gtid i T e m)) as Hs;
           destruct (fakes_step i T e m) as [x m'] eqn:Hstep end; simpl in *.
    all: split; [by apply evolves_same|try done].
    intros g ->. revert Hstep. unfold fakes_step. rewrite Hs. unfold executed.
    destruct (w.1.2 !! id); [|done]. simpl. by intros [= <- _].
Qed.
End demo.

Definition lagging_nodes : nodes_map := list_to_map [
  ("db-1", {| f_status := node_status true true RolePrimary None; f_gtid := "3"; f_promoteCalls := 0 |});
  ("db-2", {| f_status := set_roles true true true RoleReplica (Some (running_replica 0))
                (node_status true true RoleReplica None); f_gtid := "2"; f_promoteCalls := 0 |})].

Definition replicated_run : switch_result * (MemoryStore.t * nodes_map * World) :=
  run (compose MemoryStore.step replicas_step world_step)
    (Switch (test_controller true false) (Root "request") "db-2" false)
    (test_store "db-1" 7, lagging_nodes, test_world false lagging_nodes).

Lemma switch_loses_no_transaction_witness :
  f_gtid <$> (replicated_run.2.1.2 !! "db-2") = Some "3" /\
  exists r, mirrors replicated_run.2 r /\ nothing_lost (MemoryStore.cluster (test_store "db-1" 7)) r.
Proof.
  split; [vm_compute; reflexivity|].
  refine (wp_simulation (repl_spec demo_gtids) _ mirrors _
    (fun _ => nothing_lost (MemoryStore.cluster (test_store "db-1" 7))) _
    (MemoryStore.abstract (test_store "db-1" 7), fakes_writable lagging_nodes, executed lagging_nodes)
    (replicas_simulate world_step) _ _); [|done].
  apply (switch_loses_no_transaction demo_gtids (test_controller true false) (Root "request") "db-2" false
    (MemoryStore.abstract (test_store "db-1" 7))).
  - apply (bool_decide_unpack _). vm_compute. exact I.
  - intros m. unfold executed, lagging_nodes. cbn [list_to_map foldr].
    destruct (decide (m = "db-1")) as [->|H1]; [done|].
    destruct (decide (m = "db-2")) as [->|H2].
    + apply (bool_decide_unpack _). vm_compute. exact I.
    + simpl. rewrite !lookup_insert_ne by done. rewrite lookup_empty. set_solver.
Defined.
