(* ===== verification/Aftermath.v ===== *)
(** * After a switch that could not persist its result

    [Switch] promotes its target before it persists the new primary.  When that
    write fails the task is reported as failed, but the promotion stands: a node
    that is not recorded accepts writes.  The theorems of [SplitBrain.v] and
    [Replication.v] start from a cluster in which only the recorded primary may
    accept writes, so they do not cover the next switch; this file does. *)
From S2P Require Import Prelude GoStd Effects Model Config Store Node Controller Sim SwitchSafety SplitBrain.

(** The calls of a run, each with the state before it. *)
Fixpoint visits {E S A} (h : handler E S) (p : prog E A) (s : S) : list (S * event E) :=
  match p with
  | Ret _ => []
  | Vis e k => let '(x, s') := h _ e s in (s, Ev e x) :: visits h (k x) s'
  end.

(** An environment whose store and agents honour their contracts, [abs] being
    the abstract store and the writable nodes of its state. *)
Definition environment {S} (h : handler ctlE S) (abs : S -> world) : Prop :=
  forall X (e : ctlE X) s, world_post e (abs s) (h X e s).1 (abs (h X e s).2).

(** The error of a failed write of the cluster state, and the primary it was to
    record. *)
Definition unpersisted (ev : event ctlE) : option (string * string) :=
  match ev with
  | Ev e x =>
      match e in ctlE X return X -> option (string * string) with
      | EStore e =>
          match e in storeE X return X -> option (string * string) with
          | SPutClusterIfEpoch _ _ st => fun x =>
              match x with Err err => Some (err, Primary st) | Ok _ => None end
          | _ => fun _ => None
          end
      | _ => fun _ => None
      end x
  end.

(** ** One switch

    Followed along the world and the failed writes, for a set [D] of nodes that
    accept writes from the start: they and the new primary do when it is
    persisted. *)
Record Tracked : Type := { tracked_world : world; failed_writes : list (string * string) }.

Definition stranded_spec (D : gset string) : espec ctlE (Tracked) := {|
  pre X e s := match e with
    | EStore (SPutClusterIfEpoch _ _ st) => D ∪ {[Primary st]} ⊆ (tracked_world s).2
    | _ => True
    end;
  post X e s x s' := world_post e (tracked_world s) x (tracked_world s') /\ failed_writes s' = failed_writes s ++ option_list (unpersisted (Ev e x))
|}.

(** The cluster state is [c0], the nodes [D] accept writes, and the failed
    writes are [f]. *)
Definition at_stranded (c0 : ClusterState) (D : gset string) (f : list (string * string))
    (s : Tracked) : Prop :=
  a_cluster (tracked_world s).1 = c0 /\ D ⊆ (tracked_world s).2 /\ failed_writes s = f.

(** A failed write is reported, and its primary left writable. *)
Definition stranded (r : switch_result) (s : Tracked) : Prop :=
  forall err t, (err, t) ∈ failed_writes s ->
    r.2 = Some (wrap_err "persist cluster state" err) /\ t ∈ (tracked_world s).2.

Section stranded.
Context (D0 : gset string).

Lemma quiet_stranded {A} (p : prog ctlE A) c0 D f s :
  all_calls quiet p -> at_stranded c0 D f s ->
  wp (stranded_spec D0) p (fun _ => at_stranded c0 D f) s.
Proof.
  intros Hp. apply (all_calls_wp quiet _ _ _ (at_stranded c0 D f)); [done|..|done].
  - intros X e s1 He _. destruct e as [? []| | | | | | | | | | | | | | | | | | | | | |]; done.
  - intros X e s1 x s2 He (Hc & HD & Hf) [Hw Hs].
    destruct (world_quiet e c0 (tracked_world s1).2 (tracked_world s1) x (tracked_world s2) He Hw) as [Hc' HW']; [by split|].
    split_and!; [done|by rewrite HW'|]. rewrite Hs, Hf.
    destruct e as [? []| | | | | | | | | | | | | | | | | | | | | |]; by rewrite ?app_nil_r.
Qed.

Lemma stranded_bind {A B} (p : prog ctlE A) (f : A -> prog ctlE B) Q c0 D l s :
  all_calls quiet p -> at_stranded c0 D l s ->
  (forall a s', at_stranded c0 D l s' -> wp (stranded_spec D0) (f a) Q s') ->
  wp (stranded_spec D0) (bind p f) Q s.
Proof. intros Hp Hs Hf. eapply wp_seq; [by apply quiet_stranded|]. auto. Qed.

Lemma stranded_try {A B} (p : prog ctlE (result A)) h (q : A -> prog ctlE B) Q c0 D l s :
  all_calls quiet p -> at_stranded c0 D l s ->
  (forall e s', at_stranded c0 D l s' -> wp (stranded_spec D0) (h e) Q s') ->
  (forall a s', at_stranded c0 D l s' -> wp (stranded_spec D0) (q a) Q s') ->
  wp (stranded_spec D0) (try_else p h q) Q s.
Proof. intros. eapply stranded_bind; eauto. by intros []; auto. Qed.

Lemma none_stranded c0 D r s : at_stranded c0 D [] s -> stranded r s.
Proof. intros (_ & _ & Hs) err t. rewrite Hs. by intros ?%not_elem_of_nil. Qed.

Lemma stranded_frame {A} (d : prog ctlE A) r s :
  all_calls quiet d -> stranded r s -> wp (stranded_spec D0) d (fun _ => stranded r) s.
Proof.
  intros Hd Hr. eapply wp_mono.
  { by apply (quiet_stranded d (a_cluster (tracked_world s).1) (tracked_world s).2 (failed_writes s)). }
  intros _ s' (_ & HW & Hf) err t Hin. rewrite Hf in Hin. destruct (Hr err t Hin). auto.
Qed.

Lemma finishTask_stranded task e c0 D s :
  at_stranded c0 D [] s -> wp (stranded_spec D0) (finishTask task e) stranded s.
Proof.
  intros Hs. eapply wp_mono; [apply (quiet_stranded _ c0 D []); eauto with ha|].
  intros r s' Hs'. exact (none_stranded c0 D r s' Hs').
Qed.

(** The task of the failed write. *)
Lemma finishTask_reports task err t c0 s :
  at_stranded c0 {[t]} [(err, t)] s ->
  wp (stranded_spec D0) (finishTask task (wrap_err "persist cluster state" err)) stranded s.
Proof.
  intros Hs. unfold finishTask.
  do 6 (eapply stranded_bind; [calls; done|done|]; clear s Hs; intros ? s Hs).
  destruct Hs as (_ & HD & Hf). intros err' t'. rewrite Hf. intros [= -> ->]%list_elem_of_singleton.
  split; [done|]. set_solver.
Qed.

Lemma switch_finish_stranded c ctx auth task target st s :
  failed_writes s = [] -> wp (stranded_spec D0) (switch_finish c ctx auth task target st) stranded s.
Proof.
  intros Hs. apply (all_calls_wp unrecorded _ _ _ (fun s => failed_writes s = []));
    [apply switch_finish_unrecorded|..|done].
  - intros X e s1 He _. destruct e as [? []| | | | | | | | | | | | | | | | | | | | | |]; done.
  - intros X e s1 x s2 He Hs1 [_ ->]. rewrite Hs1.
    destruct e as [? []| | | | | | | | | | | | | | | | | | | | | |]; done.
  - intros r s' Hs' err t. rewrite Hs'. by intros ?%not_elem_of_nil.
Qed.

Lemma switch_promote_stranded c ctx auth task target c0 gtid s :
  at_stranded c0 D0 [] s ->
  wp (stranded_spec D0) (switch_promote c ctx auth task target c0 gtid) stranded s.
Proof.
  intros Hs. unfold switch_promote.
  eapply stranded_try; [calls; done|done|intros; by eapply finishTask_stranded|].
  clear s Hs. intros _ s Hs. apply wp_try, wp_call; [done|].
  intros x s1 [[Ha Hn] Hf]. simpl in Hn, Hf. rewrite app_nil_r in Hf.
  destruct Hs as (Hc & HD & Hs). rewrite Hs in Hf.
  destruct x as [[]|e]; last first.
  { eapply (finishTask_stranded _ _ c0 ∅). split_and!; [by rewrite Ha|set_solver|done]. }
  assert (at_stranded c0 (D0 ∪ {[target]}) [] s1) as Hs1.
  { split_and!; [by rewrite Ha| |done]. destruct Hn as [->|[_ [=]]]. set_solver. }
  clear Ha Hn Hf. eapply stranded_bind; [calls; done|done|]. clear s1 Hs1. intros promoted s1 Hs1.
  case_match; [by eapply finishTask_stranded|].
  eapply stranded_bind; [calls; done|done|]. clear s1 Hs1. intros now s1 (Hc1 & HD1 & Hf1).
  apply wp_try, wp_call; [done|]. intros x s2 [[_ HW] Hf]. simpl in Hf. rewrite Hf1 in Hf.
  destruct x as [[]|e]; [by apply switch_finish_stranded|].
  eapply finishTask_reports. split_and!; [done| |exact Hf]. simpl. rewrite HW. set_solver.
Qed.

Lemma switch_execute_stranded c ctx auth task target c0 s :
  Primary c0 ∉ D0 -> at_stranded c0 D0 [] s ->
  wp (stranded_spec D0) (switch_execute c ctx auth task target c0) stranded s.
Proof.
  intros HD Hs. unfold switch_execute.
  eapply stranded_try; [calls; done|done|intros; by eapply finishTask_stranded|].
  clear s Hs. intros _ s Hs. case_match; [by eapply finishTask_stranded|].
  apply wp_try, wp_call; [done|]. intros x s1 [[Ha Hn] Hf]. simpl in Hn, Hf. rewrite app_nil_r in Hf.
  assert (at_stranded c0 D0 [] s1) as Hs1.
  { destruct Hs as (Hc & HD1 & Hs). split_and!; [by rewrite Ha| |by rewrite Hf].
    destruct Hn as [->|[-> _]]; set_solver. }
  clear Hs Ha Hn Hf. destruct x as [[]|e]; [|by eapply finishTask_stranded].
  eapply stranded_bind; [calls; done|done|]. clear s1 Hs1. intros demoted s1 Hs1.
  case_match; [by eapply finishTask_stranded|].
  eapply stranded_try; [calls; done|done|intros; by eapply finishTask_stranded|].
  clear s1 Hs1. intros gtid s1 Hs1. by apply switch_promote_stranded.
Qed.

Lemma stranded_GetCluster {B} ctx h (q : ClusterState -> prog ctlE B) Q c0 D l s :
  at_stranded c0 D l s ->
  (forall e s', at_stranded c0 D l s' -> wp (stranded_spec D0) (h e) Q s') ->
  (forall s', at_stranded c0 D l s' -> wp (stranded_spec D0) (q c0) Q s') ->
  wp (stranded_spec D0) (try_else (store_call (SGetCluster ctx)) h q) Q s.
Proof.
  intros (Hc & HD & Hl) Hh Hq. apply wp_try, wp_call; [done|].
  intros x s1 [[[Ha Hx] HW] Hf]. simpl in Hf. rewrite app_nil_r, Hl in Hf.
  assert (at_stranded c0 D l s1) as Hs1 by (split_and!; [by rewrite Ha|by rewrite HW|done]).
  destruct x as [st|e]; [|by apply Hh]. rewrite (Hx st eq_refl), Hc. by apply Hq.
Qed.

Lemma switch_locked_stranded c ctx auth target automatic c0 s :
  Primary c0 ∉ D0 -> at_stranded c0 D0 [] s ->
  wp (stranded_spec D0) (switch_locked c ctx auth target automatic c0) stranded s.
Proof.
  intros HD Hs. unfold switch_locked, switch_task, fail_switch.
  assert (forall r s', at_stranded c0 D0 [] s' -> stranded r s') as Hfail by eauto using none_stranded.
  eapply stranded_GetCluster; [done|intros; by apply Hfail|]. clear s Hs. intros s Hs.
  do 3 (case_on_match; [by apply Hfail|]).
  eapply stranded_bind; [calls; done|done|]. clear s Hs. intros candidate s Hs.
  case_on_match; [by apply Hfail|].
  do 4 (eapply stranded_bind; [calls; done|done|]; clear s Hs; intros ? s Hs).
  eapply stranded_try; [calls; done|done|intros; by apply Hfail|]. clear s Hs. intros _ s Hs.
  apply wp_defer. eapply wp_mono; [|intros r s'; apply stranded_frame; eauto with ha].
  case_match; [|by apply switch_execute_stranded].
  eapply wp_mono; [apply (quiet_stranded _ c0 D0 []); eauto with ha|]. intros r s'. apply Hfail.
Qed.

Lemma Switch_stranded c ctx target automatic w :
  D0 ⊆ w.2 -> Primary (a_cluster w.1) ∉ D0 ->
  wp (stranded_spec D0) (Switch c ctx target automatic) stranded {| tracked_world := w; failed_writes := [] |}.
Proof.
  intros HW HD. unfold Switch, switch_as_leader, fail_switch, IsLeader.
  set (c0 := a_cluster w.1) in *. assert (at_stranded c0 D0 [] {| tracked_world := w; failed_writes := [] |}) as Hs by done.
  revert Hs. generalize {| tracked_world := w; failed_writes := [] |}. intros s Hs.
  assert (forall r s', at_stranded c0 D0 [] s' -> stranded r s') as Hfail by eauto using none_stranded.
  eapply stranded_bind; [calls; done|done|]. clear s Hs. intros leader s Hs.
  case_match; [by apply Hfail|].
  eapply stranded_try; [calls; done|done|intros; by apply Hfail|]. clear s Hs. intros ctx' s Hs.
  apply wp_defer. eapply wp_mono; last (intros r s'; apply stranded_frame; calls; done).
  eapply stranded_GetCluster; [done|intros; by apply Hfail|]. clear s Hs. intros s Hs.
  eapply stranded_try; [calls; done|done|intros; by apply Hfail|]. clear s Hs. intros t s Hs.
  do 2 (case_match; [by apply Hfail|]).
  eapply stranded_bind; [calls; done|done|]. clear s Hs. intros now s Hs.
  eapply stranded_try; [calls; done|done|intros; by apply Hfail|]. clear s Hs. intros h s Hs.
  apply wp_defer. eapply wp_mono; [by eapply switch_locked_stranded|].
  intros r s'. apply stranded_frame. calls; done.
Qed.
End stranded.

(** ** Runs in an environment *)
Lemma wp_visits {S A} (h : handler ctlE S) abs D (p : prog ctlE A) Q s f :
  environment h abs ->
  wp (stranded_spec D) p Q {| tracked_world := abs s; failed_writes := f |} ->
  Q (run h p s).1 {| tracked_world := abs (run h p s).2;
    failed_writes := f ++ omap unpersisted (trace_of h p s) |} /\
  forall s' X (e : ctlE X) x, (s', Ev e x) ∈ visits h p s ->
    exists f', pre (stranded_spec D) e {| tracked_world := abs s'; failed_writes := f' |}.
Proof.
  intros Hh. revert s f. induction p as [a|X e k IH]; intros s f Hwp; cbn [run trace_of visits].
  - cbn. rewrite app_nil_r. split; [exact Hwp|]. by intros ? ? ? ? ?%not_elem_of_nil.
  - destruct Hwp as [Hpre Hk]. pose proof (Hh X e s) as Hpost. destruct (h X e s) as [x s1].
    destruct (IH x s1 (f ++ option_list (unpersisted (Ev e x)))) as [HQ Hv]; [by apply Hk|].
    split.
    + rewrite <-app_assoc in HQ. cbn [omap list_omap]. by destruct (unpersisted (Ev e x)).
    + intros s' X' e' x' [Heq|Hin]%elem_of_cons; [|by eapply Hv]. exists f.
      apply (f_equal (fun v => match v with (s, Ev e _) =>
        pre (stranded_spec D) e {| tracked_world := abs s; failed_writes := f |} end)) in Heq.
      cbv beta iota in Heq. by rewrite Heq.
Qed.

(** The environment of [Sim.v] with a store that loses the conditional write,
    as etcd does without quorum. *)
Definition unpersisted_step : handler ctlE World := fun X e =>
  match e in ctlE X return World -> X * World with
  | EStore e =>
      match e in storeE X return World -> X * World with
      | SPutClusterIfEpoch _ _ _ => fun w => (Err "context deadline exceeded", w)
      | e => world_step _ (EStore e)
      end
  | e => world_step _ e
  end.

Definition abs_world (w : World) : world :=
  (MemoryStore.abstract (w_store w), fakes_writable (w_nodes w)).

Lemma unpersisted_environment : environment unpersisted_step abs_world.
Proof.
  intros X e w. destruct e as [X e|X id e| | | | | | | | | | | | | | | | | | | | |]; try done.
  - assert (store_post e (MemoryStore.abstract (w_store w)) (MemoryStore.step X e (w_store w)).1
      (MemoryStore.abstract (MemoryStore.step X e (w_store w)).2)) as Hpost.
    { by destruct (@store_refines _ _ MemoryStore.memory_store_impl X e (w_store w) _ eq_refl) as (? & -> & ?). }
    destruct e; cbn in *; try (by split); [split; [by right|done]|..]; unfold store_step; cbn.
    + by destruct (MemoryStore.AcquireLock ctx (w_store w)).
    + by destruct (MemoryStore.AcquireSwitchLock ctx auth (w_store w)).
    + destruct (w_store_down w); (split; [|done]); [by right|by left].
  - pose proof (nodes_refine id X e (w_nodes w)) as Hpost. cbn.
    unfold node_step. destruct (fakes_step id X e (w_nodes w)). by split.
Qed.

(** ** The theorem *)

(** C13: a promotion that could not be persisted is not undone, and the next
    switch does not notice it.  Take any environment whose store and agents
    honour their contracts.  If the write of the new cluster state fails in a
    switch, the switch reports just that and leaves the node it promoted
    accepting writes.  From then on, as long as that node accepts writes and is
    not the recorded primary, every switch, manual or automatic, that comes to
    persist some other node as the primary does so while both accept writes. *)
Theorem unpersisted_promotion_splits_brain {S} (h : handler ctlE S) (abs : S -> world)
    c ctx target automatic s pctx n st err :
  environment h abs ->
  Ev (EStore (SPutClusterIfEpoch pctx n st)) (Err err)
    ∈ trace_of h (Switch c ctx target automatic) s ->
  let out := run h (Switch c ctx target automatic) s in
  out.1.2 = Some ("persist cluster state: " +:+ err) /\ Primary st ∈ (abs out.2).2 /\
  forall ctx2 target2 automatic2 s2 s3 pctx2 n2 st2 x,
    Primary st ∈ (abs s2).2 -> Primary (a_cluster (abs s2).1) <> Primary st ->
    (s3, Ev (EStore (SPutClusterIfEpoch pctx2 n2 st2)) x)
      ∈ visits h (Switch c ctx2 target2 automatic2) s2 ->
    {[Primary st; Primary st2]} ⊆ (abs s3).2 /\
    (Primary st2 <> Primary st -> ~ one_writer (abs s3).2).
Proof.
  intros Hh Hin out.
  destruct (wp_visits h abs ∅ _ _ s [] Hh (Switch_stranded ∅ c ctx target automatic (abs s)
    ltac:(set_solver) ltac:(set_solver))) as [Hr _].
  destruct (Hr err (Primary st)) as [Herr Hw].
  { cbn [failed_writes app]. apply list_elem_of_omap. by eexists. }
  split; [exact Herr|]. split; [exact Hw|].
  intros ctx2 target2 automatic2 s2 s3 pctx2 n2 st2 x HW HP Hv.
  destruct (wp_visits h abs {[Primary st]} _ _ s2 [] Hh
    (Switch_stranded {[Primary st]} c ctx2 target2 automatic2 (abs s2)
      ltac:(set_solver) ltac:(set_solver))) as [_ Hpre].
  destruct (Hpre _ _ _ _ Hv) as [f Hboth]. cbn in Hboth. split; [done|].
  intros Hne Hone. apply Hne, Hone; set_solver.
Qed.

(** A switch to [db-2] that fails to persist, and one to [db-3] after it: its
    conditional write comes with both accepting writes. *)
Definition failed_switch : switch_result * World :=
  run unpersisted_step (Switch (test_controller true true) (Root "request") "db-2" false)
    (test_world false deployed_nodes).
Definition second_switch : list (World * event ctlE) :=
  visits unpersisted_step (Switch (test_controller true true) (Root "request") "db-3" false)
    failed_switch.2.

Lemma failed_write : exists pctx n st, Primary st = "db-2" /\
  Ev (EStore (SPutClusterIfEpoch pctx n st)) (Err "context deadline exceeded")
    ∈ trace_of unpersisted_step (Switch (test_controller true true) (Root "request") "db-2" false)
        (test_world false deployed_nodes).
Proof.
  eexists _, _, _. split; [|apply (list_elem_of_lookup_2 _ 25); vm_compute; reflexivity]. reflexivity.
Qed.

Lemma second_write : exists w pctx n st x, Primary st = "db-3" /\
  (w, Ev (EStore (SPutClusterIfEpoch pctx n st)) x) ∈ second_switch.
Proof.
  eexists _, _, _, _, _. split; [|apply (list_elem_of_lookup_2 _ 25); vm_compute; reflexivity]. reflexivity.
Qed.

Lemma unpersisted_promotion_splits_brain_witness :
  failed_switch.1.2 = Some "persist cluster state: context deadline exceeded" /\
  "db-2" ∈ fakes_writable (w_nodes failed_switch.2) /\
  exists w ev, (w, ev) ∈ second_switch /\ {["db-2"; "db-3"]} ⊆ fakes_writable (w_nodes w) /\
    ~ one_writer (fakes_writable (w_nodes w)).
Proof.
  destruct failed_write as (pctx & n & st & Hst & Hin).
  destruct second_write as (w & pctx2 & n2 & st2 & x & Hst2 & Hin2).
  destruct (unpersisted_promotion_splits_brain unpersisted_step abs_world (test_controller true true)
    (Root "request") "db-2" false (test_world false deployed_nodes) _ _ _ _ unpersisted_environment
    Hin) as (Herr & Hw & Hnext).
  rewrite Hst in Hw, Hnext. split; [exact Herr|]. split; [exact Hw|].
  destruct (Hnext (Root "request") "db-3" false failed_switch.2 w pctx2 n2 st2 x Hw
    ltac:(vm_compute; discriminate) Hin2) as [Hboth Hsplit].
  rewrite Hst2 in Hboth, Hsplit. eexists w, _. split; [exact Hin2|]. split; [exact Hboth|].
  apply Hsplit. discriminate.
Defined.

(** ** The automatic failover that follows

    The deployed nodes with automatic failover turned on; the leader's next
    probes, with the store back, take [db-1] for failed and record [db-3] as the
    primary although [db-2] accepts writes. *)
Definition watched_world : World :=
  w_set_store (MemoryStore.set_cluster
    (set_AutoFailover true (MemoryStore.cluster (test_store "db-1" 7))) (test_store "db-1" 7))
    (test_world false deployed_nodes).
Definition unwatched_switch : switch_result * World :=
  run unpersisted_step (Switch (test_controller true true) (Root "request") "db-2" false)
    watched_world.
Definition next_probes : prog ctlE unit :=
  let c := test_controller true true in
  probe c (Root "leader") ;;; probe c (Root "leader") ;;; probe c (Root "leader").
Definition two_writers (w : World) : bool :=
  bool_decide (fakes_writable (w_nodes w) = {["db-2"; "db-3"]}).

Example probes_split_brain :
  Primary (MemoryStore.cluster (w_store unwatched_switch.2)) = "db-1" /\
  fakes_writable (w_nodes unwatched_switch.2) = {["db-2"]} /\
  existsb two_writers (visits world_step next_probes unwatched_switch.2).*1 = true /\
  Primary (MemoryStore.cluster (w_store (run world_step next_probes unwatched_switch.2).2)) = "db-3".
Proof. vm_compute. repeat split; reflexivity. Qed.
