(* ===== verification/ApiSafety.v ===== *)
(** * What a request to the API can change

    Requests served on any store that honours [store_contract] and any agents
    that honour [node_post], as in [SplitBrain]. *)
From S2P Require Import Prelude GoStd Effects Model Json Config Store Node Controller Sim Api SwitchSafety SplitBrain.

Section requests.
Context `{JS : !Json SwitchoverRequest, JA : !Json AutoFailoverRequest}.
Context (c : Controller) (ctx : Context).

(** How a request may leave the cluster state [c0], given its answer. *)
Inductive request_effect (method path : string) (body : option stream) (c0 : ClusterState)
    (resp : option ApiResponse) : ClusterState -> Prop :=
| Unchanged :
    (path = "/api/v1/switchover" -> ExecuteActions (cfg c) = true ->
      exists r, resp = Some r /\ 400 <= ar_code r) ->
    (path = "/api/v1/auto-failover" -> is_Some body -> exists r, resp = Some r /\ 400 <= ar_code r) ->
    request_effect method path body c0 resp c0
| Switched target now :
    method = "POST" -> path = "/api/v1/switchover" -> Api.decode_target body = Ok target ->
    ExecuteActions (cfg c) = true -> target ∈ clients c -> target <> Primary c0 ->
    request_effect method path body c0 resp (succeeded_by target now c0)
| FlagSet request rest e now :
    method = "POST" -> path = "/api/v1/auto-failover" -> body = Some (rest, e) ->
    Decode (A := AutoFailoverRequest) rest e = Ok request ->
    request_effect method path body c0 resp (set_UpdatedAt now (set_AutoFailover (Enabled request) c0)).

Definition request_post (method path : string) (body : option stream) (c0 : ClusterState)
    (resp : option ApiResponse) (w : world) : Prop :=
  one_writer w.2 /\ request_effect method path body c0 resp (a_cluster w.1).

(** Requests that read. *)
Lemma read_task_quiet task : all_calls quiet (Api.read_task task).
Proof. unfold Api.read_task. calls; done. Qed.
#[local] Hint Resolve read_task_quiet : ha.

Lemma on_get_quiet method p : all_calls quiet p -> all_calls quiet (Api.on_get method p).
Proof. intros. unfold Api.on_get, Api.answered. calls. Qed.

Lemma report_quiet : all_calls quiet Api.status.
Proof. unfold Api.status, Status, IsLeader, store_call, read_locked. calls; done. Qed.

Lemma tasks_quiet : all_calls quiet (Api.tasks ctx).
Proof. unfold Api.tasks, Tasks, store_call. calls; done. Qed.

Lemma quiet_request method path body p a W :
  Api.change_path path = false -> all_calls quiet p -> one_writer W ->
  wp world_spec p (request_post method path body (a_cluster a)) (a, W).
Proof.
  intros Hp Hq HW. eapply wp_mono; [by eapply (quiet_frame _ (a_cluster a) W)|].
  intros resp w [<- <-]. split; [done|].
  unfold Api.change_path in Hp. rewrite orb_false_iff, !bool_decide_eq_false in Hp.
  by apply Unchanged; intros ->; destruct Hp.
Qed.

(** A request that is refused before it reaches the controller. *)
Lemma refused_request method path body r a W :
  400 <= ar_code r -> one_writer W ->
  request_post method path body (a_cluster a) (Some r) (a, W).
Proof. intros Hr HW. split; [done|]. apply Unchanged; eauto. Qed.

Lemma switchover_effect body a W :
  W ⊆ {[Primary (a_cluster a)]} ->
  wp world_spec (Api.answered (Api.switchover c ctx body))
    (request_post "POST" "/api/v1/switchover" body (a_cluster a)) (a, W).
Proof.
  intros HW. assert (one_writer W) by eauto with ha. unfold Api.switchover.
  destruct (Api.decode_target body) as [target|e] eqn:Htarget; [|by apply refused_request].
  case_bool_decide as Hempty; [by apply refused_request|].
  apply wp_bind. eapply wp_seq; [by apply Switch_part|].
  intros [task err] w [Hone Hout]. apply wp_bind.
  eapply wp_mono; [by eapply quiet_frame; [apply read_task_quiet|..]|].
  intros k w' [Hc HW']. split; [by rewrite HW'|]. rewrite Hc.
  destruct Hout as [[-> Hdry]|(Hdry & t & now & -> & Hcl & Hne & Ht)].
  - apply Unchanged; [|done]. intros _ Hexec. destruct err as [e|]; [by eexists|].
    specialize (Hdry eq_refl). unfold switch_dry_run in Hdry. by rewrite Hexec in Hdry.
  - destruct Ht as [Ht|Ht]; [done|]. subst t.
    apply orb_false_iff in Hdry as [Hexec _]. apply negb_false_iff in Hexec. by apply Switched.
Qed.

Lemma auto_failover_effect body a W :
  one_writer W ->
  wp world_spec (Api.autoFailover c ctx body)
    (request_post "POST" "/api/v1/auto-failover" body (a_cluster a)) (a, W).
Proof.
  intros HW. unfold Api.autoFailover. destruct body as [[rest e]|].
  2: { split; [done|]. apply Unchanged; [done|]. by intros _ []. }
  destruct (Decode rest e) as [request|err] eqn:Hdec; [|by apply refused_request].
  eapply wp_seq; [by apply (SetAutoFailover_part c ctx (Enabled request) (a_cluster a) W)|].
  intros r w [Hflag <-]. split; [done|]. destruct Hflag as [[-> Hr]|[now ->]].
  - apply Unchanged; [done|]. intros _ _. destruct r; [done|]. by eexists.
  - by eapply FlagSet.
Qed.

Lemma posted method path p body a W :
  one_writer W -> (method = "POST" -> wp world_spec p (request_post method path body (a_cluster a)) (a, W)) ->
  wp world_spec (Api.on_post method p) (request_post method path body (a_cluster a)) (a, W).
Proof. intros HW Hp. unfold Api.on_post. case_bool_decide; [by apply Hp|]. by apply refused_request. Qed.

(** C30: start from a cluster in which only the recorded primary may accept
    writes.  A request to the API, served by a controller on any store and agents
    that honour their contracts, keeps at most one node writable at every call,
    and changes the cluster state in two ways only: a switchover request makes
    the node it names the primary at the next epoch, and only if that node is
    configured, was not the primary and actions are turned on; a request for
    automatic failover sets the flag it names.  A request of either kind that is
    answered with success has made its change, unless the switch was a dry run. *)
Theorem api_request_effects metrics method path body a W :
  W ⊆ {[Primary (a_cluster a)]} ->
  wp world_spec (Api.Handler c metrics method path ctx body)
    (request_post method path body (a_cluster a)) (a, W).
Proof.
  intros HW. assert (one_writer W) by eauto with ha. unfold Api.Handler.
  case_bool_decide as H1; [subst; by apply quiet_request; [|by apply on_get_quiet|]|].
  case_bool_decide as H2; [subst; by apply quiet_request; [|apply on_get_quiet, report_quiet|]|].
  case_bool_decide as H3; [subst; by apply quiet_request; [|apply on_get_quiet, tasks_quiet|]|].
  case_bool_decide as H4; [subst; apply posted; [done|intros ->; by apply switchover_effect]|].
  case_bool_decide as H5; [subst; apply posted; [done|intros ->; by apply auto_failover_effect]|].
  assert (Api.change_path path = false) by (by unfold Api.change_path; rewrite !bool_decide_false).
  case_bool_decide as H6; by apply quiet_request.
Qed.
End requests.

Lemma api_request_effects_witness :
  wp world_spec (Api.Handler (test_controller true false)
      (Api.plain 200 "") "POST" "/api/v1/switchover" (Root "request") switchover_body)
    (request_post (test_controller true false)
      "POST" "/api/v1/switchover" switchover_body
      (MemoryStore.cluster (test_store "db-1" 7)))
    (MemoryStore.abstract (test_store "db-1" 7), {["db-1"]}).
Proof.
  apply (api_request_effects (test_controller true false)
    (Root "request") (Api.plain 200 "") "POST" "/api/v1/switchover" switchover_body
    (MemoryStore.abstract (test_store "db-1" 7)) {["db-1"]}).
  apply (bool_decide_unpack _). vm_compute. exact I.
Defined.
