(* ===== verification/Discipline.v ===== *)
(** * Locks: the controller's mutex and the store's switch lock

    [mutex_spec] follows one goroutine's hold on [c.mu]; [lock_spec] follows
    the handle it holds on the store's lock. *)
From S2P Require Import Prelude GoStd Effects Model Config Store Node Controller Sim SwitchSafety.

(** ** The mutex *)
Inductive hold : Type := Free | RHeld | WHeld.

Definition node_status_call {X} (e : nodeE X) : bool :=
  match e with NStatus _ => true | _ => false end.

(** [c.mu] is not reentrant: a goroutine locks it only when it does not hold
    it, and unlocks what it holds.  The guarded fields are read under either
    lock and written under the write lock.  Neither the store, nor the alert
    webhook, nor a node's role is touched under the mutex. *)
Definition mutex_pre {X} (e : ctlE X) (m : hold) : Prop :=
  match e with
  | ELock | ERLock => m = Free
  | EUnlock | EUpdate _ => m = WHeld
  | ERUnlock => m = RHeld
  | ERead => m <> Free
  | EStore _ | ESend _ _ _ _ => m = Free
  | ENode _ e => node_status_call e = true \/ m = Free
  | _ => True
  end.

Definition mutex_next {X} (e : ctlE X) (m : hold) : hold :=
  match e with
  | ELock => WHeld
  | ERLock => RHeld
  | EUnlock | ERUnlock => Free
  | _ => m
  end.

Definition mutex_spec : espec ctlE hold := {|
  pre _ e m := mutex_pre e m;
  post _ e m _ m' := m' = mutex_next e m
|}.

Abbreviation mutex_free := (keeps mutex_spec (fun m => m = Free)).

(** ** The switch lock *)
Definition lock_pre {X} (e : ctlE X) (o : option LockHandle) : Prop :=
  match e with
  | EStore (SAcquireLock _ _ _) | EStore (SAcquireSwitchLock _ _ _ _) => o = None
  | EStore (SRelease h) => o = Some h
  | e => mutation e = true -> o <> None
  end.

Definition store_lock_next {X} (e : storeE X) : option LockHandle -> X -> option LockHandle :=
  match e in storeE X return option LockHandle -> X -> option LockHandle with
  | SAcquireLock _ _ _ => fun o r => match r with Ok h => Some h | Err _ => o end
  | SAcquireSwitchLock _ _ _ _ => fun o r => match r with Ok h => Some h | Err _ => o end
  | SRelease _ => fun _ _ => None
  | _ => fun o _ => o
  end.

Definition lock_next {X} (e : ctlE X) : option LockHandle -> X -> option LockHandle :=
  match e in ctlE X return option LockHandle -> X -> option LockHandle with
  | EStore e => store_lock_next e
  | _ => fun o _ => o
  end.

Definition lock_spec : espec ctlE (option LockHandle) := {|
  pre _ e o := lock_pre e o;
  post _ e o x o' := o' = lock_next e o x
|}.

(** ** The mutex, program by program *)
Lemma read_locked_free {X} (f : CtlState -> X) : mutex_free (read_locked f).
Proof.
  intros m ->. unfold read_locked.
  do 3 (apply wp_bind, wp_call; [done|]; intros ? ? ->). done.
Qed.

Lemma update_locked_free f : mutex_free (update_locked f).
Proof.
  intros m ->. unfold update_locked.
  do 2 (apply wp_bind, wp_call; [done|]; intros ? ? ->). by apply wp_call; [|intros ? ? ->].
Qed.

Lemma range_statuses_free {X} (f : list (string * NodeStatus) -> X) : mutex_free (range_statuses f).
Proof.
  intros m ->. unfold range_statuses.
  do 4 (apply wp_bind, wp_call; [done|]; intros ? ? ->). done.
Qed.
#[export] Hint Resolve read_locked_free update_locked_free range_statuses_free : ha.

(** A call made without the mutex that does not lock it. *)
Ltac free_call := intros m ->; simpl; split; [by auto|by intros ? ? ->].

Lemma finishTask_free task e : mutex_free (finishTask task e).
Proof. unfold finishTask. keeping; free_call. Qed.

Lemma leaderBoundContext_free ctx : mutex_free (leaderBoundContext ctx).
Proof. unfold leaderBoundContext. keeping; free_call. Qed.
#[export] Hint Resolve finishTask_free leaderBoundContext_free : ha.

Lemma switch_locked_free c ctx auth target automatic state :
  mutex_free (switch_locked c ctx auth target automatic state).
Proof.
  unfold switch_locked, switch_task, switch_execute, switch_promote, switch_finish,
    reconfigure_replicas, switch_dry, switch_cleanup, fail_switch, node_call, store_call.
  keeping; free_call.
Qed.
#[export] Hint Resolve switch_locked_free : ha.

Lemma Switch_free c ctx target automatic : mutex_free (Switch c ctx target automatic).
Proof.
  unfold Switch, switch_as_leader, chooseTarget, fail_switch, IsLeader, store_call.
  keeping; free_call.
Qed.
#[export] Hint Resolve Switch_free : ha.

Lemma SetAutoFailover_free c ctx enabled : mutex_free (SetAutoFailover c ctx enabled).
Proof. unfold SetAutoFailover, IsLeader, store_call. keeping; free_call. Qed.

Lemma tryAutomaticFailover_free c ctx primary : mutex_free (tryAutomaticFailover c ctx primary).
Proof.
  unfold tryAutomaticFailover, isTripping, chooseTarget, chooseDryRunTarget. keeping; free_call.
Qed.
#[export] Hint Resolve SetAutoFailover_free tryAutomaticFailover_free : ha.

(** The probe of the nodes runs under the write lock. *)
Lemma probe_node_held c ctx id : keeps mutex_spec (fun m => m = WHeld) (probe_node c ctx id).
Proof.
  unfold probe_node, probe_metrics, node_call.
  keeping; intros m ->; simpl; (split; [by auto|by intros ? ? ->]).
Qed.
#[export] Hint Resolve probe_node_held : ha.

Lemma probe_nodes_held c ctx order : keeps mutex_spec (fun m => m = WHeld) (probe_nodes c ctx order).
Proof. induction order; simpl; keeping. Qed.

Lemma probe_free c ctx : mutex_free (probe c ctx).
Proof.
  intros m ->. unfold probe. apply wp_bind, wp_call; [done|]. intros ? ? ->.
  apply wp_bind, wp_call; [done|]. intros order ? ->.
  eapply wp_seq; [by apply probe_nodes_held|]. intros events ? ->.
  apply wp_bind, wp_call; [done|]. intros ? ? ->.
  match goal with |- wp _ ?p _ _ => cut (mutex_free p); [intros Hp; by apply Hp|] end.
  unfold send_alert, adopt_primary, detectPrimary, store_call. keeping; free_call.
Qed.
#[export] Hint Resolve probe_free : ha.

Lemma leader_loop_free fuel c ctx : mutex_free (leader_loop fuel c ctx).
Proof. induction fuel; simpl; keeping; free_call. Qed.
#[export] Hint Resolve leader_loop_free : ha.

Lemma runAsLeader_free fuel c ctx : mutex_free (runAsLeader fuel c ctx).
Proof. unfold runAsLeader. keeping; free_call. Qed.

Lemma Status_free : mutex_free Status.
Proof. unfold Status, store_call. keeping; free_call. Qed.

(** ** The switch lock, program by program *)
Abbreviation unlocked := (keeps lock_spec (fun o => o = None)).

(** A call that neither takes nor releases the lock. *)
Ltac lock_frame := intros o ->; simpl; split; [by try intros|by intros ? ? ->].

Lemma finishTask_lock I task e : keeps lock_spec I (finishTask task e).
Proof. unfold finishTask. keeping; intros o Ho; simpl; (split; [done|by intros ? ? ->]). Qed.

Lemma read_locked_lock {X} I (f : CtlState -> X) : keeps lock_spec I (read_locked f).
Proof. unfold read_locked. keeping; intros o Ho; simpl; (split; [done|by intros ? ? ->]). Qed.

Lemma update_locked_lock I f : keeps lock_spec I (update_locked f).
Proof. unfold update_locked. keeping; intros o Ho; simpl; (split; [done|by intros ? ? ->]). Qed.

Lemma range_statuses_lock {X} I (f : list (string * NodeStatus) -> X) :
  keeps lock_spec I (range_statuses f).
Proof. unfold range_statuses. keeping; intros o Ho; simpl; (split; [done|by intros ? ? ->]). Qed.
#[export] Hint Resolve finishTask_lock read_locked_lock update_locked_lock range_statuses_lock : ha.

Lemma leaderBoundContext_lock ctx : unlocked (leaderBoundContext ctx).
Proof. unfold leaderBoundContext. keeping; lock_frame. Qed.
#[export] Hint Resolve leaderBoundContext_lock : ha.

Lemma switch_locked_lock h c ctx auth target automatic state :
  keeps lock_spec (fun o => o = Some h) (switch_locked c ctx auth target automatic state).
Proof.
  unfold switch_locked, switch_task, switch_execute, switch_promote, switch_finish,
    reconfigure_replicas, switch_dry, switch_cleanup, fail_switch, node_call, store_call.
  keeping; lock_frame.
Qed.

(** Acquire, run under the lock, release. *)
Lemma with_lock {B} (e : storeE (result LockHandle)) (f : string -> prog ctlE B)
    (body : LockHandle -> prog ctlE B) :
  (forall o, store_lock_next e o = fun r => match r with Ok h => Some h | Err _ => o end) ->
  lock_pre (EStore e) None ->
  (forall s, unlocked (f s)) ->
  (forall h, keeps lock_spec (fun o => o = Some h) (body h)) ->
  unlocked (try_else (store_call e) f (fun h => defer (store_call (SRelease h)) (body h))).
Proof.
  intros Hnext Hpre Hf Hbody o ->. apply wp_try, wp_call; [done|].
  intros r ? ->. simpl. rewrite Hnext. destruct r as [h|s]; [|by apply Hf].
  apply wp_defer. eapply wp_mono; [by apply Hbody|]. intros b ? ->.
  by apply wp_call; [|intros ? ? ->].
Qed.

Lemma switch_as_leader_lock c ctx target automatic :
  unlocked (switch_as_leader c ctx target automatic).
Proof.
  unfold switch_as_leader, fail_switch, chooseTarget.
  apply keeps_try; [apply keeps_call; lock_frame|intros; apply keeps_ret|]. intros state.
  apply keeps_try; [keeping|intros; apply keeps_ret|]. intros t.
  do 2 (case_on_match; [apply keeps_ret|]).
  apply keeps_bind; [apply keeps_call; lock_frame|]. intros now.
  apply (with_lock (SAcquireSwitchLock _ _ _ _)); [done|done|intros; apply keeps_ret|].
  intros h. apply switch_locked_lock.
Qed.
#[export] Hint Resolve switch_as_leader_lock : ha.

Lemma Switch_lock c ctx target automatic : unlocked (Switch c ctx target automatic).
Proof. unfold Switch, fail_switch, IsLeader. keeping; lock_frame. Qed.

Lemma SetAutoFailover_lock c ctx enabled : unlocked (SetAutoFailover c ctx enabled).
Proof.
  unfold SetAutoFailover, IsLeader.
  apply keeps_bind; [apply keeps_call; lock_frame|]. intros leader.
  case_on_match; [apply keeps_ret|].
  apply keeps_try; [eauto with ha|intros; apply keeps_ret|]. intros ctx'.
  apply keeps_defer; [apply keeps_call; lock_frame|].
  apply (with_lock (SAcquireLock _ _ _)); [done|done|intros; apply keeps_ret|].
  intros h. unfold store_call. keeping; lock_frame.
Qed.

(** ** Theorems *)

(** C10: every goroutine of the controller (the leader's loop, a switch, a
    change of the automatic-failover flag, a status report) follows the mutex:
    it never locks [c.mu] while it holds it, reads the guarded fields only under
    a lock and writes them only under the write lock, makes no store call, alert
    or role change while holding it, and holds it no more when it ends. *)
Theorem mutex_discipline fuel c ctx target automatic enabled :
  wp mutex_spec (runAsLeader fuel c ctx) (fun _ m => m = Free) Free /\
  wp mutex_spec (Switch c ctx target automatic) (fun _ m => m = Free) Free /\
  wp mutex_spec (SetAutoFailover c ctx enabled) (fun _ m => m = Free) Free /\
  wp mutex_spec Status (fun _ m => m = Free) Free.
Proof.
  split_and!; [by apply runAsLeader_free|by apply Switch_free|by apply SetAutoFailover_free|
    by apply Status_free].
Qed.

(** C9: a switch and a change of the automatic-failover flag take the store's
    lock at most once at a time, release exactly the handle they took, on every
    path, and change roles or the cluster state only while they hold it. *)
Theorem switch_lock_released c ctx target automatic enabled :
  wp lock_spec (Switch c ctx target automatic) (fun _ o => o = None) None /\
  wp lock_spec (SetAutoFailover c ctx enabled) (fun _ o => o = None) None.
Proof. split; [by apply Switch_lock|by apply SetAutoFailover_lock]. Qed.
