(* ===== verification/Failover.v ===== *)
(** * Monitoring and automatic failover

    The choice of a target, the alerting of failed nodes, and automatic
    failover, on the guarded state of one controller. *)
From S2P Require Import Prelude GoStd Effects Model Config Store Node Controller Sim SwitchSafety.

(** ** Specifications *)

(** A node [chooseTarget] may pick. *)
Definition eligible (c : Config) (exclude : string) (id : string) (s : NodeStatus) : Prop :=
  id <> exclude /\ Healthy s = true /\ ns_Role s = RoleReplica /\
  sec_lag s <= MaxReplicaLagSeconds c.

(** [a] comes no later than [b] in the order of the candidates. *)
Definition no_later (id1 : string) (lag1 : Z) (id2 : string) (lag2 : Z) : Prop :=
  lag1 < lag2 \/ (lag1 = lag2 /\ (id1 ≤ id2)%string).

(** The guarded state under one goroutine: reads see it, writes change it;
    [ans] limits the other answers and [P] is the obligation at each call. *)
Definition local_post {X} (e : ctlE X) : CtlState -> X -> CtlState -> Prop :=
  match e in ctlE X return CtlState -> X -> CtlState -> Prop with
  | ERead => fun s x s' => x = s /\ s' = s
  | EUpdate f => fun s _ s' => s' = f s
  | _ => fun s _ s' => s' = s
  end.

Definition local_spec (ans : forall X, ctlE X -> X -> Prop) (P : forall X, ctlE X -> Prop)
    : espec ctlE CtlState := {|
  pre X e _ := P X e;
  post X e s x s' := ans X e x /\ local_post e s x s'
|}.

(** The calls that leave the controller. *)
Definition remote {X} (e : ctlE X) : bool :=
  match e with
  | EStore _ | ENode _ _ | ESend _ _ _ _ | EFence _ _ | ESetPrimary _ _ => true
  | _ => false
  end.

(** Every attempt to persist a task fails. *)
Definition store_put_task_fails {X} (e : storeE X) : X -> Prop :=
  match e in storeE X return X -> Prop with
  | SPutTask _ _ => fun r => is_ok r = false
  | _ => fun _ => True
  end.
Definition put_task_fails (X : Type) (e : ctlE X) : X -> Prop :=
  match e in ctlE X return X -> Prop with
  | EStore e => store_put_task_fails e
  | _ => fun _ => True
  end.

(** *** Alerting

    The history of a node is the list of its probed statuses, newest first;
    its streak is the number of failed probes since the last healthy one. *)
Fixpoint streak (hist : list NodeStatus) : Z :=
  match hist with
  | [] => 0
  | r :: hist => if Healthy r then 0 else streak hist + 1
  end.

(** The alerts owed for a probe that found [raw] after [hist]: one when the
    streak reaches the threshold, one at the first healthy probe after that. *)
Definition owed_alerts (c : Config) (id : string) (raw : NodeStatus) (hist : list NodeStatus)
    : list AlertEvent :=
  if Healthy raw then
    if FailureThreshold c <=? streak hist then
      [{| ae_NodeID := id; ae_Severity := "info"; ae_Title := "MySQL node recovered";
          ae_Message := "health checks passed"; ae_Resolved := true;
          ae_CreatedAt := CheckedAt raw |}]
    else []
  else if streak hist + 1 =? FailureThreshold c then
    [{| ae_NodeID := id; ae_Severity := (failureAlert raw).1.1; ae_Title := (failureAlert raw).1.2;
        ae_Message := (failureAlert raw).2; ae_Resolved := false; ae_CreatedAt := CheckedAt raw |}]
  else [].

(** The guarded state records the streaks of the histories. *)
Definition tracks (c : Config) (hist : string -> list NodeStatus) (s : CtlState) : Prop :=
  forall id,
    FailureCount (default NodeStatus_zero (statuses s !! id)) = streak (hist id) /\
    (id ∈ alertedNodes s <-> FailureThreshold c <= streak (hist id)).

(** The histories after a round that probed the nodes of [order]. *)
Definition probed (found : string -> NodeStatus) (order : list string)
    (hist : string -> list NodeStatus) (id : string) : list NodeStatus :=
  if bool_decide (id ∈ order) then found id :: hist id else hist id.

(** Node [id] answers its status with [found id]. *)
Definition node_found (found : string -> NodeStatus) (id : string) {X} (e : nodeE X)
    : X -> Prop :=
  match e in nodeE X return X -> Prop with
  | NStatus _ => fun x => x = found id
  | _ => fun _ => True
  end.
Definition finds (found : string -> NodeStatus) (X : Type) (e : ctlE X) : X -> Prop :=
  match e in ctlE X return X -> Prop with
  | ENode id e => node_found found id e
  | _ => fun _ => True
  end.

Definition no_obligation (X : Type) (_ : ctlE X) : Prop := True.

(** ** Choosing a target *)
Lemma candidate_of_Some c ex id s x :
  candidate_of c ex id s = Some x <->
  eligible c ex id s /\ x = {| cand_id := id; cand_lag := sec_lag s |}.
Proof.
  unfold candidate_of, eligible.
  repeat case_bool_decide; destruct (Healthy s); simpl; try naive_solver.
  destruct (Z.leb_spec (sec_lag s) (MaxReplicaLagSeconds c)); naive_solver lia.
Qed.

Lemma candidate_not_after a b :
  not_after candidate_less a b <-> no_later (cand_id a) (cand_lag a) (cand_id b) (cand_lag b).
Proof.
  unfold not_after, candidate_less, no_later. rewrite (Z.eqb_sym (cand_lag b)).
  destruct (Z.eqb_spec (cand_lag a) (cand_lag b)) as [Heq|Hne].
  - change (not_after string_lt (cand_id a) (cand_id b) <->
      cand_lag a < cand_lag b \/ cand_lag a = cand_lag b /\ (cand_id a ≤ cand_id b)%string).
    rewrite string_lt_not_after. split; [by auto|intros [?|[_ ?]]; [lia|done]].
  - rewrite Z.ltb_ge. lia.
Qed.

#[export] Instance candidate_less_strict : StrictWeak candidate_less.
Proof.
  split.
  - intros a b Hab. apply candidate_not_after. unfold candidate_less in Hab. unfold no_later.
    destruct (Z.eqb_spec (cand_lag a) (cand_lag b)) as [Heq|Hne].
    + right. split; [done|]. apply string_lt_not_after. by apply (less_asym string_lt).
    + left. by apply Z.ltb_lt.
  - intros a b c. rewrite !candidate_not_after. unfold no_later.
    intros [?|[? Hab]] [?|[? Hbc]]; [left; lia..|]. right. split; [lia|]. by etrans.
Qed.

Lemma candidate_anti a b :
  not_after candidate_less a b -> not_after candidate_less b a -> a = b.
Proof.
  rewrite !candidate_not_after. unfold no_later.
  destruct a as [i l], b as [j k]; simpl. intros [?|[? Hij]] [?|[? Hji]]; [lia..|].
  subst. f_equal. by apply (anti_symm String.le).
Qed.

Lemma elem_of_candidates c ex (range : list (string * NodeStatus)) x :
  x ∈ omap (fun '(id, s) => candidate_of c ex id s) range <->
  exists id s, (id, s) ∈ range /\ eligible c ex id s /\
    x = {| cand_id := id; cand_lag := sec_lag s |}.
Proof.
  rewrite list_elem_of_omap. split.
  - intros ([id s] & Hin & Hx%candidate_of_Some). naive_solver.
  - intros (id & s & Hin & Hx%candidate_of_Some). by exists (id, s).
Qed.

Lemma choose_target_Ok c ex range id :
  choose_target_from c ex range = Ok id ->
  exists s, (id, s) ∈ range /\ eligible c ex id s /\
    forall id' s', (id', s') ∈ range -> eligible c ex id' s' ->
      no_later id (sec_lag s) id' (sec_lag s').
Proof.
  unfold choose_target_from. intros H.
  destruct (sort_slice _ _) as [|x l] eqn:Hs; simplify_eq.
  pose proof (sort_slice_head candidate_less _ x ltac:(by rewrite Hs)) as [Hx Hmin].
  apply elem_of_candidates in Hx as (id & s & Hin & Hel & ->). exists s. split_and!; try done.
  intros id' s' Hin' Hel'.
  apply (candidate_not_after {| cand_id := id; cand_lag := sec_lag s |}
    {| cand_id := id'; cand_lag := sec_lag s' |}).
  apply Hmin, elem_of_candidates. eauto 10.
Qed.

Lemma choose_target_Err c ex range e :
  choose_target_from c ex range = Err e ->
  forall id s, (id, s) ∈ range -> ~ eligible c ex id s.
Proof.
  unfold choose_target_from. intros H id s Hin Hel.
  destruct (sort_slice _ _) as [|x l] eqn:Hs; simplify_eq.
  apply sort_slice_nil in Hs.
  assert ({| cand_id := id; cand_lag := sec_lag s |} ∈
    omap (fun '(id, s) => candidate_of c ex id s) range) as Hc
    by (apply elem_of_candidates; eauto 10).
  rewrite Hs in Hc. set_solver.
Qed.

Lemma choose_target_perm c ex range1 range2 :
  range1 ≡ₚ range2 -> choose_target_from c ex range1 = choose_target_from c ex range2.
Proof.
  intros Hp. unfold choose_target_from.
  rewrite (sort_slice_unique candidate_less _ _ candidate_anti
    (omap_Permutation _ _ _ Hp)). done.
Qed.

(** ** Alerting *)
Lemma streak_nonneg hist : 0 <= streak hist.
Proof. induction hist as [|r hist IH]; simpl; [done|]. destruct (Healthy r); lia. Qed.

Lemma streak_length hist : streak hist <= Z.of_nat (length hist).
Proof. induction hist as [|r hist IH]; simpl; [done|]. destruct (Healthy r); lia. Qed.

(** The alert decision depends on the streak as [owed_alerts] says. *)
Lemma alert_decision_owed c id raw hist prev alerted :
  1 <= FailureThreshold c -> streak hist + 1 < two63 ->
  FailureCount prev = streak hist -> (id ∈ alerted <-> FailureThreshold c <= streak hist) ->
  let st := probed_status raw prev in
  let '(alerted', events) := alert_decision c id st alerted in
  events = owed_alerts c id raw hist /\
  FailureCount st = streak (raw :: hist) /\
  (id ∈ alerted' <-> FailureThreshold c <= streak (raw :: hist)) /\
  (forall j, j <> id -> (j ∈ alerted' <-> j ∈ alerted)).
Proof.
  intros Hth Hb Hprev Hal. pose proof (streak_nonneg hist). unfold probed_status, alert_decision, owed_alerts.
  simpl. destruct (Healthy raw) eqn:Hh; simpl.
  - replace (FailureThreshold c <=? 0) with false by (symmetry; apply Z.leb_gt; lia). simpl.
    rewrite Hh. destruct (Z.leb_spec (FailureThreshold c) (streak hist)).
    + rewrite bool_decide_eq_true_2 by tauto. simpl. split_and!; [done|done|set_solver by lia|set_solver].
    + rewrite bool_decide_eq_false_2 by (rewrite Hal; lia). simpl.
      split_and!; [done|done|rewrite Hal; lia|done].
  - rewrite Hprev, int64_small by (unfold two63 in *; lia).
    rewrite Hh. unfold failureAlert. simpl.
    destruct (Z.eqb_spec (streak hist + 1) (FailureThreshold c)) as [Heq|Hne].
    + rewrite <-Heq, Z.leb_refl, bool_decide_eq_false_2 by (rewrite Hal; lia). simpl.
      repeat case_match; simplify_eq/=; (split_and!; [done|done|set_solver by lia|set_solver]).
    + destruct (Z.leb_spec (FailureThreshold c) (streak hist + 1)).
      * rewrite bool_decide_eq_true_2 by (rewrite Hal; lia). simpl.
        split_and!; [done|done|rewrite Hal; lia|done].
      * simpl. split_and!; [done|done|rewrite Hal; lia|done].
Qed.

(** Symbolic execution over the guarded state: one call. *)
Ltac local_call := apply wp_call; [done|]; intros ? ? [? Hpost]; simpl in Hpost; destruct_and?; subst.

Lemma probe_node_owed c ctx id found hist s :
  1 <= FailureThreshold (cfg c) -> streak (hist id) + 1 < two63 ->
  tracks (cfg c) hist s ->
  wp (local_spec (finds found) no_obligation) (probe_node c ctx id) (fun events s' =>
    events = owed_alerts (cfg c) id (found id) (hist id) /\
    tracks (cfg c) (fun j => if bool_decide (j = id) then found j :: hist j else hist j) s') s.
Proof.
  intros Hth Hb Htr. unfold probe_node, node_call.
  apply wp_bind. local_call. simpl in *. subst.
  apply wp_bind. local_call. apply wp_bind.
  set (st := probed_status (found id) (default NodeStatus_zero (statuses s !! id))) in *.
  assert (wp (local_spec (finds found) no_obligation) (probe_metrics id st) (fun _ s' => s' = s) s)
    as Hmetrics.
  { unfold probe_metrics. case_on_match; apply wp_bind; local_call; local_call; done. }
  eapply wp_mono; [exact Hmetrics|]. intros _ ? ->. apply wp_bind. local_call.
  pose proof (alert_decision_owed (cfg c) id (found id) (hist id)
    (default NodeStatus_zero (statuses s !! id)) (alertedNodes s) Hth Hb
    (proj1 (Htr id)) (proj2 (Htr id))) as Hdec. simpl in Hdec. fold st in Hdec.
  destruct (alert_decision (cfg c) id st (alertedNodes s)) as [alerted events].
  destruct Hdec as (-> & Hcount & Hal & Hother).
  apply wp_bind. local_call. split; [done|]. intros j. simpl.
  case_bool_decide as Hj; [subst j|].
  - rewrite lookup_insert_eq. done.
  - rewrite lookup_insert_ne by done. rewrite Hother by done. apply Htr.
Qed.

Lemma owed_alerts_id c id raw hist e : e ∈ owed_alerts c id raw hist -> ae_NodeID e = id.
Proof. unfold owed_alerts. repeat case_match; set_solver. Qed.

#[export] Instance tracks_proper c : Proper (pointwise_relation string eq ==> eq ==> iff) (tracks c).
Proof. intros h1 h2 Hh s ? <-. unfold tracks. by setoid_rewrite Hh. Qed.

(** What a round owes for each node, in whatever order it visits the nodes. *)
Lemma probe_nodes_owed c ctx order found hist s :
  1 <= FailureThreshold (cfg c) -> (forall j, j ∈ order -> streak (hist j) + 1 < two63) ->
  NoDup order -> tracks (cfg c) hist s ->
  wp (local_spec (finds found) no_obligation) (probe_nodes c ctx order) (fun events s' =>
    tracks (cfg c) (probed found order hist) s' /\
    forall id, filter (fun e => ae_NodeID e = id) events =
      if bool_decide (id ∈ order) then owed_alerts (cfg c) id (found id) (hist id) else []) s.
Proof.
  intros Hth Hb Hnd Htr. revert hist s Hb Htr.
  induction Hnd as [|id order Hid Hnd IH]; intros hist s Hb Htr; simpl.
  { split; [|done]. done. }
  eapply wp_seq; [apply (probe_node_owed c ctx id found hist); [done| |done]; apply Hb; by left|].
  intros events s1 [-> Htr1]. eapply wp_seq.
  { apply IH; [|exact Htr1]. intros j Hj. simpl.
    rewrite bool_decide_eq_false_2 by (intros ->; done). apply Hb. by right. }
  intros rest s2 [Htr2 Hrest]. split.
  - revert Htr2. apply tracks_proper; [|done]. intros j. unfold probed.
    repeat case_bool_decide; set_solver.
  - intros j. rewrite filter_app, Hrest. destruct (decide (j = id)) as [->|Hne].
    + rewrite bool_decide_eq_false_2 by done. rewrite (bool_decide_eq_true_2 (id ∈ id :: order)) by set_solver.
      rewrite app_nil_r. apply list_filter_all. intros e. apply owed_alerts_id.
    + rewrite (list_filter_none (fun e => ae_NodeID e = j) (owed_alerts _ _ _ _)).
      * simpl. repeat case_bool_decide; set_solver.
      * intros e He Hej. apply owed_alerts_id in He. congruence.
Qed.

(** ** Automatic failover *)

Definition any_local (X : Type) (_ : ctlE X) (_ : X) : Prop := True.
Definition stays_local (X : Type) (e : ctlE X) : Prop := remote e = false.
Abbreviation quiet_local := (local_spec any_local stays_local).

Lemma read_locked_local {X} ans (P : forall X, ctlE X -> Prop) (f : CtlState -> X) (Q : X -> CtlState -> Prop) s :
  P unit ERLock -> P CtlState ERead -> P unit ERUnlock -> Q (f s) s ->
  wp (local_spec ans P) (read_locked f) Q s.
Proof.
  intros. unfold read_locked. do 3 (apply wp_bind; local_call). done.
Qed.

Lemma update_locked_local ans (P : forall X, ctlE X -> Prop) f (Q : unit -> CtlState -> Prop) s :
  P unit ELock -> P unit (EUpdate f) -> P unit EUnlock -> Q tt (f s) ->
  wp (local_spec ans P) (update_locked f) Q s.
Proof.
  intros. unfold update_locked. do 2 (apply wp_bind; local_call). local_call.
  by destruct x1.
Qed.

(** The condition under which automatic failover looks for a target. *)
Definition failover_due (c : Config) (primary : string) (s : CtlState) : bool :=
  match statuses s !! primary with
  | Some st => negb (Healthy st) && (FailureThreshold c <=? FailureCount st)
  | None => false
  end && negb (tripping s)
  && (AutoFailoverExecute c || negb (bool_decide (lastDryRunPrimary s = primary))).

(** The dry run reported for a primary is forgotten when it is healthy. *)
Definition after_skip (primary : string) (s : CtlState) : CtlState :=
  match statuses s !! primary with
  | Some st => if Healthy st then set_lastDryRunPrimary "" s else s
  | None => s
  end.

Lemma tryAutomaticFailover_skips c ctx primary s :
  failover_due (cfg c) primary s = false ->
  wp quiet_local (tryAutomaticFailover c ctx primary) (fun _ s' => s' = after_skip primary s) s.
Proof.
  unfold failover_due, after_skip, tryAutomaticFailover, isTripping. intros Hdue.
  apply wp_bind, read_locked_local; try done.
  destruct (statuses s !! primary) as [st|]; [|apply wp_bind; done].
  destruct (Healthy st) eqn:Hh; simpl in *.
  { apply wp_bind. by apply update_locked_local. }
  rewrite Z.ltb_antisym. destruct (FailureThreshold (cfg c) <=? FailureCount st); simpl in *;
    [|apply wp_bind; done].
  apply wp_bind, read_locked_local; try done. destruct (tripping s); simpl in *; [done|].
  apply wp_bind, read_locked_local; try done.
  destruct (AutoFailoverExecute (cfg c)); simpl in *; [done|].
  by destruct (bool_decide (lastDryRunPrimary s = primary)).
Qed.

Lemma switch_task_unreported c ctx auth target automatic dryRun state s :
  wp (local_spec put_task_fails no_obligation)
    (switch_task c ctx auth target automatic dryRun state)
    (fun r s' => r.1 = None /\ r.2 <> None /\ tripping s' = true) s.
Proof.
  unfold switch_task, fail_switch. do 2 (apply wp_bind; local_call).
  apply wp_bind. apply update_locked_local; try done.
  apply wp_bind. local_call. apply wp_try. local_call. simpl in *.
  destruct x2 as [[]|e]; simpl in *; [done|]. done.
Qed.

(** ** The leader's loop

    The guarded state, the leader flag, and the number of ticks the loop
    receives before its context is done. *)
Definition loop_post {X} (e : ctlE X) : CtlState * bool * nat -> X -> CtlState * bool * nat -> Prop :=
  match e in ctlE X return CtlState * bool * nat -> X -> CtlState * bool * nat -> Prop with
  | ERead => fun s x s' => x = s.1.1 /\ s' = s
  | EUpdate f => fun s _ s' => s' = (f s.1.1, s.1.2, s.2)
  | ELeaderLoad => fun s x s' => x = s.1.2 /\ s' = s
  | ELeaderStore b => fun s _ s' => s' = (s.1.1, b, s.2)
  | ETick => fun s x s' => x = negb (Nat.eqb s.2 0) /\ s' = (s.1, pred s.2)
  | _ => fun s _ s' => s' = s
  end.

Definition loop_spec : espec ctlE (CtlState * bool * nat) := {|
  pre _ _ _ := True;
  post _ e := loop_post e
|}.

(** The controller leads under [ctx], with [n] ticks to come. *)
Definition leading (ctx : Context) (n : nat) (s : CtlState * bool * nat) : Prop :=
  leaderCtx s.1.1 = Some ctx /\ s.1.2 = true /\ s.2 = n.

Ltac leading_call :=
  let w := fresh "w" in let w' := fresh "w'" in
  intros w (Hl & Hb & Hn); (split; [done|]); intros ? w' Hpost; simpl in Hpost;
  destruct w as [[] ?], w' as [[] ?]; simpl in *; destruct_and?; simplify_eq; done.

Lemma probe_leading c ctx n : keeps loop_spec (leading ctx n) (probe c ctx).
Proof.
  assert (forall order, keeps loop_spec (leading ctx n) (probe_nodes c ctx order)) as Hnodes.
  { induction order as [|id order IH]; simpl; unfold probe_node, probe_metrics, node_call;
      keeping; leading_call. }
  unfold probe, send_alert, adopt_primary, detectPrimary, tryAutomaticFailover, isTripping,
    chooseTarget, chooseDryRunTarget, Switch, switch_as_leader, switch_locked, switch_task,
    switch_execute, switch_promote, switch_finish, reconfigure_replicas, switch_dry,
    switch_cleanup, finishTask, leaderBoundContext, IsLeader, fail_switch, chooseTarget,
    range_statuses, read_locked, update_locked, node_call, store_call.
  keeping; leading_call.
Qed.

Lemma leader_loop_ends fuel c ctx n w :
  leading ctx n w ->
  wp loop_spec (leader_loop fuel c ctx) (fun r w' =>
    if Nat.ltb n fuel then r = Some tt /\ leading ctx 0 w'
    else r = None /\ leading ctx (n - fuel) w') w.
Proof.
  revert n w. induction fuel as [|fuel IH]; intros n w Hw; simpl.
  { split; [done|]. by rewrite Nat.sub_0_r. }
  destruct Hw as (Hl & Hb & Hn). apply wp_bind, wp_call; [done|]. intros x w1 [-> ->].
  rewrite Hn. destruct n as [|n]; simpl.
  { split; [done|]. by repeat split. }
  eapply wp_seq; [apply (probe_leading c ctx n); by repeat split; rewrite ?Hn|].
  intros [] w2 Hw2. eapply wp_mono; [by apply IH|]. intros r w3.
  change (S n <? S fuel)%nat with (n <? fuel)%nat. done.
Qed.

(** A whole term of leadership. *)
Lemma runAsLeader_ends fuel c ctx s b n :
  wp loop_spec (runAsLeader fuel c ctx) (fun r w =>
    if Nat.ltb n fuel then r = Some tt /\ leaderCtx w.1.1 = None /\ w.1.2 = false /\ w.2 = 0%nat
    else r = None /\ leaderCtx w.1.1 = Some ctx /\ w.1.2 = true) (s, b, n).
Proof.
  unfold runAsLeader, update_locked.
  apply wp_bind, wp_call; [done|]. intros ? ? ->.
  apply wp_bind. do 2 (apply wp_bind, wp_call; [done|]; intros ? ? ->).
  apply wp_call; [done|]. intros ? ? ->. simpl.
  eapply wp_seq; [by apply (probe_leading c ctx n)|]. intros [] w Hw.
  apply wp_bind. eapply wp_mono; [by apply leader_loop_ends|]. intros r w1.
  destruct (n <? fuel)%nat.
  - intros [-> (_ & _ & Hn)]. apply wp_bind. do 2 (apply wp_bind, wp_call; [done|]; intros ? ? ->).
    apply wp_call; [done|]. intros ? ? ->. apply wp_bind, wp_call; [done|]. by intros ? ? ->.
  - intros [-> (Hl & Hb & _)]. done.
Qed.

(** ** Theorems *)

(** C15: [chooseTarget] picks, among the healthy replicas other than the
    excluded node whose lag is within the limit, one with the least lag and,
    among those, the least id; it fails exactly when there is none; and the
    order in which the map of statuses is visited does not matter. *)
Theorem choose_target_correct c exclude range1 range2 :
  range1 ≡ₚ range2 ->
  choose_target_from c exclude range1 = choose_target_from c exclude range2 /\
  match choose_target_from c exclude range1 with
  | Ok id => exists s, (id, s) ∈ range1 /\ eligible c exclude id s /\
      forall id' s', (id', s') ∈ range1 -> eligible c exclude id' s' ->
        no_later id (sec_lag s) id' (sec_lag s')
  | Err _ => forall id s, (id, s) ∈ range1 -> ~ eligible c exclude id s
  end.
Proof.
  intros Hp. split; [by apply choose_target_perm|].
  destruct (choose_target_from c exclude range1) eqn:H;
    [by apply choose_target_Ok|by eapply choose_target_Err].
Qed.

(** TestChooseTargetPrefersLowestLag *)
Definition lag_statuses : list (string * NodeStatus) := [
  ("primary", node_status true true RolePrimary None);
  ("replica-a", node_status true true RoleReplica (Some (running_replica 8)));
  ("replica-b", node_status true true RoleReplica (Some (running_replica 2)))].

Lemma choose_target_correct_witness :
  choose_target_from (test_config true false) "primary" lag_statuses = Ok "replica-b" /\
  choose_target_from (test_config true false) "primary" lag_statuses =
  choose_target_from (test_config true false) "primary" (reverse lag_statuses).
Proof.
  split; [vm_compute; reflexivity|].
  apply (choose_target_correct (test_config true false) "primary" lag_statuses
    (reverse lag_statuses)).
  symmetry. apply reverse_Permutation.
Defined.

(** C16: a round of probes, in whatever order it visits the nodes, raises one
    alert for a node exactly when its run of failed probes reaches the
    threshold, one recovery exactly at the first healthy probe after that, and
    nothing else; and it leaves the recorded failure counts and the set of
    alerted nodes equal to the runs it has seen. *)
Theorem alerts_once_per_outage c ctx order found hist s :
  1 <= FailureThreshold (cfg c) -> (forall j, j ∈ order -> streak (hist j) + 1 < two63) ->
  NoDup order -> tracks (cfg c) hist s ->
  wp (local_spec (finds found) no_obligation) (probe_nodes c ctx order) (fun events s' =>
    tracks (cfg c) (probed found order hist) s' /\
    forall id, filter (fun e => ae_NodeID e = id) events =
      if bool_decide (id ∈ order) then owed_alerts (cfg c) id (found id) (hist id) else []) s.
Proof. apply probe_nodes_owed. Qed.

Lemma alerts_once_per_outage_witness :
  owed_alerts (test_config true false) "db-1" NodeStatus_zero
    [NodeStatus_zero; NodeStatus_zero] <> [] /\
  wp (local_spec (finds (fun _ => NodeStatus_zero)) no_obligation)
    (probe_nodes (test_controller true false) Background ["db-1"; "db-2"]) (fun events s' =>
      tracks (test_config true false) (probed (fun _ => NodeStatus_zero) ["db-1"; "db-2"]
        (fun _ => [])) s' /\
      forall id, filter (fun e => ae_NodeID e = id) events =
        if bool_decide (id ∈ ["db-1"; "db-2"])
        then owed_alerts (test_config true false) id NodeStatus_zero [] else [])
    (idle_ctl None).
Proof.
  split; [vm_compute; discriminate|].
  apply (alerts_once_per_outage (test_controller true false) Background ["db-1"; "db-2"]
    (fun _ => NodeStatus_zero) (fun _ => [])).
  - vm_compute. discriminate.
  - intros j _. reflexivity.
  - apply (bool_decide_unpack _). vm_compute. exact I.
  - intros id. split; [reflexivity|]. split; [|vm_compute; congruence].
    intros Hid. by apply not_elem_of_empty in Hid.
Defined.

(** C14: automatic failover contacts neither the store nor a node nor the
    webhook unless the recorded status of the primary is unhealthy with at
    least the threshold of failed probes, no switch is under way, and (in
    dry-run mode) this primary was not already reported; a healthy primary
    re-arms the report. *)
Theorem failover_waits_for_threshold c ctx primary s :
  failover_due (cfg c) primary s = false ->
  wp (local_spec any_local stays_local) (tryAutomaticFailover c ctx primary)
    (fun _ s' => s' = after_skip primary s) s.
Proof. apply tryAutomaticFailover_skips. Qed.

Lemma failover_waits_for_threshold_witness :
  wp (local_spec any_local stays_local)
    (tryAutomaticFailover (test_controller true false) Background "db-1")
    (fun _ s' => s' = set_lastDryRunPrimary "" (set_status "db-1"
      (node_status true true RolePrimary None) (idle_ctl None)))
    (set_status "db-1" (node_status true true RolePrimary None) (idle_ctl None)).
Proof.
  apply (failover_waits_for_threshold (test_controller true false) Background "db-1"
    (set_status "db-1" (node_status true true RolePrimary None) (idle_ctl None))).
  reflexivity.
Defined.

(** C17: when the report of a started switch cannot be persisted, the switch
    fails with the flag [tripping] left set (the deferred reset is installed
    only afterwards); until a later switch resets the flag, automatic failover
    then contacts neither a node nor the store, whatever the probes found. *)
Theorem failed_report_disables_failover c ctx auth target automatic dryRun state primary s :
  wp (local_spec put_task_fails no_obligation)
    (switch_task c ctx auth target automatic dryRun state)
    (fun r s1 => r.1 = None /\ r.2 <> None /\
      wp (local_spec any_local stays_local) (tryAutomaticFailover c ctx primary)
        (fun _ s2 => tripping s2 = true) s1) s.
Proof.
  eapply wp_mono; [apply switch_task_unreported|].
  intros r s1 (H1 & H2 & Htrip). split_and!; [done|done|].
  eapply wp_mono; [apply tryAutomaticFailover_skips|].
  - unfold failover_due. rewrite Htrip, andb_false_r. done.
  - intros _ s2 ->. unfold after_skip. by repeat case_match.
Qed.

(** The leader's loop probes once per tick and ends when its context is
    done: with [n] ticks before that, any fuel above [n] lets it return, and it
    then leaves the controller without leadership context and not leader; with
    less fuel it is still running, as leader under its context. *)
Theorem leader_steps_down fuel c ctx s b n :
  wp loop_spec (runAsLeader fuel c ctx) (fun r w =>
    if Nat.ltb n fuel then r = Some tt /\ leaderCtx w.1.1 = None /\ w.1.2 = false /\ w.2 = 0%nat
    else r = None /\ leaderCtx w.1.1 = Some ctx /\ w.1.2 = true) (s, b, n).
Proof. apply runAsLeader_ends. Qed.

(** ** A lost update

    The state a switch persists is the one it read before it took the lock; the
    check under the lock compares epoch and primary only, and so does the
    conditional write.  A change of the automatic-failover flag that completes in
    between is undone. *)
Definition change_flag : prog ctlE (result unit) :=
  SetAutoFailover (test_controller true false) (Root "operator") true.

(** [change_flag] runs to its end while the switch waits for the lock. *)
Definition racing_step : handler ctlE World := fun X e w =>
  world_step X e (match e with
    | EStore (SAcquireSwitchLock _ _ _ _) => (run world_step change_flag w).2
    | _ => w
    end).

Theorem switch_undoes_flag_change :
  let before := test_world false healthy_nodes in
  let changed := run world_step change_flag before in
  let switched := run racing_step
    (Switch (test_controller true false) (Root "request") "db-2" false) before in
  changed.1 = Ok tt /\ AutoFailover (MemoryStore.cluster (w_store changed.2)) = true /\
  switched.1.2 = None /\ AutoFailover (MemoryStore.cluster (w_store switched.2)) = false.
Proof. by vm_compute. Qed.
