(* ===== verification/Liveness.v ===== *)
(** * Automatic failover happens

    The other files show what a controller never does; this one shows that it
    acts.  While etcd and the agents answer, a leader replaces a primary whose
    MySQL keeps failing within as many probes as the threshold demands, and keeps
    the node it promoted.  Alerts may fail, clocks may show anything and maps may
    be visited in any order. *)
From S2P Require Import Prelude GoStd Effects Model Config Store Node Controller Sim SwitchSafety Failover.

(** The fields of the controller, its leader flag, the recorded cluster state,
    what each node reports, and the ticks left before the leadership ends. *)
Record calm : Type := {
  k_ctl : CtlState;
  k_leader : bool;
  k_cluster : ClusterState;
  k_report : string -> NodeStatus;
  k_ticks : nat
}.

Definition k_set_ctl (f : CtlState -> CtlState) (s : calm) : calm :=
  {| k_ctl := f (k_ctl s); k_leader := k_leader s; k_cluster := k_cluster s; k_report := k_report s;
     k_ticks := k_ticks s |}.
Definition k_set_leader (b : bool) (s : calm) : calm :=
  {| k_ctl := k_ctl s; k_leader := b; k_cluster := k_cluster s; k_report := k_report s;
     k_ticks := k_ticks s |}.
Definition k_set_cluster (c : ClusterState) (s : calm) : calm :=
  {| k_ctl := k_ctl s; k_leader := k_leader s; k_cluster := c; k_report := k_report s;
     k_ticks := k_ticks s |}.
Definition k_set_report (r : string -> NodeStatus) (s : calm) : calm :=
  {| k_ctl := k_ctl s; k_leader := k_leader s; k_cluster := k_cluster s; k_report := r;
     k_ticks := k_ticks s |}.
Definition k_set_ticks (n : nat) (s : calm) : calm :=
  {| k_ctl := k_ctl s; k_leader := k_leader s; k_cluster := k_cluster s; k_report := k_report s;
     k_ticks := n |}.

(** A healthy replica replicates with a known lag (what [Client.Status] reports). *)
Definition coherent (st : NodeStatus) : Prop :=
  Healthy st = true -> ns_Role st = RoleReplica ->
  exists r lag, Replica st = Some r /\ IOThreadRunning r = true /\ SQLThreadRunning r = true /\
    SecondsBehind r = Some lag.

(** Node [id] changes its report to one that satisfies [P]. *)
Definition reports (id : string) (P : NodeStatus -> Prop) (s s' : calm) : Prop :=
  exists st, P st /\ coherent st /\
    s' = k_set_report (fun j => if decide (j = id) then st else k_report s j) s.

Definition calm_store {X} (e : storeE X) : calm -> X -> calm -> Prop :=
  match e in storeE X return calm -> X -> calm -> Prop with
  | SGetCluster _ => fun s x s' => x = Ok (k_cluster s) /\ s' = s
  | SPutCluster _ c => fun s x s' => x = Ok tt /\ s' = k_set_cluster c s
  | SPutClusterIfEpoch _ n c => fun s x s' =>
      if Epoch (k_cluster s) =? n then x = Ok tt /\ s' = k_set_cluster c s
      else is_ok x = false /\ s' = s
  | SAcquireLock _ _ _ => fun s x s' => is_ok x = true /\ s' = s
  | SAcquireSwitchLock _ _ _ _ => fun s x s' => is_ok x = true /\ s' = s
  | SPutTask _ _ => fun s x s' => x = Ok tt /\ s' = s
  | _ => fun s _ s' => s' = s
  end.

Definition calm_node {X} (id : string) (e : nodeE X) : calm -> X -> calm -> Prop :=
  match e in nodeE X return calm -> X -> calm -> Prop with
  | NStatus _ => fun s x s' => x = k_report s id /\ s' = s
  | NExecutedGTID _ => fun s x s' => is_ok x = true /\ s' = s
  | NWaitForGTID _ _ _ _ => fun s x s' => x = Ok tt /\ s' = s
  | NDemote _ _ => fun s x s' => x = Ok tt /\
      reports id (fun st => Reachable st && ReadOnly st && SuperReadOnly st = true) s s'
  | NPromote _ _ => fun s x s' => x = Ok tt /\
      reports id (fun st => Healthy st = true /\ ns_Role st = RolePrimary) s s'
  | NReconfigureReplica _ _ _ => fun s x s' => x = Ok tt /\ reports id (fun _ => True) s s'
  | NClose => fun s _ s' => s' = s
  end.

Definition calm_post {X} (e : ctlE X) : calm -> X -> calm -> Prop :=
  match e in ctlE X return calm -> X -> calm -> Prop with
  | EStore e => calm_store e
  | ENode id e => calm_node id e
  | EFence _ _ | ESetPrimary _ _ => fun s x s' => x = Ok tt /\ s' = s
  | ELeaderLoad => fun s x s' => x = k_leader s /\ s' = s
  | ELeaderStore b => fun s _ s' => s' = k_set_leader b s
  | ERead => fun s x s' => x = k_ctl s /\ s' = s
  | EUpdate f => fun s _ s' => s' = k_set_ctl f s
  | ECtxErr _ => fun s x s' => x = false /\ s' = s
  | ERange keys => fun s x s' => x ≡ₚ keys /\ s' = s
  | ETick => fun s x s' => x = negb (Nat.eqb (k_ticks s) 0) /\ s' = k_set_ticks (pred (k_ticks s)) s
  | _ => fun s _ s' => s' = s
  end.

Definition calm_spec : espec ctlE calm := {| pre _ _ _ := True; post _ e := calm_post e |}.

(** ** Symbolic execution *)

(** One call; what it answered is substituted. *)
Ltac calm_call :=
  apply wp_call; [exact I|];
  let x := fresh "x" in let s' := fresh "s" in let H := fresh "Hp" in
  intros x s' H; cbn [post calm_spec calm_post calm_store calm_node] in H;
  first [ subst s' | destruct H as [-> ->] | destruct H as [? ->] | idtac ].
Ltac calm_step := first [apply wp_bind | apply wp_try]; calm_call.

(** Calls that change nothing, whatever they answer. *)
Definition idle_call (X : Type) (e : ctlE X) : Prop := forall s x s', calm_post e s x s' -> s' = s.

Lemma idle_wp {A} (p : prog ctlE A) (Q : A -> calm -> Prop) s :
  all_calls idle_call p -> (forall a, Q a s) -> wp calm_spec p Q s.
Proof.
  intros Hp HQ. apply (all_calls_wp idle_call _ _ _ (fun s' => s' = s)); try done.
  - intros X e ? x s' He -> Hpost. by eapply He.
  - by intros a ? ->.
Qed.
Lemma idle_bind {A B} (p : prog ctlE A) (f : A -> prog ctlE B) (Q : B -> calm -> Prop) s :
  all_calls idle_call p -> (forall a, wp calm_spec (f a) Q s) -> wp calm_spec (bind p f) Q s.
Proof. intros Hp Hf. apply wp_bind. by apply idle_wp. Qed.
Ltac idle := calls; unfold idle_call; cbn; intros; destruct_and?; done.

Lemma wp_ret {A} (a : A) (Q : A -> calm -> Prop) s : Q a s -> wp calm_spec (Ret a) Q s.
Proof. done. Qed.

Lemma read_locked_calm {X} (f : CtlState -> X) (Q : X -> calm -> Prop) s :
  Q (f (k_ctl s)) s -> wp calm_spec (read_locked f) Q s.
Proof. intros HQ. unfold read_locked. calm_step. calm_step. calm_step. done. Qed.

Lemma update_locked_calm f (Q : unit -> calm -> Prop) s :
  (forall x, Q x (k_set_ctl f s)) -> wp calm_spec (update_locked f) Q s.
Proof. intros HQ. unfold update_locked. calm_step. calm_step. calm_call. done. Qed.

(** ** A switch completes *)

(** Reports are coherent and every check of a switch to [t] passes. *)
Definition ready (c : Controller) (t : string) (s : calm) : Prop :=
  t <> "" /\ t ∈ clients c /\ t <> Primary (k_cluster s) /\
  Primary (k_cluster s) <> "" /\ Primary (k_cluster s) ∈ clients c /\
  is_uint64 (Epoch (k_cluster s)) = true /\
  Healthy (k_report s t) = true /\ ns_Role (k_report s t) = RoleReplica /\
  sec_lag (k_report s t) <= MaxReplicaLagSeconds (cfg c) /\ coherent (k_report s t).

(** The switch to [t] is recorded and [t] is a healthy primary; the rest of the
    controller is as it was, and the reports are coherent. *)
Definition switched (t : string) (s s' : calm) : Prop :=
  (exists now, k_cluster s' = switched_state t now (k_cluster s)) /\
  Healthy (k_report s' t) = true /\ ns_Role (k_report s' t) = RolePrimary /\
  (forall j, coherent (k_report s j) -> coherent (k_report s' j)) /\
  statuses (k_ctl s') = statuses (k_ctl s) /\ leaderCtx (k_ctl s') = leaderCtx (k_ctl s) /\
  k_leader s' = k_leader s /\ k_ticks s' = k_ticks s.

Lemma epoch_next e : is_uint64 e = true -> uint64 (uint64 (e + 1) - 1) = e.
Proof.
  unfold is_uint64. intros He. propify. unfold uint64, two64 in *.
  rewrite Zminus_mod_idemp_l. replace (e + 1 - 1) with e by lia. apply Z.mod_small. lia.
Qed.

Lemma ready_eligible c t s automatic :
  ready c t s -> candidate_eligible (cfg c) false automatic (k_report s t) = true.
Proof.
  intros (_ & _ & _ & _ & _ & _ & Hh & Hr & Hlag & Hc).
  destruct (Hc Hh Hr) as (r & lag & HR & Hio & Hsql & Hs). unfold candidate_eligible, sec_lag in *.
  rewrite HR, Hs in *. rewrite Hh, Hio, Hsql. cbn. by apply Z.leb_le.
Qed.

(** Repointing the other nodes leaves the new primary's report alone. *)
Lemma reconfigure_calm c ctx auth t order s :
  wp calm_spec (reconfigure_replicas c ctx auth t order) (fun r s' => r = None /\
    exists rep, s' = k_set_report rep s /\ rep t = k_report s t /\
      forall j, coherent (k_report s j) -> coherent (rep j)) s.
Proof.
  apply (wp_for_return _ _ _ (fun _ s' => exists rep, s' = k_set_report rep s /\
    rep t = k_report s t /\ forall j, coherent (k_report s j) -> coherent (rep j))).
  - intros id l s1 (rep & -> & Ht & Hc). case_bool_decide as Hid; [by exists rep|].
    apply wp_bind, wp_call; [done|]. intros x s2 [-> (st & _ & Hst & ->)].
    exists (fun j => if decide (j = id) then st else rep j). split; [done|].
    split; [by rewrite decide_False by done|]. intros j Hj. case_decide; [done|by apply Hc].
  - intros s' (rep & ? & ? & ?). split; [done|]. by exists rep.
  - exists (k_report s). by destruct s.
Qed.

Lemma switch_finish_calm c ctx auth task t state s :
  wp calm_spec (switch_finish c ctx auth task t state) (fun r s' => r.2 = None /\
    exists rep, s' = k_set_report rep s /\ rep t = k_report s t /\
      forall j, coherent (k_report s j) -> coherent (rep j)) s.
Proof.
  unfold switch_finish. calm_step. calm_step. apply wp_bind.
  eapply wp_mono; [apply reconfigure_calm|]. intros r s' [-> Hs'].
  do 5 (apply idle_bind; [idle|intros ?]). do 2 (apply idle_bind; [idle|intros ?]). by split.
Qed.

(** The state after the promotion was recorded. *)
Definition promoted_state (t : string) (s s' : calm) : Prop := exists now rep,
  s' = k_set_cluster (switched_state t now (k_cluster s)) (k_set_report rep s) /\
  Healthy (rep t) = true /\ ns_Role (rep t) = RolePrimary /\
  forall j, coherent (k_report s j) -> coherent (rep j).

Lemma switch_promote_calm c ctx auth task t gtid s :
  is_uint64 (Epoch (k_cluster s)) = true ->
  wp calm_spec (switch_promote c ctx auth task t (k_cluster s) gtid)
    (fun r s' => r.2 = None /\ promoted_state t s s') s.
Proof.
  intros He. unfold switch_promote. calm_step.
  apply wp_try, wp_call; [done|]. intros x s1 [-> (st & [Hh Hr] & Hst & ->)].
  calm_step. cbn [k_report k_set_report]. rewrite decide_True by done.
  rewrite Hh, Hr, bool_decide_true by done. cbn [negb orb].
  calm_step. rename x into now. apply wp_try, wp_call; [done|]. intros x s1 Hput.
  cbn -[uint64] in Hput. rewrite (epoch_next _ He), Z.eqb_refl in Hput. destruct Hput as [-> ->].
  eapply wp_mono; [apply switch_finish_calm|]. intros r s' (Hr' & rep & -> & Ht & Hc).
  split; [done|]. exists now, rep. cbn in Ht, Hc. rewrite decide_True in Ht by done.
  rewrite Ht. split; [done|]. split; [done|]. split; [done|].
  intros j Hj. apply Hc. by case_decide.
Qed.

Lemma switch_execute_calm c ctx auth task t s :
  ready c t s ->
  wp calm_spec (switch_execute c ctx auth task t (k_cluster s))
    (fun r s' => r.2 = None /\ promoted_state t s s') s.
Proof.
  intros (_ & _ & Hne & _ & Hp & He & _). unfold switch_execute. calm_step.
  rewrite bool_decide_true by done. cbn [negb].
  apply wp_try, wp_call; [done|]. intros x s1 [-> (st & Hro & Hst & ->)].
  calm_step. cbn [k_report k_set_report]. rewrite decide_True by done.
  rewrite <-!negb_andb, Hro. cbn [negb].
  apply wp_try, wp_call; [done|]. intros x s1 [Hok ->]. destruct x as [gtid|]; [|done].
  match goal with |- wp _ _ _ ?s1 => change (k_cluster s) with (k_cluster s1) end.
  eapply wp_mono; [by apply switch_promote_calm|].
  intros r s' [? (now & rep & -> & Hh & Hr & Hc)]. split; [done|]. exists now, rep.
  split; [done|]. split; [done|]. split; [done|]. intros j Hj. apply Hc. cbn. by case_decide.
Qed.

Lemma switch_task_calm c ctx auth t automatic s :
  ready c t s ->
  wp calm_spec (switch_task c ctx auth t automatic false (k_cluster s))
    (fun r s' => r.2 = None /\ switched t s s' /\ tripping (k_ctl s') = false) s.
Proof.
  intros Hready. unfold switch_task. calm_step. calm_step.
  apply wp_bind, update_locked_calm. intros _. calm_step. calm_step. apply wp_defer.
  match goal with |- wp _ _ _ ?s1 => change (k_cluster s) with (k_cluster s1) end.
  eapply wp_mono; [by apply switch_execute_calm|].
  intros r s' [? (now & rep & -> & Hh & Hr & Hc)]. unfold switch_cleanup.
  apply wp_bind, update_locked_calm. intros _. calm_step. calm_step.
  split; [done|]. split; [|done]. repeat split; try done. by exists now.
Qed.

Lemma switch_locked_calm c ctx auth t automatic s :
  switch_dry_run (cfg c) automatic = false -> ready c t s ->
  wp calm_spec (switch_locked c ctx auth t automatic (k_cluster s))
    (fun r s' => r.2 = None /\ switched t s s' /\ tripping (k_ctl s') = false) s.
Proof.
  intros Hdry Hready. pose proof (ready_eligible c t s automatic Hready) as Hel.
  pose proof Hready as (_ & _ & Hne & Hp & _ & _ & _ & Hr & _). unfold switch_locked.
  calm_step. rewrite Z.eqb_refl, bool_decide_true by done. cbn [negb orb].
  rewrite !bool_decide_false by done. rewrite Hdry. calm_step.
  rewrite Hel, bool_decide_true by done. cbn [negb orb]. by apply switch_task_calm.
Qed.

Lemma Switch_calm c ctx t automatic s :
  switch_dry_run (cfg c) automatic = false -> k_leader s = true -> is_Some (leaderCtx (k_ctl s)) ->
  ready c t s ->
  wp calm_spec (Switch c ctx t automatic)
    (fun r s' => r.2 = None /\ switched t s s' /\ tripping (k_ctl s') = false) s.
Proof.
  intros Hdry Hl [l Hctx] Hready. pose proof Hready as (Ht & Hcl & Hne & _).
  unfold Switch, IsLeader. calm_step. rewrite Hl. cbn [negb].
  apply wp_try. unfold leaderBoundContext. apply wp_bind, read_locked_calm. rewrite Hctx.
  calm_step. apply wp_defer. unfold switch_as_leader. calm_step.
  rewrite bool_decide_false by done. apply wp_try, wp_ret.
  rewrite bool_decide_true by done. cbn [negb]. rewrite bool_decide_false by done. calm_step.
  apply wp_try, wp_call; [done|]. intros h s1 [Hok ->]. destruct h as [h|]; [|done].
  apply wp_defer. eapply wp_mono; [by apply switch_locked_calm|]. intros r s' Hr.
  apply idle_wp; [idle|]. intros _. by apply idle_wp; [idle|].
Qed.

(** ** Automatic failover *)

(** The statuses recorded by a round of probes. *)
Lemma probe_nodes_calm c ctx order s :
  NoDup order ->
  wp calm_spec (probe_nodes c ctx order) (fun _ s' => exists f, s' = k_set_ctl f s /\
    (forall id, statuses (k_ctl s') !! id = if decide (id ∈ order)
      then Some (probed_status (k_report s id) (default NodeStatus_zero (statuses (k_ctl s) !! id)))
      else statuses (k_ctl s) !! id) /\
    tripping (k_ctl s') = tripping (k_ctl s) /\ leaderCtx (k_ctl s') = leaderCtx (k_ctl s)) s.
Proof.
  intros Hnd. revert s. induction Hnd as [|id order Hid Hnd IH]; intros s; cbn [probe_nodes].
  { exists (fun x => x). split; [by destruct s|]. split; [|done]. intros id.
    by rewrite decide_False by set_solver. }
  apply wp_bind. unfold probe_node. calm_step. calm_step.
  set (st := probed_status _ _). apply wp_bind. apply idle_wp; [unfold probe_metrics; idle|]. intros _.
  calm_step. destruct (alert_decision _ _ _ _) as [alerted events]. calm_step.
  apply wp_bind. eapply wp_mono; [apply IH|]. intros rest s' (f & -> & Hst & Ht & Hl).
  exists (fun x => f (set_alerted alerted (set_status id st x))). split; [done|].
  split; [|done]. intros j. rewrite Hst. cbn.
  destruct (decide (j = id)) as [->|Hj].
  - rewrite (decide_False (P := id ∈ order)) by done. rewrite lookup_insert_eq.
    by rewrite decide_True by set_solver.
  - rewrite lookup_insert_ne by done.
    destruct (decide (j ∈ order)), (decide (j ∈ id :: order)); try done; set_solver.
Qed.

Lemma elem_of_in_order {V} order (m : gmap string V) id v :
  (id, v) ∈ in_order order m <-> id ∈ order /\ m !! id = Some v.
Proof.
  unfold in_order. rewrite list_elem_of_omap. split.
  - intros (k & Hk & Hf). destruct (m !! k) eqn:?; simplify_eq/=. done.
  - intros [Hid Hv]. exists id. by rewrite Hv.
Qed.

Lemma chooseTarget_calm c ex s :
  wp calm_spec (chooseTarget c ex) (fun r s' => s' = s /\ exists range,
    r = choose_target_from (cfg c) ex range /\
    forall id st, (id, st) ∈ range <-> statuses (k_ctl s) !! id = Some st) s.
Proof.
  unfold chooseTarget, range_statuses. calm_step. calm_step.
  apply wp_bind, wp_call; [done|]. intros order s1 [Hp ->]. calm_step.
  split; [done|]. eexists. split; [done|]. intros id st. rewrite elem_of_in_order, Hp.
  rewrite list_elem_of_fmap. split; [by intros [_ ?]|]. intros Hid. split; [|done].
  exists (id, st). split; [done|]. by apply elem_of_map_to_list.
Qed.

(** A leader watching its cluster, with automatic failover on. *)
Record watching (c : Controller) (s : calm) : Prop := {
  w_leads : k_leader s = true;
  w_context : is_Some (leaderCtx (k_ctl s));
  w_tripping : tripping (k_ctl s) = false;
  w_known : dom (statuses (k_ctl s)) ⊆ clients c;
  w_coherent : forall j, coherent (k_report s j);
  w_ids : "" ∉ clients c;
  w_primary : Primary (k_cluster s) ∈ clients c;
  w_epoch : is_uint64 (Epoch (k_cluster s)) = true;
  w_flag : AutoFailover (k_cluster s) = true
}.

(** The failed probes recorded for the primary. *)
Definition failures (s : calm) : Z :=
  FailureCount (default NodeStatus_zero (statuses (k_ctl s) !! Primary (k_cluster s))).

(** The switch made by an automatic failover: to a node that was eligible. *)
Definition failed_over (c : Controller) (s s' : calm) : Prop := exists t now,
  t ∈ clients c /\ eligible (cfg c) (Primary (k_cluster s)) t (k_report s t) /\
  k_cluster s' = switched_state t now (k_cluster s) /\ Healthy (k_report s' t) = true.

Lemma switched_watching c t s s' :
  watching c s -> t ∈ clients c -> switched t s s' -> tripping (k_ctl s') = false -> watching c s'.
Proof.
  intros [] Ht ((now & Hc) & _ & _ & Hco & Hst & Hctx & Hl & _) Htr. split; try done.
  - by rewrite Hl.
  - by rewrite Hctx.
  - by rewrite Hst.
  - intros j. by apply Hco.
  - by rewrite Hc.
  - rewrite Hc. cbn. unfold is_uint64, uint64. pose proof (Z.mod_pos_bound (Epoch (k_cluster s) + 1) two64).
    unfold two64 in *. apply andb_true_iff. rewrite Z.leb_le, Z.ltb_lt. lia.
  - by rewrite Hc.
Qed.

(** Health, role and lag of a probed status are those of the report. *)
Lemma probed_fields st prev :
  Healthy (probed_status st prev) = Healthy st /\ ns_Role (probed_status st prev) = ns_Role st /\
  Replica (probed_status st prev) = Replica st.
Proof. unfold probed_status. by destruct (Healthy st) eqn:?; cbn. Qed.

Lemma probed_eligible c ex id st prev :
  eligible c ex id (probed_status st prev) <-> eligible c ex id st.
Proof.
  unfold eligible, sec_lag. by destruct (probed_fields st prev) as (-> & -> & ->).
Qed.

(** The guarded state records the reports of the configured nodes. *)
Definition fresh (c : Controller) (s : calm) : Prop := forall id st,
  statuses (k_ctl s) !! id = Some st -> exists prev, st = probed_status (k_report s id) prev.

Lemma due_failover_calm c ctx s :
  ExecuteActions (cfg c) = true -> AutoFailoverExecute (cfg c) = true ->
  watching c s -> fresh c s ->
  (exists st, statuses (k_ctl s) !! Primary (k_cluster s) = Some st /\ Healthy st = false /\
    FailureThreshold (cfg c) <= FailureCount st) ->
  (exists id st, statuses (k_ctl s) !! id = Some st /\
    eligible (cfg c) (Primary (k_cluster s)) id st) ->
  wp calm_spec (tryAutomaticFailover c ctx (Primary (k_cluster s)))
    (fun _ s' => watching c s' /\ failed_over c s s' /\ k_ticks s' = k_ticks s) s.
Proof.
  intros Hex Hauto Hw Hfresh (st & Hst & Hh & Hcount) (id0 & st0 & Hst0 & Hel0).
  unfold tryAutomaticFailover, isTripping. apply wp_bind, read_locked_calm. rewrite Hst, Hh.
  destruct (Z.ltb_spec (FailureCount st) (FailureThreshold (cfg c))); [lia|]. cbn [orb].
  apply wp_bind, read_locked_calm. rewrite (w_tripping c s Hw).
  apply wp_bind, read_locked_calm. rewrite Hauto. cbn [negb andb].
  apply wp_bind. eapply wp_mono; [apply chooseTarget_calm|]. intros r s1 (-> & range & Hr & Hrange).
  destruct r as [t|e].
  2: { symmetry in Hr. exfalso. eapply (choose_target_Err _ _ _ _ Hr); [by apply Hrange|done]. }
  symmetry in Hr. apply choose_target_Ok in Hr as (stt & Hin%Hrange & Hel & _).
  destruct (Hfresh t stt Hin) as [prev ->]. pose proof (proj1 (probed_eligible _ _ _ _ _) Hel) as Helt. clear Hel.
  assert (t ∈ clients c) as Ht by (apply (w_known c s Hw); by eapply elem_of_dom_2).
  apply wp_bind. eapply wp_mono; [apply (Switch_calm c ctx t true s)|].
  - unfold switch_dry_run. by rewrite Hex, Hauto.
  - apply Hw.
  - apply Hw.
  - destruct Helt as (Hne & Hh' & Hrole & Hlag).
    destruct Hw as [? ? ? ? Hco Hids Hp ? ?]. split_and!;
      first [done | by intros -> | by intros Hempty; rewrite Hempty in Hp | apply Hco].
  - intros r s' (Hr & Hsw & Htr). rewrite Hr. pose proof Hsw as ((now & Hc) & ? & ? & _ & _ & _ & _ & ?).
    split; [by eapply switched_watching|]. split; [|done]. by exists t, now.
Qed.

(** The primary is unhealthy and another node could take over. *)
Definition failing (c : Controller) (s : calm) : Prop :=
  Healthy (k_report s (Primary (k_cluster s))) = false /\
  exists t, t ∈ clients c /\ eligible (cfg c) (Primary (k_cluster s)) t (k_report s t).

(** The state after a round of probes: only the recorded statuses changed. *)
Definition probed_round (c : Controller) (s s1 : calm) : Prop :=
  k_cluster s1 = k_cluster s /\ k_report s1 = k_report s /\ k_ticks s1 = k_ticks s /\
  fresh c s1 /\ dom (statuses (k_ctl s1)) = clients c /\
  failures s1 = (if Healthy (k_report s (Primary (k_cluster s))) then 0
    else int64 (failures s + 1)).

Lemma probe_round_calm c ctx s (Q : unit -> calm -> Prop) :
  watching c s ->
  (forall s1, watching c s1 -> probed_round c s s1 ->
    wp calm_spec (tryAutomaticFailover c ctx (Primary (k_cluster s))) Q s1) ->
  wp calm_spec (probe c ctx) Q s.
Proof.
  intros Hw HQ. unfold probe. calm_step. calm_step. rename x0 into order. rename H into Horder.
  apply wp_bind. eapply wp_mono; [apply probe_nodes_calm; rewrite Horder; apply NoDup_elements|].
  intros events s1 (f & -> & Hst & Htr & Hctx). set (s1 := k_set_ctl f s) in *.
  assert (forall id, id ∈ order <-> id ∈ clients c) as Hin
    by (intros id; rewrite Horder; apply elem_of_elements).
  assert (dom (statuses (k_ctl s1)) = clients c) as Hdom.
  { apply set_eq. intros id. rewrite elem_of_dom, Hst. destruct (decide (id ∈ order)) as [Hid|Hid].
    - split; [intros _; by apply Hin|by eauto].
    - split; [intros Hs; apply (w_known c s Hw), elem_of_dom, Hs|by intros ?%Hin]. }
  assert (watching c s1) as Hw1 by (destruct Hw; split; try done; [by rewrite Hctx|by rewrite Htr|by rewrite Hdom]).
  calm_step. apply idle_bind; [unfold send_alert; idle|]. intros _. calm_step.
  unfold adopt_primary. assert (Primary (k_cluster s) <> "") as Hp.
  { intros Hp. apply (w_ids c s Hw). rewrite <-Hp. apply (w_primary c s Hw). }
  change (k_cluster s1) with (k_cluster s). rewrite bool_decide_false by done.
  apply wp_bind, wp_ret. rewrite (w_flag c s Hw), bool_decide_false by done. cbn [negb andb].
  apply HQ; [done|]. split_and!; try done.
  - intros id st Hid. rewrite Hst in Hid. case_decide as Ho; [injection Hid as <-; eauto|].
    exfalso. apply Ho, Hin, (w_known c s Hw). by eapply elem_of_dom_2.
  - unfold failures. change (k_cluster s1) with (k_cluster s). rewrite Hst.
    rewrite decide_True by (apply Hin, (w_primary c s Hw)). cbn [default]. unfold probed_status.
    by case_match.
Qed.

Lemma set_dry_watching c p s : watching c s -> watching c (k_set_ctl (set_lastDryRunPrimary p) s).
Proof. by intros []. Qed.

(** Before the threshold is reached, a probe only counts. *)
Lemma skipped_calm c ctx s :
  watching c s -> failures s < FailureThreshold (cfg c) ->
  wp calm_spec (tryAutomaticFailover c ctx (Primary (k_cluster s)))
    (fun _ s' => watching c s' /\ k_cluster s' = k_cluster s /\ k_report s' = k_report s /\
      k_ticks s' = k_ticks s /\ failures s' = failures s) s.
Proof.
  intros Hw Hf. unfold failures in Hf. unfold tryAutomaticFailover.
  apply wp_bind, read_locked_calm.
  destruct (statuses (k_ctl s) !! Primary (k_cluster s)) as [st|]; [|by apply wp_bind, wp_ret, wp_ret].
  simpl in Hf. destruct (Z.ltb_spec (FailureCount st) (FailureThreshold (cfg c))); [|lia].
  rewrite orb_true_r. apply wp_bind, wp_ret. destruct (Healthy st); [|by apply wp_ret].
  apply update_locked_calm. intros _. split; [by apply set_dry_watching|done].
Qed.

(** What a probe of a failing primary does: it counts, and at the threshold it
    fails over. *)
Lemma probe_failing c ctx s :
  ExecuteActions (cfg c) = true -> AutoFailoverExecute (cfg c) = true ->
  FailureThreshold (cfg c) < two63 -> 0 <= failures s < FailureThreshold (cfg c) ->
  watching c s -> failing c s ->
  wp calm_spec (probe c ctx) (fun _ s' => watching c s' /\ k_ticks s' = k_ticks s /\
    if FailureThreshold (cfg c) <=? failures s + 1 then failed_over c s s'
    else k_cluster s' = k_cluster s /\ k_report s' = k_report s /\ failures s' = failures s + 1) s.
Proof.
  intros Hex Hauto Hth Hf Hw [Hsick (t & Ht & Hel)]. apply probe_round_calm; [done|].
  intros s1 Hw1 (Hc & Hr & Hk & Hfresh & Hdom & Hcount). rewrite Hsick, int64_small in Hcount
    by (unfold two63 in *; lia). rewrite <-Hc.
  destruct (Z.leb_spec (FailureThreshold (cfg c)) (failures s + 1)).
  - eapply wp_mono; [apply due_failover_calm; try done|].
    + assert (Primary (k_cluster s1) ∈ dom (statuses (k_ctl s1))) as [st Hst]%elem_of_dom
        by (rewrite Hdom; apply (w_primary c s1 Hw1)).
      exists st. unfold failures in Hcount at 1. rewrite Hst in Hcount. simpl in Hcount.
      destruct (Hfresh _ _ Hst) as [prev ->]. split; [done|].
      destruct (probed_fields (k_report s1 (Primary (k_cluster s1))) prev) as (-> & _).
      split; [by rewrite Hr, Hc|lia].
    + assert (t ∈ dom (statuses (k_ctl s1))) as [st Hst]%elem_of_dom by (by rewrite Hdom).
      exists t, st. split; [done|]. destruct (Hfresh _ _ Hst) as [prev ->].
      apply probed_eligible. by rewrite Hr, Hc.
    + intros [] s' (? & (t' & now & ? & ? & ? & ?) & ?). split; [done|]. split; [congruence|].
      exists t', now. by rewrite <-Hc, <-Hr.
  - eapply wp_mono; [apply skipped_calm; [done|lia]|]. intros [] s' (? & ? & ? & ? & ?).
    split; [done|]. split; [congruence|]. split; [congruence|]. split; [congruence|lia].
Qed.

(** A healthy primary is left alone. *)
Lemma probe_healthy c ctx s :
  1 <= FailureThreshold (cfg c) -> watching c s ->
  Healthy (k_report s (Primary (k_cluster s))) = true ->
  wp calm_spec (probe c ctx) (fun _ s' => watching c s' /\ k_cluster s' = k_cluster s /\
    k_report s' = k_report s /\ k_ticks s' = k_ticks s) s.
Proof.
  intros Hth Hw Hh. apply probe_round_calm; [done|].
  intros s1 Hw1 (Hc & Hr & Hk & _ & _ & Hcount). rewrite Hh in Hcount. rewrite <-Hc.
  eapply wp_mono; [apply skipped_calm; [done|lia]|]. intros [] s' (? & ? & ? & ? & ?).
  split; [done|]. split_and!; congruence.
Qed.

(** ** The leader's loop *)
Section loop.
Context (c : Controller) (ctx : Context) (s0 : calm).
Context (Hex : ExecuteActions (cfg c) = true) (Hauto : AutoFailoverExecute (cfg c) = true).
Context (Hth : FailureThreshold (cfg c) < two63) (Hfail : failing c s0).

(** The failover was made, or is due within [b] more probes. *)
Definition on_course (b : nat) (s : calm) : Prop :=
  watching c s /\
  (failed_over c s0 s \/
   (k_cluster s = k_cluster s0 /\ k_report s = k_report s0 /\
    0 <= failures s < FailureThreshold (cfg c) /\
    FailureThreshold (cfg c) <= failures s + Z.of_nat b)).

Lemma probe_on_course b s :
  1 <= FailureThreshold (cfg c) -> on_course (S b) s ->
  wp calm_spec (probe c ctx) (fun _ s' => on_course b s' /\ k_ticks s' = k_ticks s) s.
Proof using Hex Hauto Hth Hfail.
  intros Hpos [Hw [Hdone|(Hc & Hr & Hf & Hb)]].
  - destruct Hdone as (t & now & Ht & Hel & Hcl & Hh).
    eapply wp_mono; [apply probe_healthy; [done..|by rewrite Hcl]|].
    intros [] s' (? & Hc' & Hr' & ?). split; [|done]. split; [done|]. left.
    exists t, now. rewrite Hc', Hr'. done.
  - assert (failing c s) as Hfs by (unfold failing; rewrite Hc, Hr; exact Hfail).
    eapply wp_mono; [by apply probe_failing|]. intros [] s' (? & ? & Hs'). split; [|done].
    split; [done|]. destruct (Z.leb_spec (FailureThreshold (cfg c)) (failures s + 1)).
    + left. destruct Hs' as (t & now & ? & ? & ? & ?). exists t, now. rewrite <-Hc, <-Hr. done.
    + destruct Hs' as (Hc' & Hr' & Hf'). right. rewrite Hc', Hr', Hf'.
      split; [done|]. split; [done|]. lia.
Qed.

Lemma leader_loop_calm fuel n s :
  1 <= FailureThreshold (cfg c) -> on_course n s -> k_ticks s = n -> (n < fuel)%nat ->
  wp calm_spec (leader_loop fuel c ctx) (fun r s' => r = Some tt /\ failed_over c s0 s') s.
Proof using Hex Hauto Hth Hfail.
  intros Hpos. revert fuel s. induction n as [|n IH]; intros [|fuel] s Hs Hn Hfuel; [lia| |lia|];
    cbn [leader_loop]; calm_step; rewrite Hn; cbn [Nat.eqb negb pred].
  - split; [done|]. destruct Hs as [_ [Hd|(_ & _ & ? & ?)]]; [exact Hd|lia].
  - apply wp_bind. eapply wp_mono; [apply (probe_on_course n); [done|]|].
    + destruct Hs as [[] Hs]. split; [split; assumption|exact Hs].
    + intros [] s' [Hs' Hk]. apply IH; [done|by rewrite Hk|lia].
Qed.
End loop.

(** The controller once its leadership has started. *)
Definition leads (ctx : Context) (s : calm) : calm :=
  k_set_ctl (set_leaderCtx (Some ctx)) (k_set_leader true s).

(** C11: a leader with automatic failover on replaces a failing primary.  If the
    recorded primary keeps reporting itself unhealthy, its agent still answers,
    some other configured node is an eligible replica, and the leadership lasts
    for as many probes as are missing to the failure threshold, then the term of
    leadership ends with a node that was eligible recorded as the primary, at the
    next epoch, and healthy.  The etcd cluster and the agents answer meanwhile;
    alerts may fail, clocks may show anything, and maps may be visited in any
    order. *)
Theorem automatic_failover_happens fuel c ctx s :
  ExecuteActions (cfg c) = true -> AutoFailoverExecute (cfg c) = true ->
  1 <= FailureThreshold (cfg c) < two63 ->
  watching c (leads ctx s) -> failing c s ->
  0 <= failures s < FailureThreshold (cfg c) ->
  FailureThreshold (cfg c) <= failures s + 1 + Z.of_nat (k_ticks s) -> (k_ticks s < fuel)%nat ->
  wp calm_spec (runAsLeader fuel c ctx) (fun r s' => r = Some tt /\ failed_over c s s') s.
Proof.
  intros Hex Hauto [Hpos Hth] Hw Hfail Hf Hn Hfuel. unfold runAsLeader. calm_step.
  apply wp_bind, update_locked_calm. intros _. apply wp_bind.
  eapply wp_mono; [apply (probe_on_course c ctx s Hex Hauto Hth Hfail (k_ticks s)); [done|]|].
  { split; [exact Hw|]. right. split_and!; try done; unfold failures in *; cbn in *; lia. }
  intros [] s1 [Hs1 Hk]. apply wp_bind. eapply wp_mono; [by eapply leader_loop_calm|].
  intros r s2 [-> Hd]. apply wp_bind, update_locked_calm. intros _. calm_step.
  split; [done|]. exact Hd.
Qed.

(** ** A primary whose MySQL fails, and two replicas *)
Definition sick_report (id : string) : NodeStatus :=
  if bool_decide (id = "db-1") then node_status false true RoleUnknown None
  else if bool_decide (id = "db-2") then node_status true true RoleReplica (Some (running_replica 4))
  else node_status true true RoleReplica (Some (running_replica 2)).

Definition sick_cluster : calm := {|
  k_ctl := idle_ctl None; k_leader := false;
  k_cluster := set_AutoFailover true (MemoryStore.cluster (test_store "db-1" 7));
  k_report := sick_report; k_ticks := 2 |}.

(** The same cluster in the environment of [Sim.v], where the failover can be
    run: the replica with less lag takes over. *)
Definition sick_world : World := {|
  w_ctl := idle_ctl None; w_leader := false;
  w_store := MemoryStore.set_cluster (k_cluster sick_cluster) (test_store "db-1" 7);
  w_store_down := false;
  w_nodes := list_to_map ((fun id =>
    (id, {| f_status := sick_report id; f_gtid := "1"; f_promoteCalls := 0 |}))
      <$> ["db-1"; "db-2"; "db-3"]);
  w_heap := []; w_clock := 1000; w_sent := []; w_lost := fun _ => false; w_ticks := 2 |}.

Example sick_world_fails_over :
  let out := run world_step (runAsLeader 3 (test_controller true true) (Root "leader")) sick_world in
  out.1 = Some tt /\ Primary (MemoryStore.cluster (w_store out.2)) = "db-3" /\
  Epoch (MemoryStore.cluster (w_store out.2)) = 8.
Proof. vm_compute. repeat split; reflexivity. Qed.

Lemma automatic_failover_happens_witness :
  wp calm_spec (runAsLeader 3 (test_controller true true) (Root "leader"))
    (fun r s' => r = Some tt /\ failed_over (test_controller true true) sick_cluster s') sick_cluster.
Proof.
  apply (automatic_failover_happens 3 (test_controller true true) (Root "leader") sick_cluster).
  - reflexivity.
  - reflexivity.
  - vm_compute. split; [discriminate|reflexivity].
  - split; [reflexivity|by exists (Root "leader")|reflexivity| | | | |reflexivity|reflexivity].
    + intros id Hid. cbn in Hid. set_solver.
    + intros j. cbn. unfold sick_report. repeat case_bool_decide; intros Hh Hr; try done; by eexists _, _.
    + apply (bool_decide_unpack _). vm_compute. exact I.
    + apply (bool_decide_unpack _). vm_compute. exact I.
  - split; [reflexivity|]. exists "db-2". split; [apply (bool_decide_unpack _); vm_compute; exact I|].
    split; [done|]. repeat split; vm_compute; discriminate.
  - vm_compute. split; [discriminate|reflexivity].
  - vm_compute. discriminate.
  - apply Nat.ltb_lt. reflexivity.
Defined.
