(* ===== verification/Leadership.v ===== *)
(** * The background goroutine of a controller on etcd

    [controller.Run] ([internal/ha/controller.go]) with the store's
    [RunLeaderElection] ([internal/store/store.go]) and everything below it: the
    election calls back [runAsLeader], whose store calls are the operations of
    [EtcdStore].  The theorem relates the two: the controller works only while it
    is elected, and has stepped down before it resigns. *)
From S2P Require Import Prelude GoStd Effects Model Json JsonText GoTime Wire Format Config Store Node Etcd EtcdSafety Controller Sim SwitchSafety Failover.

(** The calls that remain: those of the election, those the store's operations
    make of etcd, and the controller's own. *)
Inductive sysE : Type -> Type :=
| SElection {X : Type} (e : etcdE X) : sysE X
| SStoreCall {X : Type} (e : etcdE X) : sysE X
| SCtl {X : Type} (e : ctlE X) : sysE X.

Section leadership.
Context `{JC : !Json ClusterState, JA : !Json SwitchAuthorization, JT : !Json SwitchTask}.
Context (prefix : string).

(** The controller on the etcd store. *)
Definition on_etcd : forall X, ctlE X -> prog sysE X := fun X e =>
  match e in ctlE X return prog sysE X with
  | EStore e => interp (fun Y e => call (SStoreCall e)) (EtcdStore.step prefix _ e)
  | e => call (SCtl e)
  end.

(** The election with its callback. *)
Definition elected (onLeader : Context -> prog ctlE (option unit)) : forall X, etcdE X -> prog sysE X :=
  fun X e =>
  match e in etcdE X return prog sysE X with
  | KOnLeader ctx => _ <- interp on_etcd (onLeader ctx) ;; Ret tt
  | e => call (SElection e)
  end.

(** [controller.Run]; [rounds] bounds the rounds of the election and [fuel] the
    ticks of a term. *)
Definition run_controller (rounds fuel : nat) (c : Controller) (ctx : Context)
    : prog sysE (option (option string)) :=
  Run (fun ctx id onLeader =>
    interp (elected onLeader) (EtcdStore.RunLeaderElection prefix rounds ctx id)) fuel c ctx.

(** The state: where the candidate stands, how often its context is still found
    alive; the fields of the controller, its leader flag, and the ticks its
    current term still gets. *)
Definition system : Type := (standing * nat) * (CtlState * bool * nat).

(** Every term gets at most [N] ticks; [cause] is the error of a context that was
    cancelled. *)
Context (N : nat) (cause : Context -> string).

Definition off_duty (s : CtlState * bool * nat) : Prop :=
  leaderCtx s.1.1 = None /\ s.1.2 = false /\ (s.2 <= N)%nat.

Definition sys_pre (ctx : Context) {X} (e : sysE X) (w : system) : Prop :=
  match e with
  | SElection e => elect_pre prefix ctx e w.1 /\ off_duty w.2
  | SStoreCall _ | SCtl _ => exists l, w.1.1 = Elected l
  end.
Definition sys_post {X} (e : sysE X) : system -> X -> system -> Prop :=
  match e in sysE X return system -> X -> system -> Prop with
  | SElection e => fun w x w' =>
      elect_post cause e w.1 x w'.1 /\ w'.2.1 = w.2.1 /\ (w'.2.2 <= N)%nat
  | SStoreCall _ => fun w _ w' => w' = w
  | SCtl e => fun w x w' => w'.1 = w.1 /\ loop_post e w.2 x w'.2
  end.
Definition sys_spec (ctx : Context) : espec sysE system :=
  {| pre _ e := sys_pre ctx e; post _ e := sys_post e |}.

(** ** The election, with the controller off duty between its calls *)
Definition election_spec (ctx : Context) : espec etcdE system := {|
  pre _ e w := elect_pre prefix ctx e w.1 /\ off_duty w.2;
  post _ e w x w' := elect_post cause e w.1 x w'.1 /\ off_duty w'.2
|}.

Lemma election_off_duty ctx {A} (p : prog etcdE A) Q s1 s2 :
  wp (elect_spec prefix cause ctx) p Q s1 -> off_duty s2 ->
  wp (election_spec ctx) p (fun a w => Q a w.1 /\ off_duty w.2) (s1, s2).
Proof.
  revert s1 s2. induction p as [a|X e k IH]; intros s1 s2 Hp Hs2; [by split|].
  destruct Hp as [Hpre Hk]. split; [by split|]. intros x [t1 t2] [Hpost Ht2].
  by apply IH; [apply Hk|].
Qed.

(** ** A term of leadership, on the etcd store *)
Definition term_spec (w1 : standing * nat) : espec ctlE system := {|
  pre _ _ w := w.1 = w1;
  post _ e w x w' := w'.1 = w1 /\ loop_post e w.2 x w'.2
|}.

Lemma term_wp w1 {A} (p : prog ctlE A) Q s :
  wp loop_spec p Q s -> wp (term_spec w1) p (fun a w => w.1 = w1 /\ Q a w.2) (w1, s).
Proof.
  revert s. induction p as [a|X e k IH]; intros s Hp; [by split|].
  destruct Hp as [_ Hk]. split; [done|]. intros x [t1 t2] [Ht1 Hpost]. cbn in Ht1. subst t1.
  by apply IH, Hk.
Qed.

Lemma on_etcd_term ctx l m X (e : ctlE X) w :
  w.1 = (Elected l, m) ->
  wp (sys_spec ctx) (on_etcd X e) (fun x w' => post (term_spec (Elected l, m)) e w x w') w.
Proof.
  intros Hw. destruct e; try (apply wp_call; [exists l; by rewrite Hw|];
    intros x w' [Hw' Hp]; split; [by rewrite Hw', Hw|exact Hp]).
  cbn [on_etcd]. apply (all_calls_wp (fun X e => match e with SStoreCall _ => True | _ => False end)
    _ _ _ (fun w' => w' = w)); [| | | |done].
  - apply (all_calls_interp _ (fun _ _ => True)); [by intros|].
    by apply all_calls_any.
  - intros Y [?|?|?] w' He ->; try done. exists l. by rewrite Hw.
  - intros Y [?|?|?] w' x w'' He -> Hp; try done.
  - intros x ? ->. split; [done|]. cbn. done.
Qed.
(** What the election's calls do, the callback included. *)
Lemma elected_call ctx fuel c X (e : etcdE X) w :
  (N < fuel)%nat -> pre (election_spec ctx) e w ->
  wp (sys_spec ctx) (elected (runAsLeader fuel c) X e)
    (fun x w' => post (election_spec ctx) e w x w') w.
Proof.
  intros Hfuel [He [Hl [Hb Hn]]].
  destruct e; try (apply wp_call; [split; [exact He|by repeat split]|]; intros x w' (Hp & Heq & Hn');
    split; [exact Hp|]; split; [by rewrite Heq|split; [by rewrite Heq|done]]).
  destruct He as (l & Hel & ->). destruct w as [[st m] [[s b] n]]. cbn in Hel, Hl, Hb, Hn. subst.
  cbn [elected]. eapply wp_seq.
  - eapply (wp_interp_pre _ (term_spec (Elected l, m))).
    + intros Y e w Hw. by apply on_etcd_term.
    + apply term_wp, (runAsLeader_ends fuel c (Locked ctx l) s false n).
  - intros r [w1 [[s' b'] n']] [Hw1 Hr]. cbn in Hw1. subst w1.
    assert ((n <? fuel)%nat = true) as Hlt by (apply Nat.ltb_lt; lia). rewrite Hlt in Hr.
    destruct Hr as (_ & Hs' & Hb' & Hn'). cbn in Hs', Hb', Hn'. subst.
    split; [done|]. split; [done|]. split; [done|]. cbn. lia.
Qed.

(** C12: the background goroutine of a controller whose store is on etcd makes no
    store call, node call, alert or route change unless it has won a campaign in
    a session it has not given up, and it has cleared its leadership context and
    its leader flag whenever it campaigns, resigns, closes a session or returns.
    It returns exactly the error of its context (the one error a cancelled context
    reports, never that of a session or a campaign), and within one round more
    than that context is found alive, whatever the calls answer, if no term gets
    more than [N] ticks and [fuel] exceeds [N]. *)
Theorem leader_work_is_confined rounds fuel c ctx s n ticks :
  (N < fuel)%nat -> (ticks <= N)%nat -> leaderCtx s = None ->
  wp (sys_spec ctx) (run_controller rounds fuel c ctx)
    (fun r w => elect_outcome cause ctx rounds n r w.1 /\ off_duty w.2) (NoSession, n, (s, false, ticks)).
Proof.
  intros Hfuel Hn Hs. unfold run_controller, Run. eapply (wp_interp_pre _ (election_spec ctx)).
  - intros X e w Hpre. by apply elected_call.
  - apply (election_off_duty ctx _ (elect_outcome cause ctx rounds n)); [apply RunLeaderElection_wp|done].
Qed.
End leadership.

(** One term of two ticks. *)
Lemma leader_work_is_confined_witness :
  wp (sys_spec "/ha/mysql-ha" 2 (fun _ => "context canceled") (Root "process"))
    (run_controller "/ha/mysql-ha" 5 3 (test_controller true false) (Root "process"))
    (fun r w => elect_outcome (fun _ => "context canceled") (Root "process") 5 1 r w.1 /\ off_duty 2 w.2) (NoSession, 1%nat, (idle_ctl None, false, 2%nat)).
Proof.
  apply (leader_work_is_confined "/ha/mysql-ha" 2 (fun _ => "context canceled") 5 3 (test_controller true false) (Root "process")
    (idle_ctl None) 1 2); [lia|lia|reflexivity].
Defined.
