(* ===== verification/Main.v ===== *)
(** * Start-up of the processes

    [cmd/controller/main.go] and [cmd/mysql-agent/main.go], from the loaded
    configuration to the call that serves requests.  A [main] returns the exit
    status of its process: [os.Exit] skips the deferred calls, returning runs
    them. *)
From S2P Require Import Prelude GoStd Effects Model Store Config Node MySQL Json Agent AgentClient Etcd Controller.

(** The store a process works with. *)
Inductive backend : Type :=
| EtcdBackend (prefix : string)
| MemoryBackend (state : MemoryStore.t).

(** The agent's [tls.Config]: oldest protocol version, its certificate,
    client authentication and the authorities clients are checked against. *)
Inductive ClientAuthType : Type := NoClientCert | RequireAndVerifyClientCert.
Record TLSConfig : Type := {
  tls_MinVersion : Z;
  tls_Certificate : KeyPair;
  tls_ClientAuth : ClientAuthType;
  tls_ClientCAs : string
}.

(** A listening server: [None] is [http.ErrServerClosed]. *)
Inductive bootE : Type -> Type :=
| BEtcd {X : Type} (e : etcdE X) : bootE X
| BHttp {X : Type} (e : httpE X) : bootE X
| BSql {X : Type} (e : sqlE X) : bootE X
| BCtl {X : Type} (b : backend) (e : ctlE X) : bootE X
| BOpenDB (dsn : string) : bootE (result unit)
| BLog (message : string) : bootE unit
| BServeController (addr : string) (c : Controller) (b : backend) : bootE (option string)
| BServeAgent (addr nodeID : string) (db : MySQLNodeConfig) (b : backend) (tls : TLSConfig)
    : bootE (option string).

Module Main.

Definition etcd {A} (p : prog etcdE A) : prog bootE A := interp (fun X e => call (BEtcd e)) p.
Definition http {A} (p : prog httpE A) : prog bootE A := interp (fun X e => call (BHttp e)) p.
Definition exit_with (message : string) : prog bootE Z := call (BLog message) ;;; Ret 1.

(** Serve until the listener stops, then run [deferred]; a failure exits. *)
Definition serve (listen : bootE (option string)) (stopped : string) (deferred : prog bootE unit)
    : prog bootE Z :=
  err <- call listen ;;
  match err with
  | Some _ => exit_with stopped
  | None => deferred ;;; Ret 0
  end.

(** ** The controller *)

Definition new_client (node : AgentNodeConfig) (caFile certFile keyFile : string)
    : prog bootE (result AgentClient.Client) := http (AgentClient.NewClient node caFile certFile keyFile).

(** Create the controller and serve. *)
Definition start_controller (c : Config) (b : backend) : prog bootE Z :=
  try controller <- NewController new_client c else (fun _ => exit_with "create controller") ;;
  call (BLog "HA controller started") ;;;
  serve (BServeController (HTTPAddr c) controller b) "HTTP server stopped"
    (_ <- interp (fun X e => call (BCtl b e)) (Controller.Close controller) ;; Ret tt).

Definition controller_main (loaded : result Config) : prog bootE Z :=
  match loaded with
  | Err _ => exit_with "load config"
  | Ok c =>
      r <- etcd (EtcdStore.NewEtcdStore (EtcdEndpoints c) (ClusterName c)) ;;
      match r with
      | Ok prefix => start_controller c (EtcdBackend prefix)
      | Err _ =>
          if RequireEtcd c then exit_with "Etcd is required; refusing to start without quorum"
          else
            call (BLog "etcd unavailable, using in-memory state; persistence is disabled") ;;;
            start_controller c (MemoryBackend (MemoryStore.NewMemoryStore (ClusterName c)))
      end
  end.

(** ** The agent *)

(** [mysqlclient.NewClient]: [sql.Open] and the limits of the pool. *)
Definition NewMySQLClient (config : MySQLNodeConfig) : prog bootE (result MySQLNodeConfig) :=
  try _ <- call (BOpenDB (mc_DSN config)) else (fun e => Ret (Err e)) ;;
  Ret (Ok config).

Definition agent_mysql_config (c : AgentConfig) : MySQLNodeConfig := {|
  mc_ID := ac_NodeID c; mc_Address := ac_NodeAddress c; mc_DSN := ac_MySQLDSN c;
  mc_ReplicationUser := ac_ReplicationUser c; mc_ReplicationPass := ac_ReplicationPass c |}.

Definition agent_main (loaded : result AgentConfig) : prog bootE Z :=
  match loaded with
  | Err _ => exit_with "load agent config"
  | Ok c =>
      try caPEM <- call (BHttp (HReadFile (ac_AgentCAFile c)))
        else (fun _ => exit_with "read agent CA") ;;
      found <- call (BHttp (HAppendCertsFromPEM caPEM)) ;;
      if negb found then exit_with "agent CA has no certificates" else
      try cert <- call (BHttp (HLoadX509KeyPair (ac_AgentCertFile c) (ac_AgentKeyFile c)))
        else (fun _ => exit_with "load agent TLS certificate") ;;
      try db <- NewMySQLClient (agent_mysql_config c)
        else (fun _ => exit_with "create local MySQL client") ;;
      try prefix <- etcd (EtcdStore.NewEtcdStore (ac_EtcdEndpoints c) (ac_ClusterName c))
        else (fun _ => exit_with "Etcd is required for agent write authorization") ;;
      match NewServer (ac_NodeID c) true true with
      | Err _ => exit_with "create agent"
      | Ok nodeID =>
          call (BLog "mysql agent started") ;;;
          serve (BServeAgent (ac_HTTPAddr c) nodeID db (EtcdBackend prefix)
                   {| tls_MinVersion := VersionTLS12;
                      tls_Certificate := cert;
                      tls_ClientAuth := RequireAndVerifyClientCert; tls_ClientCAs := caPEM |})
            "agent server stopped"
            (_ <- etcd EtcdStore.Close ;; _ <- call (BSql QClose) ;; Ret tt)
      end
  end.

(** ** What a serving process has *)

Definition history : Type := list (event bootE).

(** Some endpoint answered. *)
Definition etcd_answered (endpoints : list string) (h : history) : Prop :=
  exists ctx endpoint, endpoint ∈ endpoints /\ Ev (BEtcd (KStatus ctx endpoint)) (Ok tt) ∈ h.

(** The CA file was read as [pem] and holds certificates, and the key pair was
    loaded as [pair]. *)
Definition credentials (caFile certFile keyFile pem : string) (pair : KeyPair) (h : history) : Prop :=
  Ev (BHttp (HReadFile caFile)) (Ok pem) ∈ h /\
  Ev (BHttp (HAppendCertsFromPEM pem)) true ∈ h /\
  Ev (BHttp (HLoadX509KeyPair certFile keyFile)) (Ok pair) ∈ h.

Definition usable (c : Config) (h : history) (node : AgentNodeConfig) : Prop :=
  an_ID node <> "" /\ an_Address node <> "" /\ HasPrefix (an_AgentURL node) "https://" = true /\
  exists pem pair, credentials (AgentCAFile c) (AgentCertFile c) (AgentKeyFile c) pem pair h.

(** The controller [ctl] knows exactly the nodes of [nodes]. *)
Definition knows (c : Config) (nodes : list AgentNodeConfig) (ctl : Controller) (h : history)
    : Prop :=
  cfg ctl = c /\ clients ctl = list_to_set (an_ID <$> nodes) /\ dom (configs ctl) = clients ctl /\
  forall id node, configs ctl !! id = Some node ->
    node ∈ nodes /\ an_ID node = id /\ usable c h node.

Definition controller_ready (c : Config) (ctl : Controller) (b : backend) (h : history) : Prop :=
  Nodes c <> [] /\ knows c (Nodes c) ctl h /\
  match b with
  | EtcdBackend prefix => prefix = "/ha/" +:+ ClusterName c /\ etcd_answered (EtcdEndpoints c) h
  | MemoryBackend s => RequireEtcd c = false /\ s = MemoryStore.NewMemoryStore (ClusterName c)
  end.

Definition agent_ready (c : AgentConfig) (nodeID : string) (b : backend) (tls : TLSConfig)
    (h : history) : Prop :=
  nodeID = ac_NodeID c /\ nodeID <> "" /\
  tls_ClientAuth tls = RequireAndVerifyClientCert /\ tls_MinVersion tls = VersionTLS12 /\
  credentials (ac_AgentCAFile c) (ac_AgentCertFile c) (ac_AgentKeyFile c)
    (tls_ClientCAs tls) (tls_Certificate tls) h /\
  b = EtcdBackend ("/ha/" +:+ ac_ClusterName c) /\ etcd_answered (ac_EtcdEndpoints c) h.

Definition any_boot_answer (X : Type) (e : bootE X) (x : X) : Prop := True.

Definition controller_call (c : Config) (X : Type) (h : history) (e : bootE X) : Prop :=
  match e with
  | BServeController _ ctl b => controller_ready c ctl b h
  | BServeAgent _ _ _ _ _ => False
  | _ => True
  end.

Definition agent_call (c : AgentConfig) (X : Type) (h : history) (e : bootE X) : Prop :=
  match e with
  | BServeAgent addr nodeID db b tls =>
      addr = ac_HTTPAddr c /\ db = agent_mysql_config c /\ agent_ready c nodeID b tls h
  | BServeController _ _ _ => False
  | _ => True
  end.

Lemma sub_snoc (h : history) ev : h ⊆ h ++ [ev].
Proof. intros x. rewrite elem_of_app. by left. Qed.

(** Readiness outlives further calls. *)
Lemma etcd_answered_mono endpoints h h' :
  h ⊆ h' -> etcd_answered endpoints h -> etcd_answered endpoints h'.
Proof. intros Hh (ctx & ep & ? & ?). exists ctx, ep. split; [done|]. by apply Hh. Qed.

Lemma credentials_mono ca cert key pem pair h h' :
  h ⊆ h' -> credentials ca cert key pem pair h -> credentials ca cert key pem pair h'.
Proof. intros Hh (? & ? & ?). by repeat split; apply Hh. Qed.

Lemma knows_mono c nodes ctl h h' : h ⊆ h' -> knows c nodes ctl h -> knows c nodes ctl h'.
Proof.
  intros Hh (? & ? & ? & Hl). do 3 (split; [done|]). intros id n Hn.
  destruct (Hl id n Hn) as (? & ? & ? & ? & ? & pem & pair & ?). do 5 (split; [done|]).
  exists pem, pair. by apply (credentials_mono _ _ _ _ _ h).
Qed.

Lemma knows_add c nodes ctl h node :
  knows c nodes ctl h -> usable c h node ->
  knows c (nodes ++ [node]) {| cfg := cfg ctl; clients := {[an_ID node]} ∪ clients ctl;
    configs := <[an_ID node := node]> (configs ctl) |} h.
Proof.
  intros (Hcfg & Hcl & Hdom & Hl) Hu. split; [done|]. split; [|split]; cbn.
  - rewrite Hcl, fmap_app, list_to_set_app_L. set_solver.
  - by rewrite dom_insert_L, Hdom.
  - intros id n Hn. apply lookup_insert_Some in Hn as [[<- <-]|[_ Hn]]; [set_solver|].
    destruct (Hl id n Hn) as (? & ? & ?). set_solver.
Qed.

(** A process may make any call that serves nothing. *)
Definition starting (P : forall X, history -> bootE X -> Prop) : Prop :=
  forall X (e : bootE X) h,
    match e with BServeController _ _ _ | BServeAgent _ _ _ _ _ => True | _ => P X h e end.

Section starting.
Context (P : forall X, history -> bootE X -> Prop) (HP : starting P).
Let spec := history_spec any_boot_answer P.

Lemma etcd_status_wp endpoints name lastErr h :
  wp spec (etcd (EtcdStore.connect endpoints name lastErr)) (fun r h' => h ⊆ h' /\
    forall prefix, r = Ok prefix -> prefix = "/ha/" +:+ name /\ etcd_answered endpoints h') h.
Proof.
  revert lastErr h. induction endpoints as [|ep eps IH]; intros lastErr h; cbn.
  - split; [apply (HP _ (BEtcd _))|]. intros x h' [_ ->]. split; [set_solver|done].
  - split; [apply (HP _ (BEtcd _))|]. intros [[]|e] h' [_ ->]; cbn.
    + split; [apply (HP _ (BEtcd _))|]. intros x h' [_ ->]. split; [set_solver|].
      intros prefix [= <-]. split; [done|].
      exists (WithTimeout Background 3), ep. split; [left|]. set_solver.
    + split; [apply (HP _ (BEtcd _))|]. intros x h' [_ ->].
      eapply wp_mono; [apply IH|]. intros r h'' [Hh Hr]. split; [set_solver|].
      intros prefix ->. destruct (Hr prefix) as [? (ctx & ep' & ? & ?)]; [done|].
      split; [done|]. exists ctx, ep'. set_solver.
Qed.

Lemma new_etcd_store_wp endpoints name h :
  wp spec (etcd (EtcdStore.NewEtcdStore endpoints name)) (fun r h' => h ⊆ h' /\
    forall prefix, r = Ok prefix -> prefix = "/ha/" +:+ name /\ etcd_answered endpoints h') h.
Proof.
  destruct endpoints as [|ep eps]; [done|]. cbn -[EtcdStore.connect].
  split; [apply (HP _ (BEtcd _))|]. intros [[]|e] h' [_ ->]; cbn -[EtcdStore.connect].
  - eapply wp_mono; [apply etcd_status_wp|]. intros r h' [? ?]. split; [set_solver|done].
  - split; [set_solver|done].
Qed.

Lemma new_client_wp node ca cert key h :
  wp spec (new_client node ca cert key) (fun r h' => h ⊆ h' /\
    forall cl, r = Ok cl -> HasPrefix (an_AgentURL node) "https://" = true /\
      exists pem pair, cl = AgentClient.new_client node pem pair /\
        credentials ca cert key pem pair h') h.
Proof.
  unfold new_client, AgentClient.NewClient, http.
  case_match; [done|]. destruct (HasPrefix (an_AgentURL node) "https://"); [|done]. cbn.
  split; [apply (HP _ (BHttp _))|]. intros [pem|e] h' [_ ->]; cbn; [|split; [set_solver|done]].
  split; [apply (HP _ (BHttp _))|]. intros [] h' [_ ->]; cbn; [|split; [set_solver|done]].
  split; [apply (HP _ (BHttp _))|]. intros [pair|e] h' [_ ->]; cbn; [|split; [set_solver|done]].
  split; [set_solver|]. intros cl [= <-]. split; [done|]. exists pem, pair. repeat split; set_solver.
Qed.

Lemma add_nodes_wp c nodes h : forall done ctl, knows c done ctl h ->
  wp spec (add_nodes new_client nodes ctl) (fun r h' => h ⊆ h' /\
    forall ctl', r = Ok ctl' -> knows c (done ++ nodes) ctl' h') h.
Proof.
  revert h. induction nodes as [|node nodes IH]; intros h done ctl Hk; cbn [add_nodes].
  { split; [done|]. intros ctl' [= <-]. by rewrite app_nil_r. }
  case_match eqn:Hempty; [split; [done|by intros]|].
  rewrite !orb_false_iff, !bool_decide_eq_false in Hempty. destruct Hempty as [[Hid Haddr] _].
  apply wp_try. eapply wp_mono; [apply new_client_wp|].
  intros r h1 [Hh1 Hr]. destruct r as [n|e]; [|split; [done|by intros]].
  destruct (Hr n eq_refl) as (Hurl & pem & pair & _ & Hcred).
  eapply wp_mono; [apply (IH h1 (done ++ [node])), knows_add; [by apply (knows_mono _ _ _ h)|]|].
  - destruct Hk as [Hcfg _]. rewrite Hcfg in Hcred. repeat split; try done. by exists pem, pair.
  - cbv beta. intros r h2 [Hh2 Hr2]. rewrite <-app_assoc in Hr2. split; [by etrans|done].
Qed.

Lemma new_controller_wp c h :
  wp spec (NewController new_client c) (fun r h' => h ⊆ h' /\
    forall ctl, r = Ok ctl -> Nodes c <> [] /\ knows c (Nodes c) ctl h') h.
Proof.
  unfold NewController. destruct (Nodes c) as [|node nodes] eqn:Hnodes; [split; [done|by intros]|].
  eapply wp_mono; [apply (add_nodes_wp c (node :: nodes) h [])|].
  - do 3 (split; [set_solver|]). intros id n. cbn. by rewrite lookup_empty.
  - intros r h' [? Hr]. split; [done|]. intros ctl Hctl. split; [done|]. by apply Hr.
Qed.

(** Once ready to listen, the rest is a matter of ordinary calls. *)
Lemma serve_wp listen stopped deferred h :
  P _ h listen -> all_calls (fun X e => forall h, P X h e) deferred ->
  wp spec (serve listen stopped deferred) (fun _ _ => True) h.
Proof.
  intros Hl Hd. apply wp_bind, wp_call; [done|]. intros [err|] h' _.
  - split; [apply (HP _ (BLog _))|done].
  - apply wp_bind. eapply wp_mono; [by apply wp_extends|done].
Qed.

Lemma exit_with_wp message h : wp spec (exit_with message) (fun _ _ => True) h.
Proof. split; [apply (HP _ (BLog _))|done]. Qed.
End starting.

Lemma controller_starting c : starting (controller_call c).
Proof. by intros X []. Qed.
Lemma agent_starting c : starting (agent_call c).
Proof. by intros X []. Qed.
#[local] Hint Resolve controller_starting agent_starting : core.

(** A controller is started with a store that suits its configuration. *)
Lemma start_controller_wp c b h :
  match b with
  | EtcdBackend prefix => prefix = "/ha/" +:+ ClusterName c /\ etcd_answered (EtcdEndpoints c) h
  | MemoryBackend s => RequireEtcd c = false /\ s = MemoryStore.NewMemoryStore (ClusterName c)
  end ->
  wp (history_spec any_boot_answer (controller_call c)) (start_controller c b) (fun _ _ => True) h.
Proof.
  intros Hb. apply wp_try. eapply wp_mono; [by apply new_controller_wp|].
  intros [ctl|e] h1 [Hh1 Hctl]; [|by apply exit_with_wp].
  destruct (Hctl ctl eq_refl) as [Hne Hk]. apply wp_bind, wp_call; [done|]. intros [] h2 [_ ->].
  assert (Hh2 := sub_snoc h1 (Ev (BLog "HA controller started") tt)).
  apply serve_wp; [done| |].
  - split; [done|]. split; [by eapply knows_mono|].
    destruct b; [|done]. destruct Hb as [-> Ha]. split; [done|].
    apply (etcd_answered_mono _ h); [by etrans|done].
  - apply all_calls_bind; [|done].
    by eapply all_calls_interp; [|by apply (all_calls_any (fun _ _ => True))].
Qed.

Lemma controller_main_wp c :
  wp (history_spec any_boot_answer (controller_call c)) (controller_main (Ok c))
    (fun _ _ => True) [].
Proof.
  apply wp_bind. eapply wp_mono; [by apply new_etcd_store_wp|].
  intros [prefix|e] h [_ Hr]; [by apply start_controller_wp, Hr|].
  destruct (RequireEtcd c) eqn:Hreq; [by apply exit_with_wp|].
  apply wp_bind, wp_call; [done|]. intros [] h' _. by apply start_controller_wp.
Qed.

Lemma agent_main_wp c :
  wp (history_spec any_boot_answer (agent_call c)) (agent_main (Ok c)) (fun _ _ => True) [].
Proof.
  apply wp_try, wp_call; [done|]. intros [pem|e] h [_ ->]; [|by apply exit_with_wp].
  apply wp_bind, wp_call; [done|]. intros [] h [_ ->]; [|by apply exit_with_wp].
  apply wp_try, wp_call; [done|]. intros [pair|e] h [_ ->]; [|by apply exit_with_wp].
  assert (credentials (ac_AgentCAFile c) (ac_AgentCertFile c) (ac_AgentKeyFile c) pem pair
    ((([] ++ [Ev (BHttp (HReadFile (ac_AgentCAFile c))) (Ok pem)]) ++
      [Ev (BHttp (HAppendCertsFromPEM pem)) true]) ++
     [Ev (BHttp (HLoadX509KeyPair (ac_AgentCertFile c) (ac_AgentKeyFile c))) (Ok pair)])) as Hcred
    by (repeat split; set_solver).
  revert Hcred. generalize ((([] ++ [Ev (BHttp (HReadFile (ac_AgentCAFile c))) (Ok pem)]) ++
      [Ev (BHttp (HAppendCertsFromPEM pem)) true]) ++
     [Ev (BHttp (HLoadX509KeyPair (ac_AgentCertFile c) (ac_AgentKeyFile c))) (Ok pair)]).
  intros h Hcred. apply wp_try, wp_try, wp_call; [done|].
  intros [[]|e] h1 [_ ->]; [|by apply exit_with_wp].
  apply wp_try. eapply wp_mono; [by apply new_etcd_store_wp|].
  intros [prefix|e] h2 [Hh2 Hr]; [|by apply exit_with_wp].
  destruct (Hr prefix eq_refl) as [-> Ha]. unfold NewServer.
  destruct (bool_decide (ac_NodeID c = "")) eqn:Hid; [by apply exit_with_wp|].
  apply bool_decide_eq_false in Hid.
  apply wp_bind, wp_call; [done|]. intros [] h3 [_ ->].
  assert (Hh3 := sub_snoc h2 (Ev (BLog "mysql agent started") tt)).
  assert (Hh1 := sub_snoc h (Ev (BOpenDB (mc_DSN (agent_mysql_config c))) (Ok tt))).
  apply serve_wp; [done| |done].
  do 2 (split; [done|]). do 4 (split; [done|]). split; [|split; [done|]].
  - apply (credentials_mono _ _ _ _ _ h); [|done].
    etrans; [exact Hh1|]. by etrans; [exact Hh2|].
  - by apply (etcd_answered_mono _ h2).
Qed.

Lemma any_boot tr : answers_ok any_boot_answer tr.
Proof. by apply Forall_forall; intros []. Qed.

(** C31: a controller configured to require etcd never serves from memory: in
    every run of the process it listens only with the store of an endpoint that
    answered, or, when etcd is not required, with a fresh in-memory store; it
    then knows exactly the configured nodes, of which there is one at least,
    each with an id, an address and an HTTPS URL, and the credentials for their
    agents have been read. *)
Theorem controller_serves_when_ready c tr r tr1 addr ctl b x tr2 :
  behaves (controller_main (Ok c)) tr r ->
  tr = tr1 ++ Ev (BServeController addr ctl b) x :: tr2 ->
  controller_ready c ctl b tr1.
Proof.
  intros Hb. apply (adequacy _ _ _ _ _ _ (controller_main_wp c) Hb (any_boot tr)).
Qed.

(** C32: an agent serves its database only behind mutual TLS (version 1.2 or
    later) that checks clients against the authorities of its CA file and
    presents the very key pair loaded from its certificate and key files, and
    with a store on an etcd endpoint that answered; it has no in-memory fallback, so a process
    that cannot verify authorizations never listens. *)
Theorem agent_serves_when_ready c tr r tr1 addr nodeID db b tls x tr2 :
  behaves (agent_main (Ok c)) tr r ->
  tr = tr1 ++ Ev (BServeAgent addr nodeID db b tls) x :: tr2 ->
  addr = ac_HTTPAddr c /\ db = agent_mysql_config c /\ agent_ready c nodeID b tls tr1.
Proof.
  intros Hb. apply (adequacy _ _ _ _ _ _ (agent_main_wp c) Hb (any_boot tr)).
Qed.
End Main.

(** ** A run of each process *)

Definition boot_config : Config := {|
  HTTPAddr := ":8080"; ClusterName := "mysql-ha"; ControllerID := "controller-1";
  EtcdEndpoints := ["http://10.0.0.8:2379"; "http://10.0.0.9:2379"];
  Nodes := [{| an_ID := "db-1"; an_Address := "10.0.0.1:3306"; an_AgentURL := "https://10.0.0.1:9443" |}];
  AgentCAFile := "ca.crt"; AgentCertFile := "controller.crt"; AgentKeyFile := "controller.key";
  AgentsFile := ""; ProbeInterval := 5000000000; FailureThreshold := 3; AlertWebhookURL := "";
  ExecuteActions := true; AutoFailoverExecute := false; RequireEtcd := true;
  MaxReplicaLagSeconds := 30 |}.

Definition booted : Controller := {|
  cfg := boot_config; clients := {["db-1"]};
  configs := {["db-1" := {| an_ID := "db-1"; an_Address := "10.0.0.1:3306";
                            an_AgentURL := "https://10.0.0.1:9443" |}]} |}.

(** The first endpoint is down, the second answers. *)
Definition etcd_trace : list (event bootE) :=
  let ctx := WithTimeout Background 3 in
  [Ev (BEtcd (KNew ["http://10.0.0.8:2379"; "http://10.0.0.9:2379"])) (Ok tt);
   Ev (BEtcd (KStatus ctx "http://10.0.0.8:2379")) (Err "timeout"); Ev (BEtcd (KCancel ctx)) tt;
   Ev (BEtcd (KStatus ctx "http://10.0.0.9:2379")) (Ok tt); Ev (BEtcd (KCancel ctx)) tt].

Definition credentials_trace (ca cert key : string) : list (event bootE) :=
  [Ev (BHttp (HReadFile ca)) (Ok "pem"); Ev (BHttp (HAppendCertsFromPEM "pem")) true;
   Ev (BHttp (HLoadX509KeyPair cert key)) (Ok "pair")].

Definition controller_trace : list (event bootE) :=
  etcd_trace ++ credentials_trace "ca.crt" "controller.crt" "controller.key" ++
  [Ev (BLog "HA controller started") tt].

Ltac next_event := eexists _, _; split; [reflexivity|].

Lemma controller_serves_when_ready_witness :
  Main.controller_ready boot_config booted (EtcdBackend "/ha/mysql-ha") controller_trace.
Proof.
  eapply (Main.controller_serves_when_ready boot_config (controller_trace ++
    [Ev (BServeController ":8080" booted (EtcdBackend "/ha/mysql-ha")) (Some "address in use");
     Ev (BLog "HTTP server stopped") tt]) 1); [|reflexivity].
  vm_compute. do 11 next_event. split; reflexivity.
Defined.

Definition boot_agent : AgentConfig := {|
  ac_HTTPAddr := ":9443"; ac_NodeID := "db-1"; ac_NodeAddress := "10.0.0.1:3306";
  ac_MySQLDSN := "ha@tcp(127.0.0.1:3306)/"; ac_ReplicationUser := "repl";
  ac_ReplicationPass := "secret"; ac_AgentCAFile := "ca.crt"; ac_AgentCertFile := "agent.crt";
  ac_AgentKeyFile := "agent.key";
  ac_EtcdEndpoints := ["http://10.0.0.8:2379"; "http://10.0.0.9:2379"];
  ac_ClusterName := "mysql-ha" |}.

Definition agent_trace : list (event bootE) :=
  credentials_trace "ca.crt" "agent.crt" "agent.key" ++
  [Ev (BOpenDB "ha@tcp(127.0.0.1:3306)/") (Ok tt)] ++ etcd_trace ++
  [Ev (BLog "mysql agent started") tt].

Definition agent_tls : TLSConfig := {|
  tls_MinVersion := VersionTLS12; tls_Certificate := "pair";
  tls_ClientAuth := RequireAndVerifyClientCert; tls_ClientCAs := "pem" |}.

Lemma agent_serves_when_ready_witness :
  Main.agent_ready boot_agent "db-1" (EtcdBackend "/ha/mysql-ha") agent_tls agent_trace.
Proof.
  eapply (Main.agent_serves_when_ready boot_agent (agent_trace ++
    [Ev (BServeAgent ":9443" "db-1" (Main.agent_mysql_config boot_agent)
       (EtcdBackend "/ha/mysql-ha") agent_tls) (Some "address in use");
     Ev (BLog "agent server stopped") tt]) 1); [|reflexivity].
  vm_compute. do 12 next_event. split; reflexivity.
Defined.
