(* ===== verification/Shutdown.v ===== *)
(** * Serving and shutting down

    The concurrent phase of [cmd/controller/main.go] and [cmd/mysql-agent/main.go]
    after [Main.v]: the goroutine of [main] blocked in [ListenAndServe], the
    goroutine that waits for the signal and calls [Shutdown], and the goroutines
    of the requests.  What is used of [net/http] is documented there: [Shutdown]
    closes the listeners first and then waits for the requests in flight;
    [ListenAndServe] returns [ErrServerClosed] as soon as [Shutdown] was called;
    a process ends when [main] returns, whatever its goroutines do. *)
From S2P Require Import Prelude GoStd Effects Model.

(** What a process has open and closes in its deferred calls: the notification
    of signals, the state store, the database, the agents' clients. *)
Inductive resource : Type := SignalNotification | StateStore | Database | AgentClients.
#[export] Instance resource_eq_dec : EqDecision resource.
Proof. solve_decision. Defined.
#[export] Instance resource_countable : Countable resource.
Proof.
  apply (inj_countable' (fun r => match r with
      | SignalNotification => 0 | StateStore => 1 | Database => 2 | AgentClients => 3 end%nat)
    (fun n => match n with
      | 0 => SignalNotification | 1 => StateStore | 2 => Database | _ => AgentClients end%nat)).
  by intros [].
Defined.

(** The deferred calls in the order they run: last deferred, first run.
    [controller.Close] closes the agents' clients, then the store. *)
Definition agent_deferred : list resource := [SignalNotification; StateStore; Database].
Definition controller_deferred : list resource := [SignalNotification; AgentClients; StateStore].

(** The goroutine of [main]: listening, running its deferred calls, ended. *)
Inductive main_at : Type :=
| Listening
| Returning (deferred : list resource)
| Exited (status : Z).

(** The goroutine that shuts the server down. *)
Inductive shutdown_at : Type :=
| AwaitingSignal
| Draining
| Drained.

Record process : Type := {
  p_main : main_at;
  p_shutdown : shutdown_at;
  p_signalled : bool;
  p_listening : bool;               (* the listener accepts connections *)
  p_flight : gset nat;              (* requests being served *)
  p_open : gset resource
}.

Definition set_main (m : main_at) (p : process) : process :=
  {| p_main := m; p_shutdown := p_shutdown p; p_signalled := p_signalled p;
     p_listening := p_listening p; p_flight := p_flight p; p_open := p_open p |}.
Definition set_flight (f : gset nat) (p : process) : process :=
  {| p_main := p_main p; p_shutdown := p_shutdown p; p_signalled := p_signalled p;
     p_listening := p_listening p; p_flight := f; p_open := p_open p |}.
Definition set_shutdown (s : shutdown_at) (listening : bool) (p : process) : process :=
  {| p_main := p_main p; p_shutdown := s; p_signalled := p_signalled p;
     p_listening := listening; p_flight := p_flight p; p_open := p_open p |}.
Definition signal (p : process) : process :=
  {| p_main := p_main p; p_shutdown := p_shutdown p; p_signalled := true;
     p_listening := p_listening p; p_flight := p_flight p; p_open := p_open p |}.
Definition release (r : resource) (deferred : list resource) (p : process) : process :=
  {| p_main := Returning deferred; p_shutdown := p_shutdown p; p_signalled := p_signalled p;
     p_listening := p_listening p; p_flight := p_flight p; p_open := p_open p ∖ {[r]} |}.

Section serving.
(** The deferred calls of [main]. *)
Context (deferred : list resource).

Inductive action : Type :=
| Accept (id : nat)
| Finish (id : nat)
| Signalled
| Shuts
| WaitOver                      (* the requests are done, or the deadline passed *)
| ListenReturns
| ListenFails
| Deferred (r : resource)
| Returns.

Inductive serve_step : process -> action -> process -> Prop :=
| step_accept p id :
    p_listening p = true -> p_main p = Listening ->
    serve_step p (Accept id) (set_flight ({[id]} ∪ p_flight p) p)
| step_finish p id :
    id ∈ p_flight p -> (forall status, p_main p <> Exited status) ->
    serve_step p (Finish id) (set_flight (p_flight p ∖ {[id]}) p)
| step_signal p : serve_step p Signalled (signal p)
| step_shutdown p :
    p_signalled p = true -> p_shutdown p = AwaitingSignal ->
    serve_step p Shuts (set_shutdown Draining false p)
| step_drained p :
    p_shutdown p = Draining -> serve_step p WaitOver (set_shutdown Drained (p_listening p) p)
| step_listen p :
    p_main p = Listening -> p_listening p = false ->
    serve_step p ListenReturns (set_main (Returning deferred) p)
| step_fail p :
    p_main p = Listening -> p_listening p = true ->
    serve_step p ListenFails (set_main (Exited 1) p)
| step_deferred p r rest :
    p_main p = Returning (r :: rest) -> serve_step p (Deferred r) (release r rest p)
| step_exit p :
    p_main p = Returning [] -> serve_step p Returns (set_main (Exited 0) p).

Inductive serve_steps : process -> list action -> process -> Prop :=
| serve_nil p : serve_steps p [] p
| serve_cons p a p1 l p2 : serve_step p a p1 -> serve_steps p1 l p2 -> serve_steps p (a :: l) p2.

Definition started (open : gset resource) : process :=
  {| p_main := Listening; p_shutdown := AwaitingSignal; p_signalled := false; p_listening := true;
     p_flight := ∅; p_open := open |}.

(** ** What holds of every execution *)

(** While [main] listens everything is open; it returns only after a signal
    closed the listener, and then closes what it deferred, in order; a listener
    that fails ends the process with everything open. *)
Definition orderly (open : gset resource) (p : process) : Prop :=
  (p_listening p = false -> p_signalled p = true) /\
  match p_main p with
  | Listening => p_open p = open
  | Returning rest => p_listening p = false /\
      exists closed, deferred = closed ++ rest /\ p_open p = open ∖ list_to_set closed
  | Exited status =>
      (status = 1 /\ p_open p = open) \/
      (status = 0 /\ p_listening p = false /\ p_open p = open ∖ list_to_set deferred)
  end.

Lemma orderly_step open p a p' : orderly open p -> serve_step p a p' -> orderly open p'.
Proof.
  intros (Hs & Hm) Hstep. unfold orderly.
  destruct Hstep as [p id Hlis Hmain|p id Hid Hex|p|p Hsig Hsh|p Hsh|p Hmain Hlis|p Hmain Hlis
    |p r rest Hmain|p Hmain]; cbn; try done; try rewrite Hmain in Hm.
  - split; [done|]. destruct (p_main p); naive_solver.
  - split; [done|]. split; [done|]. exists []. split; [done|]. set_solver.
  - split; [done|]. by left.
  - destruct Hm as [Hlis (closed & Hd & Hop)]. split; [done|]. split; [done|].
    exists (closed ++ [r]). split; [by rewrite <-app_assoc|]. set_solver.
  - destruct Hm as [Hlis (closed & Hd & Hop)]. rewrite app_nil_r in Hd. subst closed.
    split; [done|]. by right.
Qed.

Lemma orderly_steps open p l p' : orderly open p -> serve_steps p l p' -> orderly open p'.
Proof. intros Hp Hs. induction Hs; eauto using orderly_step. Qed.

Lemma serve_steps_app p l1 l2 p' :
  serve_steps p (l1 ++ l2) p' -> exists q, serve_steps p l1 q /\ serve_steps q l2 p'.
Proof.
  revert p. induction l1 as [|a l1 IH]; intros p Hs; [by exists p; split; [constructor|]|].
  inversion Hs as [|? ? p1 ? ? Ha Hl]; subst. destruct (IH _ Hl) as (q & ? & ?).
  exists q. split; [by econstructor|done].
Qed.

(** In every interleaving of a process's goroutines, a request is accepted
    only while everything the process uses is open; [main] returns only after a
    signal, and ends with status 0 only when it has run all of its deferred calls;
    when the listener fails the process ends with status 1 without running them. *)
Theorem serving_is_orderly open l p :
  serve_steps (started open) l p ->
  (forall l1 id l2, l = l1 ++ Accept id :: l2 ->
    exists q, serve_steps (started open) l1 q /\ p_open q = open) /\
  match p_main p with
  | Listening => p_open p = open
  | Returning _ => p_signalled p = true
  | Exited status => (status = 1 /\ p_open p = open) \/
      (status = 0 /\ p_signalled p = true /\ p_open p = open ∖ list_to_set deferred)
  end.
Proof.
  assert (orderly open (started open)) as H0 by done. intros Hs. split.
  - intros l1 id l2 ->. destruct (serve_steps_app _ _ _ _ Hs) as (q & Hq & Hl).
    exists q. split; [done|]. pose proof (orderly_steps _ _ _ _ H0 Hq) as [_ Hm].
    inversion Hl as [|? ? p1 ? ? Ha _]; subst.
    inversion Ha as [? ? Hlis Hmain| | | | | | | |]; subst. by rewrite Hmain in Hm.
  - pose proof (orderly_steps _ _ _ _ H0 Hs) as [Hsig Hm]. destruct (p_main p); naive_solver.
Qed.

(** C40: [main] does not wait for the shutdown it started: once [Shutdown] has
    closed the listener, the process can close everything it deferred and end,
    without any of the requests in flight making a step, while [Shutdown] is
    still waiting for them (so the grace period it is given has no effect). *)
Theorem shutdown_abandons_requests p :
  p_main p = Listening -> p_shutdown p = Draining -> p_listening p = false ->
  exists l p', serve_steps p l p' /\ p_main p' = Exited 0 /\ p_shutdown p' = Draining /\
    p_flight p' = p_flight p /\ p_open p' = p_open p ∖ list_to_set deferred /\
    forall id, Finish id ∉ l.
Proof.
  intros Hm Hd Hl.
  assert (forall rest q, p_main q = Returning rest -> exists l p', serve_steps q l p' /\
    p_main p' = Exited 0 /\ p_shutdown p' = p_shutdown q /\ p_flight p' = p_flight q /\
    p_open p' = p_open q ∖ list_to_set rest /\ forall id, Finish id ∉ l) as Hrun.
  { induction rest as [|r rest IH]; intros q Hq.
    - exists [Returns], (set_main (Exited 0) q). split; [|set_solver].
      econstructor; [by apply step_exit|constructor].
    - destruct (IH (release r rest q) eq_refl) as (l & p' & Hs & ? & ? & ? & Ho & ?).
      exists (Deferred r :: l), p'. split; [by econstructor; [apply step_deferred|]|].
      cbn in *. split; [done|]. split; [done|]. split; [done|]. split; [set_solver|set_solver]. }
  destruct (Hrun deferred (set_main (Returning deferred) p) eq_refl)
    as (l & p' & Hs & ? & ? & ? & ? & ?).
  exists (ListenReturns :: l), p'. split; [by econstructor; [apply step_listen|]|].
  cbn in *. split; [done|]. split; [congruence|]. split; [done|]. split; [done|set_solver].
Qed.
End serving.

(** ** The agent *)

(** A request arrives, then the signal, and [Shutdown] starts. *)
Definition interrupted : process :=
  set_shutdown Draining false (signal (set_flight ({[7%nat]} ∪ ∅) (started (list_to_set agent_deferred)))).

Lemma serving_is_orderly_witness :
  p_signalled interrupted = true /\
  forall l1 id l2, [Accept 7; Signalled; Shuts] = l1 ++ Accept id :: l2 ->
    exists q, serve_steps agent_deferred (started (list_to_set agent_deferred)) l1 q /\
      p_open q = list_to_set agent_deferred.
Proof.
  split; [reflexivity|].
  refine (proj1 (serving_is_orderly agent_deferred (list_to_set agent_deferred) _ interrupted _)).
  eapply serve_cons; [by apply step_accept|]. eapply serve_cons; [apply step_signal|].
  eapply serve_cons; [by apply step_shutdown|]. constructor.
Defined.

Lemma shutdown_abandons_requests_witness :
  exists l p', serve_steps agent_deferred interrupted l p' /\ p_main p' = Exited 0 /\
    p_shutdown p' = Draining /\ p_flight p' = {[7%nat]} /\
    p_open p' = list_to_set agent_deferred ∖ list_to_set agent_deferred /\ forall id, Finish id ∉ l.
Proof.
  destruct (shutdown_abandons_requests agent_deferred interrupted) as (l & p' & H1 & H2 & H3 & H4 & H5 & H6);
    [reflexivity|reflexivity|reflexivity|].
  exists l, p'. split; [exact H1|]. split; [exact H2|]. split; [exact H3|].
  split; [rewrite H4; apply (bool_decide_unpack _); vm_compute; exact I|]. split; [exact H5|exact H6].
Defined.
